(* ===== verification/_CoqProject ===== *)
-Q . S2P
Prelude.v
Marshall.v
Codec.v
Timespec.v
Address.v
ThrPool.v
Closures.v
Connection.v
Sender.v
Listener.v
Stubs.v
Rpcc.v
Rpcs.v
Shutdown.v
AtMostOnce.v
Extent.v
Yfs.v
Clients.v
Fuse.v
LockServer.v
LockFaults.v
LockTester.v
Network.v
Stack.v
LockNet.v
Rpctest.v
Restart.v
PollMgr.v
