(* ===== verification/Prelude.v ===== *)
(** * Verification of the ds14 lab code: RPC library, YFS and lock server

    The code under [src/lab] is a small distributed file system.  The kernel
    calls the FUSE handlers ([fuse.cc]); they call the file system
    ([yfs_client.cc]), which keeps directories and files as extents on an extent
    server ([extent_client.cc], [extent_server.cc]).  A lock server
    ([lock_server.cc], [lock_client.cc]) stands beside it.  Clients and servers
    talk through the RPC library of [src/lab/rpc]: stubs and marshalling
    ([rpc.h], [marshall.h]), client and server endpoints ([rpc.cc]), connections
    ([connection.cc]), a poll manager ([pollmgr.cc]) that calls the connections
    back when their descriptors are ready, and a thread pool over a bounded queue
    ([thr_pool.cc], [fifo.h]) that runs the requests.

    ** How the code is modelled

    The definitions are executable functions with the names of the code.  A
    computation has an [outcome]: a value, or the [fault] that stops it: a false
    [assert], an access outside a block or to a deleted object, a null pointer,
    a signed overflow, a data race.  That code does not crash is therefore a
    theorem.  Integers are [Z] with their wrap-around written out ([u32], [s32],
    [u64], ...), bytes are lists, memory blocks have bounds ([mem_read],
    [mem_write], [mem_slice]), objects that threads share live in stores under
    their pointers.

    Concurrent code is a transition system: a step is what a thread does between
    two points where another thread can intervene (a critical section of a
    [ScopedLock], a turn of a loop around [pthread_cond_wait], or, in the lock
    server, a single access to memory).  An action names the thread that moves,
    the answer of the kernel and the thread that a signal wakes; a run is a list of
    actions, and the theorems quantify over all of them.  Condition variables may
    wake their waiters for no reason, unless a theorem says otherwise.

    ** The files

    - [Prelude.v] (this file): outcomes, integers, bytes, memory, automation and
      the lemmas that the components share.
    - [Marshall.v]: class [marshall] and class [unmarshall] ([marshall.h] and the
      operators of base types in [rpc.cc]).
    - [Codec.v]: the template operators of [marshall.h]; [CodecLaws] is the
      interface between the operators of a type and the stubs.
    - [Timespec.v], [Address.v]: the auxiliary functions of [rpc.cc]: deadlines,
      the order on addresses, [make_sockaddr].
    - [ThrPool.v]: [fifo] and [ThrPool].  [Closures.v]: how a call gets to a new
      thread ([method_thread.h]) or to a job of the pool ([addObjJob]).
    - [Connection.v]: life time of a [connection], [readpdu], [writepdu],
      [read_cb].  [Sender.v]: [send] against [write_cb], [read_cb] and
      [closeconn].  [Listener.v]: [tcpsconn].
    - [Stubs.v]: the templates [rpcc::call], [rpcs::reg], for argument lists of
      any length; [Carries] is what the stubs rely on in the endpoints between
      them.
    - [Rpcc.v]: class [rpcc].  [Rpcs.v]: class [rpcs]; [registered_call1] is the
      transport from a client stub to a registered handler.  [Shutdown.v]: the
      destructor of [rpcs], with the listener and the queued requests.
    - [AtMostOnce.v]: a client, a server with any number of threads and the
      network between them, which loses, delays and repeats PDUs.  [Network.v]:
      client and server over a network that does not; they are an instance of
      [Carries], and a client program sees the object behind the server.
    - [Extent.v]: [extent_protocol.h], [extent_server.cc], [extent_client.cc],
      [extent_smain.cc]; [ExtentLaws] is what the file system relies on, and the
      server behind the stubs is its instance.
    - [Yfs.v]: [yfs_client.cc], against [ExtentLaws].  [Clients.v]: any number of
      clients of one extent server, interleaved call by call.
    - [Fuse.v]: the handlers of [fuse.cc], against the same interface.
    - [Stack.v]: [main] of [fuse.cc] over the network: simulation between two
      extent services ([Simulates]), lifted to the file system and the handlers.
    - [LockServer.v]: [lock_server.cc], [lock_client.cc], [lock_smain.cc].
      [LockFaults.v]: when its races cannot happen.  [LockTester.v]:
      [lock_tester.cc] composed with the server.  [LockNet.v]: the lock client over
      the network, and [lock_demo.cc].
    - [Rpctest.v]: [rpctest.cc], its service and its tests.  [Restart.v]:
      [failure_test], over the endpoints.
    - [PollMgr.v]: [pollmgr.cc]; [AioLaws] is what [PollMgr] expects of an
      [aio_mgr], and [SelectAIO] and [EPollAIO] are its instances.

    ** What the theorems show

    - The protocol: a handler runs at most once while its call is unanswered, an
      answer comes from a run ([at_most_once], [answers_are_runs]), the
      interleaved steps are the code of [dispatch] ([steps_are_dispatch]), and
      what happens when an old duplicate arrives ([stale_duplicate_runs_again]).
      Without losses the endpoints implement the calls of the methods, for every
      client program ([client_sees_object]); a server that was started again
      refuses its old clients ([restarted_server_refuses]).
    - The endpoints: [dispatch] and [got_pdu] take any bytes ([dispatch_total],
      [got_pdu_total]), new and repeated requests ([dispatch_new_request],
      [dispatch_duplicate]), [call1] returns ([call1_returns]), the window of
      received xids is exact ([xid_window_exact]), the destructor of a server and
      what it leaks ([rpcs_delete_leaks]).
    - Data on the wire: codecs and stubs round-trip ([codec_roundtrip],
      [call_is_method]), buffers keep their bounds ([marshall_append_safe]) and
      where they do not ([get_string_length_wraps], [readpdu_small_size]).
    - Connections: frames arrive whole and in order ([framing_correct]), senders
      do not interleave and are not stuck ([sends_do_not_interleave],
      [no_sender_is_stuck]) and what [closeconn] does to them
      ([close_strands_sender]), references are counted ([refcount_safe]), the
      accept thread and the destructor of [tcpsconn] ([listener_life],
      [process_accept_exact]).
    - Threads: jobs start in order, no wake-up is lost, the pool comes to rest
      with all jobs done ([jobs_start_in_order], [no_lost_wakeup],
      [pool_comes_to_rest]); callbacks follow the interest in a descriptor and
      [block_remove_fd] keeps its promise ([callbacks_follow_interest],
      [block_remove_guarantee], [block_remove_returns]); a call handed to a
      thread is made once ([closures_called_once]).
    - Services: directories round-trip ([deserialize_serialize],
      [deserialize_sound]), the extent server is a map ([extent_store]),
      [createfile] and [lookup] ([createfile_lookup] and its neighbours), the
      names of inodes ([n2i_filename]), the handlers of FUSE ([oper_safe],
      [create_then_lookup], [readdir_resumes]), and all of them over the network
      ([fuse_over_network]); clients that create files at the same time
      ([concurrent_creates], [alone_finds], [steps_are_createfile]) and what they
      can do to each other ([lost_update], [same_name_twice]);
      locks ([mutual_exclusion], [nacquire_exact], [lock_server_comes_to_rest],
      [lock_session]), which fault only when a lock is new
      ([known_locks_never_fault]).
    - Test programs: the lock tester passes in every interleaving and ends
      ([lock_tester_passes]), with one more client than the pool has threads it can
      hang ([eleven_clients_hang]); the tests of the RPC library pass
      ([simple_tests_pass], [clients_pass], [client4_measures_memory]), also when the server is started again
      ([failure_test_passes]); what [lock_demo] prints ([lock_demo_prints]).
    - Where the code does not do what it means to do, a theorem states what it
      does ([release_starves], [lookup_races_with_insertion],
      [createfile_collision], [deserialize_overread], [block_remove_spurious],
      [write_cb_meets_dead_connection], ...).

    ** Fuel

    Recursion that is not structural has fuel, and the fuel is enough by a theorem:
    [carry_nsec] runs [carry_fuel] turns, as many as there are whole seconds
    ([add_timespec_exact]); [call1_loop] is given a number of turns that
    [call1_returns] bounds by the timeout; [run_alone] executes the at most nine
    steps of a dispatch ([steps_are_dispatch]) and, in the lock server, the at
    most eleven instructions of a handler ([lock_session]).  [deserialize_loop]
    recurses on the number of names that the bytes announce.  The calls of a client
    are numbered with an [int]: [fuse_over_network] holds for as many requests as
    need no more numbers than there are, five for each at most.

    ** Not modelled

    - Time: a wait ends by a signal, a timeout or for no reason, in any order.
    - The rest of the kernel: how much a pipe holds, how [accept] and [socket] find
      their descriptors; the answers are arguments of the steps, and the shutdown
      of a lossy connection shows in the answers that follow it.
    - Data races are faults in the lock server only, where the code reads shared
      memory outside its mutex; elsewhere the steps are critical sections.
    - [jsl_log.cc] writes a log; [gettime.cc] is compiled on one platform only, and
      asks its kernel; [slock.h] wraps pthread calls that the steps contain.
    - Mounting, which is a call of libfuse, in [main] of [fuse.cc].
    - In [rpctest.cc]: [process_mem_usage], which reads /proc; [concurrent_test],
      [garbage_collection_test] and [lossy_test], which start the modelled threads
      on two clients; [failure_test] after its first ten threads; and [main]. *)

From Stdlib Require Export ZArith Lia.
From Stdlib Require Import Strings.Byte.
From stdpp Require Export base decidable numbers list gmap fin_maps strings relations sorting.
#[global] Open Scope Z_scope.

Abbreviation byte := Corelib.Init.Byte.byte.

(** ** Outcomes

    The C++ code either computes a value, stops in a failed [assert], or does
    something the C++ standard leaves undefined.  The last two are values here,
    so that "the code does not crash" is a theorem and not an assumption. *)

Inductive fault : Set :=
  | AssertFailed        (**r a false [assert] *)
  | OutOfBounds         (**r a read or write outside the allocated block *)
  | NullDeref           (**r use of a null pointer *)
  | UseAfterFree        (**r use of an object or iterator after its deletion *)
  | SignedOverflow      (**r an [int] computation leaves the range of [int] *)
  | DataRace            (**r an unsynchronised access to memory that another thread writes *)
  | Deadlocked          (**r the thread blocks on itself, or waits for ever *)
  | Uncaught.           (**r an exception that nothing catches *)

Inductive outcome (A : Type) : Type :=
  | Done (a : A)
  | Fault (f : fault).
Arguments Done {A} _.
Arguments Fault {A} _.

#[export] Instance fault_eq_dec : EqDecision fault.
Proof. solve_decision. Defined.
#[export] Instance outcome_eq_dec {A} `{!EqDecision A} : EqDecision (outcome A).
Proof. solve_decision. Defined.

Definition obind {A B} (o : outcome A) (k : A → outcome B) : outcome B :=
  match o with Done a => k a | Fault f => Fault f end.

Declare Scope outcome_scope.
Delimit Scope outcome_scope with outcome.
Notation "'let!' x ':=' e 'in' k" := (obind e (λ x, k))
  (at level 10, x binder, e at level 100, k at level 200) : outcome_scope.
Notation "'check!' b 'in' k" := (if (b : bool) then k else Fault AssertFailed)
  (at level 10, b at level 100, k at level 200) : outcome_scope.
#[global] Open Scope outcome_scope.

Definition is_done {A} (o : outcome A) : Prop := ∃ a, o = Done a.

Lemma obind_Done {A B} (k : A → outcome B) a : obind (Done a) k = k a.
Proof. done. Qed.

Lemma obind_Done_inv {A B} (k : A → outcome B) o b :
  obind o k = Done b → ∃ a, o = Done a ∧ k a = Done b.
Proof. destruct o; simpl; [eauto|done]. Qed.

Lemma obind_assoc {A B C} (h : B → outcome C) (k : A → outcome B) o :
  obind (obind o k) h = obind o (λ a, obind (k a) h).
Proof. by destruct o. Qed.

Ltac inv_done :=
  repeat match goal with
  | H : obind _ _ = Done _ |- _ =>
      apply obind_Done_inv in H as (?&?&H); simpl in H
  | H : Done _ = Done _ |- _ => injection H as H; subst
  | H : Fault _ = Done _ |- _ => discriminate H
  | H : Done _ = Fault _ |- _ => discriminate H
  end.

(** ** Machine integers *)

Definition wrap (w z : Z) : Z := z `mod` 2 ^ w.
Definition swrap (w z : Z) : Z := (z + 2 ^ (w - 1)) `mod` 2 ^ w - 2 ^ (w - 1).

(** the conversions to [unsigned int], [int], [unsigned long long], ... *)
Definition u16 (z : Z) : Z := wrap 16 z.
Definition u32 (z : Z) : Z := wrap 32 z.
Definition u64 (z : Z) : Z := wrap 64 z.
Definition s8 (z : Z) : Z := swrap 8 z.
Definition s16 (z : Z) : Z := swrap 16 z.
Definition s32 (z : Z) : Z := swrap 32 z.

Definition INT_MAX : Z := 2 ^ 31 - 1.
Definition INT_MIN : Z := - 2 ^ 31.

Definition is_u8 (z : Z) : Prop := 0 ≤ z < 2 ^ 8.
Definition is_u16 (z : Z) : Prop := 0 ≤ z < 2 ^ 16.
Definition is_u32 (z : Z) : Prop := 0 ≤ z < 2 ^ 32.
Definition is_u64 (z : Z) : Prop := 0 ≤ z < 2 ^ 64.
Definition is_s8 (z : Z) : Prop := - 2 ^ 7 ≤ z < 2 ^ 7.
Definition is_s16 (z : Z) : Prop := - 2 ^ 15 ≤ z < 2 ^ 15.
Definition is_s32 (z : Z) : Prop := INT_MIN ≤ z ≤ INT_MAX.

(** signed arithmetic: the result must fit an [int] *)
Definition int_result (z : Z) : outcome Z :=
  if bool_decide (INT_MIN ≤ z ≤ INT_MAX) then Done z else Fault SignedOverflow.

Ltac unfold_ints :=
  unfold is_u8, is_u16, is_u32, is_u64, is_s8, is_s16, is_s32,
    u16, u32, u64, s8, s16, s32, wrap, swrap, INT_MAX, INT_MIN in *;
  change (2 ^ 7) with 128 in *; change (2 ^ 8) with 256 in *;
  change (2 ^ (8 - 1)) with 128 in *; change (2 ^ (16 - 1)) with 32768 in *;
  change (2 ^ (32 - 1)) with 2147483648 in *;
  change (2 ^ 15) with 32768 in *; change (2 ^ 30) with 1073741824 in *; change (2 ^ 16) with 65536 in *;
  change (2 ^ 31) with 2147483648 in *; change (2 ^ 32) with 4294967296 in *;
  change (2 ^ 63) with 9223372036854775808 in *;
  change (2 ^ 64) with 18446744073709551616 in *.

Ltac lia_ints := unfold_ints; Z.div_mod_to_equations; lia.

Lemma int_result_Done z : is_s32 z → int_result z = Done z.
Proof. intros H. unfold int_result. by rewrite bool_decide_eq_true_2. Qed.

Lemma u32_range z : is_u32 (u32 z).
Proof. lia_ints. Qed.
Lemma u64_range z : is_u64 (u64 z).
Proof. lia_ints. Qed.
Lemma s32_range z : is_s32 (s32 z).
Proof. lia_ints. Qed.
Lemma u16_small z : is_u16 z → u16 z = z.
Proof. intros. lia_ints. Qed.
Lemma u32_small z : is_u32 z → u32 z = z.
Proof. intros. lia_ints. Qed.
Lemma u64_small z : is_u64 z → u64 z = z.
Proof. intros. lia_ints. Qed.
Lemma s8_small z : is_s8 z → s8 z = z.
Proof. intros. lia_ints. Qed.
Lemma s16_small z : is_s16 z → s16 z = z.
Proof. intros. lia_ints. Qed.
Lemma s32_small z : is_s32 z → s32 z = z.
Proof. intros. lia_ints. Qed.
Lemma s8_mod z : s8 (z `mod` 256) = s8 z.
Proof. lia_ints. Qed.
Lemma s16_u16 z : s16 (u16 z) = s16 z.
Proof. lia_ints. Qed.
Lemma s32_u32 z : s32 (u32 z) = s32 z.
Proof. lia_ints. Qed.
Lemma u32_s32 z : u32 (s32 z) = u32 z.
Proof. lia_ints. Qed.
Lemma u32_idemp z : u32 (u32 z) = u32 z.
Proof. lia_ints. Qed.

Create HintDb ints.
Create Rewrite HintDb ints.
#[export] Hint Resolve u32_range u64_range s32_range : ints.
#[export] Hint Rewrite u32_idemp u32_s32 s32_u32 : ints.

(** ** Bytes *)

#[export] Instance byte_eq_dec : EqDecision byte := Byte.byte_eq_dec.

(** the value of a byte as [unsigned char], and the truncation to a byte *)
Definition Z_of_byte (b : byte) : Z := Z.of_N (Byte.to_N b).
Definition byte_of_Z (z : Z) : byte :=
  match Byte.of_N (Z.to_N (z `mod` 256)) with Some b => b | None => "000"%byte end.

Lemma Z_of_byte_range b : 0 ≤ Z_of_byte b < 256.
Proof. by destruct b; vm_compute. Qed.

Lemma byte_of_Z_of_byte b : byte_of_Z (Z_of_byte b) = b.
Proof. by destruct b. Qed.

Lemma Z_of_byte_of_Z z : Z_of_byte (byte_of_Z z) = z `mod` 256.
Proof.
  unfold byte_of_Z, Z_of_byte.
  pose proof (Z.mod_pos_bound z 256 ltac:(lia)).
  destruct (Byte.of_N _) as [b|] eqn:E.
  - apply Byte.to_of_N in E. rewrite E. lia.
  - apply Byte.of_N_None_iff in E. lia.
Qed.

Lemma Z_of_byte_inj b c : Z_of_byte b = Z_of_byte c → b = c.
Proof. intros H. by rewrite <-(byte_of_Z_of_byte b), H, byte_of_Z_of_byte. Qed.

Lemma byte_of_Z_mod z : byte_of_Z (z `mod` 256) = byte_of_Z z.
Proof. apply Z_of_byte_inj. rewrite !Z_of_byte_of_Z. by rewrite Z.mod_mod. Qed.

#[export] Hint Rewrite byte_of_Z_of_byte Z_of_byte_of_Z : ints.

(** A [char] of the target is signed; widening it to [unsigned int] and masking
    with [0xff] gives the byte back. *)
Definition char_value (b : byte) : Z := s8 (Z_of_byte b).

Lemma char_value_land_255 b : Z.land (u32 (char_value b)) 255 = Z_of_byte b.
Proof. by destruct b; vm_compute. Qed.

Lemma char_value_mod b : (u32 (char_value b)) `mod` 256 = Z_of_byte b.
Proof. by destruct b; vm_compute. Qed.

Lemma land_255 z : Z.land z 255 = z `mod` 256.
Proof. change 255 with (Z.ones 8). rewrite Z.land_ones by lia. done. Qed.

(** Joining disjoint bit fields with [|] is addition. *)
Lemma lor_shiftl_add a b k :
  0 ≤ k → 0 ≤ b < 2 ^ k → Z.lor (Z.shiftl a k) b = a * 2 ^ k + b.
Proof.
  intros Hk Hb. rewrite <-Z.shiftl_mul_pow2 by done.
  assert (Z.land (Z.shiftl a k) b = 0) as Hland.
  { apply Z.bits_inj'. intros n Hn. rewrite Z.land_spec, Z.bits_0.
    destruct (Z.lt_ge_cases n k) as [Hlt|Hge].
    - by rewrite Z.shiftl_spec_low.
    - rewrite andb_comm. apply andb_false_intro1.
      rewrite <-(Z.mod_small b (2 ^ k)) by done. by rewrite Z.mod_pow2_bits_high. }
  rewrite Z.add_nocarry_lxor by done. by rewrite Z.lxor_lor.
Qed.

Lemma mod_pow2_lor a b k : 0 ≤ k →
  (Z.lor a b) `mod` 2 ^ k = Z.lor (a `mod` 2 ^ k) (b `mod` 2 ^ k).
Proof. intros. rewrite <-!Z.land_ones by done. by rewrite Z.land_lor_distr_l. Qed.

Lemma s16_lor_low h b : 0 ≤ b < 256 → 0 ≤ h < 65536 → s16 (Z.lor (u32 (s16 h)) b) = s16 (Z.lor h b).
Proof.
  intros Hb Hh. rewrite <-(s16_u16 (Z.lor (u32 _) _)), <-(s16_u16 (Z.lor h b)). f_equal.
  unfold u16, wrap. rewrite !mod_pow2_lor by lia. f_equal. lia_ints.
Qed.

Lemma shiftr_div a k : 0 ≤ k → Z.shiftr a k = a / 2 ^ k.
Proof. apply Z.shiftr_div_pow2. Qed.

(** [(x >> k) & 0xff] as a byte *)
Lemma byte_field x k :
  0 ≤ k → byte_of_Z (Z.land (Z.shiftr x k) 255) = byte_of_Z (x / 2 ^ k).
Proof. intros. by rewrite land_255, byte_of_Z_mod, shiftr_div. Qed.
Lemma byte_field_0 x : byte_of_Z (Z.land x 255) = byte_of_Z x.
Proof. by rewrite land_255, byte_of_Z_mod. Qed.

(** ** Big-endian and little-endian byte sequences *)

Definition be32 (z : Z) : list byte :=
  [byte_of_Z (z / 2 ^ 24); byte_of_Z (z / 2 ^ 16); byte_of_Z (z / 2 ^ 8); byte_of_Z z].

Arguments be32 : simpl never.

Definition be32_value (b3 b2 b1 b0 : byte) : Z :=
  Z_of_byte b3 * 2 ^ 24 + Z_of_byte b2 * 2 ^ 16 + Z_of_byte b1 * 2 ^ 8 + Z_of_byte b0.

Lemma be32_length z : length (be32 z) = 4%nat.
Proof. done. Qed.

Lemma be32_value_of z :
  be32_value (byte_of_Z (z / 2 ^ 24)) (byte_of_Z (z / 2 ^ 16))
    (byte_of_Z (z / 2 ^ 8)) (byte_of_Z z) = u32 z.
Proof.
  unfold be32_value. autorewrite with ints. unfold u32, wrap.
  change (2 ^ 32) with 4294967296. change (2 ^ 24) with 16777216.
  change (2 ^ 16) with 65536. change (2 ^ 8) with 256. Z.div_mod_to_equations. lia.
Qed.

Lemma be32_value_range b3 b2 b1 b0 : is_u32 (be32_value b3 b2 b1 b0).
Proof.
  unfold be32_value. pose proof (Z_of_byte_range b3). pose proof (Z_of_byte_range b2).
  pose proof (Z_of_byte_range b1). pose proof (Z_of_byte_range b0). unfold_ints.
  change (2 ^ 24) with 16777216. lia.
Qed.

(** four masked and shifted bytes joined with [|] *)
Lemma be32_value_lor b3 b2 b1 b0 :
  Z.lor (Z.lor (Z.lor (Z.shiftl (Z_of_byte b3) 24) (Z.shiftl (Z_of_byte b2) 16))
    (Z.shiftl (Z_of_byte b1) 8)) (Z_of_byte b0) = be32_value b3 b2 b1 b0.
Proof.
  pose proof (Z_of_byte_range b2). pose proof (Z_of_byte_range b1).
  pose proof (Z_of_byte_range b0).
  change 256 with (2 ^ 8) in *. rewrite <-!Z.lor_assoc.
  rewrite (lor_shiftl_add _ _ 8), (lor_shiftl_add _ _ 16), (lor_shiftl_add _ _ 24);
    unfold be32_value; change (2 ^ 24) with 16777216; change (2 ^ 16) with 65536;
    change (2 ^ 8) with 256 in *; lia.
Qed.

Lemma be32_inj z1 z2 : is_u32 z1 → is_u32 z2 → be32 z1 = be32 z2 → z1 = z2.
Proof.
  intros H1 H2 E. unfold be32 in E. simplify_eq.
  rewrite <-(u32_small z1), <-(u32_small z2) by done. rewrite <-!be32_value_of. congruence.
Qed.

Lemma be32_u32 z : be32 (u32 z) = be32 z.
Proof.
  apply (f_equal4 (λ a b c d, [a; b; c; d])); apply Z_of_byte_inj; rewrite !Z_of_byte_of_Z;
    change (2 ^ 24) with 16777216; change (2 ^ 16) with 65536;
    change (2 ^ 8) with 256; lia_ints.
Qed.
Lemma be32_s32 z : be32 (s32 z) = be32 z.
Proof. by rewrite <-be32_u32, u32_s32, be32_u32. Qed.

(** the layout of an unsigned integer of [n] bytes in the memory of the target *)
Fixpoint le_bytes (n : nat) (z : Z) : list byte :=
  match n with O => [] | S n => byte_of_Z z :: le_bytes n (z / 256) end.
Fixpoint le_value (l : list byte) : Z :=
  match l with [] => 0 | b :: l => Z_of_byte b + 256 * le_value l end.

Lemma le_bytes_length n z : length (le_bytes n z) = n.
Proof. revert z. induction n; intros; simpl; auto. Qed.

Lemma le_value_bytes n z : 0 ≤ z < 256 ^ (Z.of_nat n) → le_value (le_bytes n z) = z.
Proof.
  revert z. induction n as [|n IH]; intros z Hz; [simpl in *; lia|].
  rewrite Nat2Z.inj_succ, Z.pow_succ_r in Hz by lia.
  cbn [le_bytes le_value]. rewrite Z_of_byte_of_Z, IH.
  - symmetry. rewrite (Z.div_mod z 256) at 1 by lia. lia.
  - split; [apply Z.div_pos; lia|]. apply Z.div_lt_upper_bound; lia.
Qed.

(** ** Blocks of memory

    A block is the list of its bytes; positions are C integers, and an access
    outside the block is a fault. *)

Definition mem_read (b : list byte) (i : Z) : outcome byte :=
  if bool_decide (0 ≤ i) then
    match b !! Z.to_nat i with Some x => Done x | None => Fault OutOfBounds end
  else Fault OutOfBounds.

(** [memcpy(b + i, xs, length xs)] *)
Definition mem_write (b : list byte) (i : Z) (xs : list byte) : outcome (list byte) :=
  if bool_decide (0 ≤ i ∧ i + Z.of_nat (length xs) ≤ Z.of_nat (length b)) then
    Done (take (Z.to_nat i) b ++ xs ++ drop (Z.to_nat i + length xs) b)
  else Fault OutOfBounds.

(** the [n] bytes at [b + i] *)
Definition mem_slice (b : list byte) (i n : Z) : outcome (list byte) :=
  if bool_decide (0 ≤ i ∧ 0 ≤ n ∧ i + n ≤ Z.of_nat (length b)) then
    Done (take (Z.to_nat n) (drop (Z.to_nat i) b))
  else Fault OutOfBounds.

Abbreviation Zlength l := (Z.of_nat (length l)).

Lemma mem_write_Done b i xs :
  0 ≤ i → i + Zlength xs ≤ Zlength b →
  mem_write b i xs = Done (take (Z.to_nat i) b ++ xs ++ drop (Z.to_nat i + length xs) b).
Proof. intros. unfold mem_write. by rewrite bool_decide_eq_true_2. Qed.

Lemma mem_write_length b i xs b' :
  mem_write b i xs = Done b' → length b' = length b.
Proof.
  unfold mem_write. case_bool_decide; intros; inv_done.
  rewrite !length_app, length_take, length_drop. lia.
Qed.

Lemma mem_slice_Done b i n :
  0 ≤ i → 0 ≤ n → i + n ≤ Zlength b →
  mem_slice b i n = Done (take (Z.to_nat n) (drop (Z.to_nat i) b)).
Proof. intros. unfold mem_slice. by rewrite bool_decide_eq_true_2. Qed.

Lemma mem_slice_mid l1 l2 l3 :
  mem_slice (l1 ++ l2 ++ l3) (Zlength l1) (Zlength l2) = Done l2.
Proof.
  rewrite mem_slice_Done; rewrite ?length_app; try lia.
  rewrite !Nat2Z.id, drop_app_length. by rewrite take_app_length.
Qed.

Lemma mem_read_mid l1 x l2 : mem_read (l1 ++ x :: l2) (Zlength l1) = Done x.
Proof.
  unfold mem_read. rewrite bool_decide_eq_true_2 by lia.
  rewrite Nat2Z.id. by rewrite list_lookup_middle.
Qed.

Lemma mem_read_mid' l i x (pre post : list byte) :
  l = pre ++ x :: post → i = Zlength pre → mem_read l i = Done x.
Proof. intros -> ->. apply mem_read_mid. Qed.

(** What lies before the write position is kept, and the written bytes follow. *)
Lemma take_mem_write b i xs b' :
  mem_write b i xs = Done b' →
  take (Z.to_nat (i + Zlength xs)) b' = take (Z.to_nat i) b ++ xs.
Proof.
  unfold mem_write. case_bool_decide as Hb; intros; inv_done.
  rewrite app_assoc, take_app_length'; [done|].
  rewrite length_app, length_take. lia.
Qed.

(** ** State machines

    Reachability is [rtc] of the step relation; an invariant is preserved. *)

Lemma rtc_invariant {S} (step : relation S) (P : S → Prop) x y :
  (∀ a b, P a → step a b → P b) → rtc step x y → P x → P y.
Proof. intros Hstep. induction 1; eauto. Qed.

(** ** Lists *)

Lemma Forall_filter_out {A} (P : A → Prop) `{∀ x, Decision (P x)} (l : list A) :
  Forall P l → filter P l = l.
Proof. induction 1; [done|]. rewrite filter_cons_True by done. by f_equal. Qed.

(** weights summed over a list, when one element changes *)
Lemma sum_list_with_insert {A} (f : A → nat) (l : list A) i x y :
  l !! i = Some x →
  (sum_list_with f (<[i := y]> l) + f x = sum_list_with f l + f y)%nat.
Proof.
  revert i. induction l as [|z l IH]; intros [|i] E; simpl in *; try done.
  - injection E as ->. lia.
  - specialize (IH i E). lia.
Qed.

Lemma sum_list_with_lookup {A} (f : A → nat) (l : list A) i x :
  l !! i = Some x → (f x ≤ sum_list_with f l)%nat.
Proof.
  revert i. induction l as [|z l IH]; intros [|i] E; simpl in *; try done.
  - injection E as ->. lia.
  - specialize (IH i E). lia.
Qed.

Lemma sum_list_with_zero {A} (f : A → nat) (l : list A) :
  sum_list_with f l = 0%nat ↔ Forall (λ x, f x = 0%nat) l.
Proof.
  induction l as [|x l IH]; simpl; [by split|]. rewrite Forall_cons, <-IH. lia.
Qed.

Lemma sum_list_with_pos {A} (f : A → nat) (l : list A) :
  (0 < sum_list_with f l)%nat → ∃ i x, l !! i = Some x ∧ (0 < f x)%nat.
Proof.
  induction l as [|x l IH]; simpl; [lia|]. intros H.
  destruct (decide (0 < f x)%nat); [by exists 0%nat, x|].
  destruct IH as (i&y&?&?); [lia|]. by exists (S i), y.
Qed.

(** lists made by every element, when one element changes *)
Lemma mjoin_insert {A B} (f : A → list B) (l : list A) i w v :
  l !! i = Some w →
  ∃ r, mjoin (f <$> l) ≡ₚ f w ++ r ∧ mjoin (f <$> <[i := v]> l) ≡ₚ f v ++ r.
Proof.
  intros E. exists (mjoin (f <$> take i l) ++ mjoin (f <$> drop (S i) l)).
  rewrite insert_take_drop by (by eapply lookup_lt_Some).
  rewrite <-(take_drop_middle l i w) at 1 by done.
  rewrite !fmap_app, !fmap_cons, !join_app. simpl. split; solve_Permutation.
Qed.

Lemma sum_list_with_fmap {A B} (f : B → nat) (g : A → B) (h : A → nat) (l : list A) :
  (∀ x, f (g x) = h x) → sum_list_with f (g <$> l) = sum_list_with h l.
Proof.
  intros H. induction l as [|x l IH]; [done|]. rewrite fmap_cons. simpl. by rewrite H, IH.
Qed.
