(* ===== verification/Marshall.v ===== *)
(** * Marshalling: [rpc/marshall.h] and the marshalling part of [rpc/rpc.cc]

    [marshall] is the growing output buffer, [unmarshall] the input cursor.
    Both keep the C++ fields; every access to the underlying block goes through
    [mem_read]/[mem_write], so an access outside it is a [Fault].  The contents
    of freshly allocated memory are an unknown, the parameter [fresh_byte]. *)

From S2P Require Import Prelude.

(** The byte found at an offset of a freshly allocated block.  A [marshall]
    exposes each offset of its buffer once (its capacity only grows), so a
    function of the offset describes every possible content. *)
Class Heap := {
  fresh_byte : nat → byte;
  (** the content of an uninitialised variable *)
  stale : Z }.

(** ** Headers *)

Record req_header := ReqHeader {
  rq_xid : Z; rq_proc : Z; rq_clt_nonce : Z; rq_srv_nonce : Z; rq_xid_rep : Z }.
Record reply_header := ReplyHeader { rp_xid : Z; rp_ret : Z }.

#[export] Instance req_header_eq_dec : EqDecision req_header.
Proof. solve_decision. Defined.
#[export] Instance reply_header_eq_dec : EqDecision reply_header.
Proof. solve_decision. Defined.

(** the constructors take [int]s; the nonces are stored as [unsigned int] *)
Definition make_req_header (x p c s xi : Z) : req_header :=
  {| rq_xid := s32 x; rq_proc := s32 p; rq_clt_nonce := u32 (s32 c);
     rq_srv_nonce := u32 (s32 s); rq_xid_rep := s32 xi |}.
Definition make_reply_header (x r : Z) : reply_header :=
  {| rp_xid := s32 x; rp_ret := s32 r |}.

Definition sizeof_req_header : Z := 20.
Definition sizeof_reply_header : Z := 8.
Definition sizeof_rpc_sz_t : Z := 4.
Definition DEFAULT_RPC_SZ : Z := 1024.
Definition RPC_HEADER_SZ : Z :=
  (if decide (sizeof_reply_header < sizeof_req_header)
   then sizeof_req_header else sizeof_reply_header) + sizeof_rpc_sz_t.

(** ** The output buffer *)

Record marshall := Marshall { mbuf : option (list byte); mcapa : Z; mind : Z }.

Section heap.
Context `{Heap}.

Definition malloc (n : Z) : list byte := fresh_byte <$> seq 0 (Z.to_nat n).
Definition realloc (b : list byte) (n : Z) : list byte :=
  take (Z.to_nat n) b ++ (fresh_byte <$> seq (length b) (Z.to_nat n - length b)).

Definition marshall_new : marshall :=
  {| mbuf := Some (malloc DEFAULT_RPC_SZ); mcapa := DEFAULT_RPC_SZ; mind := RPC_HEADER_SZ |}.

Definition grow (m : marshall) (capa : Z) : outcome marshall :=
  match mbuf m with
  | None => Fault AssertFailed
  | Some b => Done {| mbuf := Some (realloc b capa); mcapa := capa; mind := mind m |}
  end.

Definition marshall_rawbyte (m : marshall) (x : byte) : outcome marshall :=
  let! m := (if decide (mcapa m ≤ mind m) then
               let! c := int_result (mcapa m * 2) in grow m c
             else Done m) in
  match mbuf m with
  | None => Fault NullDeref
  | Some b => let! b := mem_write b (mind m) [x] in
              Done {| mbuf := Some b; mcapa := mcapa m; mind := mind m + 1 |}
  end.

Definition marshall_rawbytes (m : marshall) (p : list byte) (n : Z) : outcome marshall :=
  let! e := int_result (mind m + n) in
  let! m := (if decide (mcapa m < e) then
               let! c := int_result (if decide (n < mcapa m) then 2 * mcapa m
                                     else mcapa m + n) in grow m c
             else Done m) in
  match mbuf m with
  | None => Fault NullDeref
  | Some b => let! src := mem_slice p 0 n in
              let! b := mem_write b (mind m) src in
              Done {| mbuf := Some b; mcapa := mcapa m; mind := e |}
  end.

(** the overloads of [operator<<] *)

Definition put_uchar (m : marshall) (x : Z) : outcome marshall :=
  marshall_rawbyte m (byte_of_Z x).
Definition put_char (m : marshall) (x : Z) : outcome marshall :=
  put_uchar m (wrap 8 x).
Definition put_ushort (m : marshall) (x : Z) : outcome marshall :=
  let! m := marshall_rawbyte m (byte_of_Z (Z.land (Z.shiftr x 8) 255)) in
  marshall_rawbyte m (byte_of_Z (Z.land x 255)).
Definition put_short (m : marshall) (x : Z) : outcome marshall :=
  put_ushort m (u16 x).
Definition put_uint (m : marshall) (x : Z) : outcome marshall :=
  let! m := marshall_rawbyte m (byte_of_Z (Z.land (Z.shiftr x 24) 255)) in
  let! m := marshall_rawbyte m (byte_of_Z (Z.land (Z.shiftr x 16) 255)) in
  let! m := marshall_rawbyte m (byte_of_Z (Z.land (Z.shiftr x 8) 255)) in
  marshall_rawbyte m (byte_of_Z (Z.land x 255)).
Definition put_int (m : marshall) (x : Z) : outcome marshall :=
  put_uint m (u32 x).
Definition put_string (m : marshall) (s : list byte) : outcome marshall :=
  let! m := put_uint m (u32 (Zlength s)) in
  marshall_rawbytes m s (s32 (Zlength s)).
Definition put_ull (m : marshall) (x : Z) : outcome marshall :=
  let! m := put_uint m (u32 (Z.shiftr x 32)) in
  put_uint m (u32 x).

Definition pack (m : marshall) (x : Z) : outcome marshall :=
  let! m := marshall_rawbyte m (byte_of_Z (Z.land (Z.shiftr x 24) 255)) in
  let! m := marshall_rawbyte m (byte_of_Z (Z.land (Z.shiftr x 16) 255)) in
  let! m := marshall_rawbyte m (byte_of_Z (Z.land (Z.shiftr x 8) 255)) in
  marshall_rawbyte m (byte_of_Z (Z.land x 255)).

Definition set_mind (m : marshall) (i : Z) : marshall :=
  {| mbuf := mbuf m; mcapa := mcapa m; mind := i |}.

Definition pack_req_header (m : marshall) (h : req_header) : outcome marshall :=
  let saved_sz := mind m in
  let m := set_mind m sizeof_rpc_sz_t in
  let! m := pack m (rq_xid h) in
  let! m := pack m (rq_proc h) in
  let! m := pack m (s32 (rq_clt_nonce h)) in
  let! m := pack m (s32 (rq_srv_nonce h)) in
  let! m := pack m (rq_xid_rep h) in
  Done (set_mind m saved_sz).

Definition pack_reply_header (m : marshall) (h : reply_header) : outcome marshall :=
  let saved_sz := mind m in
  let m := set_mind m sizeof_rpc_sz_t in
  let! m := pack m (rp_xid h) in
  let! m := pack m (rp_ret h) in
  Done (set_mind m saved_sz).

(** gives the buffer away and leaves the object with a null pointer *)
Definition marshall_take_buf (m : marshall) : option (list byte) * Z * marshall :=
  (mbuf m, mind m, {| mbuf := None; mcapa := mcapa m; mind := 0 |}).

(** the current contents, header included ([marshall::str]) *)
Definition marshall_str (m : marshall) : list byte :=
  take (Z.to_nat (mind m)) (default [] (mbuf m)).

End heap.
Arguments malloc {_} _ : simpl never.
Arguments realloc {_} _ _ : simpl never.
Arguments marshall_rawbyte {_} _ _ : simpl never.
Arguments marshall_rawbytes {_} _ _ _ : simpl never.

(** ** The input cursor *)

Record unmarshall := Unmarshall {
  ubuf : option (list byte); usz : Z; uind : Z; uok : bool }.

Definition unmarshall_empty : unmarshall :=
  {| ubuf := None; usz := 0; uind := 0; uok := false |}.
Definition unmarshall_new (b : list byte) (sz : Z) : unmarshall :=
  {| ubuf := Some b; usz := sz; uind := 0; uok := true |}.

Definition set_uind (u : unmarshall) (i : Z) : unmarshall :=
  {| ubuf := ubuf u; usz := usz u; uind := i; uok := uok u |}.
Definition set_uok (u : unmarshall) (ok : bool) : unmarshall :=
  {| ubuf := ubuf u; usz := usz u; uind := uind u; uok := ok |}.

(** [unsigned int unmarshall::rawbyte()]: the byte is read as a signed [char]
    and widened; past the end it is 0 and the cursor becomes bad. *)
Definition unmarshall_rawbyte (u : unmarshall) : outcome (unmarshall * Z) :=
  if decide (usz u ≤ uind u) then Done (set_uok u false, 0)
  else match ubuf u with
       | None => Fault NullDeref
       | Some b => let! c := mem_read b (uind u) in
                   Done (set_uind u (uind u + 1), u32 (char_value c))
       end.

(** [unmarshall::rawbytes]: the bound is computed in [unsigned int] *)
Definition unmarshall_rawbytes (u : unmarshall) (ss : list byte) (n : Z)
    : outcome (unmarshall * list byte) :=
  if decide (u32 (usz u) < u32 (uind u + n)) then Done (set_uok u false, ss)
  else let! s := mem_slice (default [] (ubuf u)) (uind u) n in
       Done (set_uind u (s32 (u32 (uind u + n))), s).

(** the overloads of [operator>>]; the argument [x] is the previous value of
    the variable that is read into *)

Definition get_uchar (u : unmarshall) (x : Z) : outcome (unmarshall * Z) :=
  let! '(u, c) := unmarshall_rawbyte u in Done (u, wrap 8 c).
Definition get_char (u : unmarshall) (x : Z) : outcome (unmarshall * Z) :=
  let! '(u, c) := unmarshall_rawbyte u in Done (u, s8 c).
Definition get_ushort (u : unmarshall) (x : Z) : outcome (unmarshall * Z) :=
  let! '(u, c1) := unmarshall_rawbyte u in
  let x := u16 (Z.shiftl (Z.land c1 255) 8) in
  let! '(u, c0) := unmarshall_rawbyte u in
  Done (u, u16 (Z.lor x (Z.land c0 255))).
Definition get_short (u : unmarshall) (x : Z) : outcome (unmarshall * Z) :=
  let! '(u, c1) := unmarshall_rawbyte u in
  let x := s16 (Z.shiftl (Z.land c1 255) 8) in
  let! '(u, c0) := unmarshall_rawbyte u in
  Done (u, s16 (Z.lor (u32 x) (Z.land c0 255))).
Definition get_uint (u : unmarshall) (x : Z) : outcome (unmarshall * Z) :=
  let! '(u, c3) := unmarshall_rawbyte u in
  let x := u32 (Z.shiftl (Z.land c3 255) 24) in
  let! '(u, c2) := unmarshall_rawbyte u in
  let x := Z.lor x (u32 (Z.shiftl (Z.land c2 255) 16)) in
  let! '(u, c1) := unmarshall_rawbyte u in
  let x := Z.lor x (u32 (Z.shiftl (Z.land c1 255) 8)) in
  let! '(u, c0) := unmarshall_rawbyte u in
  Done (u, Z.lor x (Z.land c0 255)).
Definition get_int (u : unmarshall) (x : Z) : outcome (unmarshall * Z) :=
  let! '(u, c3) := unmarshall_rawbyte u in
  let x := s32 (u32 (Z.shiftl (Z.land c3 255) 24)) in
  let! '(u, c2) := unmarshall_rawbyte u in
  let x := s32 (Z.lor (u32 x) (u32 (Z.shiftl (Z.land c2 255) 16))) in
  let! '(u, c1) := unmarshall_rawbyte u in
  let x := s32 (Z.lor (u32 x) (u32 (Z.shiftl (Z.land c1 255) 8))) in
  let! '(u, c0) := unmarshall_rawbyte u in
  Done (u, s32 (Z.lor (u32 x) (Z.land c0 255))).
Definition get_ull (u : unmarshall) (x : Z) : outcome (unmarshall * Z) :=
  let! '(u, h) := get_uint u 0 in
  let! '(u, l) := get_uint u 0 in
  Done (u, Z.lor l (u64 (Z.shiftl h 32))).
Definition get_string (u : unmarshall) (s : list byte) : outcome (unmarshall * list byte) :=
  let! '(u, sz) := get_uint u 0 in
  if uok u then unmarshall_rawbytes u s sz else Done (u, s).

(** [unmarshall::unpack], which fills an [int] *)
Definition unpack (u : unmarshall) : outcome (unmarshall * Z) :=
  let! '(u, c3) := unmarshall_rawbyte u in
  let x := s32 (u32 (Z.shiftl (Z.land c3 255) 24)) in
  let! '(u, c2) := unmarshall_rawbyte u in
  let x := s32 (Z.lor (u32 x) (u32 (Z.shiftl (Z.land c2 255) 16))) in
  let! '(u, c1) := unmarshall_rawbyte u in
  let x := s32 (Z.lor (u32 x) (u32 (Z.shiftl (Z.land c1 255) 8))) in
  let! '(u, c0) := unmarshall_rawbyte u in
  Done (u, s32 (Z.lor (u32 x) (Z.land c0 255))).

Definition unpack_req_header (u : unmarshall) : outcome (unmarshall * req_header) :=
  let u := set_uind u sizeof_rpc_sz_t in
  let! '(u, xid) := unpack u in
  let! '(u, proc) := unpack u in
  let! '(u, clt) := unpack u in
  let! '(u, srv) := unpack u in
  let! '(u, rep) := unpack u in
  Done (set_uind u RPC_HEADER_SZ,
        {| rq_xid := xid; rq_proc := proc; rq_clt_nonce := u32 clt;
           rq_srv_nonce := u32 srv; rq_xid_rep := rep |}).

Definition unpack_reply_header (u : unmarshall) : outcome (unmarshall * reply_header) :=
  let u := set_uind u sizeof_rpc_sz_t in
  let! '(u, xid) := unpack u in
  let! '(u, ret) := unpack u in
  Done (set_uind u RPC_HEADER_SZ, {| rp_xid := xid; rp_ret := ret |}).

Definition okdone (u : unmarshall) : bool := uok u && bool_decide (uind u = usz u).

Definition unmarshall_take_buf (u : unmarshall) : option (list byte) * Z * unmarshall :=
  (ubuf u, usz u, {| ubuf := None; usz := 0; uind := 0; uok := uok u |}).

(** [take_in(another)]: the receiver (whose own buffer is freed) and [another] *)
Definition take_in (u another : unmarshall) : unmarshall * unmarshall :=
  let '(b, sz, another) := unmarshall_take_buf another in
  ({| ubuf := b; usz := sz; uind := RPC_HEADER_SZ;
      uok := bool_decide (RPC_HEADER_SZ ≤ sz) |}, another).

Arguments pack_req_header : simpl never.
Arguments pack_reply_header : simpl never.
Arguments unpack_req_header : simpl never.
Arguments unpack_reply_header : simpl never.

(** ** Facts about the output buffer *)

Section marshall_facts.
Context `{Heap}.

(** the representation invariant of [marshall] *)
Definition marshall_wf (m : marshall) : Prop :=
  ∃ b, mbuf m = Some b ∧ Zlength b = mcapa m ∧ 0 ≤ mind m ≤ mcapa m ∧
       DEFAULT_RPC_SZ ≤ mcapa m ≤ Z.max DEFAULT_RPC_SZ (2 * mind m).

(** the largest contents for which no capacity computation can overflow [int] *)
Definition MARSHALL_MAX : Z := 2 ^ 30 - 1.

(** [m'] is [m] with the bytes [l] appended *)
Definition appends (m m' : marshall) (l : list byte) : Prop :=
  marshall_wf m' ∧ mind m' = mind m + Zlength l ∧ marshall_str m' = marshall_str m ++ l.

Lemma appends_trans m1 m2 m3 l1 l2 :
  appends m1 m2 l1 → appends m2 m3 l2 → appends m1 m3 (l1 ++ l2).
Proof.
  intros (?&Hi&Hs) (?&Hi'&Hs'). split; [done|]. rewrite length_app. split; [lia|].
  by rewrite Hs', Hs, app_assoc.
Qed.

Lemma appends_nil m : marshall_wf m → appends m m [].
Proof. intros. split; [done|]. simpl. rewrite app_nil_r. split; [lia|done]. Qed.

Ltac mlia := unfold DEFAULT_RPC_SZ, MARSHALL_MAX in *; lia.

Lemma malloc_length n : Zlength (malloc n) = Z.max 0 n.
Proof. unfold malloc. rewrite length_fmap, length_seq. lia. Qed.

Lemma realloc_length b n : Zlength (realloc b n) = Z.max 0 n.
Proof.
  unfold realloc. rewrite length_app, length_fmap, length_seq, length_take. lia.
Qed.

Lemma take_realloc b n i :
  (i ≤ length b)%nat → Zlength b ≤ n → take i (realloc b n) = take i b.
Proof.
  intros Hi Hn. unfold realloc. rewrite (take_ge b) by lia. by rewrite take_app_le.
Qed.

Lemma marshall_new_wf : marshall_wf marshall_new.
Proof.
  exists (malloc DEFAULT_RPC_SZ). split; [done|]. cbn [marshall_new mbuf mcapa mind].
  rewrite malloc_length. unfold DEFAULT_RPC_SZ. change RPC_HEADER_SZ with 24. lia.
Qed.

(** Writing at the current position of a block that starts with the contents of
    [m] and has room appends. *)
Lemma write_appends m b xs c :
  marshall_wf m → take (Z.to_nat (mind m)) b = marshall_str m →
  Zlength b = c → mcapa m ≤ c → mind m + Zlength xs ≤ c →
  c ≤ Z.max DEFAULT_RPC_SZ (2 * (mind m + Zlength xs)) →
  ∃ b', mem_write b (mind m) xs = Done b' ∧
        appends m {| mbuf := Some b'; mcapa := c; mind := mind m + Zlength xs |} xs.
Proof.
  intros (b0&Hb0&Hlen0&Hi&Hc0) Hstr Hlen Hmc Hroom Hc.
  destruct (mem_write b (mind m) xs) as [b'|] eqn:Hw; [|rewrite mem_write_Done in Hw by lia; done].
  exists b'. split; [done|]. split; [|split; [done|]].
  - exists b'. split; [done|]. cbn [mcapa mind].
    rewrite (mem_write_length _ _ _ _ Hw). lia.
  - apply take_mem_write in Hw. unfold marshall_str at 1. simpl. by rewrite Hw, Hstr.
Qed.

Lemma str_realloc m b c :
  marshall_wf m → mbuf m = Some b → mcapa m ≤ c →
  take (Z.to_nat (mind m)) (realloc b c) = marshall_str m.
Proof.
  intros (b0&Hb0&Hlen0&Hi&Hc0) Hb Hle. unfold marshall_str. rewrite Hb.
  assert (b0 = b) as -> by congruence. simpl. apply take_realloc; lia.
Qed.

Lemma rawbyte_spec m x :
  marshall_wf m → mind m + 1 ≤ MARSHALL_MAX →
  ∃ m', marshall_rawbyte m x = Done m' ∧ appends m m' [x].
Proof.
  intros Hwf Hmax. pose proof Hwf as (b&Hb&Hlen&Hi&Hc).
  unfold marshall_rawbyte, MARSHALL_MAX, DEFAULT_RPC_SZ in *. case_decide as Hfull.
  - rewrite int_result_Done by lia_ints. simpl. unfold grow. rewrite Hb. simpl.
    destruct (write_appends m (realloc b (mcapa m * 2)) [x] (mcapa m * 2)) as (b'&->&?);
      rewrite ?realloc_length; unfold DEFAULT_RPC_SZ; simpl length; try lia;
      [done|by apply str_realloc; try lia|]. simpl. eauto.
  - simpl. rewrite Hb.
    destruct (write_appends m b [x] (mcapa m)) as (b'&->&?);
      unfold DEFAULT_RPC_SZ; simpl length; try lia; [done| |].
    + unfold marshall_str. by rewrite Hb.
    + simpl. eauto.
Qed.

Lemma rawbytes_spec m p n :
  marshall_wf m → n = Zlength p → mind m + n ≤ MARSHALL_MAX →
  ∃ m', marshall_rawbytes m p n = Done m' ∧ appends m m' p.
Proof.
  intros Hwf -> Hmax. pose proof Hwf as (b&Hb&Hlen&Hi&Hc).
  assert (mem_slice p 0 (Zlength p) = Done p) as Hp.
  { rewrite mem_slice_Done by lia. rewrite Nat2Z.id. simpl. by rewrite firstn_all. }
  unfold marshall_rawbytes, MARSHALL_MAX, DEFAULT_RPC_SZ in *.
  rewrite (int_result_Done (mind m + Zlength p)) by lia_ints. rewrite obind_Done. case_decide as Hfull.
  - set (c := if decide (Zlength p < mcapa m) then 2 * mcapa m else mcapa m + Zlength p).
    assert (mind m + Zlength p ≤ c ∧ mcapa m ≤ c ∧ c ≤ 2 * (mind m + Zlength p))
      as (?&?&?) by (unfold c; case_decide; lia).
    clearbody c.
    rewrite int_result_Done by lia_ints. rewrite obind_Done. unfold grow. rewrite Hb.
    rewrite obind_Done. cbn [mbuf mcapa mind]. rewrite Hp, obind_Done.
    destruct (write_appends m (realloc b c) p c) as (b'&->&?);
      rewrite ?realloc_length; unfold DEFAULT_RPC_SZ; try lia;
      [done|by apply str_realloc|]. simpl. eauto.
  - rewrite obind_Done, Hb, Hp, obind_Done.
    destruct (write_appends m b p (mcapa m)) as (b'&->&?);
      unfold DEFAULT_RPC_SZ; try lia; [done| |].
    + unfold marshall_str. by rewrite Hb.
    + simpl. eauto.
Qed.

(** [o] succeeds and appends [l] to [m] *)
Definition puts (o : outcome marshall) (m : marshall) (l : list byte) : Prop :=
  ∃ m', o = Done m' ∧ appends m m' l.

Lemma puts_bind o k m l1 l2 :
  puts o m l1 → (∀ m1, appends m m1 l1 → puts (k m1) m1 l2) →
  puts (obind o k) m (l1 ++ l2).
Proof.
  intros (m1&->&H1) H2. simpl. destruct (H2 m1 H1) as (m2&->&?).
  exists m2. eauto using appends_trans.
Qed.

Lemma puts_Done m : marshall_wf m → puts (Done m) m [].
Proof. intros. exists m. auto using appends_nil. Qed.

Lemma puts_byte m x :
  marshall_wf m → mind m + 1 ≤ MARSHALL_MAX → puts (marshall_rawbyte m x) m [x].
Proof. apply rawbyte_spec. Qed.

(** chains of [rawbyte] calls *)
Ltac solve_puts :=
  repeat match goal with
  | H : appends _ _ _ |- _ => destruct H as (?&?&?); simpl length in *
  | |- puts (obind (marshall_rawbyte _ _) _) _ (?x :: ?l) =>
      apply (puts_bind _ _ _ [x] l); [apply puts_byte; [done|lia]|intros]
  | |- puts (marshall_rawbyte _ _) _ _ => apply puts_byte; [done|lia]
  end.

Lemma put_uint_spec m x :
  marshall_wf m → mind m + 4 ≤ MARSHALL_MAX → puts (put_uint m x) m (be32 x).
Proof.
  intros. unfold put_uint. rewrite !byte_field, byte_field_0 by done. unfold be32. solve_puts.
Qed.

Lemma put_int_spec m x :
  marshall_wf m → mind m + 4 ≤ MARSHALL_MAX → puts (put_int m x) m (be32 x).
Proof. intros. unfold put_int. rewrite <-be32_u32. by apply put_uint_spec. Qed.

Lemma put_ushort_spec m x :
  marshall_wf m → mind m + 2 ≤ MARSHALL_MAX →
  puts (put_ushort m x) m [byte_of_Z (x / 2 ^ 8); byte_of_Z x].
Proof. intros. unfold put_ushort. rewrite byte_field, byte_field_0 by done. solve_puts. Qed.

Lemma put_ull_spec m x :
  marshall_wf m → mind m + 8 ≤ MARSHALL_MAX →
  puts (put_ull m x) m (be32 (x / 2 ^ 32) ++ be32 x).
Proof.
  intros. unfold put_ull. eapply puts_bind.
  - rewrite shiftr_div, <-(be32_u32 (_ / _)) by done. apply put_uint_spec; [done|lia].
  - intros m1 (?&?&?). rewrite be32_length in *. rewrite <-(be32_u32 x).
    apply put_uint_spec; [done|lia].
Qed.

Lemma put_string_spec m s :
  marshall_wf m → mind m + 4 + Zlength s ≤ MARSHALL_MAX →
  puts (put_string m s) m (be32 (Zlength s) ++ s).
Proof.
  intros Hwf Hmax. pose proof Hwf as (?&?&?&?&?). unfold put_string. eapply puts_bind.
  - rewrite <-be32_u32. apply put_uint_spec; [done|lia].
  - intros m1 (?&?&?). rewrite be32_length in *. unfold MARSHALL_MAX in *.
    rewrite s32_small by lia_ints.
    apply rawbytes_spec; [done|done|unfold MARSHALL_MAX; lia].
Qed.

(** *** Headers are packed in place *)

Lemma mem_write_write b i xs ys b' :
  mem_write b i xs = Done b' →
  mem_write b' (i + Zlength xs) ys = mem_write b i (xs ++ ys).
Proof.
  intros Hw. pose proof (mem_write_length _ _ _ _ Hw) as Hl.
  pose proof (take_mem_write _ _ _ _ Hw) as Ht.
  unfold mem_write in *. case_bool_decide as Hb; [|done]. injection Hw as Hw.
  rewrite length_app. case_bool_decide as H1.
  - rewrite bool_decide_eq_true_2 by lia. f_equal. rewrite Ht, <-!app_assoc. do 3 f_equal.
    rewrite <-Hw, drop_app_ge; rewrite length_take; [|lia].
    rewrite drop_app_ge by lia. rewrite drop_drop. f_equal. lia.
  - rewrite bool_decide_eq_false_2; [done|]. lia.
Qed.

Lemma rawbyte_inplace m b x :
  mbuf m = Some b → Zlength b = mcapa m → 0 ≤ mind m < mcapa m →
  ∃ b', mem_write b (mind m) [x] = Done b' ∧
        marshall_rawbyte m x = Done {| mbuf := Some b'; mcapa := mcapa m; mind := mind m + 1 |}.
Proof.
  intros Hb Hl Hi. unfold marshall_rawbyte. rewrite decide_False by lia. simpl. rewrite Hb.
  rewrite mem_write_Done by (simpl; lia). eauto.
Qed.

(** [o] writes [l] at the current position of [m], inside its block *)
Definition overwrites (o : outcome marshall) (m : marshall) (l : list byte) : Prop :=
  ∃ b b', mbuf m = Some b ∧ mem_write b (mind m) l = Done b' ∧
    o = Done {| mbuf := Some b'; mcapa := mcapa m; mind := mind m + Zlength l |}.

Lemma overwrites_bind o k m l1 l2 :
  overwrites o m l1 →
  (∀ m1, (∀ b, mbuf m = Some b → ∃ b1, mbuf m1 = Some b1 ∧ length b1 = length b) →
         mcapa m1 = mcapa m → mind m1 = mind m + Zlength l1 →
         overwrites (k m1) m1 l2) →
  overwrites (obind o k) m (l1 ++ l2).
Proof.
  intros (b&b1&Hb&Hw&->) H2. simpl.
  destruct (H2 {| mbuf := Some b1; mcapa := mcapa m; mind := mind m + Zlength l1 |})
    as (b1'&b2&Hb1&Hw2&->); [|done|done|].
  { intros b0 E. rewrite Hb in E. injection E as <-. exists b1. split; [done|].
    by eapply mem_write_length. }
  simpl in Hb1, Hw2. injection Hb1 as <-. exists b, b2. simpl. split; [done|].
  rewrite <-(mem_write_write _ _ _ _ _ Hw). split; [done|].
  by rewrite length_app, Nat2Z.inj_add, Z.add_assoc.
Qed.

Lemma pack_spec m b x :
  mbuf m = Some b → Zlength b = mcapa m → 0 ≤ mind m → mind m + 4 ≤ mcapa m →
  overwrites (pack m x) m (be32 x).
Proof.
  intros Hb Hl Hi Hc. unfold pack. rewrite !byte_field, byte_field_0 by done. unfold be32.
  assert (∀ m' b' y, mbuf m' = Some b' → Zlength b' = mcapa m' → 0 ≤ mind m' < mcapa m' →
    overwrites (marshall_rawbyte m' y) m' [y]) as Hbyte.
  { intros m' b' y ? ? ?. destruct (rawbyte_inplace m' b' y) as (b2&?&->); try done.
    exists b', b2. done. }
  repeat match goal with
  | |- overwrites _ _ (?y :: ?z :: ?l) =>
      apply (overwrites_bind _ _ _ [y] (z :: l)); [|intros ? HH ? ?; simpl length in *;
        edestruct HH as (?&?&?); [done|]; clear HH]
  | |- overwrites (marshall_rawbyte _ _) _ _ => eapply Hbyte; [done|lia|lia]
  end.
Qed.

(** the bytes of the two headers *)
Definition enc_req_header (h : req_header) : list byte :=
  be32 (rq_xid h) ++ be32 (rq_proc h) ++ be32 (rq_clt_nonce h) ++
  be32 (rq_srv_nonce h) ++ be32 (rq_xid_rep h).
Definition enc_reply_header (h : reply_header) : list byte :=
  be32 (rp_xid h) ++ be32 (rp_ret h).

Lemma marshall_str_length m : marshall_wf m → Zlength (marshall_str m) = mind m.
Proof.
  intros (b&Hb&?&?&?). unfold marshall_str. rewrite Hb. simpl. rewrite length_take. lia.
Qed.

Lemma overwrites_header o m l :
  marshall_wf m → sizeof_rpc_sz_t + Zlength l ≤ mind m →
  overwrites o (set_mind m sizeof_rpc_sz_t) l →
  ∃ m', o = Done m' ∧ marshall_wf (set_mind m' (mind m)) ∧
        marshall_str (set_mind m' (mind m)) =
          take 4 (marshall_str m) ++ l ++ drop (4 + length l) (marshall_str m).
Proof.
  intros (b&Hb&Hlen&Hi&Hc) Hroom (b0&b'&Hb0&Hw&->). unfold sizeof_rpc_sz_t in *.
  simpl in Hb0, Hw. rewrite Hb in Hb0. injection Hb0 as <-.
  eexists. split; [done|]. split.
  - exists b'. split; [done|]. simpl. rewrite (mem_write_length _ _ _ _ Hw). lia.
  - unfold marshall_str. simpl. rewrite Hb. simpl.
    rewrite mem_write_Done in Hw by lia. injection Hw as <-.
    change (Z.to_nat 4) with 4%nat. remember (Z.to_nat (mind m)) as n eqn:En.
    rewrite take_take, Nat.min_l by lia.
    rewrite take_app_ge; rewrite length_take, Nat.min_l by lia; [|lia]. f_equal.
    rewrite take_app_ge by lia. f_equal.
    rewrite skipn_firstn_comm. f_equal. lia.
Qed.

Lemma pack_chain_spec m :
  marshall_wf m → RPC_HEADER_SZ ≤ mind m →
  ∃ b, mbuf m = Some b ∧ Zlength b = mcapa m ∧ RPC_HEADER_SZ ≤ mcapa m.
Proof. intros (b&?&?&?&?) ?. exists b. split; [done|]. lia. Qed.

Ltac solve_overwrites :=
  repeat match goal with
  | |- overwrites (obind (pack _ _) _) _ (_ ++ _) =>
      apply overwrites_bind; [eapply pack_spec; [eassumption|..]; unfold sizeof_rpc_sz_t in *; simpl in *; lia|];
      let HH := fresh in
      intros ? HH ? ?; rewrite ?be32_length in *;
      edestruct HH as (?&?&?); [eassumption|]; clear HH
  | |- overwrites (pack _ _) _ _ => eapply pack_spec; [eassumption|..]; unfold sizeof_rpc_sz_t in *; simpl in *; lia
  end.

Lemma pack_req_header_spec m h :
  marshall_wf m → RPC_HEADER_SZ ≤ mind m →
  ∃ m', pack_req_header m h = Done m' ∧ marshall_wf m' ∧ mind m' = mind m ∧
    marshall_str m' = take 4 (marshall_str m) ++ enc_req_header h ++
                      drop 24 (marshall_str m).
Proof.
  intros Hwf Hi. destruct (pack_chain_spec m Hwf Hi) as (b&Hb&Hl&Hc).
  change RPC_HEADER_SZ with 24 in *.
  assert (overwrites
    (let! m1 := pack (set_mind m sizeof_rpc_sz_t) (rq_xid h) in
     let! m2 := pack m1 (rq_proc h) in
     let! m3 := pack m2 (s32 (rq_clt_nonce h)) in
     let! m4 := pack m3 (s32 (rq_srv_nonce h)) in pack m4 (rq_xid_rep h))
    (set_mind m sizeof_rpc_sz_t) (enc_req_header h)) as Hov.
  { unfold enc_req_header. rewrite <-(be32_s32 (rq_clt_nonce h)), <-(be32_s32 (rq_srv_nonce h)).
    solve_overwrites. }
  destruct (overwrites_header _ _ (enc_req_header h) Hwf ltac:(change (4 + 20 ≤ mind m); lia) Hov)
    as (m'&Ho&Hwf'&Hs).
  exists (set_mind m' (mind m)). split; [|done].
  unfold pack_req_header. apply obind_Done_inv in Ho as (?&->&Ho). simpl.
  repeat (apply obind_Done_inv in Ho as (?&->&Ho); simpl). by rewrite Ho.
Qed.

Lemma pack_reply_header_spec m h :
  marshall_wf m → RPC_HEADER_SZ ≤ mind m →
  ∃ m', pack_reply_header m h = Done m' ∧ marshall_wf m' ∧ mind m' = mind m ∧
    marshall_str m' = take 4 (marshall_str m) ++ enc_reply_header h ++
                      drop 12 (marshall_str m).
Proof.
  intros Hwf Hi. destruct (pack_chain_spec m Hwf Hi) as (b&Hb&Hl&Hc).
  change RPC_HEADER_SZ with 24 in *.
  assert (overwrites
    (let! m1 := pack (set_mind m sizeof_rpc_sz_t) (rp_xid h) in pack m1 (rp_ret h))
    (set_mind m sizeof_rpc_sz_t) (enc_reply_header h)) as Hov.
  { unfold enc_reply_header. solve_overwrites. }
  destruct (overwrites_header _ _ (enc_reply_header h) Hwf ltac:(change (4 + 8 ≤ mind m); lia) Hov)
    as (m'&Ho&Hwf'&Hs).
  exists (set_mind m' (mind m)). split; [|done].
  unfold pack_reply_header. apply obind_Done_inv in Ho as (?&->&Ho). simpl. by rewrite Ho.
Qed.

End marshall_facts.

(** ** Facts about the input cursor *)

(** [u] is good, and the bytes it has not read yet are [l] *)
Definition reads (u : unmarshall) (l : list byte) : Prop :=
  uok u = true ∧ ∃ b, ubuf u = Some b ∧ 0 ≤ uind u ∧ usz u = uind u + Zlength l ∧
    usz u ≤ Zlength b ∧ usz u ≤ INT_MAX ∧ take (length l) (drop (Z.to_nat (uind u)) b) = l.

(** the cursor with [n] more bytes read *)
Definition advance (u : unmarshall) (n : Z) : unmarshall := set_uind u (uind u + n).

Lemma advance_advance u n k : advance (advance u n) k = advance u (n + k).
Proof. unfold advance, set_uind. simpl. by rewrite Z.add_assoc. Qed.

Lemma reads_advance u l1 l2 : reads u (l1 ++ l2) → reads (advance u (Zlength l1)) l2.
Proof.
  intros (Hok&b&Hb&Hi&Hsz&Hle&Hmax&Hl). rewrite length_app in *.
  split; [done|]. exists b. unfold advance. simpl. split; [done|]. split; [lia|].
  split; [lia|]. split; [done|]. split; [done|].
  replace (Z.to_nat (uind u + Zlength l1)) with (Z.to_nat (uind u) + length l1)%nat by lia.
  rewrite <-drop_drop. remember (drop (Z.to_nat (uind u)) b) as d.
  apply (f_equal (drop (length l1))) in Hl. rewrite drop_app_length in Hl.
  rewrite skipn_firstn_comm in Hl. by rewrite Nat.add_comm, Nat.add_sub in Hl.
Qed.

Lemma reads_advance1 u x l : reads u (x :: l) → reads (advance u 1) l.
Proof. exact (reads_advance u [x] l). Qed.

Lemma rawbyte_reads u x l :
  reads u (x :: l) → unmarshall_rawbyte u = Done (advance u 1, u32 (char_value x)).
Proof.
  intros (Hok&b&Hb&Hi&Hsz&Hle&Hmax&Hl). simpl in *. unfold unmarshall_rawbyte.
  rewrite decide_False by lia. rewrite Hb. unfold mem_read.
  rewrite bool_decide_eq_true_2 by lia.
  destruct (drop (Z.to_nat (uind u)) b) as [|y d] eqn:Hd; [done|]. injection Hl as -> Hl.
  assert (b !! Z.to_nat (uind u) = Some x) as ->; [|done].
  apply (f_equal (lookup 0%nat)) in Hd. rewrite lookup_drop in Hd.
  by rewrite Nat.add_0_r in Hd.
Qed.

(** past the end the cursor becomes bad and stays inside the block *)
Lemma rawbyte_end u : usz u ≤ uind u → unmarshall_rawbyte u = Done (set_uok u false, 0).
Proof. intros. unfold unmarshall_rawbyte. by rewrite decide_True. Qed.

Lemma okdone_reads u l : reads u l → okdone u = bool_decide (l = []).
Proof.
  intros (Hok&b&Hb&Hi&Hsz&_). unfold okdone. rewrite Hok. simpl.
  apply bool_decide_ext. rewrite Hsz. split; [|by intros ->; simpl; lia].
  destruct l; simpl; [done|lia].
Qed.

(** reading consumes [l] and gives [x] *)
Definition gets {A} (o : outcome (unmarshall * A)) (u : unmarshall) (n : Z) (x : A) : Prop :=
  o = Done (advance u n, x).

Lemma get_bytes4 u b3 b2 b1 b0 l {A} (k : unmarshall → Z → Z → Z → Z → outcome A) :
  reads u ([b3; b2; b1; b0] ++ l) →
  (let! '(u, c3) := unmarshall_rawbyte u in
   let! '(u, c2) := unmarshall_rawbyte u in
   let! '(u, c1) := unmarshall_rawbyte u in
   let! '(u, c0) := unmarshall_rawbyte u in k u c3 c2 c1 c0) =
  k (advance u 4) (u32 (char_value b3)) (u32 (char_value b2))
    (u32 (char_value b1)) (u32 (char_value b0)).
Proof.
  intros H. rewrite (rawbyte_reads _ _ _ H). simpl.
  apply reads_advance1 in H. rewrite (rawbyte_reads _ _ _ H). simpl.
  apply reads_advance1 in H. rewrite (rawbyte_reads _ _ _ H). simpl.
  apply reads_advance1 in H. rewrite (rawbyte_reads _ _ _ H). simpl.
  by rewrite !advance_advance.
Qed.

Lemma u32_shiftl_byte b k : 0 ≤ k ≤ 24 → u32 (Z.shiftl (Z_of_byte b) k) = Z.shiftl (Z_of_byte b) k.
Proof.
  intros Hk. apply u32_small. rewrite Z.shiftl_mul_pow2 by lia.
  pose proof (Z_of_byte_range b).
  pose proof (Z.pow_le_mono_r 2 k 24 ltac:(lia) ltac:(lia)) as Hp.
  pose proof (Z.pow_pos_nonneg 2 k ltac:(lia) ltac:(lia)).
  change (2 ^ 24) with 16777216 in Hp. unfold_ints. nia.
Qed.

Lemma get_uint_spec u b3 b2 b1 b0 l x :
  reads u ([b3; b2; b1; b0] ++ l) →
  get_uint u x = Done (advance u 4, be32_value b3 b2 b1 b0).
Proof.
  intros H. unfold get_uint.
  rewrite (get_bytes4 u b3 b2 b1 b0 l (λ u c3 c2 c1 c0,
    Done (u, Z.lor (Z.lor (Z.lor (u32 (Z.shiftl (Z.land c3 255) 24))
      (u32 (Z.shiftl (Z.land c2 255) 16))) (u32 (Z.shiftl (Z.land c1 255) 8)))
      (Z.land c0 255))) H).
  rewrite !char_value_land_255, !u32_shiftl_byte by lia. by rewrite be32_value_lor.
Qed.

Lemma u32_lor_bytes b3 b2 b1 :
  let a := Z.lor (Z.shiftl (Z_of_byte b3) 24) (Z.shiftl (Z_of_byte b2) 16) in
  u32 (Z.shiftl (Z_of_byte b3) 24) = Z.shiftl (Z_of_byte b3) 24 ∧ u32 a = a ∧
  u32 (Z.lor a (Z.shiftl (Z_of_byte b1) 8)) = Z.lor a (Z.shiftl (Z_of_byte b1) 8).
Proof.
  intros a. subst a.
  pose proof (be32_value_lor b3 (byte_of_Z 0) (byte_of_Z 0) (byte_of_Z 0)) as E1.
  pose proof (be32_value_lor b3 b2 (byte_of_Z 0) (byte_of_Z 0)) as E2.
  pose proof (be32_value_lor b3 b2 b1 (byte_of_Z 0)) as E3.
  change (Z_of_byte (byte_of_Z 0)) with 0 in *.
  rewrite !Z.shiftl_0_l, !Z.lor_0_r in E1, E2. rewrite !Z.lor_0_r in E3.
  rewrite Z.lor_0_r in E1. rewrite E3, E2, E1. repeat split; apply u32_small, be32_value_range.
Qed.

Lemma int_of_bytes b3 b2 b1 b0 :
  s32 (Z.lor (u32 (s32 (Z.lor (u32 (s32 (Z.lor (u32 (s32 (u32 (Z.shiftl (Z_of_byte b3) 24))))
    (u32 (Z.shiftl (Z_of_byte b2) 16))))) (u32 (Z.shiftl (Z_of_byte b1) 8))))) (Z_of_byte b0))
  = s32 (be32_value b3 b2 b1 b0).
Proof.
  destruct (u32_lor_bytes b3 b2 b1) as (E1&E2&E3).
  rewrite !u32_s32, u32_idemp, E1, !u32_shiftl_byte by lia. rewrite E2, E3.
  by rewrite be32_value_lor.
Qed.

Lemma get_int_spec u b3 b2 b1 b0 l x :
  reads u ([b3; b2; b1; b0] ++ l) →
  get_int u x = Done (advance u 4, s32 (be32_value b3 b2 b1 b0)).
Proof.
  intros H. unfold get_int.
  rewrite (get_bytes4 u b3 b2 b1 b0 l (λ u c3 c2 c1 c0,
    Done (u, s32 (Z.lor (u32 (s32 (Z.lor (u32 (s32 (Z.lor
      (u32 (s32 (u32 (Z.shiftl (Z.land c3 255) 24)))) (u32 (Z.shiftl (Z.land c2 255) 16)))))
      (u32 (Z.shiftl (Z.land c1 255) 8))))) (Z.land c0 255)))) H).
  rewrite !char_value_land_255. by rewrite int_of_bytes.
Qed.

Lemma unpack_spec u b3 b2 b1 b0 l :
  reads u ([b3; b2; b1; b0] ++ l) →
  unpack u = Done (advance u 4, s32 (be32_value b3 b2 b1 b0)).
Proof. intros H. exact (get_int_spec u b3 b2 b1 b0 l 0 H). Qed.

Lemma get_uint_be32 u z l x :
  reads u (be32 z ++ l) → get_uint u x = Done (advance u 4, u32 z) ∧ reads (advance u 4) l.
Proof.
  intros H. split; [|by apply (reads_advance u (be32 z))].
  rewrite (get_uint_spec u _ _ _ _ _ x H). by rewrite be32_value_of.
Qed.

Lemma unpack_be32 u z l :
  reads u (be32 z ++ l) → unpack u = Done (advance u 4, s32 z) ∧ reads (advance u 4) l.
Proof.
  intros H. split; [|by apply (reads_advance u (be32 z))].
  rewrite (unpack_spec u _ _ _ _ _ H). by rewrite be32_value_of, s32_u32.
Qed.

Lemma get_int_be32 u z l x :
  reads u (be32 z ++ l) → get_int u x = Done (advance u 4, s32 z) ∧ reads (advance u 4) l.
Proof. exact (unpack_be32 u z l). Qed.

Lemma get_ull_be u z l x :
  is_u64 z → reads u ((be32 (z / 2 ^ 32) ++ be32 z) ++ l) →
  get_ull u x = Done (advance u 8, z) ∧ reads (advance u 8) l.
Proof.
  intros Hz H. split; [|by apply (reads_advance u (be32 (z / 2 ^ 32) ++ be32 z))].
  rewrite <-app_assoc in H. unfold get_ull.
  destruct (get_uint_be32 _ _ _ 0 H) as [-> H1]. simpl.
  destruct (get_uint_be32 _ _ _ 0 H1) as [-> H2]. simpl.
  rewrite advance_advance. do 2 f_equal.
  rewrite (u32_small (z / 2 ^ 32)) by lia_ints.
  rewrite (u64_small (Z.shiftl _ _))
    by (rewrite Z.shiftl_mul_pow2 by lia; lia_ints).
  rewrite Z.lor_comm, lor_shiftl_add; lia_ints.
Qed.

Lemma get_ushort_spec u z l x :
  is_u16 z → reads u ([byte_of_Z (z / 2 ^ 8); byte_of_Z z] ++ l) →
  get_ushort u x = Done (advance u 2, z) ∧ reads (advance u 2) l.
Proof.
  intros Hz H. split; [|by apply (reads_advance u [byte_of_Z (z / 2 ^ 8); byte_of_Z z])].
  unfold get_ushort. rewrite (rawbyte_reads _ _ _ H). simpl. apply reads_advance1 in H.
  rewrite (rawbyte_reads _ _ _ H). simpl. rewrite advance_advance. do 2 f_equal.
  rewrite !char_value_land_255, !Z_of_byte_of_Z.
  rewrite (u16_small (Z.shiftl _ _)) by (rewrite Z.shiftl_mul_pow2 by lia; lia_ints).
  rewrite lor_shiftl_add by lia_ints. lia_ints.
Qed.

Lemma get_short_spec u z l x :
  is_s16 z → reads u ([byte_of_Z (u16 z / 2 ^ 8); byte_of_Z (u16 z)] ++ l) →
  get_short u x = Done (advance u 2, z) ∧ reads (advance u 2) l.
Proof.
  intros Hz H.
  split; [|by apply (reads_advance u [byte_of_Z (u16 z / 2 ^ 8); byte_of_Z (u16 z)])].
  unfold get_short. rewrite (rawbyte_reads _ _ _ H). simpl. apply reads_advance1 in H.
  rewrite (rawbyte_reads _ _ _ H). simpl. rewrite advance_advance. do 2 f_equal.
  rewrite !char_value_land_255, !Z_of_byte_of_Z. rewrite Z.shiftl_mul_pow2 by lia.
  set (h := _ `mod` 256 * 2 ^ 8). set (b := u16 z `mod` 256).
  assert (0 ≤ u16 z / 256 < 256) as Hq by lia_ints.
  assert (h = u16 z / 256 * 256) as Hh.
  { unfold h. change (2 ^ 8) with 256. by rewrite Z.mod_small. }
  assert (s16 (Z.lor (u32 (s16 h)) b) = s16 (Z.lor h b)) as ->.
  { apply s16_lor_low; [unfold b; lia_ints|unfold h; lia_ints]. }
  rewrite Hh. change 256 with (2 ^ 8) at 2. rewrite <-Z.shiftl_mul_pow2 by lia.
  rewrite lor_shiftl_add; unfold b; lia_ints.
Qed.

Lemma get_uchar_spec u z l x :
  is_u8 z → reads u (byte_of_Z z :: l) →
  get_uchar u x = Done (advance u 1, z) ∧ reads (advance u 1) l.
Proof.
  intros Hz H. split; [|by apply reads_advance1 in H].
  unfold get_uchar. rewrite (rawbyte_reads _ _ _ H). simpl. do 2 f_equal.
  unfold wrap. change (2 ^ 8) with 256. rewrite char_value_mod, Z_of_byte_of_Z. lia_ints.
Qed.

Lemma get_char_spec u z l x :
  is_s8 z → reads u (byte_of_Z (wrap 8 z) :: l) →
  get_char u x = Done (advance u 1, z) ∧ reads (advance u 1) l.
Proof.
  intros Hz H. split; [|by apply reads_advance1 in H].
  unfold get_char. rewrite (rawbyte_reads _ _ _ H). simpl. do 2 f_equal.
  rewrite <-s8_mod, char_value_mod, Z_of_byte_of_Z. lia_ints.
Qed.

Lemma rawbytes_reads u s l ss :
  reads u (s ++ l) →
  unmarshall_rawbytes u ss (Zlength s) = Done (advance u (Zlength s), s) ∧
  reads (advance u (Zlength s)) l.
Proof.
  intros H. split; [|by apply reads_advance].
  destruct H as (Hok&b&Hb&Hi&Hsz&Hle&Hmax&Hl). rewrite length_app in *.
  unfold unmarshall_rawbytes. rewrite !u32_small by lia_ints.
  rewrite decide_False by lia. rewrite Hb. simpl. rewrite mem_slice_Done by lia. simpl.
  rewrite s32_small by lia_ints. do 2 f_equal.
  rewrite Nat2Z.id. apply (f_equal (take (length s))) in Hl.
  rewrite take_take, take_app_length, Nat.min_l in Hl by lia. done.
Qed.

Lemma get_string_spec u s l ss :
  Zlength s ≤ INT_MAX → reads u ((be32 (Zlength s) ++ s) ++ l) →
  get_string u ss = Done (advance u (4 + Zlength s), s) ∧
  reads (advance u (4 + Zlength s)) l.
Proof.
  intros Hs H. rewrite <-app_assoc in H. unfold get_string.
  destruct (get_uint_be32 _ _ _ 0 H) as [-> H1]. simpl.
  pose proof H1 as [Hok _]. unfold advance in Hok at 1. simpl in Hok. rewrite Hok.
  rewrite u32_small by lia_ints. rewrite <-advance_advance. by apply rawbytes_reads.
Qed.

(** *** Headers *)

Definition req_header_ok (h : req_header) : Prop :=
  is_s32 (rq_xid h) ∧ is_s32 (rq_proc h) ∧ is_u32 (rq_clt_nonce h) ∧
  is_u32 (rq_srv_nonce h) ∧ is_s32 (rq_xid_rep h).
Definition reply_header_ok (h : reply_header) : Prop :=
  is_s32 (rp_xid h) ∧ is_s32 (rp_ret h).

Lemma reads_new b : Zlength b ≤ INT_MAX → reads (unmarshall_new b (Zlength b)) b.
Proof.
  intros. split; [done|]. exists b. simpl. split; [done|]. repeat split; try lia.
  by rewrite drop_0, firstn_all.
Qed.

Lemma unpack_req_header_spec u h l :
  req_header_ok h → reads (set_uind u sizeof_rpc_sz_t) (enc_req_header h ++ l) →
  unpack_req_header u = Done (set_uind u RPC_HEADER_SZ, h) ∧
  reads (set_uind u RPC_HEADER_SZ) l.
Proof.
  intros (Hx&Hp&Hc&Hs&Hr) H. split; [|by apply reads_advance in H].
  unfold unpack_req_header, enc_req_header in *. rewrite <-!app_assoc in H.
  destruct (unpack_be32 _ _ _ H) as [-> H1]. simpl.
  destruct (unpack_be32 _ _ _ H1) as [-> H2]. simpl.
  destruct (unpack_be32 _ _ _ H2) as [-> H3]. simpl.
  destruct (unpack_be32 _ _ _ H3) as [-> H4]. simpl.
  destruct (unpack_be32 _ _ _ H4) as [-> H5]. simpl.
  rewrite !u32_s32, (s32_small (rq_xid h)), (s32_small (rq_proc h)),
    (s32_small (rq_xid_rep h)), !u32_small by done. by destruct h.
Qed.

Lemma unpack_reply_header_spec u h pad l :
  reply_header_ok h → length pad = 12%nat →
  reads (set_uind u sizeof_rpc_sz_t) (enc_reply_header h ++ pad ++ l) →
  unpack_reply_header u = Done (set_uind u RPC_HEADER_SZ, h) ∧
  reads (set_uind u RPC_HEADER_SZ) l.
Proof.
  intros (Hx&Hr) Hpad H. split.
  - unfold unpack_reply_header, enc_reply_header in *. rewrite <-!app_assoc in H.
    destruct (unpack_be32 _ _ _ H) as [-> H1]. simpl.
    destruct (unpack_be32 _ _ _ H1) as [-> H2]. simpl.
    rewrite !s32_small by done. by destruct h.
  - rewrite app_assoc in H. apply reads_advance in H.
    rewrite length_app, Hpad in H. exact H.
Qed.

(** [take_in] hands the unread part of a reply over *)
Lemma take_in_reads u0 u l :
  uind u = RPC_HEADER_SZ → reads u l → reads (take_in u0 u).1 l.
Proof.
  intros Hi (Hok&b&Hb&Hi0&Hsz&Hle&Hmax&Hl). rewrite Hi in *. split.
  - simpl. apply bool_decide_eq_true_2. lia.
  - exists b. simpl. by rewrite Hb.
Qed.

(** *** Malformed input *)

(** a cursor on a block of memory, wherever it stands *)
Definition cursor_wf (u : unmarshall) : Prop :=
  ∃ b, ubuf u = Some b ∧ 0 ≤ uind u ≤ INT_MAX ∧ 0 ≤ usz u ≤ INT_MAX ∧ usz u ≤ Zlength b.

Lemma reads_cursor_wf u l : reads u l → cursor_wf u.
Proof. intros (?&b&?&?&?&?&?&?). exists b. split; [done|]. lia. Qed.

(** [u'] is [u] after an attempt to read [n] bytes *)
Definition attempted (u u' : unmarshall) (n : Z) : Prop :=
  cursor_wf u' ∧ usz u' = usz u ∧ ubuf u' = ubuf u ∧
  uind u' = Z.max (uind u) (Z.min (uind u + n) (usz u)) ∧
  uok u' = uok u && bool_decide (uind u + n ≤ usz u).

Lemma attempted_trans u1 u2 u3 n k :
  0 ≤ n → 0 ≤ k → attempted u1 u2 n → attempted u2 u3 k → attempted u1 u3 (n + k).
Proof.
  intros Hn Hk (Hw1&Hs1&Hb1&Hi1&Ho1) (Hw2&Hs2&Hb2&Hi2&Ho2). split; [done|].
  split; [congruence|]. split; [congruence|]. split; [lia|].
  rewrite Ho2, Ho1, Hs1, <-andb_assoc. f_equal.
  rewrite <-bool_decide_and. apply bool_decide_ext. lia.
Qed.

Lemma rawbyte_total u :
  cursor_wf u → ∃ u' c, unmarshall_rawbyte u = Done (u', c) ∧ attempted u u' 1.
Proof.
  intros (b&Hb&Hi&Hs&Hl). unfold unmarshall_rawbyte. case_decide as Hd.
  - eexists _, _. split; [done|]. split; [by exists b|]. simpl.
    rewrite bool_decide_eq_false_2 by lia. rewrite andb_false_r. split_and!; try done. lia.
  - rewrite Hb. unfold mem_read. rewrite bool_decide_eq_true_2 by lia.
    destruct (lookup_lt_is_Some_2 b (Z.to_nat (uind u))) as [c ->]; [lia|]. simpl.
    eexists _, _. split; [done|]. split; [exists b; simpl; split; [done|lia]|]. simpl.
    rewrite bool_decide_eq_true_2 by lia. rewrite andb_true_r. split_and!; try done. lia.
Qed.

Lemma get_uint_total u x :
  cursor_wf u → ∃ u' v, get_uint u x = Done (u', v) ∧ attempted u u' 4.
Proof.
  intros H0. unfold get_uint.
  destruct (rawbyte_total u H0) as (u1&c3&->&A1). simpl.
  destruct (rawbyte_total u1 (proj1 A1)) as (u2&c2&->&A2). simpl.
  destruct (rawbyte_total u2 (proj1 A2)) as (u3&c1&->&A3). simpl.
  destruct (rawbyte_total u3 (proj1 A3)) as (u4&c0&->&A4). simpl.
  eexists _, _. split; [done|].
  apply (attempted_trans u u3 u4 3 1); [lia..| |done].
  apply (attempted_trans u u2 u3 2 1); [lia..| |done].
  by apply (attempted_trans u u1 u2 1 1).
Qed.

Lemma unpack_total u :
  cursor_wf u → ∃ u' v, unpack u = Done (u', v) ∧ attempted u u' 4 ∧ is_s32 v.
Proof.
  intros H0. unfold unpack.
  destruct (rawbyte_total u H0) as (u1&c3&->&A1). simpl.
  destruct (rawbyte_total u1 (proj1 A1)) as (u2&c2&->&A2). simpl.
  destruct (rawbyte_total u2 (proj1 A2)) as (u3&c1&->&A3). simpl.
  destruct (rawbyte_total u3 (proj1 A3)) as (u4&c0&->&A4). simpl.
  eexists _, _. split; [done|]. split; [|apply s32_range].
  apply (attempted_trans u u3 u4 3 1); [lia..| |done].
  apply (attempted_trans u u2 u3 2 1); [lia..| |done].
  by apply (attempted_trans u u1 u2 1 1).
Qed.

Lemma set_uind_wf u i : cursor_wf u → 0 ≤ i ≤ INT_MAX → cursor_wf (set_uind u i).
Proof. intros (b&?&?&?) ?. by exists b. Qed.

Lemma new_cursor_wf b sz : 0 ≤ sz ≤ Zlength b → sz ≤ INT_MAX → cursor_wf (unmarshall_new b sz).
Proof. intros. exists b. unfold INT_MAX in *. simpl. split; [done|]. lia. Qed.

(** an arriving header is parsed without a fault, whatever the bytes *)
Lemma unpack_reply_header_total u :
  cursor_wf u → ∃ u' h, unpack_reply_header u = Done (u', h) ∧ cursor_wf u' ∧
    uind u' = RPC_HEADER_SZ ∧ reply_header_ok h.
Proof.
  intros H0. unfold unpack_reply_header.
  destruct (unpack_total (set_uind u sizeof_rpc_sz_t)) as (u1&x&->&[Hw1 _]&Hx).
  { apply set_uind_wf; [done|]. unfold sizeof_rpc_sz_t, INT_MAX. lia. }
  simpl. destruct (unpack_total u1 Hw1) as (u2&r&->&[Hw2 _]&Hr). simpl.
  eexists _, _. split; [done|]. split; [|split; [done|by split]].
  apply set_uind_wf; [done|]. change RPC_HEADER_SZ with 24. unfold INT_MAX. lia.
Qed.

Lemma unpack_req_header_total u :
  cursor_wf u → ∃ u' h, unpack_req_header u = Done (u', h) ∧ cursor_wf u' ∧
    uind u' = RPC_HEADER_SZ ∧ req_header_ok h.
Proof.
  intros H0. unfold unpack_req_header.
  destruct (unpack_total (set_uind u sizeof_rpc_sz_t)) as (u1&x1&->&[Hw1 _]&H1).
  { apply set_uind_wf; [done|]. unfold sizeof_rpc_sz_t, INT_MAX. lia. }
  simpl. destruct (unpack_total u1 Hw1) as (u2&x2&->&[Hw2 _]&H2). simpl.
  destruct (unpack_total u2 Hw2) as (u3&x3&->&[Hw3 _]&H3). simpl.
  destruct (unpack_total u3 Hw3) as (u4&x4&->&[Hw4 _]&H4). simpl.
  destruct (unpack_total u4 Hw4) as (u5&x5&->&[Hw5 _]&H5). simpl.
  eexists _, _. split; [done|]. split.
  - apply set_uind_wf; [done|]. change RPC_HEADER_SZ with 24. unfold INT_MAX. lia.
  - split; [done|]. split_and!; simpl; try done; apply u32_range.
Qed.

(** a string whose announced length does not wrap the bound is never read
    outside the block: it is read whole or refused *)
Lemma rawbytes_total u ss n :
  cursor_wf u → 0 ≤ n → uind u + n < 2 ^ 32 →
  ∃ u' s, unmarshall_rawbytes u ss n = Done (u', s) ∧ cursor_wf u' ∧
    uok u' = uok u && bool_decide (uind u + n ≤ usz u) ∧
    (uind u + n ≤ usz u → Zlength s = n).
Proof.
  intros (b&Hb&Hi&Hs&Hl) Hn Hw. unfold unmarshall_rawbytes.
  rewrite (u32_small (usz u)), (u32_small (uind u + n)) by lia_ints. case_decide.
  - eexists _, _. split; [done|]. split; [by exists b|]. simpl.
    rewrite bool_decide_eq_false_2 by lia. rewrite andb_false_r. split; [done|lia].
  - rewrite Hb. simpl. rewrite mem_slice_Done by lia. simpl. eexists _, _. split; [done|].
    rewrite s32_small by lia_ints. split; [exists b; simpl; split; [done|lia]|]. simpl.
    rewrite bool_decide_eq_true_2 by lia. rewrite andb_true_r. split; [done|].
    intros _. rewrite length_take, length_drop. lia.
Qed.

Section theorems.
Context `{Heap}.

(** C38. The output buffer never overruns its block: below [MARSHALL_MAX] bytes the
    two primitive writers succeed (no fault, no signed overflow in the capacity),
    keep the representation invariant and append exactly their argument. *)
Theorem marshall_append_safe m x p :
  marshall_wf m → mind m + Z.max 1 (Zlength p) ≤ MARSHALL_MAX →
  puts (marshall_rawbyte m x) m [x] ∧ puts (marshall_rawbytes m p (Zlength p)) m p.
Proof. intros ? ?. split; [apply puts_byte|apply rawbytes_spec]; auto; lia. Qed.

(** the cursor over a buffer that was taken from a [marshall] *)
Lemma reads_taken m b :
  marshall_wf m → mbuf m = Some b → mind m ≤ MARSHALL_MAX →
  reads (unmarshall_new b (mind m)) (marshall_str m).
Proof.
  intros (b'&Hb'&Hlen&Hi&Hc) Hb Hmax. assert (b' = b) as -> by congruence.
  split; [done|]. exists b. simpl. split; [done|]. split; [done|].
  unfold marshall_str. rewrite Hb. simpl. rewrite length_take.
  unfold MARSHALL_MAX, INT_MAX in *. split; [lia|]. split; [lia|]. split; [lia|].
  rewrite drop_0. f_equal. lia.
Qed.

Lemma reads_skip u l i : reads u l → uind u = 0 → 0 ≤ i ≤ Zlength l →
  reads (set_uind u i) (drop (Z.to_nat i) l).
Proof.
  intros Hr H0 Hi. rewrite <-(take_drop (Z.to_nat i) l) in Hr.
  apply reads_advance in Hr. rewrite length_take in Hr. unfold advance in Hr.
  rewrite H0 in Hr. replace (0 + _) with i in Hr by lia. done.
Qed.

(** A request: the payload is marshalled first, the header is packed into the
    room left in front of it; the receiver recovers header and payload. *)
Lemma req_header_roundtrip m h l :
  marshall_wf m → marshall_str m = take 24 (marshall_str m) ++ l →
  RPC_HEADER_SZ ≤ mind m ≤ MARSHALL_MAX → req_header_ok h →
  ∃ m' b u, pack_req_header m h = Done m' ∧
    fst (marshall_take_buf m') = (Some b, mind m) ∧
    unpack_req_header (unmarshall_new b (mind m)) = Done (u, h) ∧ reads u l.
Proof.
  intros Hwf Hl [Hi Hmax] Hh. destruct (pack_req_header_spec m h Hwf Hi) as (m'&Hp&Hwf'&Hi'&Hs).
  pose proof Hwf' as (b&Hb&_). pose proof (marshall_str_length m Hwf) as Hlen.
  change RPC_HEADER_SZ with 24 in *.
  exists m', b, (set_uind (unmarshall_new b (mind m)) RPC_HEADER_SZ).
  split; [done|]. split; [unfold marshall_take_buf; simpl; congruence|].
  apply unpack_req_header_spec; [done|].
  pose proof (reads_taken m' b Hwf' Hb ltac:(lia)) as Hr. rewrite Hi', Hs in Hr.
  apply (reads_skip _ _ 4) in Hr; [|done|rewrite length_app, length_take; lia].
  rewrite drop_app_length' in Hr by (rewrite length_take; lia).
  rewrite Hl in Hr at 1. rewrite drop_app_length' in Hr by (rewrite length_take; lia). exact Hr.
Qed.

(** A reply, likewise; its header is shorter and is followed by padding. *)
Lemma reply_header_roundtrip m h l :
  marshall_wf m → marshall_str m = take 24 (marshall_str m) ++ l →
  RPC_HEADER_SZ ≤ mind m ≤ MARSHALL_MAX → reply_header_ok h →
  ∃ m' b u, pack_reply_header m h = Done m' ∧
    fst (marshall_take_buf m') = (Some b, mind m) ∧
    unpack_reply_header (unmarshall_new b (mind m)) = Done (u, h) ∧ reads u l ∧
    uind u = RPC_HEADER_SZ.
Proof.
  intros Hwf Hl [Hi Hmax] Hh.
  destruct (pack_reply_header_spec m h Hwf Hi) as (m'&Hp&Hwf'&Hi'&Hs).
  pose proof Hwf' as (b&Hb&_). pose proof (marshall_str_length m Hwf) as Hlen.
  change RPC_HEADER_SZ with 24 in *.
  exists m', b, (set_uind (unmarshall_new b (mind m)) RPC_HEADER_SZ).
  split; [done|]. split; [unfold marshall_take_buf; simpl; congruence|].
  assert (drop 12 (marshall_str m) = drop 12 (take 24 (marshall_str m)) ++ l) as Hd.
  { rewrite Hl at 1. rewrite drop_app_le; [done|]. rewrite length_take. lia. }
  match goal with |- ?A ∧ ?B ∧ _ => enough (A ∧ B) as [? ?] by (by split_and!) end.
  apply (unpack_reply_header_spec _ _ (drop 12 (take 24 (marshall_str m)))); [done| |].
  { rewrite length_drop, length_take. lia. }
  pose proof (reads_taken m' b Hwf' Hb ltac:(lia)) as Hr. rewrite Hi', Hs in Hr.
  apply (reads_skip _ _ 4) in Hr; [|done|rewrite length_app, length_take; lia].
  rewrite drop_app_length' in Hr by (rewrite length_take; lia).
  rewrite Hd in Hr. exact Hr.
Qed.

(** headers inside a PDU, as the receiver finds them *)
Lemma unpack_req_header_reads t h l :
  length t = 4%nat → req_header_ok h → Zlength (t ++ enc_req_header h ++ l) ≤ INT_MAX →
  let b := t ++ enc_req_header h ++ l in
  let u := set_uind (unmarshall_new b (Zlength b)) RPC_HEADER_SZ in
  unpack_req_header (unmarshall_new b (Zlength b)) = Done (u, h) ∧ reads u l.
Proof.
  intros Ht Hh Hmax b u. pose proof (reads_new b Hmax) as Hr.
  apply (reads_skip _ _ 4) in Hr; [|done|unfold b; rewrite length_app; lia].
  assert (drop (Z.to_nat 4) b = enc_req_header h ++ l) as E by (by apply drop_app_length').
  rewrite E in Hr. by apply (unpack_req_header_spec _ h l).
Qed.

Lemma unpack_req_header_at t h l :
  length t = 4%nat → req_header_ok h → Zlength (t ++ enc_req_header h ++ l) ≤ INT_MAX →
  let b := t ++ enc_req_header h ++ l in
  unpack_req_header (unmarshall_new b (Zlength b)) =
    Done (set_uind (unmarshall_new b (Zlength b)) RPC_HEADER_SZ, h).
Proof. intros. by apply unpack_req_header_reads. Qed.

Lemma unpack_reply_header_reads t h pad l :
  length t = 4%nat → length pad = 12%nat → reply_header_ok h →
  Zlength (t ++ enc_reply_header h ++ pad ++ l) ≤ INT_MAX →
  let b := t ++ enc_reply_header h ++ pad ++ l in
  let u := set_uind (unmarshall_new b (Zlength b)) RPC_HEADER_SZ in
  unpack_reply_header (unmarshall_new b (Zlength b)) = Done (u, h) ∧ reads u l.
Proof.
  intros Ht Hpad Hh Hmax b u. pose proof (reads_new b Hmax) as Hr.
  apply (reads_skip _ _ 4) in Hr; [|done|unfold b; rewrite length_app; lia].
  assert (drop (Z.to_nat 4) b = enc_reply_header h ++ pad ++ l) as E by (by apply drop_app_length').
  rewrite E in Hr. by apply (unpack_reply_header_spec _ h pad l).
Qed.

Lemma unpack_reply_header_at t h pad l :
  length t = 4%nat → length pad = 12%nat → reply_header_ok h →
  Zlength (t ++ enc_reply_header h ++ pad ++ l) ≤ INT_MAX →
  let b := t ++ enc_reply_header h ++ pad ++ l in
  unpack_reply_header (unmarshall_new b (Zlength b)) =
    Done (set_uind (unmarshall_new b (Zlength b)) RPC_HEADER_SZ, h).
Proof. intros. by apply unpack_reply_header_reads. Qed.

End theorems.

(** Reading an integer from any cursor, also from a truncated or exhausted
    buffer, never leaves the block; the cursor is good afterwards exactly when it
    was good and four bytes were left. *)
Theorem get_uint_truncated u x :
  cursor_wf u →
  ∃ u' v, get_uint u x = Done (u', v) ∧ cursor_wf u' ∧
    uok u' = uok u && bool_decide (uind u + 4 ≤ usz u).
Proof.
  intros Hu. destruct (get_uint_total u x Hu) as (u'&v&?&?&?&?&?&?). eauto 6.
Qed.

(** A string whose announced length [n] reaches past 2^32 from the read position
    passes the bound of [unmarshall::rawbytes], which is computed in [unsigned
    int], and is copied from outside the buffer. *)
Theorem get_string_length_wraps u n l s :
  is_u32 n → reads u (be32 n ++ l) → 2 ^ 32 ≤ uind u + 4 + n →
  Zlength (default [] (ubuf u)) < 2 ^ 32 →
  get_string u s = Fault OutOfBounds.
Proof.
  intros Hn Hr Hw Hb32. unfold get_string. destruct (get_uint_be32 _ _ _ 0 Hr) as [-> Hr1].
  simpl. pose proof Hr1 as (Hok&b&Hb&Hi&Hsz&Hle&Hmax&_).
  change (uok u) with (uok (advance u 4)). rewrite Hok. unfold advance in *. simpl in *.
  unfold unmarshall_rawbytes. simpl. rewrite (u32_small n) by done.
  rewrite Hb in Hb32. simpl in Hb32.
  rewrite decide_False by lia_ints. rewrite Hb. simpl. unfold mem_slice.
  rewrite bool_decide_eq_false_2; [done|]. lia.
Qed.

(** ** Witnesses *)

Definition zero_heap : Heap := {| fresh_byte := λ _, byte_of_Z 0; stale := 0 |}.
#[local] Existing Instance zero_heap.

Lemma marshall_append_safe_witness :
  puts (marshall_rawbyte marshall_new (byte_of_Z 7)) marshall_new [byte_of_Z 7] ∧
  puts (marshall_rawbytes marshall_new (be32 1 ++ be32 2) (Zlength (be32 1 ++ be32 2)))
    marshall_new (be32 1 ++ be32 2).
Proof.
  apply marshall_append_safe; [apply marshall_new_wf|].
  change (24 + Z.max 1 8 ≤ MARSHALL_MAX). unfold MARSHALL_MAX. lia.
Defined.


Lemma get_uint_truncated_witness :
  ∃ u' v, get_uint (unmarshall_new (be32 7) 3) 0 = Done (u', v) ∧ cursor_wf u' ∧
    uok u' = true && bool_decide (0 + 4 ≤ 3).
Proof.
  apply (get_uint_truncated (unmarshall_new (be32 7) 3) 0).
  exists (be32 7). split; [done|]. simpl. unfold INT_MAX. lia.
Defined.

Lemma get_string_length_wraps_witness :
  get_string (unmarshall_new (be32 (2 ^ 32 - 4)) 4) [] = Fault OutOfBounds.
Proof.
  apply (get_string_length_wraps _ (2 ^ 32 - 4) []);
    [vm_compute; split; [discriminate|done]|apply (reads_new (be32 (2 ^ 32 - 4)))| |].
  - vm_compute. discriminate.
  - vm_compute. discriminate.
  - vm_compute. reflexivity.
Defined.
