(* ===== verification/Codec.v ===== *)
(** * Codecs: one [operator<<]/[operator>>] pair per C++ type

    [rpc/marshall.h] and [extent_protocol.h] overload the two operators for each
    type that crosses the wire, and templates build the operators of vectors and
    maps from those of their elements.  A [codec] is such a pair; [CodecLaws] is
    the interface the RPC stubs rely on: [<<] appends the bytes [enc] of the
    value, and [>>] reads these bytes back to the value. *)

From S2P Require Import Prelude Marshall.

Record codec (A : Type) := Codec {
  c_put : marshall → A → outcome marshall;
  c_get : unmarshall → A → outcome (unmarshall * A);
  c_init : A   (**r a variable of the type, as declared without initialiser *)
}.
Arguments Codec {A} _ _ _.
Arguments c_put {A} _ _ _.
Arguments c_get {A} _ _ _.
Arguments c_init {A} _.

Section codecs.
Context `{Heap}.

Definition c_uchar : codec Z := Codec put_uchar get_uchar (wrap 8 stale).
Definition c_char : codec Z := Codec put_char get_char (s8 stale).
Definition c_ushort : codec Z := Codec put_ushort get_ushort (u16 stale).
Definition c_short : codec Z := Codec put_short get_short (s16 stale).
Definition c_uint : codec Z := Codec put_uint get_uint (u32 stale).
Definition c_int : codec Z := Codec put_int get_int (s32 stale).
Definition c_ull : codec Z := Codec put_ull get_ull (u64 stale).
Definition c_string : codec (list byte) := Codec put_string get_string [].

(** [std::vector]: the length, then the elements; [>>] pushes behind what the
    vector already holds *)

Fixpoint put_elems {A} (c : codec A) (m : marshall) (v : list A) : outcome marshall :=
  match v with
  | [] => Done m
  | x :: v => let! m := c_put c m x in put_elems c m v
  end.

Fixpoint get_elems {A} (c : codec A) (n : nat) (u : unmarshall) (v : list A)
    : outcome (unmarshall * list A) :=
  match n with
  | O => Done (u, v)
  | S n => let! '(u, z) := c_get c u (c_init c) in get_elems c n u (v ++ [z])
  end.

Definition put_vector {A} (c : codec A) (m : marshall) (v : list A) : outcome marshall :=
  let! m := put_uint m (u32 (Zlength v)) in put_elems c m v.
Definition get_vector {A} (c : codec A) (u : unmarshall) (v : list A)
    : outcome (unmarshall * list A) :=
  let! '(u, n) := get_uint u (u32 stale) in get_elems c (Z.to_nat n) u v.
Definition c_vector {A} (c : codec A) : codec (list A) :=
  Codec (put_vector c) (get_vector c) [].

(** [std::map]: the size, then the entries in key order; [>>] clears the map *)

Section map.
Context {A B : Type} `{!EqDecision A, !Countable A} (key_le : relation A)
  `{!RelDecision key_le}.

Definition entry_le : relation (A * B) := λ x y, key_le x.1 y.1.
#[local] Instance entry_le_dec : RelDecision entry_le :=
  λ x y, decide (key_le x.1 y.1).

Definition map_entries (d : gmap A B) : list (A * B) :=
  merge_sort entry_le (map_to_list d).

Definition put_entry (ca : codec A) (cb : codec B) (m : marshall) (e : A * B)
    : outcome marshall :=
  let! m := c_put ca m e.1 in c_put cb m e.2.

Fixpoint put_entries (ca : codec A) (cb : codec B) (m : marshall) (l : list (A * B))
    : outcome marshall :=
  match l with
  | [] => Done m
  | e :: l => let! m := put_entry ca cb m e in put_entries ca cb m l
  end.

Fixpoint get_entries (ca : codec A) (cb : codec B) (n : nat) (u : unmarshall)
    (d : gmap A B) : outcome (unmarshall * gmap A B) :=
  match n with
  | O => Done (u, d)
  | S n =>
      let! '(u, a) := c_get ca u (c_init ca) in
      let! '(u, b) := c_get cb u (c_init cb) in
      get_entries ca cb n u (<[a := b]> d)
  end.

Definition put_map (ca : codec A) (cb : codec B) (m : marshall) (d : gmap A B)
    : outcome marshall :=
  let! m := put_uint m (u32 (Z.of_nat (size d))) in
  put_entries ca cb m (map_entries d).
Definition get_map (ca : codec A) (cb : codec B) (u : unmarshall) (d : gmap A B)
    : outcome (unmarshall * gmap A B) :=
  let! '(u, n) := get_uint u (u32 stale) in get_entries ca cb (Z.to_nat n) u ∅.
Definition c_map (ca : codec A) (cb : codec B) : codec (gmap A B) :=
  Codec (put_map ca cb) (get_map ca cb) ∅.
End map.

End codecs.

(** ** The interface *)

Class CodecLaws {A} (c : codec A) := {
  enc : A → list byte;
  c_valid : A → Prop;
  put_enc m a :
    c_valid a → marshall_wf m → mind m + Zlength (enc a) ≤ MARSHALL_MAX →
    puts (c_put c m a) m (enc a);
  get_enc u a l :
    c_valid a → reads u (enc a ++ l) →
    c_get c u (c_init c) = Done (advance u (Zlength (enc a)), a);
}.
Arguments enc {A} c {_} _.
Arguments c_valid {A} c {_} _.
Arguments put_enc {A} c {_} _ _ _ _ _.
Arguments get_enc {A} c {_} _ _ _ _ _.

#[local] Obligation Tactic := idtac.

Section laws.
Context `{Heap}.

#[export, program] Instance c_uchar_laws : CodecLaws c_uchar :=
  {| enc z := [byte_of_Z z]; c_valid := is_u8 |}.
Next Obligation. intros. by apply puts_byte. Qed.
Next Obligation. intros. by eapply (get_uchar_spec u a l). Qed.

#[export, program] Instance c_char_laws : CodecLaws c_char :=
  {| enc z := [byte_of_Z (wrap 8 z)]; c_valid := is_s8 |}.
Next Obligation. intros. by apply puts_byte. Qed.
Next Obligation. intros. by eapply (get_char_spec u a l). Qed.

#[export, program] Instance c_ushort_laws : CodecLaws c_ushort :=
  {| enc z := [byte_of_Z (z / 2 ^ 8); byte_of_Z z]; c_valid := is_u16 |}.
Next Obligation. intros. by apply put_ushort_spec. Qed.
Next Obligation. intros. by eapply (get_ushort_spec u a l). Qed.

#[export, program] Instance c_short_laws : CodecLaws c_short :=
  {| enc z := [byte_of_Z (u16 z / 2 ^ 8); byte_of_Z (u16 z)]; c_valid := is_s16 |}.
Next Obligation. intros. by apply put_ushort_spec. Qed.
Next Obligation. intros. by eapply (get_short_spec u a l). Qed.

#[export, program] Instance c_uint_laws : CodecLaws c_uint :=
  {| enc := be32; c_valid := is_u32 |}.
Next Obligation. intros. by apply put_uint_spec. Qed.
Next Obligation.
  intros u a l Ha Hr. simpl. destruct (get_uint_be32 u a l (u32 stale) Hr) as [-> _].
  by rewrite u32_small.
Qed.

#[export, program] Instance c_int_laws : CodecLaws c_int :=
  {| enc := be32; c_valid := is_s32 |}.
Next Obligation. intros. by apply put_int_spec. Qed.
Next Obligation.
  intros u a l Ha Hr. simpl. destruct (get_int_be32 u a l (s32 stale) Hr) as [-> _].
  by rewrite s32_small.
Qed.

#[export, program] Instance c_ull_laws : CodecLaws c_ull :=
  {| enc z := be32 (z / 2 ^ 32) ++ be32 z; c_valid := is_u64 |}.
Next Obligation. intros. by apply put_ull_spec. Qed.
Next Obligation. intros. by eapply (get_ull_be u a l). Qed.

#[export, program] Instance c_string_laws : CodecLaws c_string :=
  {| enc s := be32 (Zlength s) ++ s; c_valid s := Zlength s ≤ INT_MAX |}.
Next Obligation.
  intros m s Hs Hwf Hm. apply put_string_spec; [done|].
  cbv beta in Hm. rewrite length_app, be32_length in Hm. lia.
Qed.
Next Obligation.
  intros u s l Hs Hr. cbv beta in *. rewrite length_app, be32_length.
  replace (Z.of_nat (4 + length s)) with (4 + Zlength s) by lia.
  by eapply (get_string_spec u s l).
Qed.

(** *** Vectors *)

Section vector.
Context {A : Type} (c : codec A) `{!CodecLaws c}.

Fixpoint enc_elems (v : list A) : list byte :=
  match v with [] => [] | x :: v => enc c x ++ enc_elems v end.

Lemma put_elems_spec v m :
  Forall (c_valid c) v → marshall_wf m → mind m + Zlength (enc_elems v) ≤ MARSHALL_MAX →
  puts (put_elems c m v) m (enc_elems v).
Proof.
  intros Hv. revert m. induction Hv as [|x v Hx Hv IH]; intros m Hwf Hm.
  - by apply puts_Done.
  - cbn [enc_elems put_elems] in *.
    rewrite length_app in Hm. eapply puts_bind.
    + apply put_enc; [done..|lia].
    + intros m1 (?&?&?). apply IH; [done|lia].
Qed.

Lemma get_elems_spec v u l v0 :
  Forall (c_valid c) v → reads u (enc_elems v ++ l) →
  get_elems c (length v) u v0 = Done (advance u (Zlength (enc_elems v)), v0 ++ v).
Proof.
  intros Hv. revert u v0.
  induction Hv as [|x v Hx Hv IH]; intros u v0 Hr.
  - simpl. unfold advance, set_uind. rewrite Z.add_0_r, app_nil_r. by destruct u.
  - cbn [enc_elems length get_elems] in *.
    rewrite <-app_assoc in Hr. rewrite (get_enc c _ _ _ Hx Hr). simpl.
    rewrite IH by (by apply reads_advance). rewrite advance_advance, length_app, <-app_assoc.
    do 3 f_equal. simpl. lia.
Qed.
End vector.

#[export, program] Instance c_vector_laws {A} (c : codec A) `{!CodecLaws c} :
    CodecLaws (c_vector c) :=
  {| enc v := be32 (Zlength v) ++ enc_elems c v;
     c_valid v := Zlength v < 2 ^ 32 ∧ Forall (c_valid c) v |}.
Next Obligation.
  intros A c Hc m v [Hn Hv] Hwf Hm. cbv beta in Hm. rewrite length_app, be32_length in Hm.
  eapply puts_bind.
  - rewrite <-be32_u32. apply put_uint_spec; [done|lia].
  - intros m1 (?&Hi&?). rewrite be32_length in Hi. apply put_elems_spec; [done..|lia].
Qed.
Next Obligation.
  intros A c Hc u v l [Hn Hv] Hr. cbv beta in *. rewrite <-app_assoc in Hr. simpl. unfold get_vector.
  destruct (get_uint_be32 u _ _ (u32 stale) Hr) as [-> Hr1]. simpl.
  rewrite u32_small, Nat2Z.id by (unfold is_u32; lia).
  rewrite (get_elems_spec c v _ l []) by done. rewrite advance_advance. do 3 f_equal. lia.
Qed.

(** *** Maps *)

Section map_laws.
Context {A B : Type} `{!EqDecision A, !Countable A} (key_le : relation A)
  `{!RelDecision key_le} (ca : codec A) (cb : codec B) `{!CodecLaws ca, !CodecLaws cb}.

Definition entry_valid (e : A * B) : Prop := c_valid ca e.1 ∧ c_valid cb e.2.
Definition enc_entry (e : A * B) : list byte := enc ca e.1 ++ enc cb e.2.
Fixpoint enc_entries (l : list (A * B)) : list byte :=
  match l with [] => [] | e :: l => enc_entry e ++ enc_entries l end.

Lemma put_entries_spec es m :
  Forall entry_valid es → marshall_wf m →
  mind m + Zlength (enc_entries es) ≤ MARSHALL_MAX →
  puts (put_entries ca cb m es) m (enc_entries es).
Proof.
  intros Hv. revert m.
  induction Hv as [|e es [Ha Hb] Hv IH]; intros m Hwf Hm; [by apply puts_Done|].
  cbn [enc_entries put_entries] in *. unfold enc_entry in Hm at 1.
  rewrite !length_app in Hm. eapply puts_bind.
  - unfold put_entry, enc_entry. eapply puts_bind; [apply put_enc; [done..|lia]|].
    intros m1 (?&?&?). apply put_enc; [done..|lia].
  - intros m1 (?&Hi&?). unfold enc_entry in Hi. rewrite length_app in Hi.
    apply IH; [done|lia].
Qed.

Lemma get_entries_spec es u l d :
  Forall entry_valid es → reads u (enc_entries es ++ l) →
  get_entries ca cb (length es) u d =
    Done (advance u (Zlength (enc_entries es)), foldl (λ d e, <[e.1 := e.2]> d) d es).
Proof.
  intros Hv. revert u d.
  induction Hv as [|e es [Ha Hb] Hv IH]; intros u d Hr.
  - simpl. unfold advance, set_uind. rewrite Z.add_0_r. by destruct u.
  - cbn [enc_entries length get_entries] in *.
    unfold enc_entry in Hr at 1. rewrite <-!app_assoc in Hr.
    rewrite (get_enc ca _ _ _ Ha Hr). simpl. apply reads_advance in Hr.
    rewrite (get_enc cb _ _ _ Hb Hr). simpl. apply reads_advance in Hr.
    rewrite IH by done. rewrite !advance_advance. unfold enc_entry.
    rewrite !length_app. do 3 f_equal. lia.
Qed.

Lemma foldl_insert_lookup es (d : gmap A B) k :
  NoDup es.*1 → foldl (λ d e, <[e.1 := e.2]> d) d es !! k =
    match (list_to_map es : gmap A B) !! k with Some b => Some b | None => d !! k end.
Proof.
  revert d. induction es as [|[a b] es IH]; intros d Hnd; [by simpl; rewrite lookup_empty|].
  apply NoDup_cons in Hnd as [Hni Hnd]. simpl in *. rewrite IH by done.
  destruct (decide (k = a)) as [->|Hne].
  - rewrite lookup_insert_eq.
    rewrite (not_elem_of_list_to_map_1 (M:=gmap A) es a) by done. by rewrite lookup_insert_eq.
  - by rewrite !lookup_insert_ne by done.
Qed.

Lemma map_entries_perm (d : gmap A B) : map_entries key_le d ≡ₚ map_to_list d.
Proof. apply merge_sort_Permutation. Qed.

Lemma map_entries_length (d : gmap A B) : length (map_entries key_le d) = size d.
Proof. by rewrite map_entries_perm, length_map_to_list. Qed.

Lemma map_entries_rebuild (d : gmap A B) :
  foldl (λ d e, <[e.1 := e.2]> d) ∅ (map_entries key_le d) = d.
Proof.
  assert (NoDup (map_entries key_le d).*1) as Hnd.
  { rewrite map_entries_perm. apply NoDup_fst_map_to_list. }
  apply map_eq. intros k. rewrite foldl_insert_lookup by done.
  rewrite (list_to_map_proper (M:=gmap A) _ _ Hnd (map_entries_perm d)).
  rewrite list_to_map_to_list, lookup_empty. by destruct (d !! k).
Qed.
End map_laws.

#[export, program] Instance c_map_laws {A B : Type} `{!EqDecision A, !Countable A}
    (key_le : relation A) `{!RelDecision key_le} (ca : codec A) (cb : codec B)
    `{!CodecLaws ca, !CodecLaws cb} : CodecLaws (c_map key_le ca cb) :=
  {| enc d := be32 (Z.of_nat (size d)) ++ enc_entries ca cb (map_entries key_le d);
     c_valid d := Z.of_nat (size d) < 2 ^ 32 ∧ Forall (entry_valid ca cb) (map_to_list d) |}.
Next Obligation.
  intros A B ?? key_le ? ca cb ?? m d [Hn Hv] Hwf Hm. cbv beta in Hm.
  rewrite length_app, be32_length in Hm. eapply puts_bind.
  - rewrite <-be32_u32. apply put_uint_spec; [done|lia].
  - intros m1 (?&Hi&?). rewrite be32_length in Hi.
    apply put_entries_spec; [by rewrite map_entries_perm|done|lia].
Qed.
Next Obligation.
  intros A B ?? key_le ? ca cb ?? u d l [Hn Hv] Hr. cbv beta in *. rewrite <-app_assoc in Hr.
  simpl. unfold get_map. destruct (get_uint_be32 u _ _ (u32 stale) Hr) as [-> Hr1]. simpl.
  rewrite u32_small, Nat2Z.id by (unfold is_u32; lia).
  rewrite <-(map_entries_length key_le).
  rewrite (get_entries_spec ca cb _ _ l ∅) by (by rewrite ?map_entries_perm).
  rewrite map_entries_rebuild, advance_advance. do 3 f_equal. lia.
Qed.
End laws.

Section theorems.
Context `{Heap}.

Lemma reads_payload m b l :
  marshall_wf m → mbuf m = Some b → RPC_HEADER_SZ ≤ mind m ≤ MARSHALL_MAX →
  drop 24 (marshall_str m) = l →
  reads (set_uind (unmarshall_new b (mind m)) RPC_HEADER_SZ) l.
Proof.
  intros Hwf Hb [Hi Hmax] <-. pose proof (marshall_str_length m Hwf).
  change RPC_HEADER_SZ with 24 in *.
  apply (reads_skip _ _ 24); [by apply reads_taken|done|lia].
Qed.

(** Whatever the type, the value written into a fresh [marshall] is the value
    read back, and [okdone] holds: nothing is left over. *)
Theorem codec_roundtrip {A} (c : codec A) `{!CodecLaws c} (a : A) :
  c_valid c a → RPC_HEADER_SZ + Zlength (enc c a) ≤ MARSHALL_MAX →
  ∃ m b u, c_put c marshall_new a = Done m ∧
    fst (marshall_take_buf m) = (Some b, RPC_HEADER_SZ + Zlength (enc c a)) ∧
    c_get c (set_uind (unmarshall_new b (RPC_HEADER_SZ + Zlength (enc c a))) RPC_HEADER_SZ)
      (c_init c) = Done (u, a) ∧
    okdone u = true.
Proof.
  intros Ha Hmax.
  destruct (put_enc c marshall_new a Ha marshall_new_wf Hmax) as (m&Hp&Hwf&Hi&Hs).
  pose proof Hwf as (b&Hb&_). cbn [marshall_new mind] in Hi.
  assert (drop 24 (marshall_str m) = enc c a) as Hd.
  { rewrite Hs. apply drop_app_length'.
    pose proof (marshall_str_length _ marshall_new_wf) as E.
    change (mind marshall_new) with 24 in E. lia. }
  apply (reads_payload m b _ Hwf Hb) in Hd; [|change RPC_HEADER_SZ with 24 in *; lia].
  rewrite Hi in Hd. rewrite <-(app_nil_r (enc c a)) in Hd at 2.
  eexists m, b, _. split; [done|]. split; [unfold marshall_take_buf; simpl; congruence|].
  rewrite (get_enc c _ _ _ Ha Hd). split; [done|].
  apply reads_advance in Hd. by rewrite (okdone_reads _ _ Hd).
Qed.

(** The template operators of [std::map]: the entries travel in some order, and
    inserting them one by one in the order of arrival rebuilds the map. *)
Theorem map_roundtrip {A B : Type} `{!EqDecision A, !Countable A} (key_le : relation A)
    `{!RelDecision key_le} (ca : codec A) (cb : codec B) `{!CodecLaws ca, !CodecLaws cb}
    (d d0 : gmap A B) u l :
  c_valid (c_map key_le ca cb) d → reads u (enc (c_map key_le ca cb) d ++ l) →
  ∃ u', get_map ca cb u d0 = Done (u', d) ∧ reads u' l.
Proof.
  intros Hd Hr. exists (advance u (Zlength (enc (c_map key_le ca cb) d))).
  split; [|by apply reads_advance]. exact (get_enc (c_map key_le ca cb) u d l Hd Hr).
Qed.
End theorems.

(** ** Witnesses *)

#[local] Existing Instance zero_heap.

Lemma codec_roundtrip_witness :
  ∃ m b u, c_put (c_vector c_uint) marshall_new [3; 5] = Done m ∧
    fst (marshall_take_buf m) = (Some b, 36) ∧
    c_get (c_vector c_uint) (set_uind (unmarshall_new b 36) RPC_HEADER_SZ) [] = Done (u, [3; 5])
    ∧ okdone u = true.
Proof.
  pose proof (codec_roundtrip (c_vector c_uint) [3; 5]) as Hrt.
  change (RPC_HEADER_SZ + Zlength (enc (c_vector c_uint) [3; 5])) with 36 in Hrt.
  apply Hrt; [|vm_compute; discriminate]. split; [done|]. repeat constructor; vm_compute; done || discriminate.
Defined.

Lemma map_roundtrip_witness :
  ∃ u', get_map c_int c_string
    (unmarshall_new (enc (c_map Z.le c_int c_string) {[4 := be32 9]}) 16) ∅ =
    Done (u', {[4 := be32 9]}) ∧ reads u' [].
Proof.
  apply (map_roundtrip Z.le c_int c_string {[4 := be32 9]} ∅ _ []).
  - split; [done|]. rewrite map_to_list_singleton. repeat constructor; vm_compute; discriminate.
  - replace 16 with (Zlength (enc (c_map Z.le c_int c_string) {[4 := be32 9]})) by (by vm_compute).
    rewrite app_nil_r. apply (reads_new (enc (c_map Z.le c_int c_string) {[4 := be32 9]})).
    vm_compute. discriminate.
Defined.

(** the library's own test of marshalling ([testmarshall] of [rpc/rpctest.cc]) *)
Example testmarshall :
  let rh := make_req_header 1 2 3 4 5 in
  let s := byte_of_Z <$> [104; 97; 108; 108; 111] in
  (let! m := pack_req_header marshall_new rh in
   let! m := put_int m 12345 in
   let! m := put_ull m 1223344455 in
   let! m := put_string m s in
   let '(b, sz, _) := marshall_take_buf m in
   let! '(u, rh1) := unpack_req_header (unmarshall_new (default [] b) sz) in
   let! '(u, i1) := get_int u 0 in
   let! '(u, l1) := get_ull u 0 in
   let! '(u, s1) := get_string u [] in
   Done (sz, rh1, i1, l1, s1, okdone u)) =
  Done (24 + 4 + 8 + 4 + 5, rh, 12345, 1223344455, s, true).
Proof. by vm_compute. Qed.
