(* ===== verification/Timespec.v ===== *)
(** * Deadlines and addresses: the auxiliary functions of [rpc/rpc.cc]

    [cmp_timespec], [add_timespec], [diff_timespec] compute the deadlines of
    [rpcc::call1]; [operator<] orders server addresses. *)

From S2P Require Import Prelude.

Record timespec := Timespec { tv_sec : Z; tv_nsec : Z }.

#[export] Instance timespec_eq_dec : EqDecision timespec.
Proof. solve_decision. Defined.

Definition cmp_timespec (a b : timespec) : Z :=
  if decide (tv_sec b < tv_sec a) then 1
  else if decide (tv_sec a < tv_sec b) then -1
  else if decide (tv_nsec b < tv_nsec a) then 1
  else if decide (tv_nsec a < tv_nsec b) then -1
  else 0.

(** [while (tv_nsec > 1000000000) { tv_sec++; tv_nsec -= 1000000000; }] *)
Fixpoint carry_nsec (fuel : nat) (r : timespec) : timespec :=
  match fuel with
  | O => r
  | S fuel =>
      if decide (1000000000 < tv_nsec r) then
        carry_nsec fuel {| tv_sec := tv_sec r + 1; tv_nsec := tv_nsec r - 1000000000 |}
      else r
  end.

Definition carry_fuel (r : timespec) : nat := Z.to_nat (tv_nsec r / 1000000000).

Definition add_timespec (a : timespec) (b : Z) : outcome timespec :=
  let r := {| tv_sec := tv_sec a + Z.quot b 1000;
              tv_nsec := tv_nsec a + Z.rem b 1000 * 1000000 |} in
  check! bool_decide (0 ≤ tv_nsec r) in
  Done (carry_nsec (carry_fuel r) r).

Definition diff_timespec (e s : timespec) : outcome Z :=
  let diff := if decide (tv_sec s < tv_sec e)
              then s32 ((tv_sec e - tv_sec s) * 1000) else 0 in
  check! negb (bool_decide (diff = 0)) || bool_decide (tv_sec e = tv_sec s) in
  if decide (tv_nsec s < tv_nsec e)
  then Done (s32 (diff + Z.quot (tv_nsec e - tv_nsec s) 1000000))
  else Done (s32 (diff - Z.quot (tv_nsec s - tv_nsec e) 1000000)).

(** the part of [sockaddr_in] that the comparison looks at *)
Record sockaddr_in := Sockaddr { s_addr : Z; sin_port : Z }.

Definition sockaddr_lt (a b : sockaddr_in) : bool :=
  bool_decide (s_addr a < s_addr b) ||
  (bool_decide (s_addr a = s_addr b) && bool_decide (sin_port a < sin_port b)).

(** ** Facts *)

(** the instant in nanoseconds *)
Definition nanos (t : timespec) : Z := tv_sec t * 1000000000 + tv_nsec t.

Definition normal (t : timespec) : Prop := 0 ≤ tv_nsec t < 1000000000.

Lemma carry_nsec_spec fuel r :
  0 ≤ tv_nsec r → tv_nsec r ≤ 1000000000 * (Z.of_nat fuel + 1) →
  nanos (carry_nsec fuel r) = nanos r ∧ 0 ≤ tv_nsec (carry_nsec fuel r) ≤ 1000000000.
Proof.
  revert r. induction fuel as [|fuel IH]; intros r H0 Hf; simpl; [lia|].
  case_decide; [|lia]. destruct (IH {| tv_sec := tv_sec r + 1;
    tv_nsec := tv_nsec r - 1000000000 |}) as [E1 E2]; simpl; [lia..|].
  rewrite E1. unfold nanos. simpl. split; lia.
Qed.

(** the loop of [add_timespec] ends by its own test *)
Lemma carry_fuel_enough r :
  0 ≤ tv_nsec r →
  nanos (carry_nsec (carry_fuel r) r) = nanos r ∧
  0 ≤ tv_nsec (carry_nsec (carry_fuel r) r) ≤ 1000000000.
Proof.
  intros H. apply carry_nsec_spec; [done|]. unfold carry_fuel.
  rewrite Z2Nat.id by (apply Z.div_pos; lia). Z.div_mod_to_equations. lia.
Qed.

Lemma add_timespec_spec a b :
  normal a → 0 ≤ b →
  ∃ r, add_timespec a b = Done r ∧ nanos r = nanos a + b * 1000000 ∧
       0 ≤ tv_nsec r ≤ 1000000000.
Proof.
  intros Ha Hb. unfold normal in Ha.
  pose proof (Z.quot_rem' b 1000) as Hq.
  pose proof (Z.rem_bound_pos b 1000 ltac:(lia) ltac:(lia)) as Hr.
  unfold add_timespec. simpl. rewrite bool_decide_eq_true_2 by lia.
  eexists. split; [done|]. set (r := {| tv_sec := _; tv_nsec := _ |}).
  destruct (carry_fuel_enough r) as [E1 E2]; [simpl; lia|]. rewrite E1.
  split; [|done]. unfold r, nanos. simpl. lia.
Qed.

Lemma cmp_timespec_spec a b :
  normal a → normal b → cmp_timespec a b = Z.sgn (nanos a - nanos b).
Proof.
  unfold normal, nanos, cmp_timespec. intros. repeat case_decide; lia.
Qed.

(** ** Theorems *)

(** [add_timespec] adds [b] milliseconds exactly, for every normalised time. *)
Theorem add_timespec_exact a b :
  normal a → 0 ≤ b →
  ∃ r, add_timespec a b = Done r ∧ nanos r = nanos a + b * 1000000 ∧
       0 ≤ tv_nsec r ≤ 1000000000.
Proof. apply add_timespec_spec. Qed.

(** The loop tests [>] and not [>=]: when the nanoseconds add up to one second
    the result keeps [tv_nsec = 1000000000], which is not a normalised time
    ([pthread_cond_timedwait] rejects it). *)
Theorem add_timespec_full_second a b :
  normal a → 0 ≤ b → tv_nsec a + (b `mod` 1000) * 1000000 = 1000000000 →
  ∃ r, add_timespec a b = Done r ∧ tv_nsec r = 1000000000 ∧ ¬ normal r.
Proof.
  intros Ha Hb Hsum. unfold add_timespec. rewrite Z.rem_mod_nonneg by lia. simpl.
  rewrite bool_decide_eq_true_2 by lia. unfold carry_fuel. simpl. rewrite Hsum.
  eexists. split; [done|]. simpl. split; [done|]. unfold normal. simpl. lia.
Qed.

(** [cmp_timespec] compares instants. *)
Theorem cmp_timespec_correct a b :
  normal a → normal b →
  (cmp_timespec a b = 1 ↔ nanos b < nanos a) ∧
  (cmp_timespec a b = -1 ↔ nanos a < nanos b) ∧
  (cmp_timespec a b = 0 ↔ a = b).
Proof.
  intros Ha Hb. rewrite cmp_timespec_spec by done. split; [lia|]. split; [lia|].
  split; [|intros ->; lia]. intros Hs. destruct a, b. unfold normal, nanos in *. simpl in *.
  assert (tv_nsec0 = tv_nsec1 ∧ tv_sec0 = tv_sec1) as [-> ->]; [lia|done].
Qed.

(** [diff_timespec] is the elapsed time in milliseconds, off by less than one. *)
Theorem diff_timespec_close e s :
  normal e → normal s → tv_sec s ≤ tv_sec e → nanos s ≤ nanos e →
  (tv_sec e - tv_sec s) * 1000 + 1000 ≤ INT_MAX →
  ∃ d, diff_timespec e s = Done d ∧
       nanos e - nanos s - 1000000 < d * 1000000 < nanos e - nanos s + 1000000.
Proof.
  unfold normal, nanos, diff_timespec. intros He Hs Hle Hn Hmax.
  set (diff := if decide (tv_sec s < tv_sec e) then _ else _).
  assert (diff = (tv_sec e - tv_sec s) * 1000) as ->.
  { unfold diff. case_decide; [apply s32_small; lia_ints|lia]. }
  assert (negb (bool_decide ((tv_sec e - tv_sec s) * 1000 = 0)) ||
    bool_decide (tv_sec e = tv_sec s) = true) as ->.
  { case_bool_decide; simpl; [apply bool_decide_eq_true_2; lia|done]. }
  case_decide.
  - rewrite Z.quot_div_nonneg by lia. eexists. split; [done|].
    assert (0 ≤ (tv_nsec e - tv_nsec s) `div` 1000000 < 1000) by (Z.div_mod_to_equations; lia).
    rewrite s32_small by lia_ints. Z.div_mod_to_equations. lia.
  - rewrite Z.quot_div_nonneg by lia. eexists. split; [done|].
    assert (0 ≤ (tv_nsec s - tv_nsec e) `div` 1000000 < 1000) by (Z.div_mod_to_equations; lia).
    rewrite s32_small by lia_ints. Z.div_mod_to_equations. lia.
Qed.

(** The order on addresses is a strict total order (as [std::map] requires). *)
Theorem sockaddr_lt_strict_total a b c :
  sockaddr_lt a a = false ∧
  (sockaddr_lt a b = true → sockaddr_lt b c = true → sockaddr_lt a c = true) ∧
  (a = b ∨ sockaddr_lt a b = true ∨ sockaddr_lt b a = true).
Proof.
  unfold sockaddr_lt. destruct a as [a p], b as [b q], c as [c r]. simpl.
  rewrite !orb_true_iff, !andb_true_iff, !bool_decide_eq_true.
  split; [|split].
  - rewrite (bool_decide_eq_false_2 (a < a)), (bool_decide_eq_false_2 (p < p)) by lia.
    apply andb_false_r.
  - lia.
  - destruct (Z.lt_trichotomy a b) as [?|[->|?]]; [lia| |lia].
    destruct (Z.lt_trichotomy p q) as [?|[->|?]]; [lia|by left|lia].
Qed.

(** ** Witnesses *)

Lemma add_timespec_exact_witness :
  ∃ r, add_timespec (Timespec 10 900000000) 2300 = Done r ∧
       nanos r = nanos (Timespec 10 900000000) + 2300 * 1000000 ∧ 0 ≤ tv_nsec r ≤ 1000000000.
Proof. apply add_timespec_exact; [split; simpl; lia|lia]. Defined.

Lemma add_timespec_full_second_witness :
  ∃ r, add_timespec (Timespec 10 500000000) 1500 = Done r ∧ tv_nsec r = 1000000000 ∧ ¬ normal r.
Proof. apply add_timespec_full_second; [split; simpl; lia|lia|done]. Defined.

Lemma cmp_timespec_correct_witness :
  (cmp_timespec (Timespec 3 5) (Timespec 2 9) = 1 ↔ nanos (Timespec 2 9) < nanos (Timespec 3 5)) ∧
  (cmp_timespec (Timespec 3 5) (Timespec 2 9) = -1 ↔ nanos (Timespec 3 5) < nanos (Timespec 2 9)) ∧
  (cmp_timespec (Timespec 3 5) (Timespec 2 9) = 0 ↔ Timespec 3 5 = Timespec 2 9).
Proof. apply cmp_timespec_correct; split; simpl; lia. Defined.

Lemma diff_timespec_close_witness :
  ∃ d, diff_timespec (Timespec 5 100000000) (Timespec 3 900000000) = Done d ∧
       nanos (Timespec 5 100000000) - nanos (Timespec 3 900000000) - 1000000 < d * 1000000 <
       nanos (Timespec 5 100000000) - nanos (Timespec 3 900000000) + 1000000.
Proof.
  apply diff_timespec_close; unfold normal, nanos, INT_MAX; simpl; lia.
Defined.

Lemma sockaddr_lt_strict_total_witness :
  sockaddr_lt (Sockaddr 1 2) (Sockaddr 1 2) = false ∧
  (sockaddr_lt (Sockaddr 1 2) (Sockaddr 1 3) = true →
   sockaddr_lt (Sockaddr 1 3) (Sockaddr 2 0) = true →
   sockaddr_lt (Sockaddr 1 2) (Sockaddr 2 0) = true) ∧
  (Sockaddr 1 2 = Sockaddr 1 3 ∨ sockaddr_lt (Sockaddr 1 2) (Sockaddr 1 3) = true ∨
   sockaddr_lt (Sockaddr 1 3) (Sockaddr 1 2) = true).
Proof. apply sockaddr_lt_strict_total. Defined.
