(* ===== verification/Address.v ===== *)
(** * Addresses: [make_sockaddr] of [rpc/rpc.cc]

    A C string is the list of its bytes before the terminating 0.  The resolver
    ([inet_addr], [gethostbyname]) is a parameter. *)

From Stdlib Require Import Strings.Byte.
From S2P Require Import Prelude Timespec.

(** ** Definitions *)

Definition INADDR_NONE : Z := 2 ^ 32 - 1.

(** [gethostbyname]: the length and the first address of an entry *)
Class Resolver := {
  inet_addr : list byte → Z;
  gethostbyname : list byte → option (Z * Z) }.

(** [index(s, ':')] *)
Fixpoint index_colon (s : list byte) : option nat :=
  match s with
  | [] => None
  | c :: s => if decide (c = ":"%byte) then Some O else S <$> index_colon s
  end.

Definition localhost : list byte :=
  ["1"; "2"; "7"; "."; "0"; "."; "0"; "."; "1"]%byte.

Definition isspace (c : byte) : bool :=
  let z := Z_of_byte c in bool_decide (z = 32) || bool_decide (9 ≤ z ≤ 13).

Definition digit_value (c : byte) : option Z :=
  let z := Z_of_byte c in if decide (48 ≤ z ≤ 57) then Some (z - 48) else None.

(** the value of the leading digits *)
Fixpoint leading (acc : Z) (s : list byte) : Z :=
  match s with
  | [] => acc
  | c :: s => match digit_value c with
              | Some d => leading (acc * 10 + d) s
              | None => acc
              end
  end.

Fixpoint skip_space (s : list byte) : list byte :=
  match s with
  | c :: s' => if isspace c then skip_space s' else s
  | [] => []
  end.

(** [atoi]; its result is undefined when the value is not an [int] *)
Definition atoi (s : list byte) : outcome Z :=
  let v := match skip_space s with
           | c :: s' => if decide (c = "-"%byte) then - leading 0 s'
                        else if decide (c = "+"%byte) then leading 0 s'
                        else leading 0 (c :: s')
           | [] => 0
           end in
  if decide (INT_MIN ≤ v ≤ INT_MAX) then Done v else Fault SignedOverflow.

(** [htons] on a little-endian machine, its argument converted to [uint16_t] *)
Definition htons (z : Z) : Z := let z := u16 z in z `mod` 256 * 256 + z / 256.

Section make_sockaddr.
Context `{Resolver}.

(** [make_sockaddr(host, port, dst)]; [None]: the process exits with status 1 *)
Definition make_sockaddr (host port : list byte) : outcome (option sockaddr_in) :=
  let a := inet_addr host in
  let addr := if decide (a ≠ INADDR_NONE) then Some a
              else match gethostbyname host with
                   | None => None
                   | Some (len, a) => if decide (len = 4) then Some a else None
                   end in
  match addr with
  | None => Done None
  | Some a => let! p := atoi port in Done (Some {| s_addr := a; sin_port := htons p |})
  end.

(** [make_sockaddr(hostandport, dst)]: [host] has 200 bytes *)
Definition make_sockaddr_str (hostandport : list byte) : outcome (option sockaddr_in) :=
  match index_colon hostandport with
  | None => make_sockaddr localhost hostandport
  | Some n =>
      if decide (Z.of_nat n < 200) then
        make_sockaddr (take n hostandport) (drop (S n) hostandport)
      else Fault OutOfBounds
  end.

End make_sockaddr.

(** ** Facts *)

(** [n] in decimal *)
Fixpoint decimal (fuel : nat) (n : Z) : list byte :=
  match fuel with
  | O => []
  | S fuel => (if decide (n < 10) then [] else decimal fuel (n / 10)) ++
              [byte_of_Z (48 + n `mod` 10)]
  end.

Lemma digit_value_digit d : 0 ≤ d < 10 → digit_value (byte_of_Z (48 + d)) = Some d.
Proof.
  intros Hd. unfold digit_value. rewrite Z_of_byte_of_Z, Z.mod_small by lia.
  rewrite decide_True by lia. f_equal. lia.
Qed.

Lemma leading_decimal fuel n acc l :
  0 ≤ n < 10 ^ Z.of_nat fuel →
  ∃ k, leading acc (decimal fuel n ++ l) = leading (acc * 10 ^ k + n) l ∧ 0 ≤ k.
Proof.
  revert n acc l. induction fuel as [|fuel IH]; intros n acc l Hn.
  { exists 0. cbn. replace n with 0 by (cbn in Hn; lia). split; [|done]. f_equal. lia. }
  cbn [decimal]. pose proof (Z.mod_pos_bound n 10). pose proof (Z_div_mod_eq_full n 10).
  case_decide as Hs.
  - exists 1. split; [|lia]. cbn [app leading]. rewrite digit_value_digit by lia.
    f_equal. rewrite Z.mod_small by lia. lia.
  - rewrite <-app_assoc. destruct (IH (n / 10) acc ([byte_of_Z (48 + n `mod` 10)] ++ l))
      as (k&->&Hk).
    { rewrite Nat2Z.inj_succ, Z.pow_succ_r in Hn by lia.
      split; [apply Z.div_pos; lia|]. apply Z.div_lt_upper_bound; lia. }
    exists (k + 1). split; [|lia]. cbn [app leading]. rewrite digit_value_digit by lia.
    f_equal. rewrite Z.pow_add_r by lia. lia.
Qed.

Lemma decimal_head fuel n :
  0 ≤ n < 10 ^ Z.of_nat fuel → (0 < fuel)%nat →
  ∃ d l, decimal fuel n = byte_of_Z (48 + d) :: l ∧ 0 ≤ d < 10.
Proof.
  revert n. induction fuel as [|fuel IH]; intros n Hn Hf; [lia|]. cbn [decimal].
  pose proof (Z.mod_pos_bound n 10). case_decide as Hs; [eexists _, _; split; [done|lia]|].
  destruct fuel as [|fuel]; [cbn in Hn; lia|].
  destruct (IH (n / 10)) as (d&l&->&Hd); [|lia|].
  { rewrite Nat2Z.inj_succ, Z.pow_succ_r in Hn by lia.
    split; [apply Z.div_pos; lia|]. apply Z.div_lt_upper_bound; lia. }
  eexists _, _. split; [done|lia].
Qed.

(** how [atoi] and [operator>>] see a printed number *)
Lemma scan_decimal fuel n :
  0 ≤ n < 10 ^ Z.of_nat (S fuel) →
  ∃ c s, skip_space (decimal (S fuel) n) = c :: s ∧ c ≠ "-"%byte ∧ c ≠ "+"%byte ∧
    leading 0 (c :: s) = n.
Proof.
  intros Hn. destruct (decimal_head (S fuel) n) as (d&l&E&Hd); [done|lia|].
  destruct (leading_decimal (S fuel) n 0 []) as (k&L&_); [done|].
  rewrite app_nil_r, E in L. exists (byte_of_Z (48 + d)), l. rewrite E. cbn [skip_space].
  unfold isspace. rewrite Z_of_byte_of_Z, Z.mod_small by lia. rewrite !bool_decide_eq_false_2 by lia.
  assert (∀ c, Z_of_byte c < 48 → byte_of_Z (48 + d) ≠ c) as Hne.
  { intros c Hc <-. rewrite Z_of_byte_of_Z, Z.mod_small in Hc; lia. }
  split; [done|]. split; [by apply Hne; vm_compute|]. split; [by apply Hne; vm_compute|]. by rewrite L.
Qed.

Lemma atoi_decimal n : 0 ≤ n ≤ INT_MAX → atoi (decimal 10 n) = Done n.
Proof.
  intros Hn. assert (INT_MAX = 2147483647 ∧ INT_MIN = -2147483648) as [HM Hm] by done.
  destruct (scan_decimal 9 n) as (c&s&E&Hm'&Hp&L);
    [change (10 ^ Z.of_nat 10) with 10000000000; lia|].
  unfold atoi. rewrite E, (decide_False (P := c = "-"%byte)), (decide_False (P := c = "+"%byte)), L by done. by rewrite decide_True by lia.
Qed.

Lemma htons_involutive z : htons (htons z) = u16 z.
Proof.
  unfold htons, u16, wrap. change (2 ^ 16) with 65536.
  pose proof (Z.mod_pos_bound z 65536 ltac:(lia)) as Hz. set (y := z `mod` 65536) in *.
  pose proof (Z.mod_pos_bound y 256 ltac:(lia)). pose proof (Z_div_mod_eq_full y 256).
  assert (0 ≤ y / 256 < 256) by lia. rewrite (Z.mod_small (_ + _) 65536) by lia.
  set (a := y `mod` 256) in *. set (b := y / 256) in *.
  assert ((a * 256 + b) / 256 = a) as -> by (symmetry; apply (Z.div_unique _ _ _ b); lia).
  assert ((a * 256 + b) `mod` 256 = b) as -> by (symmetry; apply (Z.mod_unique _ _ a); lia).
  lia.
Qed.

Lemma index_colon_app h p :
  ":"%byte ∉ h → index_colon (h ++ ":"%byte :: p) = Some (length h).
Proof.
  induction h as [|c h IH]; intros Hn; cbn.
  { rewrite decide_True; done. }
  apply not_elem_of_cons in Hn as [Hc Hh]. rewrite decide_False by done. by rewrite IH.
Qed.

Lemma index_colon_none s : ":"%byte ∉ s → index_colon s = None.
Proof.
  induction s as [|c s IH]; intros Hn; [done|]. cbn. apply not_elem_of_cons in Hn as [Hc Hs].
  rewrite decide_False by done. by rewrite IH.
Qed.

(** ** Theorems *)

Section theorems.
Context `{Resolver}.


(** A bare port is a port of the local host. *)
Theorem make_sockaddr_port p :
  0 ≤ p < 65536 → inet_addr localhost ≠ INADDR_NONE →
  make_sockaddr_str (decimal 10 p) =
    Done (Some {| s_addr := inet_addr localhost; sin_port := htons p |}).
Proof.
  intros Hp Ha. unfold make_sockaddr_str. rewrite index_colon_none.
  - unfold make_sockaddr. cbv zeta. rewrite decide_True by done. rewrite atoi_decimal; [done|].
    assert (INT_MAX = 2147483647) by done. lia.
  - generalize 10%nat. intros fuel. revert p Hp. induction fuel as [|fuel IH]; intros p Hp.
    { apply not_elem_of_nil. }
    cbn [decimal]. pose proof (Z.mod_pos_bound p 10). intros [Hin|Hin]%elem_of_app.
    + case_decide; [by apply elem_of_nil in Hin|]. apply (IH (p / 10)); [|done].
      split; [apply Z.div_pos; lia|]. apply Z.div_lt_upper_bound; lia.
    + apply list_elem_of_singleton in Hin. apply (f_equal Z_of_byte) in Hin.
      rewrite Z_of_byte_of_Z, Z.mod_small in Hin by lia. change (Z_of_byte ":"%byte) with 58 in Hin. lia.
Qed.

End theorems.

(** ** Witnesses *)

(** knows the local host only *)
#[local] Instance local_resolver : Resolver :=
  {| inet_addr := λ h, if decide (h = localhost) then 16777343 else INADDR_NONE;
     gethostbyname := λ _, None |}.


Lemma make_sockaddr_port_witness :
  make_sockaddr_str (decimal 10 3772) =
    Done (Some {| s_addr := 16777343; sin_port := htons 3772 |}).
Proof. rewrite (make_sockaddr_port 3772); [by vm_compute|lia|by vm_compute]. Defined.

Lemma port_resolves : make_sockaddr_str (decimal 10 3772) =
  Done (Some {| s_addr := 16777343; sin_port := htons 3772 |}).
Proof. by vm_compute. Qed.

Example unknown_host_exits : make_sockaddr_str ["x"; ":"; "1"]%byte = Done None.
Proof. vm_compute. reflexivity. Qed.

Example decimal_3772 : decimal 10 3772 = ["3"; "7"; "7"; "2"]%byte.
Proof. vm_compute. reflexivity. Qed.
