(* ===== verification/ThrPool.v ===== *)
(** * The bounded queue and the thread pool: [rpc/fifo.h], [rpc/thr_pool.cc]

    [enq] and [deq] hold the mutex from the wake-up to the next wait, so each
    turn of their loops is one step; [pthread_cond_signal] wakes one waiter, of
    the scheduler's choice, and a waiter may also wake for no reason.  The pool
    is a transition system of its workers, of the threads that add jobs and of
    its destructor. *)

From S2P Require Import Prelude.

(** ** The queue *)

Section fifo.
Context {T : Type}.

Record fifo := Fifo { q_ : list T; max_ : Z }.

Definition fifo_new (limit : Z) : fifo := {| q_ := []; max_ := u32 limit |}.

(** [size()] is declared to return [bool] *)
Definition fifo_size (f : fifo) : bool := bool_decide (length (q_ f) ≠ 0%nat).

(** one turn of the loop of [enq] *)
Inductive enq_turn :=
  | EnqDone (f : fifo)     (**r pushed; [non_empty_c_] is signalled *)
  | EnqFalse               (**r full, and not blocking *)
  | EnqWait.               (**r waits on [has_space_c_] *)

Definition enq (f : fifo) (e : T) (blocking : bool) : enq_turn :=
  if bool_decide (max_ f = 0) || bool_decide (Zlength (q_ f) < max_ f) then
    EnqDone {| q_ := q_ f ++ [e]; max_ := max_ f |}
  else if blocking then EnqWait else EnqFalse.

(** one turn of the loop of [deq] *)
Inductive deq_turn :=
  | DeqDone (e : T) (f : fifo) (signal : bool)   (**r popped; is [has_space_c_] signalled? *)
  | DeqWait.                                     (**r waits on [non_empty_c_] *)

Definition deq (f : fifo) : deq_turn :=
  match q_ f with
  | [] => DeqWait
  | e :: q => DeqDone e {| q_ := q; max_ := max_ f |}
                (bool_decide (max_ f ≠ 0) && bool_decide (Zlength q < max_ f))
  end.
End fifo.
Arguments fifo : clear implicits.
Arguments enq_turn : clear implicits.
Arguments deq_turn : clear implicits.

(** ** The pool *)

Section pool.
Context {J : Type}.

(** a [job_t]; [None] has a null function, the poison pill *)
Abbreviation item := (option J).

Inductive worker :=
  | WTake            (**r in [takeJob], about to look at the queue *)
  | WWait            (**r asleep in [deq] *)
  | WRun (j : J)     (**r running a job *)
  | WExit.           (**r [pthread_exit] *)

(** a call of [addJob] *)
Inductive adder :=
  | ATry (j : J)           (**r about to look at the queue *)
  | AWait (j : J)          (**r asleep in [enq] *)
  | AReturned (b : bool).

(** the thread that runs the destructor *)
Inductive dtor :=
  | DNone              (**r the destructor was not called *)
  | DPill (k : nat)    (**r [k] pills are still to be enqueued *)
  | DWait (k : nat)    (**r asleep in [enq] *)
  | DJoin              (**r in [pthread_join] *)
  | DDone.

Record pool := Pool {
  blockadd_ : bool;
  jobq_ : fifo item;
  th_ : list worker;
  pl_adders : list adder;
  pl_dtor : dtor;
  pl_accepted : list item;    (**r what [enq] pushed, in order *)
  pl_taken : list item;       (**r what [deq] returned, in order *)
  pl_finished : list J }.

Definition pool_new (sz : nat) (blocking : bool) : pool :=
  {| blockadd_ := blocking; jobq_ := fifo_new (100 * Z.of_nat sz); th_ := replicate sz WTake;
     pl_adders := []; pl_dtor := DNone; pl_accepted := []; pl_taken := []; pl_finished := [] |}.

Definition set_queue (y : pool) f : pool :=
  {| blockadd_ := blockadd_ y; jobq_ := f; th_ := th_ y; pl_adders := pl_adders y;
     pl_dtor := pl_dtor y; pl_accepted := pl_accepted y; pl_taken := pl_taken y;
     pl_finished := pl_finished y |}.
Definition set_worker (y : pool) k w : pool :=
  {| blockadd_ := blockadd_ y; jobq_ := jobq_ y; th_ := <[k := w]> (th_ y);
     pl_adders := pl_adders y; pl_dtor := pl_dtor y; pl_accepted := pl_accepted y;
     pl_taken := pl_taken y; pl_finished := pl_finished y |}.
Definition set_adders (y : pool) l : pool :=
  {| blockadd_ := blockadd_ y; jobq_ := jobq_ y; th_ := th_ y; pl_adders := l;
     pl_dtor := pl_dtor y; pl_accepted := pl_accepted y; pl_taken := pl_taken y;
     pl_finished := pl_finished y |}.
Definition set_dtor (y : pool) d : pool :=
  {| blockadd_ := blockadd_ y; jobq_ := jobq_ y; th_ := th_ y; pl_adders := pl_adders y;
     pl_dtor := d; pl_accepted := pl_accepted y; pl_taken := pl_taken y;
     pl_finished := pl_finished y |}.
Definition accepted (y : pool) e : pool :=
  {| blockadd_ := blockadd_ y; jobq_ := jobq_ y; th_ := th_ y; pl_adders := pl_adders y;
     pl_dtor := pl_dtor y; pl_accepted := pl_accepted y ++ [e]; pl_taken := pl_taken y;
     pl_finished := pl_finished y |}.
Definition taken (y : pool) e : pool :=
  {| blockadd_ := blockadd_ y; jobq_ := jobq_ y; th_ := th_ y; pl_adders := pl_adders y;
     pl_dtor := pl_dtor y; pl_accepted := pl_accepted y; pl_taken := pl_taken y ++ [e];
     pl_finished := pl_finished y |}.
Definition finished (y : pool) j : pool :=
  {| blockadd_ := blockadd_ y; jobq_ := jobq_ y; th_ := th_ y; pl_adders := pl_adders y;
     pl_dtor := pl_dtor y; pl_accepted := pl_accepted y; pl_taken := pl_taken y;
     pl_finished := pl_finished y ++ [j] |}.

(** *** Signals *)

Definition asleep (w : worker) : nat := match w with WWait => 1 | _ => 0 end.
Definition awake (w : worker) : nat := match w with WTake => 1 | _ => 0 end.
Definition sleepers (y : pool) : nat := sum_list_with asleep (th_ y).

(** the threads asleep in [enq]: adders, and the destructor *)
Definition adder_asleep (a : adder) : nat := match a with AWait _ => 1 | _ => 0 end.
Definition adder_awake (a : adder) : nat := match a with ATry _ => 1 | _ => 0 end.
Definition dtor_asleep (d : dtor) : nat := match d with DWait _ => 1 | _ => 0 end.
Definition dtor_awake (d : dtor) : nat := match d with DPill (S _) => 1 | _ => 0 end.
Definition waiting_adders (y : pool) : nat :=
  sum_list_with adder_asleep (pl_adders y) + dtor_asleep (pl_dtor y).
Definition trying_adders (y : pool) : nat :=
  sum_list_with adder_awake (pl_adders y) + dtor_awake (pl_dtor y).

(** [pthread_cond_signal(&non_empty_c_)]: the waiter [k] wakes; without a waiter
    the signal is lost *)
Definition signal_non_empty (y : pool) (k : nat) : option pool :=
  if decide (sleepers y = 0%nat) then Some y
  else match th_ y !! k with Some WWait => Some (set_worker y k WTake) | _ => None end.

(** whom [pthread_cond_signal(&has_space_c_)] wakes: an adder or the destructor *)
Definition wake_adder (y : pool) (k : option nat) : option pool :=
  match k with
  | Some k => match pl_adders y !! k with
              | Some (AWait j) => Some (set_adders y (<[k := ATry j]> (pl_adders y)))
              | _ => None
              end
  | None => match pl_dtor y with DWait n => Some (set_dtor y (DPill n)) | _ => None end
  end.

Definition signal_has_space (y : pool) (k : option nat) : option pool :=
  if decide (waiting_adders y = 0%nat) then Some y else wake_adder y k.

(** *** Steps; the last argument is the scheduler's choice of whom a signal wakes *)

(** [takeJob] of worker [i], one turn of [deq] *)
Definition worker_take (y : pool) (i : nat) (choice : option nat) : option pool :=
  match deq (jobq_ y) with
  | DeqWait => Some (set_worker y i WWait)
  | DeqDone e f sig =>
      let y := taken (set_queue y f) e in
      let y := set_worker y i (match e with Some j => WRun j | None => WExit end) in
      if sig : bool then signal_has_space y choice else Some y
  end.

(** [addJob] number [i], one turn of [enq] *)
Definition adder_try (y : pool) (i : nat) (j : J) (choice : nat) : option pool :=
  match enq (jobq_ y) (Some j) (blockadd_ y) with
  | EnqDone f =>
      let y := accepted (set_queue y f) (Some j) in
      signal_non_empty (set_adders y (<[i := AReturned true]> (pl_adders y))) choice
  | EnqFalse => Some (set_adders y (<[i := AReturned false]> (pl_adders y)))
  | EnqWait => Some (set_adders y (<[i := AWait j]> (pl_adders y)))
  end.

(** the destructor: a pill for each worker, then it joins them one by one *)
Definition dtor_step (y : pool) (choice : nat) : option pool :=
  match pl_dtor y with
  | DPill (S k) =>
      match enq (jobq_ y) None true with
      | EnqDone f =>
          signal_non_empty (set_dtor (accepted (set_queue y f) None) (DPill k)) choice
      | _ => Some (set_dtor y (DWait (S k)))
      end
  | DPill O => Some (set_dtor y DJoin)
  | DJoin => if forallb (λ w, match w with WExit => true | _ => false end) (th_ y)
             then Some (set_dtor y DDone) else None
  | _ => None
  end.

Inductive paction :=
  | PAdd (j : J)                             (**r a thread calls [addJob] *)
  | PTry (i : nat) (choice : nat)            (**r an adder looks at the queue *)
  | PTake (i : nat) (choice : option nat)    (**r a worker looks at the queue *)
  | PFinish (i : nat)                        (**r the job of a worker returns *)
  | PDestroy                                 (**r the destructor is called *)
  | PDtor (choice : nat)                     (**r the destructor makes a step *)
  | PWakeWorker (i : nat)                    (**r a worker wakes for no reason *)
  | PWakeAdder (k : option nat).             (**r an adder wakes for no reason *)

Definition pact (y : pool) (a : paction) : option pool :=
  match a with
  | PAdd j => match pl_dtor y with
              | DNone => Some (set_adders y (pl_adders y ++ [ATry j]))
              | _ => None
              end
  | PTry i choice => match pl_adders y !! i with
                     | Some (ATry j) => adder_try y i j choice
                     | _ => None
                     end
  | PTake i choice => match th_ y !! i with
                      | Some WTake => worker_take y i choice
                      | _ => None
                      end
  | PFinish i => match th_ y !! i with
                 | Some (WRun j) => Some (set_worker (finished y j) i WTake)
                 | _ => None
                 end
  | PDestroy =>
      match pl_dtor y with
      | DNone => if decide (waiting_adders y = 0%nat ∧ trying_adders y = 0%nat)
                 then Some (set_dtor y (DPill (length (th_ y)))) else None
      | _ => None
      end
  | PDtor choice => dtor_step y choice
  | PWakeWorker i => match th_ y !! i with
                     | Some WWait => Some (set_worker y i WTake)
                     | _ => None
                     end
  | PWakeAdder k => wake_adder y k
  end.

Fixpoint pacts (y : pool) (l : list paction) : option pool :=
  match l with
  | [] => Some y
  | a :: l => y ← pact y a; pacts y l
  end.
End pool.
Arguments worker : clear implicits.
Arguments adder : clear implicits.
Arguments pool : clear implicits.
Arguments paction : clear implicits.

(** ** The queue against a list *)

(** Enqueueing appends, dequeueing takes from the front, and a queue that is not
    full is never waited for; a queue that is not empty neither. *)
Lemma enq_spec {T} (f : fifo T) e b :
  match enq f e b with
  | EnqDone f' => q_ f' = q_ f ++ [e] ∧ max_ f' = max_ f ∧
                  (max_ f = 0 ∨ Zlength (q_ f') ≤ max_ f)
  | EnqFalse => b = false ∧ max_ f ≠ 0 ∧ max_ f ≤ Zlength (q_ f)
  | EnqWait => b = true ∧ max_ f ≠ 0 ∧ max_ f ≤ Zlength (q_ f)
  end.
Proof.
  unfold enq. destruct (decide (max_ f = 0)) as [E|E].
  { rewrite (bool_decide_eq_true_2 (max_ f = 0)) by done. simpl. auto. }
  rewrite (bool_decide_eq_false_2 (max_ f = 0)) by done. simpl.
  case_bool_decide as Hl; simpl.
  - rewrite length_app. simpl. split_and!; [done|done|lia].
  - destruct b; split_and!; (done || lia).
Qed.

Lemma deq_spec {T} (f : fifo T) :
  match deq f with
  | DeqDone e f' sig =>
      q_ f = e :: q_ f' ∧ max_ f' = max_ f ∧
      (max_ f ≠ 0 → Zlength (q_ f) ≤ max_ f → sig = true)
  | DeqWait => q_ f = []
  end.
Proof.
  unfold deq. destruct (q_ f) as [|e q]; [done|]. split_and!; [done|done|].
  intros ? Hl. simpl in Hl. rewrite !bool_decide_eq_true_2; [done|lia|done].
Qed.

(** ** The invariant of the pool *)

Section pool_facts.
Context {J : Type}.
Implicit Types (y : pool J) (w : worker J) (e : option J).

Definition running (w : worker J) : list J := match w with WRun j => [j] | _ => [] end.
Definition exited (w : worker J) : nat := match w with WExit => 1 | _ => 0 end.
Definition is_pill (e : option J) : nat := match e with None => 1 | Some _ => 0 end.

(** the pills the destructor has not enqueued yet *)
Definition pills_left (sz : nat) (d : dtor) : nat :=
  match d with DNone => sz | DPill k | DWait k => k | DJoin | DDone => 0 end.

(** what holds of the queue, the threads and the histories at every moment *)
Record pool_base (sz : nat) (y : pool J) : Prop := {
  po_threads : length (th_ y) = sz;
  po_max : max_ (jobq_ y) = 100 * Z.of_nat sz;
  po_fifo : pl_accepted y = pl_taken y ++ q_ (jobq_ y);
  po_bound : Zlength (q_ (jobq_ y)) ≤ 100 * Z.of_nat sz;
  po_pills : ∃ js n, pl_accepted y = (Some <$> js) ++ replicate n None ∧
    (n + pills_left sz (pl_dtor y) = sz)%nat;
  po_dwait : pl_dtor y ≠ DWait 0;
  po_exits : sum_list_with exited (th_ y) = sum_list_with is_pill (pl_taken y);
  po_jobs : omap id (pl_taken y) ≡ₚ mjoin (running <$> th_ y) ++ pl_finished y;
  po_quiet : pl_dtor y ≠ DNone → sum_list_with adder_asleep (pl_adders y) = 0%nat ∧
    sum_list_with adder_awake (pl_adders y) = 0%nat;
  po_done : pl_dtor y = DDone → Forall (λ w, w = WExit) (th_ y) }.

(** no wake-up is lost: while a worker sleeps, every queued job has a worker that
    is about to look at the queue, [n] jobs excepted; while an adder sleeps,
    every free place of the queue has an adder that is about to look *)
Definition workers_ok (n : nat) (y : pool J) : Prop :=
  (0 < sleepers y)%nat → (length (q_ (jobq_ y)) ≤ sum_list_with awake (th_ y) + n)%nat.
Definition adders_ok (n sz : nat) (y : pool J) : Prop :=
  (0 < waiting_adders y)%nat →
  100 * Z.of_nat sz ≤ Zlength (q_ (jobq_ y)) + Z.of_nat (trying_adders y + n).

Definition pool_ok (sz : nat) (y : pool J) : Prop :=
  pool_base sz y ∧ workers_ok 0 y ∧ adders_ok 0 sz y.

(** 100 * sz is computed in [int] *)
Definition pool_size (sz : nat) : Prop := (0 < sz)%nat ∧ 100 * Z.of_nat sz ≤ INT_MAX.

Lemma pool_new_ok sz blocking : pool_size sz → pool_ok sz (pool_new sz blocking).
Proof.
  intros [Hsz Hint].
  assert (∀ f : worker J → nat, f WTake = 0%nat → sum_list_with f (replicate sz WTake) = 0%nat)
    as Hz.
  { intros f Hf. apply sum_list_with_zero. apply Forall_replicate. exact Hf. }
  split_and!.
  - split; cbn [th_ jobq_ q_ max_ fifo_new pl_accepted pl_taken pl_dtor pl_adders pl_finished
              pool_new]; try done.
    + apply length_replicate.
    + apply u32_small. unfold_ints. lia.
    + simpl. lia.
    + exists [], 0%nat. by split.
    + by apply Hz.
    + simpl. rewrite app_nil_r. clear. induction sz; [done|]. simpl. done.
  - unfold workers_ok, sleepers. simpl. rewrite Hz by done. lia.
  - unfold adders_ok, waiting_adders. simpl. lia.
Qed.

(** a worker changes its state, with or without a job taken or finished *)
Lemma set_worker_counts y i w v :
  th_ y !! i = Some w →
  (sleepers (set_worker y i v) + asleep w = sleepers y + asleep v)%nat ∧
  (sum_list_with awake (th_ (set_worker y i v)) + awake w =
   sum_list_with awake (th_ y) + awake v)%nat ∧
  (sum_list_with exited (th_ (set_worker y i v)) + exited w =
   sum_list_with exited (th_ y) + exited v)%nat.
Proof. intros E. unfold sleepers. simpl. by rewrite !(sum_list_with_insert _ _ _ _ v E). Qed.

(** a worker that sleeps or wakes *)
Lemma set_worker_base sz y i w v :
  pool_base sz y → th_ y !! i = Some w → running w = running v → exited w = exited v →
  pl_dtor y ≠ DDone ∨ exited w = 1%nat → pool_base sz (set_worker y i v).
Proof.
  intros [] E Hr He Hd. destruct (set_worker_counts y i w v E) as (_&_&Hx).
  destruct (mjoin_insert running _ i w v E) as (r&Hr1&Hr2).
  split; cbn [th_ jobq_ pl_accepted pl_taken pl_dtor pl_adders pl_finished set_worker]; try done.
  - by rewrite length_insert.
  - simpl in Hx. lia.
  - rewrite Hr2, <-Hr, <-Hr1. done.
  - intros HD. destruct Hd as [?|Hd]; [done|]. specialize (po_done0 HD).
    apply Forall_insert; [done|]. destruct v; try done; simpl in *; lia.
Qed.

Lemma signal_non_empty_ok sz y k y' :
  pool_base sz y → pl_dtor y ≠ DDone → workers_ok 1 y → adders_ok 0 sz y →
  signal_non_empty y k = Some y' → pool_ok sz y'.
Proof.
  intros HB HD HW HA. unfold signal_non_empty. case_decide as Hs.
  { intros [= <-]. split_and!; [done| |done]. intros ?. lia. }
  destruct (th_ y !! k) as [[]|] eqn:E; try done. intros [= <-]. split_and!.
  - eapply set_worker_base; try done. by left.
  - destruct (set_worker_counts y k _ WTake E) as (H1&H2&_). intros Hp.
    simpl in *. pose proof (HW ltac:(lia)). lia.
  - exact HA.
Qed.

(** an adder changes its state *)
Lemma set_adder_counts y i a v :
  pl_adders y !! i = Some a →
  let y' := set_adders y (<[i := v]> (pl_adders y)) in
  (waiting_adders y' + adder_asleep a = waiting_adders y + adder_asleep v)%nat ∧
  (trying_adders y' + adder_awake a = trying_adders y + adder_awake v)%nat.
Proof.
  intros E. unfold waiting_adders, trying_adders. simpl.
  pose proof (sum_list_with_insert adder_asleep _ _ _ v E).
  pose proof (sum_list_with_insert adder_awake _ _ _ v E). lia.
Qed.

Lemma adders_quiet y :
  sum_list_with adder_asleep (pl_adders y) = 0%nat →
  sum_list_with adder_awake (pl_adders y) = 0%nat →
  ∀ i a, pl_adders y !! i = Some a → ∃ r, a = AReturned r.
Proof.
  rewrite !sum_list_with_zero, !Forall_lookup. intros Hs Ha i a E.
  specialize (Hs i a E). specialize (Ha i a E). destruct a; simpl in *; try lia. eauto.
Qed.

(** a step of an adder leaves the base invariant alone *)
Lemma set_adders_base sz y l :
  pool_base sz y → pl_dtor y = DNone → pool_base sz (set_adders y l).
Proof. intros [] HD. split; simpl; try done. Qed.

Lemma adder_pending sz y i a :
  pool_base sz y → pl_adders y !! i = Some a → (0 < adder_asleep a + adder_awake a)%nat →
  pl_dtor y = DNone.
Proof.
  intros HB E Ha.
  assert (pl_dtor y = DNone ∨ pl_dtor y ≠ DNone) as [|HD] by (destruct (pl_dtor y); auto); [done|].
  destruct (po_quiet _ _ HB HD) as [H1 H2].
  destruct (adders_quiet y H1 H2 i a E) as [r ->]. simpl in Ha. lia.
Qed.

Lemma wake_adder_ok sz y k y' :
  pool_base sz y → workers_ok 0 y → adders_ok 1 sz y → wake_adder y k = Some y' →
  pool_ok sz y'.
Proof.
  intros HB HW HA. unfold wake_adder. destruct k as [k|].
  - destruct (pl_adders y !! k) as [[|j|]|] eqn:E; try done. intros [= <-].
    destruct (set_adder_counts y k _ (ATry j) E) as [H1 H2]. simpl in H1, H2.
    assert (pl_dtor y = DNone) as HD by (eapply adder_pending; [done..|simpl; lia]).
    split_and!; [by apply set_adders_base|exact HW|].
    intros Hp. pose proof (HA ltac:(lia)). simpl. lia.
  - destruct (pl_dtor y) as [| |n| |] eqn:ED; try done. intros [= <-].
    assert (n ≠ 0%nat) as Hn by (intros ->; by apply (po_dwait _ _ HB)).
    split_and!; [|exact HW|].
    + destruct HB. split; cbn [th_ jobq_ pl_accepted pl_taken pl_dtor pl_adders pl_finished set_dtor];
        try done; [by rewrite ED in po_pills0|intros _; apply po_quiet0; by rewrite ED].
    + revert HA. unfold adders_ok, waiting_adders, trying_adders. simpl. rewrite ED.
      destruct n; [done|]. simpl. intros HA Hp. pose proof (HA ltac:(lia)). lia.
Qed.

(** an adder that wakes for no reason does no harm *)
Lemma adders_ok_weaken m n sz y : (m ≤ n)%nat → adders_ok m sz y → adders_ok n sz y.
Proof. intros ? HA Hp. specialize (HA Hp). lia. Qed.

Lemma signal_has_space_ok sz y k y' :
  pool_base sz y → workers_ok 0 y → adders_ok 1 sz y → signal_has_space y k = Some y' →
  pool_ok sz y'.
Proof.
  intros HB HW HA. unfold signal_has_space. case_decide as Hw.
  - intros [= <-]. split_and!; [done..|]. intros ?. lia.
  - by apply wake_adder_ok.
Qed.

(** *** Every step keeps the invariant *)

Lemma worker_take_ok sz y i c y' :
  pool_ok sz y → th_ y !! i = Some WTake → pool_size sz → worker_take y i c = Some y' →
  pool_ok sz y'.
Proof.
  intros (HB&HW&HA) E [Hsz _].
  assert (pl_dtor y ≠ DDone) as HD.
  { intros HD. pose proof (po_done _ _ HB HD) as Hx. rewrite Forall_lookup in Hx.
    by specialize (Hx _ _ E). }
  unfold worker_take. pose proof (deq_spec (jobq_ y)) as Hq. destruct (deq _) as [e f sig|].
  - destruct Hq as (Hq&Hm&Hsig). rewrite (po_max _ _ HB) in Hsig.
    rewrite Hsig by (pose proof (po_bound _ _ HB); lia).
    set (w := match e with Some j => WRun j | None => WExit end).
    destruct (set_worker_counts y i _ w E) as (H1&H2&H3). simpl in H1, H2, H3.
    assert (asleep w = 0%nat ∧ awake w = 0%nat ∧ exited w = is_pill e) as (W1&W2&W3)
      by (by destruct e).
    apply signal_has_space_ok.
    + destruct (mjoin_insert running _ i _ w E) as (r&Hr1&Hr2). destruct HB.
      split; cbn [th_ jobq_ pl_accepted pl_taken pl_dtor pl_adders pl_finished set_worker
                  set_queue taken]; try done.
      * by rewrite length_insert.
      * by rewrite Hm.
      * rewrite po_fifo0, Hq, <-app_assoc. done.
      * rewrite Hq in po_bound0. simpl in po_bound0. lia.
      * rewrite sum_list_with_app. simpl. lia.
      * rewrite omap_app, Hr2, po_jobs0, Hr1. unfold w. simpl. destruct e; simpl; solve_Permutation.
    + unfold workers_ok, sleepers in *. simpl in *. intros Hp. pose proof (HW ltac:(lia)) as HW'.
      rewrite Hq in HW'. simpl in HW'. lia.
    + intros Hp. specialize (HA Hp). unfold trying_adders in *. rewrite Hq in HA.
      simpl in *. lia.
  - intros [= <-]. destruct (set_worker_counts y i _ WWait E) as (H1&H2&H3).
    split_and!; [|intros _|exact HA].
    + eapply set_worker_base; try done. by left.
    + simpl. rewrite Hq. simpl. lia.
Qed.

Lemma adder_try_ok sz y i j c y' :
  pool_ok sz y → pl_adders y !! i = Some (ATry j) → pool_size sz →
  adder_try y i j c = Some y' → pool_ok sz y'.
Proof.
  intros (HB&HW&HA) E [Hsz _].
  assert (pl_dtor y = DNone) as HD by (eapply adder_pending; [done..|simpl; lia]).
  unfold adder_try. pose proof (enq_spec (jobq_ y) (Some j) (blockadd_ y)) as Hq.
  rewrite (po_max _ _ HB) in Hq. destruct (enq _ _ _) as [f| |].
  - destruct Hq as (Hq&Hm&Hl). destruct (set_adder_counts y i _ (AReturned true) E) as [H1 H2].
    simpl in H1, H2. apply signal_non_empty_ok; [|simpl; by rewrite HD| |].
    + destruct HB. split; cbn [th_ jobq_ pl_accepted pl_taken pl_dtor pl_adders pl_finished
        set_adders set_queue accepted]; try done.
      * by rewrite po_fifo0, Hq, app_assoc.
      * lia.
      * destruct po_pills0 as (js&n&Ha&Hn). exists (js ++ [j]), n.
        assert (n = 0%nat) as -> by (rewrite HD in Hn; simpl in Hn; lia).
        split; [|done]. rewrite Ha, fmap_app. simpl. by rewrite !app_nil_r.
    + intros Hp. pose proof (HW Hp). simpl. rewrite Hq, length_app. simpl. lia.
    + unfold adders_ok, waiting_adders, trying_adders in *. simpl in *. intros Hp.
      pose proof (HA ltac:(lia)). rewrite Hq, length_app. simpl. lia.
  - intros [= <-]. destruct (set_adder_counts y i _ (AReturned false) E) as [H1 H2].
    split_and!; [by apply set_adders_base|exact HW|]. intros Hp. simpl. lia.
  - intros [= <-]. split_and!; [by apply set_adders_base|exact HW|]. intros Hp. simpl. lia.
Qed.

(** the destructor moves on without touching the queue *)
Lemma set_dtor_base sz y d :
  pool_base sz y → pills_left sz d = pills_left sz (pl_dtor y) → d ≠ DWait 0 → d ≠ DNone →
  pl_dtor y ≠ DNone → (d = DDone → Forall (λ w, w = WExit) (th_ y)) →
  pool_base sz (set_dtor y d).
Proof.
  intros [] Hd Hw Hn HD Hx. split; simpl; try done.
  - by rewrite Hd.
  - intros _. by apply po_quiet0.
Qed.

Lemma forallb_exited (l : list (worker J)) :
  forallb (λ w, match w with WExit => true | _ => false end) l = true ↔
  Forall (λ w, w = WExit) l.
Proof.
  rewrite forallb_forall, Forall_forall. split; intros H w Hw.
  - apply list_elem_of_In, H in Hw. by destruct w.
  - by rewrite (H w) by by apply list_elem_of_In.
Qed.

Lemma dtor_step_ok sz y c y' :
  pool_size sz → pool_ok sz y → dtor_step y c = Some y' → pool_ok sz y'.
Proof.
  intros [Hsz _] (HB&HW&HA). unfold dtor_step.
  destruct (pl_dtor y) as [|[|k]| | |] eqn:ED; try done.
  - intros [= <-]. split_and!; [|exact HW|].
    + apply set_dtor_base; rewrite ?ED; done.
    + unfold adders_ok, waiting_adders, trying_adders in *. rewrite ED in HA. exact HA.
  - pose proof (enq_spec (jobq_ y) None true) as Hq.
    rewrite (po_max _ _ HB) in Hq. destruct (enq _ _ _) as [f| |]; [|by destruct Hq|].
    + destruct Hq as (Hq&Hm&Hl). apply signal_non_empty_ok; [|done| |].
      * destruct HB. rewrite ED in *. split; cbn [th_ jobq_ pl_accepted pl_taken pl_dtor pl_adders
          pl_finished set_dtor set_queue accepted]; try done.
        -- by rewrite po_fifo0, Hq, app_assoc.
        -- lia.
        -- destruct po_pills0 as (js&n&Ha&Hn). exists js, (S n). simpl in *. split; [|lia].
           rewrite Ha, <-app_assoc. f_equal. symmetry. apply (replicate_S_end n).
        -- intros _. by apply po_quiet0.
      * intros Hp. pose proof (HW Hp). simpl. rewrite Hq, length_app. simpl. lia.
      * unfold adders_ok, waiting_adders, trying_adders in *. simpl in *. rewrite ED in HA.
        simpl in HA. rewrite Hq, length_app. intros Hp.
        assert (dtor_asleep (DPill k) = 0%nat) as E0 by done. simpl in *.
        destruct (po_quiet _ _ HB) as [Ha _]; [by rewrite ED|]. lia.
    + intros [= <-]. split_and!; [|exact HW|].
      * apply set_dtor_base; rewrite ?ED; done.
      * intros _. simpl. lia.
  - destruct (forallb _ _) eqn:Ef; [|done]. intros [= <-]. split_and!; [|exact HW|].
    + apply set_dtor_base; rewrite ?ED; try done. intros _. by apply forallb_exited.
    + unfold adders_ok, waiting_adders, trying_adders in *. rewrite ED in HA. exact HA.
Qed.

Lemma finish_ok sz y i j :
  pool_ok sz y → th_ y !! i = Some (WRun j) → pool_ok sz (set_worker (finished y j) i WTake).
Proof.
  intros (HB&HW&HA) E. destruct (set_worker_counts y i _ WTake E) as (H1&H2&H3).
  simpl in H1, H2, H3. split_and!; [| |exact HA].
  - destruct (mjoin_insert running _ i _ WTake E) as (r&Hr1&Hr2). destruct HB.
    split; cbn [th_ jobq_ pl_accepted pl_taken pl_dtor pl_adders pl_finished set_worker
                finished]; try done.
    + by rewrite length_insert.
    + lia.
    + rewrite Hr2, po_jobs0, Hr1. simpl. solve_Permutation.
    + intros HD. specialize (po_done0 HD). rewrite Forall_lookup in po_done0.
      by specialize (po_done0 _ _ E).
  - unfold workers_ok, sleepers in *. simpl in *. intros Hp. pose proof (HW ltac:(lia)). lia.
Qed.

Lemma pact_ok sz y a y' : pool_size sz → pool_ok sz y → pact y a = Some y' → pool_ok sz y'.
Proof.
  intros Hsz HI. pose proof HI as (HB&HW&HA). destruct a as [j|i c|i c|i| |c|i|k]; simpl.
  - destruct (pl_dtor y) eqn:ED; try done. intros [= <-].
    split_and!; [by apply set_adders_base|exact HW|].
    unfold adders_ok, waiting_adders, trying_adders in *. simpl.
    rewrite !sum_list_with_app. simpl. intros Hp. pose proof (HA ltac:(lia)). lia.
  - destruct (pl_adders y !! i) as [[]|] eqn:E; try done. by apply adder_try_ok.
  - destruct (th_ y !! i) as [[]|] eqn:E; try done. by apply worker_take_ok.
  - destruct (th_ y !! i) as [[]|] eqn:E; try done. intros [= <-]. by eapply finish_ok.
  - destruct (pl_dtor y) eqn:ED; try done. case_decide as Hq; [|done]. intros [= <-].
    destruct Hq as [Hw Ht]. unfold waiting_adders, trying_adders in Hw, Ht.
    split_and!; [|exact HW|].
    + destruct HB. split; simpl; try done; [|intros _; lia]. by rewrite ED, po_threads0 in *.
    + intros Hp. unfold waiting_adders in Hp. simpl in Hp. lia.
  - by apply dtor_step_ok.
  - destruct (th_ y !! i) as [[]|] eqn:E; try done. intros [= <-].
    destruct (set_worker_counts y i _ WTake E) as (H1&H2&_). simpl in H1, H2.
    split_and!; [|intros Hp; pose proof (HW ltac:(lia)); simpl; lia|exact HA].
    eapply set_worker_base; try done. left. intros HD.
    pose proof (po_done _ _ HB HD) as Hx. rewrite Forall_lookup in Hx. by specialize (Hx _ _ E).
  - apply wake_adder_ok; [done..|]. by apply (adders_ok_weaken 0); [lia|].
Qed.

Lemma pacts_ok sz y l y' : pool_size sz → pool_ok sz y → pacts y l = Some y' → pool_ok sz y'.
Proof.
  intros Hsz. revert y. induction l as [|a l IH]; simpl; intros y HI; [by intros [= <-]|].
  destruct (pact y a) as [y1|] eqn:Ea; simpl; [|done]. apply IH. by eapply pact_ok.
Qed.

(** *** Every run comes to rest *)

(** the steps the program makes by itself: nobody calls [addJob] or the
    destructor, nobody wakes for no reason *)
Definition internal (a : paction J) : bool :=
  match a with PTry _ _ | PTake _ _ | PFinish _ | PDtor _ => true | _ => false end.

Definition worker_weight (w : worker J) : nat :=
  match w with WTake => 1 | WRun _ => 2 | _ => 0 end.
Definition adder_weight (a : adder J) : nat :=
  match a with ATry _ => 6 | AWait _ => 5 | AReturned _ => 0 end.
Definition dtor_weight (d : dtor) : nat :=
  match d with DPill k => 5 * k + 3 | DWait k => 5 * k + 2 | DJoin => 1 | _ => 0 end.

(** an upper bound of the number of steps left *)
Definition pool_weight (y : pool J) : nat :=
  3 * length (q_ (jobq_ y)) + sum_list_with worker_weight (th_ y) +
  sum_list_with adder_weight (pl_adders y) + dtor_weight (pl_dtor y).

Lemma worker_weight_insert y i w v :
  th_ y !! i = Some w →
  (pool_weight (set_worker y i v) + worker_weight w = pool_weight y + worker_weight v)%nat.
Proof.
  intros E. unfold pool_weight. simpl.
  pose proof (sum_list_with_insert worker_weight _ _ _ v E). lia.
Qed.

Lemma adder_weight_insert y i a v :
  pl_adders y !! i = Some a →
  (pool_weight (set_adders y (<[i := v]> (pl_adders y))) + adder_weight a =
   pool_weight y + adder_weight v)%nat.
Proof.
  intros E. unfold pool_weight. simpl.
  pose proof (sum_list_with_insert adder_weight _ _ _ v E). lia.
Qed.

Lemma dtor_weight_set y d :
  (pool_weight (set_dtor y d) + dtor_weight (pl_dtor y) = pool_weight y + dtor_weight d)%nat.
Proof. unfold pool_weight. simpl. lia. Qed.

Lemma signal_non_empty_weight y k y' :
  signal_non_empty y k = Some y' → (pool_weight y' ≤ pool_weight y + 1)%nat.
Proof.
  unfold signal_non_empty. case_decide; [intros [= <-]; lia|].
  destruct (th_ y !! k) as [[]|] eqn:E; try done. intros [= <-].
  pose proof (worker_weight_insert y k _ WTake E) as Hw. simpl in Hw. lia.
Qed.

Lemma signal_has_space_weight y k y' :
  signal_has_space y k = Some y' → (pool_weight y' ≤ pool_weight y + 1)%nat.
Proof.
  unfold signal_has_space, wake_adder. case_decide; [intros [= <-]; lia|].
  destruct k as [k|].
  - destruct (pl_adders y !! k) as [[]|] eqn:E; try done. intros [= <-].
    pose proof (adder_weight_insert y k _ (ATry j) E) as Hw. simpl in Hw. lia.
  - destruct (pl_dtor y) eqn:E; try done. intros [= <-].
    pose proof (dtor_weight_set y (DPill k)) as Hw. rewrite E in Hw. simpl in Hw. lia.
Qed.

Lemma internal_weight y a y' :
  internal a = true → pact y a = Some y' → (pool_weight y' < pool_weight y)%nat.
Proof.
  destruct a as [|i c|i c|i| |c| |]; try done; intros _; simpl.
  - destruct (pl_adders y !! i) as [[]|] eqn:E; try done. unfold adder_try.
    pose proof (adder_weight_insert y i _ (AReturned true) E) as Ht.
    pose proof (adder_weight_insert y i _ (AReturned false) E) as Hf.
    pose proof (adder_weight_insert y i _ (AWait j) E) as Hw.
    pose proof (enq_spec (jobq_ y) (Some j) (blockadd_ y)) as Hq. simpl in Ht, Hf, Hw.
    destruct (enq _ _ _) as [f| |]; [|intros [= <-]; lia..].
    intros Hs%signal_non_empty_weight. destruct Hq as [Hq _]. revert Hs Ht.
    unfold pool_weight. simpl. rewrite Hq, length_app. simpl. lia.
  - destruct (th_ y !! i) as [[]|] eqn:E; try done. unfold worker_take.
    pose proof (deq_spec (jobq_ y)) as Hq. destruct (deq _) as [e f sig|].
    + pose proof (worker_weight_insert y i _ (match e with Some j => WRun j | None => WExit end) E)
        as Hw.
      assert (worker_weight (match e with Some j => WRun j | None => WExit end) ≤ 2)%nat
        by (destruct e; simpl; lia).
      destruct Hq as [Hq _]. intros Hs.
      assert (pool_weight y' ≤
        pool_weight (set_worker (taken (set_queue y f) e) i
          (match e with Some j => WRun j | None => WExit end)) + 1)%nat as Hs'.
      { destruct sig; [by apply signal_has_space_weight in Hs|]. injection Hs as <-. lia. }
      revert Hs' Hw. unfold pool_weight. simpl. rewrite Hq. simpl. lia.
    + intros [= <-]. pose proof (worker_weight_insert y i _ WWait E) as Hw. simpl in Hw. lia.
  - destruct (th_ y !! i) as [[]|] eqn:E; try done. intros [= <-].
    pose proof (worker_weight_insert (finished y j) i _ WTake E) as Hw. simpl in Hw.
    unfold pool_weight in *. simpl in *. lia.
  - unfold dtor_step. destruct (pl_dtor y) as [|[|k]|k| |] eqn:E; try done.
    + intros [= <-]. pose proof (dtor_weight_set y DJoin) as Hw. rewrite E in Hw. simpl in Hw. lia.
    + pose proof (enq_spec (jobq_ y) None true) as Hq.
      destruct (enq _ _ _) as [f| |]; [|by destruct Hq|].
      * destruct Hq as [Hq _]. intros Hs%signal_non_empty_weight. revert Hs.
        unfold pool_weight. simpl. rewrite Hq, E, length_app. simpl. lia.
      * intros [= <-]. pose proof (dtor_weight_set y (DWait (S k))) as Hw. rewrite E in Hw.
        simpl in Hw. lia.
    + destruct (forallb _ _); [|done]. intros [= <-].
      pose proof (dtor_weight_set y DDone) as Hw. rewrite E in Hw. simpl in Hw. lia.
Qed.

Lemma internal_runs_bounded y l y' :
  Forall (λ a, internal a = true) l → pacts y l = Some y' →
  (length l + pool_weight y' ≤ pool_weight y)%nat.
Proof.
  intros Hl. revert y. induction Hl as [|a l Ha Hl IH]; simpl; intros y; [intros [= <-]; lia|].
  destruct (pact y a) as [y1|] eqn:E; simpl; [|done].
  intros H%IH. apply internal_weight in E; [lia|done].
Qed.

(** no step is left to make *)
Definition at_rest (y : pool J) : Prop := ∀ a, internal a = true → pact y a = None.

(** a signal always finds someone to wake when someone waits *)
Lemma signal_non_empty_some y : ∃ k y', signal_non_empty y k = Some y'.
Proof.
  unfold signal_non_empty. case_decide as Hs; [by exists 0%nat, y|].
  destruct (sum_list_with_pos asleep (th_ y)) as (k&w&E&Hw); [unfold sleepers in Hs; lia|].
  exists k. destruct w; simpl in Hw; try lia. rewrite E. eauto.
Qed.

Lemma signal_has_space_some y : ∃ k y', signal_has_space y k = Some y'.
Proof.
  unfold signal_has_space. case_decide as Hs; [by exists None, y|]. unfold waiting_adders in Hs.
  destruct (decide (sum_list_with adder_asleep (pl_adders y) = 0%nat)) as [H0|H0].
  - exists None. unfold wake_adder. destruct (pl_dtor y); simpl in Hs; try lia. eauto.
  - destruct (sum_list_with_pos adder_asleep (pl_adders y)) as (k&a&E&Ha); [lia|].
    exists (Some k). unfold wake_adder. destruct a; simpl in Ha; try lia. rewrite E. eauto.
Qed.

Lemma rest_workers y i w : at_rest y → th_ y !! i = Some w → w = WWait ∨ w = WExit.
Proof.
  intros HR E. destruct w as [| |j|]; auto; exfalso.
  - destruct (deq (jobq_ y)) as [e f sig|] eqn:Eq.
    + destruct (signal_has_space_some (set_worker (taken (set_queue y f) e) i
        (match e with Some j => WRun j | None => WExit end))) as (k&y'&Hs).
      pose proof (HR (PTake i k) eq_refl) as H. simpl in H. rewrite E in H.
      unfold worker_take in H. rewrite Eq in H. destruct sig; congruence.
    + pose proof (HR (PTake i None) eq_refl) as H. simpl in H. rewrite E in H.
      unfold worker_take in H. by rewrite Eq in H.
  - pose proof (HR (PFinish i) eq_refl) as H. simpl in H. by rewrite E in H.
Qed.

Lemma rest_adders y i a : at_rest y → pl_adders y !! i = Some a → adder_awake a = 0%nat.
Proof.
  intros HR E. destruct a as [j| |]; try done. exfalso.
  assert (∀ c, adder_try y i j c = None) as H.
  { intros c. pose proof (HR (PTry i c) eq_refl) as H. simpl in H. by rewrite E in H. }
  unfold adder_try in H. destruct (enq _ _ _) as [f| |]; [|by specialize (H 0%nat)..].
  edestruct signal_non_empty_some as (k&y'&Hs). specialize (H k). rewrite Hs in H. done.
Qed.

Lemma rest_dtor y k : at_rest y → pl_dtor y ≠ DPill k.
Proof.
  intros HR E.
  assert (∀ c, dtor_step y c = None) as H by (intros c; exact (HR (PDtor c) eq_refl)).
  unfold dtor_step in H. rewrite E in H. destruct k as [|k]; [by specialize (H 0%nat)|].
  destruct (enq _ _ _) as [f| |]; [|by specialize (H 0%nat)..].
  edestruct signal_non_empty_some as (c&y'&Hs). specialize (H c). rewrite Hs in H. done.
Qed.

(** the workers of a pool at rest are asleep or gone *)
Lemma rest_counts y :
  at_rest y →
  sum_list_with awake (th_ y) = 0%nat ∧
  sum_list_with adder_awake (pl_adders y) = 0%nat ∧ dtor_awake (pl_dtor y) = 0%nat ∧
  (sleepers y + sum_list_with exited (th_ y) = length (th_ y))%nat ∧
  mjoin (running <$> th_ y) = [].
Proof.
  intros HR. split_and!.
  - apply sum_list_with_zero, Forall_lookup. intros i w E.
    by destruct (rest_workers y i w HR E) as [->| ->].
  - apply sum_list_with_zero, Forall_lookup. intros i a E. by eapply rest_adders.
  - destruct (pl_dtor y) eqn:E; try done. by apply rest_dtor in E.
  - unfold sleepers. pose proof (λ i w, rest_workers y i w HR) as H. revert H.
    generalize (th_ y). clear. induction l as [|w l IH]; [done|]. intros H. simpl.
    pose proof (IH (λ i, H (S i))). destruct (H 0%nat w eq_refl) as [->| ->]; simpl; lia.
  - pose proof (λ i w, rest_workers y i w HR) as H. revert H.
    generalize (th_ y). clear. induction l as [|w l IH]; [done|]. intros H.
    change (running w ++ mjoin (running <$> l) = []). rewrite (IH (λ i, H (S i))). by destruct (H 0%nat w eq_refl) as [->| ->].
Qed.

Lemma pills_of_jobs (js : list J) n :
  sum_list_with is_pill ((Some <$> js) ++ replicate n None) = n.
Proof.
  rewrite sum_list_with_app.
  assert (sum_list_with is_pill (Some <$> js) = 0%nat) as -> by (induction js; done).
  induction n; simpl in *; lia.
Qed.

(** a suffix of jobs and pills without a pill, although there are pills, is empty *)
Lemma no_pill_suffix (js : list J) n l q :
  (Some <$> js) ++ replicate (S n) None = l ++ q → sum_list_with is_pill q = 0%nat → q = [].
Proof.
  rewrite replicate_S_end, app_assoc. destruct q as [|e q _] using rev_ind; [done|].
  rewrite app_assoc. intros [_ [= <-]]%app_inj_2; [|done]. rewrite sum_list_with_app. simpl. lia.
Qed.

(** a pool at rest has an empty queue, nobody is blocked in [addJob], and the
    workers wait for jobs or, once the destructor is through, have all exited *)
Lemma rest_settled sz y :
  pool_size sz → pool_ok sz y → at_rest y →
  q_ (jobq_ y) = [] ∧ waiting_adders y = 0%nat ∧
  (pl_dtor y = DNone ∧ sleepers y = sz ∨ pl_dtor y = DDone ∧ sum_list_with exited (th_ y) = sz).
Proof.
  intros [Hsz _] (HB&HW&HA) HR. destruct (rest_counts y HR) as (H1&H2&H3&H4&_).
  unfold workers_ok in HW. unfold adders_ok, trying_adders in HA. rewrite H2, H3 in HA.
  rewrite H1 in HW. rewrite (po_threads _ _ HB) in H4. pose proof (po_exits _ _ HB) as Hx.
  destruct (po_pills _ _ HB) as (js&n&Ha&Hn). pose proof (pills_of_jobs js n) as Hp.
  rewrite <-Ha, (po_fifo _ _ HB), sum_list_with_app in Hp.
  assert (0 < waiting_adders y → sleepers y = 0)%nat as Hws.
  { intros ?. destruct (decide (sleepers y = 0)%nat); [done|].
    specialize (HA ltac:(lia)). specialize (HW ltac:(lia)). lia. }
  assert (0 < sleepers y → q_ (jobq_ y) = [])%nat as Hwq.
  { intros ?. specialize (HW ltac:(lia)). apply nil_length_inv. lia. }
  destruct (pl_dtor y) as [|k|k| |] eqn:ED; simpl in *.
  - assert (0 < sleepers y)%nat by lia. split_and!; [by apply Hwq|lia|left; split; [done|lia]].
  - by apply rest_dtor in ED.
  - exfalso. assert (k ≠ 0%nat) by (intros ->; by apply (po_dwait _ _ HB)).
    assert (0 < waiting_adders y)%nat by (unfold waiting_adders; rewrite ED; simpl; lia). lia.
  - exfalso. destruct (decide (sleepers y = 0%nat)).
    + pose proof (HR (PDtor 0) eq_refl) as H. simpl in H. unfold dtor_step in H. rewrite ED in H.
      destruct (forallb _ _) eqn:Ef; [done|]. apply not_true_iff_false in Ef. apply Ef.
      apply forallb_exited, Forall_lookup. intros i w E.
      pose proof (sum_list_with_lookup asleep _ _ _ E). unfold sleepers in *.
      destruct (rest_workers y i w HR E) as [->| ->]; [simpl in *; lia|done].
    + rewrite Hwq in Hp by lia. simpl in Hp. lia.
  - assert (sum_list_with exited (th_ y) = sz) as He.
    { pose proof (po_done _ _ HB ED) as Hd. rewrite <-(po_threads _ _ HB). clear -Hd.
      induction Hd as [|w l -> Hd IH]; simpl; lia. }
    split_and!; [|unfold waiting_adders; rewrite ED; simpl|right; by split].
    + destruct n as [|n]; [lia|]. apply (no_pill_suffix js n (pl_taken y)); [|lia].
      by rewrite <-Ha, (po_fifo _ _ HB).
    + destruct (po_quiet _ _ HB) as [-> _]; [by rewrite ED|done].
Qed.

(** ** The theorems *)

(** C26. Jobs start in the order in which [addJob] accepted them, each one once: what the
    workers took is a prefix of what was accepted and the rest is in the queue; every
    job that was taken is running on one worker or has returned, and the queue never
    grows beyond its bound. *)
Theorem jobs_start_in_order sz blocking l y :
  pool_size sz → pacts (pool_new sz blocking) l = Some y →
  pl_accepted y = pl_taken y ++ q_ (jobq_ y) ∧
  omap id (pl_taken y) ≡ₚ mjoin (running <$> th_ y) ++ pl_finished y ∧
  Zlength (q_ (jobq_ y)) ≤ 100 * Z.of_nat sz.
Proof.
  intros Hsz H. apply pacts_ok with (sz := sz) in H as ([]&_); [|done|by apply pool_new_ok].
  by split_and!.
Qed.

(** C5. No wake-up is lost, although a signal wakes one waiter of the scheduler's choice and
    waiters wake for no reason: while a worker sleeps, every queued job has an awake
    worker of its own coming for it, and while an adder sleeps, every free place of the
    queue has an awake adder coming for it. *)
Theorem no_lost_wakeup sz blocking l y :
  pool_size sz → pacts (pool_new sz blocking) l = Some y →
  ((0 < sleepers y)%nat → (length (q_ (jobq_ y)) ≤ sum_list_with awake (th_ y))%nat) ∧
  ((0 < waiting_adders y)%nat →
    100 * Z.of_nat sz - Zlength (q_ (jobq_ y)) ≤ Z.of_nat (trying_adders y)).
Proof.
  intros Hsz H. apply pacts_ok with (sz := sz) in H as (_&HW&HA); [|done|by apply pool_new_ok].
  split; intros Hp; [specialize (HW Hp)|specialize (HA Hp)]; lia.
Qed.

(** C11. The pool never hangs: whatever the schedule, the program makes at most
    [pool_weight y] steps of its own before it comes to rest; and when no step is left,
    every accepted job has returned, no thread is blocked in [addJob], and either the
    destructor was not called and all workers wait for jobs, or it is done and all
    workers have exited. *)
Theorem pool_comes_to_rest sz blocking l y :
  pool_size sz → pacts (pool_new sz blocking) l = Some y →
  (∀ l' y', Forall (λ a, internal a = true) l' → pacts y l' = Some y' →
    (length l' ≤ pool_weight y)%nat) ∧
  (at_rest y →
    pl_finished y ≡ₚ omap id (pl_accepted y) ∧ waiting_adders y = 0%nat ∧
    (pl_dtor y = DNone ∧ sleepers y = sz ∨
     pl_dtor y = DDone ∧ sum_list_with exited (th_ y) = sz)).
Proof.
  intros Hsz H. apply pacts_ok with (sz := sz) in H as HI; [|done|by apply pool_new_ok]. split.
  - intros l' y' Hl H'. apply internal_runs_bounded in H'; [lia|done].
  - intros HR. destruct (rest_settled sz y Hsz HI HR) as (Hq&Hw&Hd). split_and!; [|done..].
    destruct HI as (HB&_). destruct (rest_counts y HR) as (_&_&_&_&Hr).
    rewrite (po_fifo _ _ HB), Hq, app_nil_r, (po_jobs _ _ HB), Hr. done.
Qed.
End pool_facts.

(** ** Witnesses: a pool of one worker *)

(** the worker falls asleep, is woken by the first of two jobs, runs both; then the
    destructor is called *)
Definition one_worker_busy : list (paction Z) :=
  [PTake 0 None; PAdd 5; PTry 0 0; PAdd 6; PTry 1 0; PTake 0 None].
Definition one_worker_done : list (paction Z) :=
  one_worker_busy ++ [PFinish 0; PDestroy; PDtor 0; PDtor 0; PTake 0 None; PFinish 0;
                      PTake 0 None; PDtor 0].

Definition pool_after (l : list (paction Z)) : pool Z :=
  default (pool_new 1 true) (pacts (pool_new 1 true) l).

Example one_worker_steps :
  th_ (pool_after one_worker_busy) = [WRun 5] ∧
  q_ (jobq_ (pool_after one_worker_busy)) = [Some 6] ∧
  pl_finished (pool_after one_worker_done) = [5; 6] ∧
  th_ (pool_after one_worker_done) = [WExit] ∧
  pl_dtor (pool_after one_worker_done) = DDone.
Proof. by vm_compute. Qed.

Lemma pool_size_1 : pool_size 1.
Proof. by split; [lia|vm_compute]. Qed.

Lemma jobs_start_in_order_witness :
  pacts (pool_new 1 true) one_worker_busy = Some (pool_after one_worker_busy) ∧
  pl_accepted (pool_after one_worker_busy) =
  pl_taken (pool_after one_worker_busy) ++ [Some 6].
Proof.
  assert (HE : pacts (pool_new 1 true) one_worker_busy = Some (pool_after one_worker_busy))
    by (vm_compute; reflexivity).
  split; [exact HE|].
  exact (proj1 (jobs_start_in_order 1 true one_worker_busy _ pool_size_1 HE)).
Defined.

(** a worker that went to sleep before the job came *)
Lemma no_lost_wakeup_witness :
  sleepers (pool_after [PTake 0 None]) = 1%nat ∧
  (length (q_ (jobq_ (pool_after [PTake 0 None]))) ≤
   sum_list_with awake (th_ (pool_after [PTake 0 None])))%nat.
Proof.
  assert (HE : pacts (pool_new 1 true) [PTake 0 None] = Some (pool_after [PTake 0 None]))
    by (vm_compute; reflexivity).
  split; [by vm_compute|].
  apply (proj1 (no_lost_wakeup 1 true [PTake 0 None] (pool_after [PTake 0 None])
    pool_size_1 HE)). vm_compute. lia.
Defined.

Lemma pool_comes_to_rest_witness :
  at_rest (pool_after one_worker_done) ∧
  pl_finished (pool_after one_worker_done) ≡ₚ omap id (pl_accepted (pool_after one_worker_done)).
Proof.
  assert (at_rest (pool_after one_worker_done)) as HR.
  { intros [j|i c|i c|i| |c|i|k]; try discriminate; intros _;
      [destruct i as [|[|i]]|destruct i as [|i]|destruct i as [|i]|]; vm_compute; reflexivity. }
  assert (HE : pacts (pool_new 1 true) one_worker_done = Some (pool_after one_worker_done))
    by (vm_compute; reflexivity).
  split; [exact HR|].
  exact (proj1 (proj2 (pool_comes_to_rest 1 true one_worker_done _ pool_size_1 HE) HR)).
Defined.
