(* ===== verification/Closures.v ===== *)
(** * Starting threads and jobs: [rpc/method_thread.h], [ThrPool::addObjJob]

    A thread or a job that is to call a method of an object gets the object, the
    method and the arguments through a block of memory: the starter allocates
    and fills it, the new thread reads it, deletes it and makes the call (a job
    of the pool makes the call first and deletes then).  The templates for 0 to
    3 arguments differ in the type [A] of the arguments only.  Starters and
    threads interleave freely; one step of a thread is one access to memory. *)

From S2P Require Import Prelude.

(** [class XXX] and [class objfunc_wrapper] *)
Record closure (A : Type) := Closure { cl_o : Z; cl_m : Z; cl_a : A }.
Arguments Closure {A} _ _ _.
Arguments cl_o {A} _.
Arguments cl_m {A} _.
Arguments cl_a {A} _.

(** where a thread is inside [yyy] or [func]; [p] is the block it got *)
Inductive kpc (A : Type) :=
  | KStart (p : Z)
  | KObj (p o : Z)
  | KMeth (p o m : Z)
  | KArgs (p : Z) (c : closure A)    (**r it has copied everything *)
  | KDeleted (c : closure A)
  | KReady (c : closure A)           (**r behind [method_thread_child] *)
  | KCalled (p : Z)                  (**r the call has returned *)
  | KEnd.
Arguments KStart {A} _.
Arguments KObj {A} _ _.
Arguments KMeth {A} _ _ _.
Arguments KArgs {A} _ _.
Arguments KDeleted {A} _.
Arguments KReady {A} _.
Arguments KCalled {A} _.
Arguments KEnd {A}.

(** a thread of its own or a job on a thread of the pool *)
Record kid (A : Type) := Kid { kd_job : bool; kd_pc : kpc A }.
Arguments Kid {A} _ _.
Arguments kd_job {A} _.
Arguments kd_pc {A} _.

Record csys (A : Type) := Csys {
  cs_heap : gmap Z (closure A); cs_kids : list (kid A);
  cs_calls : list (closure A);   (**r the calls made *)
  cs_exited : bool }.
Arguments Csys {A} _ _ _ _.
Arguments cs_heap {A} _.
Arguments cs_kids {A} _.
Arguments cs_calls {A} _.
Arguments cs_exited {A} _.

Section threads.
Context {A : Type} (new : gmap Z (closure A) → Z).
Implicit Types (st : csys A) (h : gmap Z (closure A)).

Definition csys_new : csys A := Csys ∅ [] [] false.

Definition read_closure h (p : Z) : outcome (closure A) :=
  match h !! p with Some c => Done c | None => Fault UseAfterFree end.
Definition delete_closure h (p : Z) : outcome (gmap Z (closure A)) :=
  match h !! p with Some _ => Done (delete p h) | None => Fault UseAfterFree end.

(** [method_thread_parent]: [err] and [derr] are the answers of [pthread_create]
    and [pthread_detach]; without a thread the process exits *)
Definition method_thread_parent st (p : Z) (detach : bool) (err derr : Z) : outcome (csys A) :=
  if decide (err ≠ 0) then Done (Csys (cs_heap st) (cs_kids st) (cs_calls st) true)
  else
    check! negb detach || bool_decide (derr = 0) in
    Done (Csys (cs_heap st) (cs_kids st ++ [Kid false (KStart p)]) (cs_calls st) (cs_exited st)).

(** [method_thread] *)
Definition method_thread st (c : closure A) (detach : bool) (err derr : Z) : outcome (csys A) :=
  let x := new (cs_heap st) in
  method_thread_parent (Csys (<[x := c]> (cs_heap st)) (cs_kids st) (cs_calls st) (cs_exited st))
    x detach err derr.

(** [addObjJob]; [accepted] is what [addJob] answers *)
Definition addObjJob st (c : closure A) (accepted : bool) : csys A :=
  let x := new (cs_heap st) in
  Csys (<[x := c]> (cs_heap st))
    (if accepted then cs_kids st ++ [Kid true (KStart x)] else cs_kids st)
    (cs_calls st) (cs_exited st).

(** [method_thread_child]: the answers of the two calls that defer cancellation *)
Definition method_thread_child (r1 r2 : Z) : outcome unit :=
  check! bool_decide (r1 = 0) in check! bool_decide (r2 = 0) in Done tt.

(** one step of [yyy] or [func]; the call it makes, if any *)
Definition kid_step h (k : kid A) : outcome (gmap Z (closure A) * kpc A * list (closure A)) :=
  match kd_pc k with
  | KStart p => let! c := read_closure h p in Done (h, KObj p (cl_o c), [])
  | KObj p o => let! c := read_closure h p in Done (h, KMeth p o (cl_m c), [])
  | KMeth p o m => let! c := read_closure h p in Done (h, KArgs p (Closure o m (cl_a c)), [])
  | KArgs p c =>
      if kd_job k then Done (h, KCalled p, [c])
      else let! h := delete_closure h p in Done (h, KDeleted c, [])
  | KDeleted c => let! _ := method_thread_child 0 0 in Done (h, KReady c, [])
  | KReady c => Done (h, KEnd, [c])
  | KCalled p => let! h := delete_closure h p in Done (h, KEnd, [])
  | KEnd => Done (h, KEnd, [])
  end.

Inductive caction :=
  | AMethodThread (c : closure A) (detach : bool) (err derr : Z)
  | AAddObjJob (c : closure A) (accepted : bool)
  | AStep (i : nat).

Definition cact st (a : caction) : outcome (csys A) :=
  if cs_exited st then Done st else
  match a with
  | AMethodThread c detach err derr => method_thread st c detach err derr
  | AAddObjJob c accepted => Done (addObjJob st c accepted)
  | AStep i =>
      match cs_kids st !! i with
      | None => Done st
      | Some k =>
          let! '(h, pc, l) := kid_step (cs_heap st) k in
          Done (Csys h (<[i := Kid (kd_job k) pc]> (cs_kids st)) (cs_calls st ++ l) (cs_exited st))
      end
  end.

Fixpoint cacts st (l : list caction) : outcome (csys A) :=
  match l with
  | [] => Done st
  | a :: l => let! st := cact st a in cacts st l
  end.

(** the calls that were asked for, and the jobs that the pool did not take *)
Definition requested (a : caction) : list (closure A) :=
  match a with
  | AMethodThread c _ _ _ | AAddObjJob c true => [c]
  | _ => []
  end.
Definition refused (a : caction) : nat := match a with AAddObjJob _ false => 1 | _ => 0 end.

(** a thread that was just created can be detached *)
Definition detachable (a : caction) : Prop :=
  match a with AMethodThread _ _ _ derr => derr = 0 | _ => True end.

(** ** Facts *)

(** the block a thread has to delete, and the call it still has to make *)
Definition kid_ptr (k : kid A) : list Z :=
  match kd_pc k with
  | KStart p | KObj p _ | KMeth p _ _ | KArgs p _ | KCalled p => [p]
  | _ => []
  end.
Definition kid_todo h (k : kid A) : list (closure A) :=
  match kd_pc k with
  | KStart p | KObj p _ | KMeth p _ _ | KArgs p _ => option_list (h !! p)
  | KDeleted c | KReady c => [c]
  | _ => []
  end.
(** what it has read so far is what the block holds *)
Definition kid_ok h (k : kid A) : Prop :=
  match kd_pc k with
  | KStart p | KCalled p => is_Some (h !! p)
  | KObj p o => ∃ c, h !! p = Some c ∧ o = cl_o c
  | KMeth p o m => ∃ c, h !! p = Some c ∧ o = cl_o c ∧ m = cl_m c
  | KArgs p c => h !! p = Some c
  | _ => True
  end.

Definition ptrs st : list Z := mjoin (kid_ptr <$> cs_kids st).
Definition todo st : list (closure A) := mjoin (kid_todo (cs_heap st) <$> cs_kids st).

(** [lost]: the blocks of jobs that were not taken *)
Record cinv st (asked : list (closure A)) (lost : list Z) : Prop := Cinv {
  ci_nodup : NoDup (ptrs st ++ lost);
  ci_dom : dom (cs_heap st) = list_to_set (ptrs st ++ lost);
  ci_kids : Forall (kid_ok (cs_heap st)) (cs_kids st);
  ci_calls : cs_calls st ++ todo st ≡ₚ asked }.

Lemma cinv_new : cinv csys_new [] [].
Proof. split; [constructor|done|constructor|done]. Qed.

(** threads do not look at blocks of others *)
Lemma kid_same h h' k :
  (∀ p, p ∈ kid_ptr k → h' !! p = h !! p) → kid_ok h k → kid_ok h' k ∧ kid_todo h' k = kid_todo h k.
Proof.
  unfold kid_ptr, kid_ok, kid_todo. destruct (kd_pc k); intros Hs Hk; try done;
    rewrite Hs by (by left); done.
Qed.

Lemma kids_same h h' l :
  (∀ p, p ∈ mjoin (kid_ptr <$> l) → h' !! p = h !! p) → Forall (kid_ok h) l →
  Forall (kid_ok h') l ∧ kid_todo h' <$> l = kid_todo h <$> l.
Proof.
  intros Hs Hl. induction Hl as [|k l Hk Hl IH]; [done|]. cbn [fmap list_fmap mjoin list_join] in Hs.
  destruct (kid_same h h' k) as [Hk' Et]; [|done|].
  { intros p Hp. apply Hs, elem_of_app. by left. }
  destruct IH as [Hl' El]; [|].
  { intros p Hp. apply Hs, elem_of_app. by right. }
  split; [by constructor|]. cbn [fmap list_fmap]. by rewrite Et, El.
Qed.

Hypothesis new_fresh : ∀ h, h !! new h = None.

(** a thread is started, or a job is not taken *)
Lemma cinv_alloc st asked lost c :
  cinv st asked lost →
  let x := new (cs_heap st) in
  (∀ b, cinv (Csys (<[x := c]> (cs_heap st)) (cs_kids st ++ [Kid b (KStart x)]) (cs_calls st)
    (cs_exited st)) (asked ++ [c]) lost) ∧
  cinv (Csys (<[x := c]> (cs_heap st)) (cs_kids st) (cs_calls st) (cs_exited st)) asked
    (x :: lost).
Proof.
  intros [H1 H2 H3 H4] x. pose proof (new_fresh (cs_heap st)) as Hx. fold x in Hx.
  assert (x ∉ ptrs st ++ lost) as Hn.
  { intros Hin. apply not_elem_of_dom in Hx. apply Hx. rewrite H2. by apply elem_of_list_to_set. }
  destruct (kids_same (cs_heap st) (<[x := c]> (cs_heap st)) (cs_kids st)) as [Hk Ht]; [|done|].
  { intros q Hq. apply lookup_insert_ne. intros ->. apply Hn, elem_of_app. by left. }
  split.
  - intros b. split; unfold ptrs, todo in *; simpl;
      rewrite ?fmap_app, ?join_app; simpl; rewrite ?Ht, ?lookup_insert_eq; simpl.
    + rewrite <-app_assoc. simpl. rewrite <-Permutation_middle. by constructor.
    + rewrite dom_insert_L, H2, <-app_assoc. simpl. set_solver.
    + apply Forall_app. split; [done|]. constructor; [|done]. unfold kid_ok. simpl.
      rewrite lookup_insert_eq. by eexists.
    + unfold kid_todo at 2. simpl. rewrite lookup_insert_eq. simpl. by rewrite app_assoc, H4.
  - split; unfold ptrs, todo in *; simpl; rewrite ?Ht.
    + rewrite <-Permutation_middle. by constructor.
    + rewrite dom_insert_L, H2. set_solver.
    + done.
    + done.
Qed.

(** one step of one thread *)
Lemma kid_step_ok h k :
  kid_ok h k →
  ∃ h' pc l, kid_step h k = Done (h', pc, l) ∧
    kid_ok h' (Kid (kd_job k) pc) ∧ l ++ kid_todo h' (Kid (kd_job k) pc) = kid_todo h k ∧
    ((h' = h ∧ kid_ptr (Kid (kd_job k) pc) = kid_ptr k) ∨
     (∃ p, kid_ptr k = [p] ∧ h' = delete p h ∧ kid_ptr (Kid (kd_job k) pc) = [])).
Proof.
  unfold kid_ok, kid_todo, kid_ptr, kid_step, read_closure, delete_closure.
  destruct k as [job [p|p o|p o m|p c|c|c|p|]]; simpl.
  - intros [c Hc]. rewrite Hc. eexists h, _, _. split; [done|]. simpl. rewrite Hc. eauto 8.
  - intros (c&Hc&->). rewrite Hc. eexists h, _, _. split; [done|]. simpl. rewrite Hc. eauto 8.
  - intros (c&Hc&->&->). rewrite Hc. eexists h, _, _. split; [done|]. simpl.
    rewrite Hc. destruct c. eauto 8.
  - intros Hc. rewrite Hc. destruct job; simpl.
    + eexists h, _, _. split; [done|]. simpl. rewrite Hc. eauto 8.
    + eexists _, _, _. split; [done|]. simpl. eauto 10.
  - eexists h, _, _. split; [done|]. simpl. eauto 8.
  - eexists h, _, _. split; [done|]. simpl. eauto 8.
  - intros [c Hc]. rewrite Hc. simpl. eexists _, _, _. split; [done|]. simpl. eauto 10.
  - eexists h, _, _. split; [done|]. simpl. eauto 8.
Qed.

Lemma cinv_step st asked lost i k :
  cinv st asked lost → cs_kids st !! i = Some k →
  ∃ h pc l, kid_step (cs_heap st) k = Done (h, pc, l) ∧
    cinv (Csys h (<[i := Kid (kd_job k) pc]> (cs_kids st)) (cs_calls st ++ l) (cs_exited st))
      asked lost.
Proof.
  intros [H1 H2 H3 H4] Hi. pose proof (Forall_lookup_1 _ _ _ _ H3 Hi) as Hk.
  destruct (kid_step_ok (cs_heap st) k Hk) as (h&pc&l&E&Hk'&Ht&Hp).
  exists h, pc, l. split; [done|]. set (k' := Kid (kd_job k) pc) in *.
  assert (<[i := k']> (cs_kids st) = take i (cs_kids st) ++ k' :: drop (S i) (cs_kids st)) as ->.
  { apply insert_take_drop. by eapply lookup_lt_Some. }
  unfold ptrs, todo in *. rewrite <-(take_drop_middle _ _ _ Hi) in H1, H2, H3, H4.
  set (l1 := take i (cs_kids st)) in *. set (l2 := drop (S i) (cs_kids st)) in *.
  rewrite fmap_app, join_app in H1. rewrite fmap_app, join_app in H2.
  rewrite fmap_app, join_app in H4. simpl in H1, H2, H4.
  apply Forall_app in H3 as [H3 [_ H3']%Forall_cons].
  assert (∀ q, q ∈ mjoin (kid_ptr <$> (l1 ++ l2)) → h !! q = cs_heap st !! q) as Hsame.
  { intros q Hq. destruct Hp as [[-> _]|(p&Ep&->&_)]; [done|]. apply lookup_delete_ne. intros <-.
    rewrite Ep in H1. rewrite fmap_app, join_app in Hq.
    rewrite <-app_assoc, <-app_assoc in H1. simpl in H1. rewrite <-Permutation_middle in H1.
    apply NoDup_cons in H1 as [H1 _]. apply H1. set_solver. }
  destruct (kids_same (cs_heap st) h (l1 ++ l2) Hsame) as [Hf Et]; [by apply Forall_app|].
  rewrite !fmap_app in Et. apply app_inj_1 in Et as [Et1 Et2]; [|by rewrite !length_fmap].
  apply Forall_app in Hf as [Hf1 Hf2].
  split; simpl; unfold ptrs, todo; simpl; rewrite ?fmap_app, ?fmap_cons, ?join_app; simpl;
    rewrite ?Et1, ?Et2.
  - destruct Hp as [[_ ->]|(p&Ep&_&->)]; [done|]. rewrite Ep in H1. simpl in *.
    rewrite <-app_assoc in H1 |- *. simpl in H1. rewrite <-Permutation_middle in H1.
    by apply NoDup_cons in H1 as [_ H1].
  - destruct Hp as [[-> ->]|(p&Ep&->&->)]; [done|]. rewrite Ep in H1, H2. simpl in *.
    rewrite <-app_assoc in H1. simpl in H1. rewrite <-Permutation_middle in H1.
    apply NoDup_cons in H1 as [H1 _]. rewrite dom_delete_L, H2. set_solver.
  - apply Forall_app. split; [done|]. by constructor.
  - rewrite <-H4, <-Ht. solve_Permutation.
Qed.

(** *** Any number of steps *)

Lemma cact_inv st asked lost a :
  detachable a → cs_exited st = false → cinv st asked lost →
  ∃ st', cact st a = Done st' ∧
    (cs_exited st' = true ∨
     cs_exited st' = false ∧
     ∃ lost', cinv st' (asked ++ requested a) lost' ∧
       length lost' = (refused a + length lost)%nat).
Proof.
  intros Hd Hx Hi. unfold cact. rewrite Hx. destruct a as [c detach err derr|c [] |i]; simpl.
  - unfold method_thread, method_thread_parent. simpl in Hd. subst derr.
    case_decide; [eexists; split; [done|by left]|]. rewrite orb_true_r. simpl.
    eexists. split; [done|]. right. split; [exact Hx|]. exists lost. split; [|done].
    by apply cinv_alloc.
  - eexists. split; [done|]. right. split; [exact Hx|]. exists lost. split; [|done].
    by apply cinv_alloc.
  - eexists. split; [done|]. right. split; [exact Hx|]. rewrite app_nil_r.
    exists (new (cs_heap st) :: lost). split; [|done].
    by apply cinv_alloc.
  - rewrite app_nil_r. destruct (cs_kids st !! i) as [k|] eqn:Hk.
    2: { exists st. split; [done|]. right. split; [exact Hx|]. by exists lost. }
    destruct (cinv_step st asked lost i k Hi Hk) as (h&pc&l&->&Hi'). simpl.
    rewrite Hx in Hi'. eexists. split; [done|]. right. split; [done|]. by exists lost.
Qed.

Lemma cacts_exited l : ∀ st, cs_exited st = true → cacts st l = Done st.
Proof.
  induction l as [|a l IH]; intros st Hx; [done|]. simpl. unfold cact. rewrite Hx. simpl. by apply IH.
Qed.

Lemma cacts_inv l : ∀ st asked lost,
  Forall detachable l → cs_exited st = false → cinv st asked lost →
  ∃ st', cacts st l = Done st' ∧
    (cs_exited st' = false → ∃ lost',
       cinv st' (asked ++ mjoin (requested <$> l)) lost' ∧
       length lost' = (sum_list_with refused l + length lost)%nat).
Proof.
  induction l as [|a l IH]; intros st asked lost Hd Hx Hi.
  { exists st. split; [done|]. intros _. exists lost. by rewrite app_nil_r. }
  apply Forall_cons in Hd as [Ha Hd].
  destruct (cact_inv st asked lost a Ha Hx Hi) as (st1&E&Hst1). simpl. rewrite E. simpl.
  destruct Hst1 as [Hx1|(Hx1&lost1&Hi1&Hl1)].
  { exists st1. split; [by apply cacts_exited|]. by rewrite Hx1. }
  destruct (IH st1 _ lost1 Hd Hx1 Hi1) as (st'&E'&Hst'). exists st'. split; [done|].
  intros Hx'. destruct (Hst' Hx') as (lost'&Hi'&Hl'). exists lost'.
  rewrite app_assoc. split; [done|]. lia.
Qed.

(** a thread that has come to its end *)
Definition ended (k : kid A) : Prop := kd_pc k = KEnd.

(** the steps a thread has left *)
Definition kid_left (k : kid A) : nat :=
  match kd_pc k with
  | KStart _ => if kd_job k then 5 else 6
  | KObj _ _ => if kd_job k then 4 else 5
  | KMeth _ _ _ => if kd_job k then 3 else 4
  | KArgs _ _ => if kd_job k then 2 else 3
  | KDeleted _ => 2 | KReady _ | KCalled _ => 1 | KEnd => 0
  end.

Lemma kid_step_left h k h' pc l :
  kid_step h k = Done (h', pc, l) → kid_left (Kid (kd_job k) pc) = pred (kid_left k).
Proof.
  destruct k as [[] []]; unfold kid_step, read_closure, delete_closure; simpl;
    try (destruct (h !! p); simpl); intros [= <- <- <-]; done.
Qed.

Lemma kid_left_ended k : kid_left k = 0%nat → ended k.
Proof. destruct k as [[] []]; done. Qed.

(** the threads can always go on to their ends *)
Lemma threads_finish n : ∀ st asked lost,
  cs_exited st = false → cinv st asked lost → sum_list_with kid_left (cs_kids st) = n →
  ∃ steps st', length steps = n ∧ cacts st (AStep <$> steps) = Done st' ∧
    cs_exited st' = false ∧ cinv st' asked lost ∧ Forall ended (cs_kids st').
Proof.
  induction n as [|n IH]; intros st asked lost Hx Hi Hn.
  { exists [], st. split; [done|]. split; [done|]. split; [done|]. split; [done|].
    apply sum_list_with_zero in Hn. eapply Forall_impl; [exact Hn|]. apply kid_left_ended. }
  destruct (sum_list_with_pos kid_left (cs_kids st)) as (i&k&Hk&Hpos); [lia|].
  destruct (cinv_step st asked lost i k Hi Hk) as (h&pc&l&E&Hi').
  pose proof (kid_step_left _ _ _ _ _ E) as Hleft. pose proof (sum_list_with_insert kid_left
    (cs_kids st) i k (Kid (kd_job k) pc) Hk) as Hsum.
  rewrite Hx in Hi'. set (st1 := Csys h _ _ false) in Hi'. destruct (IH st1 asked lost ltac:(done) Hi') as (steps&st'&Hlen&E'&Hst'); [simpl; lia|].
  exists (i :: steps), st'. split; [simpl; lia|]. split; [|done].
  simpl. unfold cact. rewrite Hx, Hk, E. exact E'.
Qed.

(** what remains when all threads are through *)
Lemma cinv_ended st asked lost :
  cinv st asked lost → Forall ended (cs_kids st) →
  cs_calls st ≡ₚ asked ∧ size (cs_heap st) = length lost.
Proof.
  intros [H1 H2 _ H4] He.
  assert (todo st = [] ∧ ptrs st = []) as [Et Ep].
  { unfold todo, ptrs. clear - He. induction He as [|k ks Hk _ [IH1 IH2]]; [done|].
    unfold ended in Hk. split.
    - apply (f_equal2 app (y1:=[]) (y2:=[])); [unfold kid_todo; by rewrite Hk|exact IH1].
    - apply (f_equal2 app (y1:=[]) (y2:=[])); [unfold kid_ptr; by rewrite Hk|exact IH2]. }
  rewrite Et, app_nil_r in H4. split; [done|]. rewrite Ep in H1, H2. simpl in H1, H2.
  by rewrite <-size_dom, H2, size_list_to_set.
Qed.

(** C27. Whatever the interleaving of starters, threads and jobs: no thread reads or
    deletes a block that is gone, and a call is made at most once for each
    request, with its object, method and arguments.  The threads can go on to
    their ends, and then every request was carried out, and the only blocks left are those
    of the jobs that the pool did not take: these leak. *)
Theorem closures_called_once l :
  Forall detachable l →
  ∃ st, cacts csys_new l = Done st ∧
    (cs_exited st = false →
     (∃ later, cs_calls st ++ later ≡ₚ mjoin (requested <$> l)) ∧
     ∃ steps st', cacts st (AStep <$> steps) = Done st' ∧ Forall ended (cs_kids st') ∧
       cs_calls st' ≡ₚ mjoin (requested <$> l) ∧
       size (cs_heap st') = sum_list_with refused l).
Proof.
  intros Hd. destruct (cacts_inv l csys_new [] [] Hd eq_refl cinv_new) as (st&E&Hst).
  exists st. split; [done|]. intros Hx. destruct (Hst Hx) as (lost&Hi&Hl). simpl in Hl, Hi.
  split; [exists (todo st); by destruct Hi|].
  destruct (threads_finish _ st _ lost Hx Hi eq_refl) as (steps&st'&_&E'&_&Hi'&He).
  exists steps, st'. split; [done|]. split; [done|].
  destruct (cinv_ended _ _ _ Hi' He) as [Hc Hs]. split; [done|]. lia.
Qed.
End threads.

(** ** Witnesses *)

(** a thread, a job that is taken and one that is not, their steps interleaved *)
Definition sample_actions : list (@caction (Z * Z)) :=
  [AMethodThread (Closure 1 7 (4, 5)) true 0 0; AStep 0; AAddObjJob (Closure 2 8 (6, 6)) true;
   AStep 1; AStep 0; AAddObjJob (Closure 2 8 (0, 0)) false; AStep 0; AStep 1; AStep 0; AStep 1;
   AStep 0; AStep 1; AStep 0; AStep 1].

Definition next_address (h : gmap Z (closure (Z * Z)%type)) : Z := fresh (dom h : gset Z).

Lemma next_address_fresh h : h !! next_address h = None.
Proof. apply not_elem_of_dom. unfold next_address. apply is_fresh. Qed.

Lemma closures_called_once_witness :
  ∃ st, cacts next_address csys_new sample_actions = Done st ∧
    (cs_exited st = false →
     (∃ later, cs_calls st ++ later ≡ₚ [Closure 1 7 (4, 5); Closure 2 8 (6, 6)]) ∧
     ∃ steps st', cacts next_address st (AStep <$> steps) = Done st' ∧ Forall ended (cs_kids st') ∧
       cs_calls st' ≡ₚ [Closure 1 7 (4, 5); Closure 2 8 (6, 6)] ∧ size (cs_heap st') = 1%nat).
Proof.
  exact (closures_called_once next_address next_address_fresh sample_actions
    ltac:(repeat constructor)).
Defined.

Example sample_actions_end :
  match cacts next_address csys_new sample_actions with
  | Done st => Forall ended (cs_kids st) ∧ cs_calls st = [Closure 2 8 (6, 6); Closure 1 7 (4, 5)]
  | Fault _ => False
  end.
Proof. vm_compute. split; [repeat constructor|reflexivity]. Qed.
