(* ===== verification/Connection.v ===== *)
(** * Connections: [rpc/connection.h] and [rpc/connection.cc]

    The part of a [connection] that does not block: its reference count and
    life time, and the framing of PDUs on the socket ([writepdu], [readpdu] and
    the upcall of [read_cb]).  The kernel side of a socket is a byte queue per
    direction; what [read] and [write] return for it is their documented
    behaviour. *)

From S2P Require Import Prelude Marshall.

Definition MAX_PDU : Z := Z.shiftl 10 20.
Definition EAGAIN : Z := 11.
Definition EFAULT : Z := 14.
Definition PTRDIFF_MAX : Z := 2 ^ 63 - 1.
Definition SSIZE_MAX : Z := 2 ^ 63 - 1.
Definition sizeof_int : Z := 4.

Record charbuf := Charbuf { cb_buf : option (list byte); cb_sz : Z; cb_solong : Z }.
Definition charbuf_empty : charbuf := {| cb_buf := None; cb_sz := 0; cb_solong := 0 |}.

Record connection := Connection {
  cn_fd : Z; cn_dead : bool; cn_wpdu : charbuf; cn_rpdu : charbuf;
  cn_refno : Z; cn_lossy : Z }.

Definition connection_new (fd lossy : Z) : connection :=
  {| cn_fd := fd; cn_dead := false; cn_wpdu := charbuf_empty; cn_rpdu := charbuf_empty;
     cn_refno := 1; cn_lossy := lossy |}.

Definition set_dead (c : connection) : connection :=
  {| cn_fd := cn_fd c; cn_dead := true; cn_wpdu := cn_wpdu c; cn_rpdu := cn_rpdu c;
     cn_refno := cn_refno c; cn_lossy := cn_lossy c |}.
Definition set_wpdu (c : connection) (w : charbuf) : connection :=
  {| cn_fd := cn_fd c; cn_dead := cn_dead c; cn_wpdu := w; cn_rpdu := cn_rpdu c;
     cn_refno := cn_refno c; cn_lossy := cn_lossy c |}.
Definition set_rpdu (c : connection) (r : charbuf) : connection :=
  {| cn_fd := cn_fd c; cn_dead := cn_dead c; cn_wpdu := cn_wpdu c; cn_rpdu := r;
     cn_refno := cn_refno c; cn_lossy := cn_lossy c |}.
Definition set_refno (c : connection) (n : Z) : connection :=
  {| cn_fd := cn_fd c; cn_dead := cn_dead c; cn_wpdu := cn_wpdu c; cn_rpdu := cn_rpdu c;
     cn_refno := n; cn_lossy := cn_lossy c |}.

(** ** Life time

    The objects live in a store; a pointer is a key of it.  Using a pointer
    whose object was deleted is a fault. *)

Abbreviation ptr := Z (only parsing).
Abbreviation conn_store := (gmap Z connection).

Definition deref (s : conn_store) (p : ptr) : outcome connection :=
  match s !! p with Some c => Done c | None => Fault UseAfterFree end.

Definition incref (s : conn_store) (p : ptr) : outcome conn_store :=
  let! c := deref s p in Done (<[p := set_refno c (cn_refno c + 1)]> s).

Definition isdead (s : conn_store) (p : ptr) : outcome bool :=
  let! c := deref s p in Done (cn_dead c).

Definition conn_ref (s : conn_store) (p : ptr) : outcome Z :=
  let! c := deref s p in Done (cn_refno c).

(** [~connection()] *)
Definition conn_delete (s : conn_store) (p : ptr) : outcome conn_store :=
  let! c := deref s p in
  check! cn_dead c in
  check! bool_decide (cb_buf (cn_wpdu c) = None) in
  Done (delete p s).

Definition decref (s : conn_store) (p : ptr) : outcome conn_store :=
  let! c := deref s p in
  let n := cn_refno c - 1 in
  check! bool_decide (0 ≤ n) in
  let s := <[p := set_refno c n]> s in
  if decide (n = 0) then
    if cn_dead c then conn_delete s p else Done s
  else Done s.

(** [closeconn]: whether the descriptor has to be removed from the poll set *)
Definition closeconn (s : conn_store) (p : ptr) : outcome (conn_store * bool) :=
  let! c := deref s p in
  if cn_dead c then Done (s, false) else Done (<[p := set_dead c]> s, true).

(** ** Framing *)

(** The kernel's answer to a non-blocking [write] of at most [quota] bytes. *)
Inductive write_answer := WAccept (quota : Z) | WError (errno : Z).

(** [writepdu]: the connection, the result, and the bytes handed to the kernel *)
Definition writepdu (c : connection) (a : write_answer)
    : outcome (connection * bool * list byte) :=
  let w := cn_wpdu c in
  check! bool_decide (0 ≤ cb_solong w) in
  if decide (cb_solong w = cb_sz w) then Done (c, true, [])
  else match cb_buf w with
  | None => Fault NullDeref
  | Some b =>
      let! b := (if decide (cb_solong w = 0)
                 then mem_write b 0 (be32 (u32 (cb_sz w))) else Done b) in
      let w := {| cb_buf := Some b; cb_sz := cb_sz w; cb_solong := cb_solong w |} in
      match a with
      | WError e =>
          if decide (e = EAGAIN) then Done (set_wpdu c w, true, [])
          else Done (set_wpdu c {| cb_buf := Some b; cb_sz := 0; cb_solong := -1 |}, false, [])
      | WAccept q =>
          let n := Z.min (Z.max 0 q) (cb_sz w - cb_solong w) in
          let! out := mem_slice b (cb_solong w) n in
          Done (set_wpdu c {| cb_buf := Some b; cb_sz := cb_sz w;
                              cb_solong := cb_solong w + n |}, true, out)
      end
  end.

(** The receiving side of a socket: the bytes that have arrived and not been
    read, whether the peer has closed, and the thread's [errno]. *)
Record sock := Sock { sk_in : list byte; sk_eof : bool; sk_errno : Z }.

(** [read] returns some bytes, 0, or -1 with [errno] set; a count that no
    buffer can hold is refused with [EFAULT] *)
Inductive read_answer := RBytes (l : list byte) | RZero | RError.

Definition sys_read (s : sock) (count : Z) : sock * read_answer :=
  if decide (count = 0) then (s, RZero)
  else if decide (SSIZE_MAX < count) then
    ({| sk_in := sk_in s; sk_eof := sk_eof s; sk_errno := EFAULT |}, RError)
  else match sk_in s with
  | [] => if sk_eof s then (s, RZero)
          else ({| sk_in := []; sk_eof := false; sk_errno := EAGAIN |}, RError)
  | l => let n := Z.to_nat (Z.min count (Zlength l)) in
         ({| sk_in := drop n l; sk_eof := sk_eof s; sk_errno := sk_errno s |},
          RBytes (take n l))
  end.

Section readpdu.
Context `{Heap}.

(** [malloc] of a [size_t]; more than [PTRDIFF_MAX] is refused *)
Definition malloc_size (n : Z) : option (list byte) :=
  if decide (u64 n ≤ PTRDIFF_MAX) then Some (malloc (u64 n)) else None.

(** the second half of [readpdu]: read the rest of the body *)
Definition readpdu_body (c : connection) (s : sock) : outcome (connection * sock * bool) :=
  let r := cn_rpdu c in
  let '(s, a) := sys_read s (u64 (cb_sz r - cb_solong r)) in
  match a with
  | RBytes l =>
      match cb_buf r with
      | None => Fault NullDeref
      | Some b =>
          let! b := mem_write b (cb_solong r) l in
          Done (set_rpdu c {| cb_buf := Some b; cb_sz := cb_sz r;
                              cb_solong := cb_solong r + Zlength l |}, s, true)
      end
  | RZero | RError =>
      if decide (sk_errno s = EAGAIN) then Done (c, s, true)
      else Done (set_rpdu c charbuf_empty, s, false)
  end.

Definition readpdu (c : connection) (s : sock) : outcome (connection * sock * bool) :=
  if decide (cb_sz (cn_rpdu c) = 0) then
    let '(s, a) := sys_read s sizeof_int in
    match a with
    | RZero => Done (c, s, false)
    | RError => check! negb (bool_decide (sk_errno s = EAGAIN)) in Done (c, s, false)
    | RBytes [b3; b2; b1; b0] =>
        let sz := s32 (be32_value b3 b2 b1 b0) in
        if decide (MAX_PDU < sz) then Done (c, s, false)
        else
          check! bool_decide (cb_buf (cn_rpdu c) = None) in
          match malloc_size (sz + sizeof_int) with
          | None => Fault AssertFailed
          | Some b =>
              let! b := mem_write b 0 [b3; b2; b1; b0] in
              readpdu_body (set_rpdu c {| cb_buf := Some b; cb_sz := sz;
                                          cb_solong := sizeof_int |}) s
          end
    | RBytes _ => Done (c, s, false)
    end
  else readpdu_body c s.

(** [read_cb] with the answer [accepted] of the manager's [got_pdu]: the PDU
    handed up, if any. *)
Definition read_cb (c : connection) (s : sock) (accepted : bool)
    : outcome (connection * sock * option (list byte * Z)) :=
  if cn_dead c then Done (c, s, None)
  else
    let! '(c, s, succ) :=
      (if bool_decide (cb_buf (cn_rpdu c) = None) ||
          bool_decide (cb_solong (cn_rpdu c) < cb_sz (cn_rpdu c))
       then readpdu c s else Done (c, s, true)) in
    let c := if succ then c else set_dead c in
    let r := cn_rpdu c in
    match cb_buf r with
    | Some b =>
        if decide (cb_sz r = cb_solong r) then
          Done (if accepted then set_rpdu c charbuf_empty else c, s, Some (b, cb_sz r))
        else Done (c, s, None)
    | None => Done (c, s, None)
    end.

End readpdu.

(** ** Facts: life time *)

Lemma deref_Done s p c : deref s p = Done c ↔ s !! p = Some c.
Proof. unfold deref. destruct (s !! p); split; intros; by simplify_eq. Qed.

(** [refs] lists the references that threads, maps and jobs hold, one entry per
    reference.  Every held object exists and counts its holders. *)
Definition refs_ok (s : conn_store) (refs : list ptr) : Prop :=
  (∀ p, p ∈ refs → is_Some (s !! p)) ∧
  (∀ p c, s !! p = Some c → cn_refno c = Z.of_nat (length (filter (eq p) refs))).

Lemma refs_ok_perm s l1 l2 : l1 ≡ₚ l2 → refs_ok s l1 → refs_ok s l2.
Proof.
  intros Hp [H1 H2]. split.
  - intros p. rewrite <-Hp. apply H1.
  - intros p c Hc. rewrite (H2 p c Hc). by rewrite Hp.
Qed.

Lemma filter_eq_cons {A} `{EqDecision A} (p q : A) (l : list A) :
  length (filter (eq p) (q :: l)) =
    ((if decide (p = q) then 1 else 0) + length (filter (eq p) l))%nat.
Proof. rewrite filter_cons. case_decide; done. Qed.

Lemma incref_refs_ok s p refs :
  refs_ok s refs → p ∈ refs →
  ∃ s', incref s p = Done s' ∧ refs_ok s' (p :: refs).
Proof.
  intros [H1 H2] Hp. destruct (H1 p Hp) as [c Hc]. unfold incref, deref. rewrite Hc.
  simpl. eexists. split; [done|]. split.
  - intros q Hq. rewrite lookup_insert. case_decide; [done|].
    apply elem_of_cons in Hq as [->|Hq]; [done|auto].
  - intros q c' Hc'. rewrite filter_eq_cons. rewrite lookup_insert in Hc'.
    case_decide as Hd; [subst q; simplify_eq|].
    + rewrite decide_True by done. simpl. rewrite (H2 p c Hc). lia.
    + rewrite decide_False by congruence. simpl. by apply H2.
Qed.

(** Dropping a held reference never faults; the object goes away exactly when
    this was the last reference and the connection is dead. *)
Lemma decref_refs_ok s p c refs :
  refs_ok s (p :: refs) → s !! p = Some c → (p ∉ refs → cb_buf (cn_wpdu c) = None) →
  ∃ s', decref s p = Done s' ∧ refs_ok s' refs ∧
    (s' !! p = None ↔ ((p ∉ refs) ∧ cn_dead c = true)).
Proof.
  intros [H1 H2] Hc Hw. pose proof (H2 p c Hc) as Hn. rewrite filter_eq_cons in Hn.
  rewrite decide_True in Hn by done. set (n := length (filter (eq p) refs)) in *.
  assert (p ∈ refs ↔ n ≠ 0%nat) as Hin.
  { unfold n. split; intros Hp.
    - destruct (filter (eq p) refs) as [|? ?] eqn:E; [|done].
      assert (p ∈ filter (eq p) refs) as Hq by (by apply list_elem_of_filter).
      rewrite E in Hq. by apply elem_of_nil in Hq.
    - destruct (filter (eq p) refs) as [|q l] eqn:E; [done|].
      assert (q ∈ filter (eq p) refs) as Hq by (rewrite E; set_solver).
      apply list_elem_of_filter in Hq as [-> Hq]. done. }
  assert (∀ s', (∀ q, q ≠ p → s' !! q = s !! q) →
    s' !! p = Some (set_refno c (Z.of_nat n)) ∨ (s' !! p = None ∧ n = 0%nat) →
    refs_ok s' refs) as Hok.
  { intros s' Hne Hp. split.
    - intros q Hq. destruct (decide (q = p)) as [->|].
      + destruct Hp as [->|[_ Hz]]; [done|]. tauto.
      + rewrite Hne by done. apply H1, elem_of_cons. by right.
    - intros q c' Hq. destruct (decide (q = p)) as [->|Hqp].
      + destruct Hp as [Hp|[Hp _]]; rewrite Hp in Hq; [|done]. by injection Hq as <-.
      + rewrite Hne in Hq by done. rewrite (H2 q c' Hq), filter_eq_cons.
        by rewrite decide_False. }
  unfold decref, deref. rewrite Hc. simpl. rewrite bool_decide_eq_true_2 by lia.
  replace (cn_refno c - 1) with (Z.of_nat n) by lia. case_decide as Hz.
  - assert (n = 0%nat) as Hn0 by lia. destruct (cn_dead c) eqn:Hd.
    + unfold conn_delete, deref. rewrite lookup_insert_eq. simpl. rewrite Hd, Hw by tauto.
      rewrite bool_decide_eq_true_2 by done. eexists. split; [done|]. split.
      * apply Hok; [|right; split; [apply lookup_delete_eq|done]].
        intros q Hq. by rewrite lookup_delete_ne, lookup_insert_ne.
      * rewrite lookup_delete_eq. tauto.
    + eexists. split; [done|]. split.
      * apply Hok; [intros q Hq; by rewrite lookup_insert_ne|left].
        by rewrite lookup_insert_eq.
      * rewrite lookup_insert_eq. split; [done|]. intros [_ ?]. done.
  - eexists. split; [done|]. split.
    + apply Hok; [intros q Hq; by rewrite lookup_insert_ne|left].
      by rewrite lookup_insert_eq.
    + rewrite lookup_insert_eq. split; [done|]. intros [Hp _]. exfalso. apply Hp, Hin. lia.
Qed.

(** A thread that is inside [send] holds a reference, so the outgoing PDU of an
    object is empty when its last reference goes. *)
Definition conns_ok (s : conn_store) (refs senders : list ptr) : Prop :=
  refs_ok s refs ∧
  ∀ p c, s !! p = Some c → cb_buf (cn_wpdu c) ≠ None → p ∈ senders.

Lemma conns_ok_perm s l1 l2 m : l1 ≡ₚ l2 → conns_ok s l1 m → conns_ok s l2 m.
Proof. intros Hp [H1 H2]. split; [by eapply refs_ok_perm|done]. Qed.

Lemma conns_ok_senders s refs m m' : (∀ p, p ∈ m → p ∈ m') → conns_ok s refs m → conns_ok s refs m'.
Proof. intros Hm [H1 H2]. split; [done|]. eauto. Qed.

Lemma conns_ok_deref s p refs m :
  conns_ok s refs m → p ∈ refs → ∃ c, deref s p = Done c ∧ s !! p = Some c.
Proof. intros [[H _] _] Hp. destruct (H p Hp) as [c Hc]. exists c. by rewrite deref_Done. Qed.

Lemma incref_absent s p s' q : incref s p = Done s' → s !! q = None → s' !! q = None.
Proof.
  unfold incref. intros E Hq. apply obind_Done_inv in E as (c&Hd&E). injection E as <-.
  rewrite lookup_insert_ne; [done|]. intros ->. apply deref_Done in Hd. congruence.
Qed.

Lemma conns_ok_incref s p refs m :
  conns_ok s refs m → p ∈ refs → ∃ s', incref s p = Done s' ∧ conns_ok s' (p :: refs) m.
Proof.
  intros [H1 H2] Hp. destruct (incref_refs_ok s p refs H1 Hp) as (s'&E&H'). exists s'.
  split; [done|]. split; [done|]. intros q c Hq Hw.
  unfold incref, deref in E. destruct (s !! p) as [cp|] eqn:Hcp; [|done]. simpl in E.
  injection E as <-. rewrite lookup_insert in Hq. case_decide; simplify_eq; eauto.
Qed.

Lemma decref_lookup s s' p q c' :
  decref s p = Done s' → s' !! q = Some c' → ∃ c, s !! q = Some c ∧ cn_wpdu c' = cn_wpdu c.
Proof.
  unfold decref. destruct (deref s p) as [c|] eqn:Hc; [|done]. apply deref_Done in Hc. simpl.
  assert (∀ n, <[p := set_refno c n]> s !! q = Some c' →
    ∃ c0, s !! q = Some c0 ∧ cn_wpdu c' = cn_wpdu c0) as Hins.
  { intros n. rewrite lookup_insert. case_decide as Hd; [subst q; intros; simplify_eq|]; eauto. }
  case_bool_decide; [|done]. case_decide; [|intros; inv_done; eauto].
  destruct (cn_dead c); [|intros; inv_done; eauto].
  unfold conn_delete. destruct (deref _ p) as [c1|]; [|done]. simpl.
  destruct (cn_dead c1); [|done]. case_bool_decide; [|done]. intros ? Hq. inv_done.
  rewrite lookup_delete in Hq. case_decide; [done|]. eauto.
Qed.

Lemma conns_ok_decref s p refs m :
  conns_ok s (p :: refs) m → (∀ q, q ∈ m → q ∈ refs) →
  ∃ s', decref s p = Done s' ∧ conns_ok s' refs m.
Proof.
  intros [H1 H2] Hm. destruct (conns_ok_deref s p (p :: refs) m) as (c&_&Hc); [done|set_solver|].
  destruct (decref_refs_ok s p c refs H1 Hc) as (s'&E&H'&_).
  { intros Hp. destruct (cb_buf (cn_wpdu c)) eqn:Hb; [|done].
    exfalso. apply Hp, Hm, (H2 p c Hc). by rewrite Hb. }
  exists s'. split; [done|]. split; [done|]. intros q c' Hq Hw.
  destruct (decref_lookup s s' p q c' E Hq) as (c0&Hc0&Hw0). rewrite Hw0 in Hw. eauto.
Qed.

Lemma conns_ok_new s p fd loss refs m :
  conns_ok s refs m → s !! p = None →
  conns_ok (<[p := connection_new fd loss]> s) (p :: refs) m.
Proof.
  intros [[H1 H2] H3] Hp. assert (p ∉ refs) as Hn.
  { intros Hin. destruct (H1 p Hin). congruence. }
  split; [split|].
  - intros q Hq. rewrite lookup_insert. case_decide; [done|].
    apply elem_of_cons in Hq as [->|?]; [done|auto].
  - intros q c. rewrite lookup_insert, filter_eq_cons. case_decide as Hd.
    + subst q. intros [= <-]. rewrite decide_True by done. simpl.
      destruct (filter (eq p) refs) as [|z l] eqn:E; [done|]. exfalso.
      assert (z ∈ filter (eq p) refs) as Hz by (rewrite E; set_solver).
      apply list_elem_of_filter in Hz as [-> Hz]. done.
    + intros Hc. rewrite decide_False by done. by apply H2.
  - intros q c. rewrite lookup_insert. case_decide; [intros [= <-]; done|eauto].
Qed.

(** ** Facts: the sender *)

(** the PDU as it appears on the wire: its size, then the rest of the buffer *)
Definition frame_of (b : list byte) (sz : Z) : list byte :=
  be32 sz ++ drop 4 (take (Z.to_nat sz) b).

Lemma frame_of_length b sz : 4 ≤ sz ≤ Zlength b → Zlength (frame_of b sz) = sz.
Proof.
  intros. unfold frame_of. rewrite length_app, be32_length, length_drop, length_take. lia.
Qed.

(** a run of [writepdu] calls, one kernel answer each *)
Fixpoint write_all (c : connection) (l : list write_answer) : outcome (connection * list byte) :=
  match l with
  | [] => Done (c, [])
  | a :: l =>
      let! '(c, _, out) := writepdu c a in
      let! '(c, rest) := write_all c l in Done (c, out ++ rest)
  end.

Definition no_error (a : write_answer) : Prop :=
  match a with WAccept _ => True | WError e => e = EAGAIN end.

(** [w] is writing the frame [f] and has written a prefix of it *)
Definition writing (w : charbuf) (f : list byte) : Prop :=
  ∃ b, cb_buf w = Some b ∧ 4 ≤ cb_sz w ≤ Zlength b ∧ is_u32 (cb_sz w) ∧
    0 ≤ cb_solong w ≤ cb_sz w ∧ f = frame_of b (cb_sz w) ∧
    (cb_solong w ≠ 0 → take (Z.to_nat (cb_sz w)) b = f).

Lemma mem_write_header b sz :
  4 ≤ sz ≤ Zlength b → is_u32 sz →
  ∃ b', mem_write b 0 (be32 (u32 sz)) = Done b' ∧ length b' = length b ∧
        take (Z.to_nat sz) b' = frame_of b sz.
Proof.
  intros Hsz Hu. rewrite u32_small by done.
  destruct (mem_write b 0 (be32 sz)) as [b'|] eqn:Hw.
  2: { rewrite mem_write_Done in Hw by (rewrite ?be32_length; lia). done. }
  exists b'. split; [done|]. split; [by eapply mem_write_length|].
  rewrite mem_write_Done in Hw by (rewrite ?be32_length; lia).
  injection Hw as <-. change (take (Z.to_nat sz) (be32 sz ++ drop 4 b) = frame_of b sz).
  unfold frame_of. rewrite take_app_ge by (rewrite be32_length; lia).
  rewrite be32_length. f_equal. by rewrite skipn_firstn_comm.
Qed.

Lemma slice_take b m i n :
  0 ≤ i → 0 ≤ n → i + n ≤ m ≤ Zlength b →
  ∃ out, mem_slice b i n = Done out ∧
    take (Z.to_nat i) (take (Z.to_nat m) b) ++ out =
      take (Z.to_nat (i + n)) (take (Z.to_nat m) b).
Proof.
  intros. rewrite mem_slice_Done by lia. eexists. split; [done|].
  rewrite !firstn_firstn, !Nat.min_l by lia.
  rewrite Z2Nat.inj_add by lia. by rewrite take_take_drop.
Qed.

Lemma frame_of_self b sz f :
  4 ≤ sz ≤ Zlength b → take (Z.to_nat sz) b = f → (∃ b0, f = frame_of b0 sz) →
  f = frame_of b sz.
Proof. intros Hsz Ht [b0 Hb0]. unfold frame_of. rewrite Ht, Hb0. done. Qed.

(** the amount the kernel takes *)
Definition accepted (a : write_answer) : Z :=
  match a with WAccept q => Z.max 0 q | WError _ => 0 end.

Fixpoint total_accepted (l : list write_answer) : Z :=
  match l with [] => 0 | a :: l => accepted a + total_accepted l end.

Lemma accepted_nonneg a : 0 ≤ accepted a.
Proof. destruct a; simpl; lia. Qed.
Lemma total_accepted_nonneg l : 0 ≤ total_accepted l.
Proof. induction l as [|a l IH]; simpl; [lia|]. pose proof (accepted_nonneg a). lia. Qed.

Lemma writepdu_spec c a f :
  writing (cn_wpdu c) f → no_error a →
  ∃ c' out, writepdu c a = Done (c', true, out) ∧ writing (cn_wpdu c') f ∧
    take (Z.to_nat (cb_solong (cn_wpdu c))) f ++ out =
      take (Z.to_nat (cb_solong (cn_wpdu c'))) f ∧
    cb_sz (cn_wpdu c') = cb_sz (cn_wpdu c) ∧
    cb_solong (cn_wpdu c') =
      Z.min (cb_sz (cn_wpdu c)) (cb_solong (cn_wpdu c) + accepted a).
Proof.
  intros (b&Hb&Hsz&Hu&Hsol&Hf&Htk) Ha. unfold writepdu.
  rewrite bool_decide_eq_true_2 by lia. case_decide as Hd.
  { exists c, []. split; [done|]. split; [by exists b|]. rewrite app_nil_r.
    split; [done|]. split; [done|]. destruct a; simpl; lia. }
  rewrite Hb.
  assert (∃ b', (if decide (cb_solong (cn_wpdu c) = 0)
      then mem_write b 0 (be32 (u32 (cb_sz (cn_wpdu c)))) else Done b) = Done b' ∧
    length b' = length b ∧ take (Z.to_nat (cb_sz (cn_wpdu c))) b' = f) as (b'&->&Hl&Ht).
  { case_decide as Hz; [|exists b; split_and!; try done; auto].
    rewrite Hf. apply mem_write_header; [lia|done]. }
  rewrite obind_Done.
  assert (∀ s, 0 ≤ s ≤ cb_sz (cn_wpdu c) →
    writing {| cb_buf := Some b'; cb_sz := cb_sz (cn_wpdu c); cb_solong := s |} f) as Hw.
  { intros s Hs. exists b'. simpl. split_and!; try done; try lia.
    apply frame_of_self; [lia|done|eauto]. }
  destruct a as [q|e]; simpl in Ha |- *.
  - set (n := Z.min (Z.max 0 q) _).
    destruct (slice_take b' (cb_sz (cn_wpdu c)) (cb_solong (cn_wpdu c)) n)
      as (out&->&Hout); [lia..|].
    simpl. eexists _, out. split; [done|]. simpl. split; [apply Hw; lia|].
    split; [by rewrite <-Ht|]. split; [done|lia].
  - rewrite decide_True by done. eexists _, []. split; [done|]. simpl.
    split; [apply Hw; lia|]. rewrite app_nil_r. split; [done|]. split; [done|lia].
Qed.

Lemma write_all_spec l c f :
  writing (cn_wpdu c) f → Forall no_error l →
  ∃ c' out, write_all c l = Done (c', out) ∧ writing (cn_wpdu c') f ∧
    take (Z.to_nat (cb_solong (cn_wpdu c))) f ++ out =
      take (Z.to_nat (cb_solong (cn_wpdu c'))) f ∧
    cb_sz (cn_wpdu c') = cb_sz (cn_wpdu c) ∧
    cb_solong (cn_wpdu c') =
      Z.min (cb_sz (cn_wpdu c)) (cb_solong (cn_wpdu c) + total_accepted l).
Proof.
  intros Hw Hl. revert c Hw. induction Hl as [|a l Ha Hl IH]; intros c Hw.
  - exists c, []. simpl. rewrite app_nil_r. split_and!; try done.
    destruct Hw as (?&?&?&?&?&?). lia.
  - destruct (writepdu_spec c a f Hw Ha) as (c1&o1&E1&W1&T1&S1&L1).
    destruct (IH c1 W1) as (c2&o2&E2&W2&T2&S2&L2).
    exists c2, (o1 ++ o2). simpl. rewrite E1. simpl. rewrite E2. simpl.
    split_and!; try done; try congruence.
    + by rewrite app_assoc, T1.
    + rewrite L2, S1, L1. pose proof (accepted_nonneg a). pose proof (total_accepted_nonneg l).
      lia.
Qed.

(** ** Facts: the receiver *)

(** a PDU that starts with its own size *)
Definition valid_frame (f : list byte) : Prop :=
  sizeof_int < Zlength f ≤ MAX_PDU ∧ take 4 f = be32 (Zlength f).

Section framing.
Context `{Heap} (frames : list (list byte)).

(** the receiving side, with the PDUs accepted so far and all bytes ever arrived *)
Record rx := Rx {
  rx_conn : connection; rx_sock : sock;
  rx_delivered : list (list byte); rx_arrived : list byte }.

Definition deliver (acc : bool) (o : option (list byte * Z)) (d : list (list byte)) :=
  match o with
  | Some (b, sz) => if acc then d ++ [take (Z.to_nat sz) b] else d
  | None => d
  end.

(** Bytes of the peer's stream arrive in any pieces; the poll thread calls
    [read_cb] when the socket is readable.  At the start of a PDU the four bytes
    of its size have to be there ([readpdu] gives the connection up otherwise). *)
Definition header_ready (c : connection) (s : sock) : Prop :=
  cb_sz (cn_rpdu c) = 0 → sizeof_int ≤ Zlength (sk_in s).

Inductive rx_step : relation rx :=
  | rx_arrive st l :
      rx_arrived st ++ l `prefix_of` mjoin frames →
      rx_step st {| rx_conn := rx_conn st;
        rx_sock := {| sk_in := sk_in (rx_sock st) ++ l; sk_eof := sk_eof (rx_sock st);
                      sk_errno := sk_errno (rx_sock st) |};
        rx_delivered := rx_delivered st; rx_arrived := rx_arrived st ++ l |}
  | rx_readable st acc c s o :
      header_ready (rx_conn st) (rx_sock st) →
      read_cb (rx_conn st) (rx_sock st) acc = Done (c, s, o) →
      rx_step st {| rx_conn := c; rx_sock := s;
        rx_delivered := deliver acc o (rx_delivered st); rx_arrived := rx_arrived st |}.

(** [r] holds the first bytes [part] of the frame [f] *)
Definition receiving (r : charbuf) (part f : list byte) : Prop :=
  ∃ b, cb_buf r = Some b ∧ cb_sz r = Zlength f ∧ Zlength b = cb_sz r + sizeof_int ∧
    sizeof_int ≤ cb_solong r ≤ cb_sz r ∧ part = take (Z.to_nat (cb_solong r)) b ∧
    part = take (Z.to_nat (cb_solong r)) f.

Definition rx_ok (st : rx) : Prop :=
  cn_dead (rx_conn st) = false ∧ sk_eof (rx_sock st) = false ∧
  rx_arrived st `prefix_of` mjoin frames ∧
  ∃ k part, rx_delivered st = take k frames ∧
    mjoin (take k frames) ++ part ++ sk_in (rx_sock st) = rx_arrived st ∧
    ((cn_rpdu (rx_conn st) = charbuf_empty ∧ part = []) ∨
     (∃ f, frames !! k = Some f ∧ receiving (cn_rpdu (rx_conn st)) part f)).

Lemma join_take_S k f :
  frames !! k = Some f → mjoin (take (S k) frames) = mjoin (take k frames) ++ f.
Proof.
  intros Hf. rewrite (take_S_r frames k f Hf), join_app. simpl. by rewrite app_nil_r.
Qed.

Lemma stream_prefix k f x :
  frames !! k = Some f → mjoin (take k frames) ++ x `prefix_of` mjoin frames →
  x `prefix_of` f ++ mjoin (drop (S k) frames).
Proof.
  intros Hf Hp. rewrite <-(take_drop k frames) in Hp at 2. rewrite join_app in Hp.
  apply prefix_app_inv in Hp. by rewrite (drop_S frames f k Hf) in Hp.
Qed.

Lemma stream_nonempty k x y :
  mjoin (take k frames) ++ x :: y `prefix_of` mjoin frames → is_Some (frames !! k).
Proof.
  intros Hp. destruct (frames !! k) as [f|] eqn:E; [done|]. apply lookup_ge_None in E.
  rewrite take_ge in Hp by done. apply prefix_length in Hp. rewrite length_app in Hp.
  simpl in Hp. lia.
Qed.

Lemma prefix_take {A} (p l m : list A) n :
  p `prefix_of` l ++ m → (n ≤ length p)%nat → (n ≤ length l)%nat → take n p = take n l.
Proof.
  intros [q Hq] Hn Hl. rewrite <-(take_app_le p q) by done. rewrite <-Hq.
  by rewrite take_app_le.
Qed.

(** reading from a live socket *)
Lemma sys_read_live s count :
  sk_eof s = false → 0 < count ≤ SSIZE_MAX →
  (sk_in s = [] ∧ sys_read s count =
     ({| sk_in := []; sk_eof := false; sk_errno := EAGAIN |}, RError)) ∨
  (∃ n, (0 < n)%nat ∧ n = Z.to_nat (Z.min count (Zlength (sk_in s))) ∧
     (n ≤ length (sk_in s))%nat ∧ Z.of_nat n ≤ count ∧
     sys_read s count = ({| sk_in := drop n (sk_in s); sk_eof := false;
       sk_errno := sk_errno s |}, RBytes (take n (sk_in s)))).
Proof.
  intros He Hc. unfold sys_read. rewrite !decide_False by lia. rewrite He.
  destruct (sk_in s) as [|x l]; [by left|right].
  exists (Z.to_nat (Z.min count (Zlength (x :: l)))). simpl length.
  split_and!; try lia. done.
Qed.

Lemma sys_read_header s b3 b2 b1 b0 l :
  sk_in s = b3 :: b2 :: b1 :: b0 :: l →
  sys_read s sizeof_int =
    ({| sk_in := l; sk_eof := sk_eof s; sk_errno := sk_errno s |}, RBytes [b3; b2; b1; b0]).
Proof.
  intros Hin. unfold sys_read. rewrite Hin, decide_False, decide_False by done.
  rewrite Z.min_l by (simpl length; unfold sizeof_int; lia).
  change (Z.to_nat sizeof_int) with 4%nat. simpl take. simpl drop. by rewrite drop_0.
Qed.

Lemma body_spec c s k f part :
  frames !! k = Some f → valid_frame f → receiving (cn_rpdu c) part f →
  cb_solong (cn_rpdu c) < cb_sz (cn_rpdu c) → sk_eof s = false →
  mjoin (take k frames) ++ part ++ sk_in s `prefix_of` mjoin frames →
  ∃ r s' part', readpdu_body c s = Done (set_rpdu c r, s', true) ∧
    receiving r part' f ∧ sk_eof s' = false ∧ part' ++ sk_in s' = part ++ sk_in s.
Proof.
  intros Hf [Hv1 Hv2] (b&Hb&Hsz&Hlen&Hsol&Hpart&Hpf) Hlt He Hp.
  unfold readpdu_body. unfold sizeof_int in *.
  assert (MAX_PDU = 10485760) as HM by done.
  rewrite u64_small by lia_ints.
  destruct (sys_read_live s (cb_sz (cn_rpdu c) - cb_solong (cn_rpdu c)) He ltac:(assert (SSIZE_MAX = 9223372036854775807) by done; lia))
    as [[Hin ->]|(n&Hn0&Hn&Hnl&Hnc&->)].
  - simpl. exists (cn_rpdu c), {| sk_in := []; sk_eof := false; sk_errno := EAGAIN |}, part.
    split; [destruct c; done|]. split; [exists b; done|]. split; [done|]. by rewrite Hin.
  - rewrite Hb. destruct (mem_write b (cb_solong (cn_rpdu c)) (take n (sk_in s))) as [b'|] eqn:Hw.
    2: { rewrite mem_write_Done in Hw; [done|lia|rewrite length_take; lia]. }
    rewrite obind_Done. pose proof (mem_write_length _ _ _ _ Hw) as Hl.
    apply take_mem_write in Hw. rewrite length_take, Nat.min_l in Hw by done.
    rewrite length_take, Nat.min_l by done.
    eexists _, _, (part ++ take n (sk_in s)). split; [done|]. split; [|split; [done|]].
    + exists b'. simpl. unfold sizeof_int. split_and!; try done; try lia.
      * by rewrite Hw, Hpart.
      * apply (stream_prefix k f) in Hp; [|done].
        assert (length part = Z.to_nat (cb_solong (cn_rpdu c))) as Hlp.
        { rewrite Hpart, length_take. lia. }
        rewrite <-(prefix_take (part ++ sk_in s) f _ _ Hp) by (rewrite ?length_app; lia).
        rewrite take_app_ge by lia. f_equal. f_equal. lia.
    + simpl. by rewrite <-app_assoc, take_drop.
Qed.

Lemma rpdu_receiving_full c part f :
  receiving (cn_rpdu c) part f → ¬ cb_solong (cn_rpdu c) < cb_sz (cn_rpdu c) →
  part = f ∧ ∃ b, cb_buf (cn_rpdu c) = Some b ∧ cb_sz (cn_rpdu c) = cb_solong (cn_rpdu c) ∧
    take (Z.to_nat (cb_sz (cn_rpdu c))) b = f.
Proof.
  intros (b&Hb&Hsz&Hlen&Hsol&Hpart&Hpf) Hge.
  assert (cb_solong (cn_rpdu c) = cb_sz (cn_rpdu c)) as E by lia.
  assert (part = f) as Hpart_f by (rewrite Hpf, E, Hsz, Nat2Z.id; apply firstn_all).
  split; [done|]. exists b. split_and!; [done|done|]. by rewrite <-E, <-Hpart.
Qed.

(** [readpdu] at the start of a PDU or inside one *)
Lemma readpdu_spec c s k part :
  Forall valid_frame frames → sk_eof s = false → header_ready c s →
  mjoin (take k frames) ++ part ++ sk_in s `prefix_of` mjoin frames →
  (cn_rpdu c = charbuf_empty ∧ part = []) ∨
  (∃ f, frames !! k = Some f ∧ receiving (cn_rpdu c) part f ∧
        cb_solong (cn_rpdu c) < cb_sz (cn_rpdu c)) →
  ∃ r s' part' f, readpdu c s = Done (set_rpdu c r, s', true) ∧ frames !! k = Some f ∧
    receiving r part' f ∧ sk_eof s' = false ∧ part' ++ sk_in s' = part ++ sk_in s.
Proof.
  intros Hfr He Hh Hp [[Hr ->]|(f&Hf&Hrec&Hlt)]; unfold readpdu.
  - unfold header_ready in Hh. rewrite Hr in Hh |- *. simpl in Hh |- *.
    specialize (Hh eq_refl). unfold sizeof_int in Hh.
    destruct (sk_in s) as [|b3 [|b2 [|b1 [|b0 l]]]] eqn:Hin; simpl in Hh; [lia..|].
    rewrite (sys_read_header s b3 b2 b1 b0 l Hin).
    destruct (stream_nonempty k b3 (b2 :: b1 :: b0 :: l) Hp) as [f Hf].
    pose proof (stream_prefix k f _ Hf Hp) as Hpf. simpl in Hpf.
    assert (valid_frame f) as Hv by (by eapply Forall_lookup_1). pose proof Hv as [Hv1 Hv2].
    unfold sizeof_int in Hv1. assert (MAX_PDU = 10485760) as HM by done.
    assert (be32 (Zlength f) = [b3; b2; b1; b0]) as Hb4.
    { rewrite <-Hv2, <-(prefix_take _ f _ 4 Hpf); [done|simpl; lia|lia]. }
    assert (s32 (be32_value b3 b2 b1 b0) = Zlength f) as ->.
    { unfold be32 in Hb4. injection Hb4 as <- <- <- <-. rewrite be32_value_of, s32_u32.
      apply s32_small. lia_ints. }
    rewrite decide_False by lia.
    unfold malloc_size, sizeof_int. rewrite u64_small by lia_ints.
    rewrite decide_True by (unfold PTRDIFF_MAX; change (2 ^ 63) with 9223372036854775808; lia).
    pose proof (malloc_length (Zlength f + 4)) as Hml.
    destruct (mem_write (malloc (Zlength f + 4)) 0 [b3; b2; b1; b0]) as [b|] eqn:Hw.
    2: { rewrite mem_write_Done in Hw; [done|lia|simpl; lia]. }
    rewrite obind_Done. pose proof (mem_write_length _ _ _ _ Hw) as Hl.
    apply take_mem_write in Hw. change (Z.to_nat 0) with 0%nat in Hw.
    rewrite take_0 in Hw. simpl in Hw.
    set (c1 := set_rpdu c _).
    destruct (body_spec c1 {| sk_in := l; sk_eof := sk_eof s; sk_errno := sk_errno s |}
      k f [b3; b2; b1; b0] Hf Hv) as (r&s'&part'&Hb&Hrec&He'&Hj).
    + exists b. simpl. unfold sizeof_int. split_and!; try done; try lia.
      by rewrite <-Hb4.
    + simpl. lia.
    + done.
    + exact Hp.
    + exists r, s', part', f. split_and!; try done.
  - destruct Hrec as (b&Hb&Hsz&Hrest).
    assert (valid_frame f) as Hv by (by eapply Forall_lookup_1). pose proof Hv as [Hv1 Hv2].
    rewrite decide_False by (unfold sizeof_int in *; lia).
    destruct (body_spec c s k f part Hf Hv) as (r&s'&part'&?&?&?&?); try done.
    { by exists b. }
    exists r, s', part', f. done.
Qed.

Lemma read_cb_spec st acc :
  Forall valid_frame frames → rx_ok st → header_ready (rx_conn st) (rx_sock st) →
  ∃ c s o, read_cb (rx_conn st) (rx_sock st) acc = Done (c, s, o) ∧
    rx_ok {| rx_conn := c; rx_sock := s; rx_delivered := deliver acc o (rx_delivered st);
             rx_arrived := rx_arrived st |}.
Proof.
  intros Hfr (Hdead&He&Hp&k&part&Hdel&Hj&Hst) Hh. destruct st as [c s d arr]. simpl in *.
  assert (∃ c' s' part' f,
    (if bool_decide (cb_buf (cn_rpdu c) = None) ||
        bool_decide (cb_solong (cn_rpdu c) < cb_sz (cn_rpdu c))
     then readpdu c s else Done (c, s, true)) = Done (c', s', true) ∧
    cn_dead c' = false ∧ sk_eof s' = false ∧ frames !! k = Some f ∧
    receiving (cn_rpdu c') part' f ∧ part' ++ sk_in s' = part ++ sk_in s)
    as (c'&s'&part'&f&Hrd&Hdead'&He'&Hf&Hrec&Hj').
  { assert (∀ Hlt : (cn_rpdu c = charbuf_empty ∧ part = []) ∨
      (∃ f, frames !! k = Some f ∧ receiving (cn_rpdu c) part f ∧
            cb_solong (cn_rpdu c) < cb_sz (cn_rpdu c)), ∃ c' s' part' f,
      readpdu c s = Done (c', s', true) ∧ cn_dead c' = false ∧ sk_eof s' = false ∧
      frames !! k = Some f ∧ receiving (cn_rpdu c') part' f ∧
      part' ++ sk_in s' = part ++ sk_in s) as Hread.
    { intros Hlt. rewrite <-Hj in Hp.
      destruct (readpdu_spec c s k part Hfr He Hh Hp Hlt) as (r&s'&part'&f&?&?&?&?&?).
      by exists (set_rpdu c r), s', part', f. }
    destruct Hst as [[Hr ->]|(f&Hf&Hrec)].
    - assert (bool_decide (cb_buf (cn_rpdu c) = None) = true) as -> by (by rewrite Hr).
      apply Hread. by left.
    - destruct Hrec as (b&Hb&Hrest).
      assert (bool_decide (cb_buf (cn_rpdu c) = None) = false) as -> by (by rewrite Hb).
      simpl. case_bool_decide as Hlt.
      + apply Hread. right. exists f. split_and!; try done. by exists b.
      + exists c, s, part, f. split_and!; try done. by exists b. }
  unfold read_cb. rewrite Hdead, Hrd. simpl.
  destruct (decide (cb_solong (cn_rpdu c') < cb_sz (cn_rpdu c'))) as [Hlt|Hge].
  - pose proof Hrec as (b&Hb&Hrest). rewrite Hb, decide_False by lia.
    eexists _, _, _. split; [done|]. split_and!; try done. simpl.
    exists k, part'. rewrite Hj'. split_and!; try done. right. by exists f.
  - destruct (rpdu_receiving_full c' part' f Hrec Hge) as (->&b&Hb&Hsz&Htk).
    rewrite Hb, decide_True by done. eexists _, _, _. split; [done|].
    destruct acc; simpl; (split_and!; [done..|]).
    + exists (S k), []. rewrite Htk. simpl.
      split; [by rewrite Hdel, (take_S_r frames k f Hf)|].
      split; [by rewrite (join_take_S k f Hf), <-app_assoc, Hj'|]. by left.
    + exists k, f. simpl. rewrite Hj'. split_and!; try done. right. by exists f.
Qed.

Lemma rx_step_ok st st' : Forall valid_frame frames → rx_ok st → rx_step st st' → rx_ok st'.
Proof.
  intros Hfr Hok Hstep. destruct Hstep as [st l Hp|st acc c s o Hh Hr].
  - destruct Hok as (?&?&_&k&part&?&Hj&Hst). split_and!; try done. exists k, part.
    simpl. rewrite <-Hj, <-!app_assoc. done.
  - destruct (read_cb_spec st acc Hfr Hok Hh) as (c'&s'&o'&Hr'&Hok').
    rewrite Hr in Hr'. by simplify_eq.
Qed.

Definition rx_init (fd lossy errno : Z) : rx :=
  {| rx_conn := connection_new fd lossy;
     rx_sock := {| sk_in := []; sk_eof := false; sk_errno := errno |};
     rx_delivered := []; rx_arrived := [] |}.

Lemma rx_init_ok fd lossy errno : rx_ok (rx_init fd lossy errno).
Proof.
  split_and!; try done; [apply prefix_nil|]. exists 0%nat, []. simpl. split_and!; try done.
  by left.
Qed.

End framing.

(** ** Theorems *)

(** C36. A connection object is never used after its deletion: while every reference
    in [refs] is counted, taking another reference through a held one and
    dropping a held one succeed and keep the count exact, and [decref] deletes
    the object exactly when it drops the last reference to a dead connection. *)
Theorem refcount_safe s p c refs :
  refs_ok s (p :: refs) → s !! p = Some c → (p ∉ refs → cb_buf (cn_wpdu c) = None) →
  (∃ s', incref s p = Done s' ∧ refs_ok s' (p :: p :: refs)) ∧
  (∃ s', decref s p = Done s' ∧ refs_ok s' refs ∧
     (s' !! p = None ↔ ((p ∉ refs) ∧ cn_dead c = true))).
Proof.
  intros Hok Hc Hw. split.
  - apply incref_refs_ok; [done|]. apply elem_of_cons. by left.
  - by eapply decref_refs_ok; eauto.
Qed.

(** One reference dropped twice ends in a failed assertion or in a use of the
    deleted object. *)
Theorem decref_unowned_faults s p c :
  s !! p = Some c → cn_refno c = 1 → cb_buf (cn_wpdu c) = None →
  obind (decref s p) (λ s, decref s p) =
    Fault (if cn_dead c then UseAfterFree else AssertFailed).
Proof.
  intros Hc Hn Hw.
  assert (decref s p = if cn_dead c then Done (delete p s) else Done (<[p := set_refno c 0]> s))
    as ->.
  { unfold decref, conn_delete, deref. rewrite Hc, obind_Done, Hn. simpl (1 - 1).
    rewrite bool_decide_eq_true_2 by lia. rewrite decide_True by done.
    destruct (cn_dead c) eqn:Hd; [|done].
    rewrite lookup_insert_eq, obind_Done. simpl. rewrite Hd, Hw.
    by rewrite bool_decide_eq_true_2, delete_insert_eq by done. }
  unfold decref, deref. destruct (cn_dead c); simpl.
  - by rewrite lookup_delete_eq.
  - by rewrite lookup_insert_eq.
Qed.

Lemma u64_neg z : - 2 ^ 64 ≤ z < 0 → u64 z = 2 ^ 64 + z.
Proof.
  intros Hz. unfold u64, wrap. rewrite <-(Z.mod_add _ 1) by lia.
  rewrite Z.mod_small; lia.
Qed.

Lemma malloc_small `{Heap} n :
  0 ≤ n ≤ PTRDIFF_MAX → ∃ b, malloc_size n = Some b ∧ Zlength b = n.
Proof.
  intros Hn. assert (PTRDIFF_MAX = 9223372036854775807) as HP by done.
  unfold malloc_size. rewrite u64_small by lia_ints. rewrite decide_True by lia.
  eexists. split; [done|]. rewrite malloc_length. lia.
Qed.

Section rx_theorems.
Context `{Heap}.


(** When everything has arrived and been consumed, everything was handed up. *)
Theorem framing_complete frames fd lossy errno st :
  Forall valid_frame frames → rtc (rx_step frames) (rx_init fd lossy errno) st →
  rx_arrived st = mjoin frames → sk_in (rx_sock st) = [] →
  cn_rpdu (rx_conn st) = charbuf_empty → rx_delivered st = frames.
Proof.
  intros Hfr Hst Harr Hin Hrp.
  assert (rx_ok frames st) as (_&_&_&k&part&Hd&Hj&Hcase).
  { eapply (rtc_invariant (rx_step frames) (rx_ok frames)); [|done|apply rx_init_ok].
    intros. by eapply rx_step_ok. }
  assert (part = []) as ->.
  { destruct Hcase as [[_ ->]|(f&_&b&Hb&_)]; [done|]. by rewrite Hrp in Hb. }
  rewrite Hd. rewrite Hin, app_nil_r, Harr in Hj. simpl in Hj.
  destruct (frames !! k) as [f|] eqn:Hk; [|apply lookup_ge_None in Hk; by apply take_ge].
  exfalso. apply (f_equal length) in Hj. rewrite <-(take_drop k frames) in Hj at 2.
  rewrite join_app, length_app, (drop_S frames f k Hk) in Hj. simpl in Hj.
  rewrite length_app in Hj.
  assert (valid_frame f) as [Hv _] by (by eapply Forall_lookup_1).
  unfold sizeof_int in Hv. lia.
Qed.

(** The size in a header is not checked from below.  A negative size runs over
    the end of a block too small for the header, or fails the assertion on
    [malloc]'s result; a size of 0 to 3 asks [read] for a negative count, and
    only the kernel's refusal of it closes the connection. *)
Theorem readpdu_small_size c s sz l :
  cn_rpdu c = charbuf_empty → sk_in s = be32 sz ++ l → is_s32 sz → sz < 4 →
  readpdu c s =
    if decide (sz < -4) then Fault AssertFailed
    else if decide (sz < 0) then Fault OutOfBounds
    else Done (set_rpdu c charbuf_empty,
               {| sk_in := l; sk_eof := sk_eof s; sk_errno := EFAULT |}, false).
Proof.
  intros Hr Hin Hs Hsz.
  unfold readpdu. rewrite Hr. simpl (cb_sz _). rewrite decide_True by done.
  rewrite (sys_read_header s _ _ _ _ l Hin). cbv iota. rewrite be32_value_of, s32_u32, s32_small by done.
  assert (MAX_PDU = 10485760) as HM by done. rewrite decide_False by lia.
  simpl (cb_buf _). rewrite bool_decide_eq_true_2 by done.
  assert (PTRDIFF_MAX = 9223372036854775807) as HP by done. unfold malloc_size, sizeof_int.
  destruct (decide (sz < -4)) as [H4|H4].
  { rewrite decide_False; [done|]. rewrite u64_neg by lia_ints. lia_ints. }
  change (if decide (u64 (sz + 4) ≤ PTRDIFF_MAX) then _ else _) with (malloc_size (sz + 4)).
  destruct (malloc_small (sz + 4) ltac:(lia)) as (b&->&Hb).
  destruct (decide (sz < 0)) as [H0|H0].
  { unfold mem_write. rewrite bool_decide_eq_false_2; [done|]. simpl length. lia. }
  destruct (mem_write b 0 _) as [b'|] eqn:Hw.
  2: { rewrite mem_write_Done in Hw; [done|lia|simpl; lia]. }
  rewrite obind_Done. unfold readpdu_body, sys_read. simpl (cb_sz _). simpl (cb_solong _).
  rewrite u64_neg by lia_ints. unfold SSIZE_MAX.
  rewrite (decide_False (P := _ = 0)) by lia_ints.
  rewrite decide_True by lia_ints. done.
Qed.

(** A peer that closes in the middle of a PDU goes unnoticed when [errno] still
    holds [EAGAIN] from an earlier call: [read] returns 0 without setting it. *)
Theorem readpdu_eof_stale_errno c s :
  sizeof_int ≤ cb_solong (cn_rpdu c) < cb_sz (cn_rpdu c) → cb_sz (cn_rpdu c) ≤ MAX_PDU →
  sk_in s = [] → sk_eof s = true →
  readpdu c s = Done (if decide (sk_errno s = EAGAIN) then (c, s, true)
                      else (set_rpdu c charbuf_empty, s, false)).
Proof.
  intros Hz Hm Hin He. assert (MAX_PDU = 10485760) as HM by done.
  unfold readpdu. unfold sizeof_int in *.
  rewrite decide_False by lia. unfold readpdu_body, sys_read. rewrite Hin, He.
  rewrite u64_small by lia_ints. unfold SSIZE_MAX.
  rewrite (decide_False (P := _ = 0)), (decide_False (P := _ < _)) by lia_ints.
  by case_decide.
Qed.
End rx_theorems.

(** A PDU handed to [writepdu] goes out as one frame, its size in the first four
    bytes, whatever the pieces the kernel takes and however often it refuses
    with [EAGAIN]; at every moment the bytes out are a prefix of that frame. *)
Theorem sender_frames c b sz l :
  4 ≤ sz ≤ Zlength b → is_u32 sz → Forall no_error l →
  ∃ c' out,
    write_all (set_wpdu c {| cb_buf := Some b; cb_sz := sz; cb_solong := 0 |}) l =
      Done (c', out) ∧
    out = take (Z.to_nat (cb_solong (cn_wpdu c'))) (frame_of b sz) ∧
    cb_solong (cn_wpdu c') = Z.min sz (total_accepted l) ∧
    (sz ≤ total_accepted l → out = frame_of b sz).
Proof.
  intros Hsz Hu Hl. set (c0 := set_wpdu c _).
  destruct (write_all_spec l c0 (frame_of b sz)) as (c'&out&E&_&Ht&_&Hs); [|done|].
  { exists b. split_and!; try done; simpl; lia. }
  exists c', out. simpl in Ht, Hs. split; [done|].
  assert (out = take (Z.to_nat (cb_solong (cn_wpdu c'))) (frame_of b sz)) as Hout
    by exact Ht.
  split; [done|]. split; [done|]. intros Hle. rewrite Hout, Hs.
  rewrite Z.min_l by lia. pose proof (frame_of_length b sz Hsz). apply take_ge. lia.
Qed.

(** What the sender puts on the wire is what the receiver expects. *)
Theorem frame_of_valid b sz :
  4 < sz ≤ MAX_PDU → sz ≤ Zlength b → valid_frame (frame_of b sz).
Proof.
  intros Hsz Hl. unfold valid_frame. rewrite frame_of_length by lia.
  unfold sizeof_int. split; [lia|]. done.
Qed.

(** ** Witnesses *)

#[local] Existing Instance zero_heap.

Definition sample_conn : connection := connection_new 5 0.
Definition sample_store : conn_store := {[ 1 := set_refno sample_conn 2 ]}.

Lemma sample_store_refs : refs_ok sample_store [1; 1].
Proof.
  split.
  - intros p Hp. assert (p = 1) as -> by set_solver. by exists (set_refno sample_conn 2).
  - intros p c Hc. unfold sample_store in Hc. apply lookup_singleton_Some in Hc as [<- <-].
    by vm_compute.
Qed.

Lemma refcount_safe_witness :
  (∃ s', incref sample_store 1 = Done s' ∧ refs_ok s' [1; 1; 1]) ∧
  (∃ s', decref sample_store 1 = Done s' ∧ refs_ok s' [1] ∧
     (s' !! 1 = None ↔ ((1 ∉ [1]) ∧ false = true))).
Proof.
  apply (refcount_safe sample_store 1 (set_refno sample_conn 2) [1]);
    [apply sample_store_refs|by vm_compute|done].
Defined.

Lemma decref_unowned_faults_witness :
  obind (decref {[ 1 := sample_conn ]} 1) (λ s, decref s 1) = Fault AssertFailed.
Proof. by apply (decref_unowned_faults _ 1 sample_conn). Defined.

Definition sample_frame : list byte := frame_of (be32 0 ++ be32 7) 8.

Lemma sample_frame_valid : Forall valid_frame [sample_frame].
Proof. constructor; [|done]. split; [split; by vm_compute|by vm_compute]. Qed.

(** the frame arrives in two pieces and is handed up *)
Definition sample_rx_end : rx :=
  {| rx_conn := connection_new 5 0;
     rx_sock := {| sk_in := []; sk_eof := false; sk_errno := 0 |};
     rx_delivered := [sample_frame]; rx_arrived := sample_frame |}.

Lemma rx_readable_to frames st st' acc c s o :
  header_ready (rx_conn st) (rx_sock st) →
  read_cb (rx_conn st) (rx_sock st) acc = Done (c, s, o) →
  st' = {| rx_conn := c; rx_sock := s; rx_delivered := deliver acc o (rx_delivered st);
           rx_arrived := rx_arrived st |} →
  rx_step frames st st'.
Proof. intros Hh Hr ->. by eapply rx_readable. Qed.

Lemma sample_rx_run : rtc (rx_step [sample_frame]) (rx_init 5 0 0) sample_rx_end.
Proof.
  eapply rtc_l.
  { apply (rx_arrive [sample_frame] _ (take 6 sample_frame)). exists (drop 6 sample_frame).
    by vm_compute. }
  eapply rtc_l.
  { eapply (rx_readable_to _ _ _ true); [intros _; vm_compute; discriminate|..];
      vm_compute; reflexivity. }
  eapply rtc_l.
  { apply (rx_arrive [sample_frame] _ (drop 6 sample_frame)). exists []. by vm_compute. }
  eapply rtc_l; [|apply rtc_refl].
  eapply (rx_readable_to _ _ _ true); [intros E; vm_compute in E; discriminate|..];
    vm_compute; reflexivity.
Qed.


Lemma framing_complete_witness : rx_delivered sample_rx_end = [sample_frame].
Proof.
  apply (framing_complete _ 5 0 0); [apply sample_frame_valid|apply sample_rx_run|..];
    by vm_compute.
Defined.

Lemma readpdu_small_size_witness :
  readpdu sample_conn {| sk_in := be32 (-2) ++ []; sk_eof := false; sk_errno := 0 |} =
    Fault OutOfBounds.
Proof.
  apply (readpdu_small_size _ _ (-2) []); try done; unfold is_s32, INT_MIN, INT_MAX; lia.
Defined.

Definition sample_half_read : connection :=
  set_rpdu sample_conn {| cb_buf := Some (be32 9 ++ be32 0 ++ be32 0);
                          cb_sz := 9; cb_solong := 4 |}.

Lemma readpdu_eof_stale_errno_witness :
  readpdu sample_half_read {| sk_in := []; sk_eof := true; sk_errno := EAGAIN |} =
    Done (sample_half_read, {| sk_in := []; sk_eof := true; sk_errno := EAGAIN |}, true).
Proof. by apply (readpdu_eof_stale_errno sample_half_read). Defined.

Lemma sender_frames_witness :
  ∃ c' out,
    write_all (set_wpdu sample_conn {| cb_buf := Some (be32 0 ++ be32 7); cb_sz := 8;
      cb_solong := 0 |}) [WAccept 3; WError EAGAIN; WAccept 100] = Done (c', out) ∧
    out = take (Z.to_nat (cb_solong (cn_wpdu c'))) sample_frame ∧
    cb_solong (cn_wpdu c') = Z.min 8 103 ∧
    (8 ≤ 103 → out = sample_frame).
Proof.
  apply (sender_frames sample_conn (be32 0 ++ be32 7) 8 [WAccept 3; WError EAGAIN; WAccept 100]);
    [by vm_compute|by vm_compute|repeat constructor].
Defined.

Lemma frame_of_valid_witness : valid_frame sample_frame.
Proof. apply frame_of_valid; by vm_compute. Defined.
