(* ===== verification/Sender.v ===== *)
(** * Sending on a connection: [connection::send], [connection::write_cb]

    Several threads send on one connection, the polling thread calls [write_cb]
    and [read_cb], other threads may call [closeconn].  What a thread does from
    one lock of [m_] to the next unlock or wait is one step; the kernel's answer
    to a [write] is an argument of the step. *)

From S2P Require Import Prelude Marshall Connection.

(** ** The threads *)

(** a call of [send(b, sz)] *)
Inductive sender :=
  | SNew (b : list byte) (sz : Z)                (**r about to lock [m_] *)
  | STurn (b : list byte) (sz : Z)               (**r asleep on [send_wait_] *)
  | SRetry (b : list byte) (sz : Z)              (**r woken, about to test the loop condition *)
  | SSleep (b : list byte) (sz : Z)              (**r asleep on [send_complete_] *)
  | SWoken (b : list byte) (sz : Z)
  | SRemove (b : list byte) (sz : Z)             (**r in [block_remove_fd] *)
  | SRet (b : list byte) (sz : Z) (r : bool).    (**r returned *)

Record ssys := SSys {
  sc : connection;
  waiters_ : Z;
  senders : list sender;
  wants_write : bool;           (**r [CB_WRONLY] is watched for [fd_] *)
  registered : bool;            (**r the poll manager has the callback *)
  closed : bool;                (**r [closeconn] was called *)
  wire : list byte;             (**r what the kernel took *)
  sent : list (list byte) }.    (**r the frames of the calls that returned [true], in order *)

Definition ssys_new (fd lossy : Z) : ssys :=
  {| sc := connection_new fd lossy; waiters_ := 0; senders := []; wants_write := false;
     registered := true; closed := false; wire := []; sent := [] |}.

Definition set_conn (y : ssys) c out : ssys :=
  {| sc := c; waiters_ := waiters_ y; senders := senders y; wants_write := wants_write y;
     registered := registered y; closed := closed y; wire := wire y ++ out; sent := sent y |}.
Definition set_waiters (y : ssys) n : ssys :=
  {| sc := sc y; waiters_ := n; senders := senders y; wants_write := wants_write y;
     registered := registered y; closed := closed y; wire := wire y; sent := sent y |}.
Definition set_senders (y : ssys) l : ssys :=
  {| sc := sc y; waiters_ := waiters_ y; senders := l; wants_write := wants_write y;
     registered := registered y; closed := closed y; wire := wire y; sent := sent y |}.
Definition set_sender (y : ssys) (k : nat) t : ssys := set_senders y (<[k := t]> (senders y)).
Definition set_watch (y : ssys) w r : ssys :=
  {| sc := sc y; waiters_ := waiters_ y; senders := senders y; wants_write := w;
     registered := r; closed := closed y; wire := wire y; sent := sent y |}.
Definition set_sent (y : ssys) l : ssys :=
  {| sc := sc y; waiters_ := waiters_ y; senders := senders y; wants_write := wants_write y;
     registered := registered y; closed := closed y; wire := wire y; sent := l |}.
Definition set_closed (y : ssys) : ssys :=
  {| sc := sc y; waiters_ := waiters_ y; senders := senders y; wants_write := wants_write y;
     registered := registered y; closed := true; wire := wire y; sent := sent y |}.

(** ** [send] *)

(** [pthread_cond_broadcast(&send_wait_)] *)
Definition retry (t : sender) : sender := match t with STurn b sz => SRetry b sz | t => t end.

(** the end of [send]: the result, the reset of [wpdu_], the broadcast *)
Definition send_finish (y : ssys) (k : nat) (b : list byte) (sz : Z) : ssys :=
  let w := cn_wpdu (sc y) in
  let ret := negb (cn_dead (sc y)) && bool_decide (cb_solong w = cb_sz w) in
  let y := set_conn y (set_wpdu (sc y) charbuf_empty) [] in
  let y := if decide (0 < waiters_ y) then set_senders y (retry <$> senders y) else y in
  let y := if ret then set_sent y (sent y ++ [frame_of b sz]) else y in
  set_sender y k (SRet b sz ret).

(** the condition of the loop around [send_complete_] *)
Definition must_wait (y : ssys) : bool :=
  let w := cn_wpdu (sc y) in
  negb (cn_dead (sc y)) && bool_decide (0 ≤ cb_solong w) && bool_decide (cb_solong w < cb_sz w).

(** the middle of [send]: the connection is free and alive *)
Definition send_write (y : ssys) (k : nat) (b : list byte) (sz : Z) (a : write_answer) :
    outcome ssys :=
  let c := set_wpdu (sc y) {| cb_buf := Some b; cb_sz := sz; cb_solong := 0 |} in
  let! '(c, ok, out) := writepdu c a in
  if negb ok then
    Done (set_sender (set_conn y (set_dead c) out) k (SRemove b sz))
  else
    let y := set_conn y c out in
    if decide (cb_solong (cn_wpdu c) = cb_sz (cn_wpdu c)) then Done (send_finish y k b sz)
    else
      let y := set_watch y true true in
      Done (if must_wait y then set_sender y k (SSleep b sz) else send_finish y k b sz).

(** the loop around [send_wait_] and what follows *)
Definition send_turn (y : ssys) (k : nat) (b : list byte) (sz : Z) (a : write_answer) :
    outcome ssys :=
  if negb (cn_dead (sc y)) && negb (bool_decide (cb_buf (cn_wpdu (sc y)) = None)) then
    Done (set_sender y k (STurn b sz))
  else
    let y := set_waiters y (waiters_ y - 1) in
    if cn_dead (sc y) then Done (set_sender y k (SRet b sz false))
    else send_write y k b sz a.

(** ** The callbacks *)

Definition sleeping (t : sender) : nat := match t with SSleep _ _ => 1 | _ => 0 end.

(** [pthread_cond_signal(&send_complete_)], which wakes waiter [k] *)
Definition signal_complete (y : ssys) (k : nat) : option ssys :=
  if decide (sum_list_with sleeping (senders y) = 0%nat) then Some y
  else match senders y !! k with
       | Some (SSleep b sz) => Some (set_sender y k (SWoken b sz))
       | _ => None
       end.

Definition write_cb (y : ssys) (a : write_answer) (k : nat) : option (outcome ssys) :=
  if cn_dead (sc y) then Some (Fault AssertFailed)
  else if decide (cb_sz (cn_wpdu (sc y)) = 0) then
    Some (Done (set_watch y false (registered y)))
  else
    match writepdu (sc y) a with
    | Fault f => Some (Fault f)
    | Done (c, ok, out) =>
        if negb ok then
          Done <$> signal_complete (set_watch (set_conn y (set_dead c) out) false false) k
        else if decide (cb_solong (cn_wpdu c) < 0) then Some (Fault AssertFailed)
        else if decide (cb_solong (cn_wpdu c) < cb_sz (cn_wpdu c)) then Some (Done (set_conn y c out))
        else Done <$> signal_complete (set_conn y c out) k
    end.

(** [read_cb] when [readpdu] fails; the rest of [read_cb] does not concern the senders *)
Definition read_failed (y : ssys) (k : nat) : option ssys :=
  if cn_dead (sc y) then Some y
  else signal_complete (set_watch (set_conn y (set_dead (sc y)) []) false false) k.

(** ** The system *)

Inductive saction :=
  | Send (b : list byte) (sz : Z)          (**r a thread calls [send] *)
  | Enter (k : nat) (a : write_answer)     (**r sender [k] takes [m_] at the head of [send] *)
  | Resume (k : nat)                       (**r sender [k] takes [m_] again further down *)
  | WriteCb (a : write_answer) (k : nat)   (**r the polling thread finds [fd_] writable *)
  | ReadFail (k : nat)                     (**r the polling thread fails to read *)
  | Close                                  (**r a thread calls [closeconn] ... *)
  | CloseDone                              (**r ... and its [block_remove_fd] is through *)
  | Wake (k : nat).                        (**r sender [k] wakes for no reason *)

Definition sact (y : ssys) (x : saction) : option (outcome ssys) :=
  match x with
  | Send b sz => Some (Done (set_senders y (senders y ++ [SNew b sz])))
  | Enter k a => match senders y !! k with
                 | Some (SNew b sz) => Some (send_turn (set_waiters y (waiters_ y + 1)) k b sz a)
                 | Some (SRetry b sz) => Some (send_turn y k b sz a)
                 | _ => None
                 end
  | Resume k => match senders y !! k with
                | Some (SWoken b sz) =>
                    Some (Done (if must_wait y then set_sender y k (SSleep b sz)
                                else send_finish y k b sz))
                | Some (SRemove b sz) => Some (Done (send_finish (set_watch y false false) k b sz))
                | _ => None
                end
  | WriteCb a k => if registered y && wants_write y then write_cb y a k else None
  | ReadFail k => if registered y then Done <$> read_failed y k else None
  | Close => Some (Done (if cn_dead (sc y) then y else set_closed (set_conn y (set_dead (sc y)) [])))
  | CloseDone => if closed y then Some (Done (set_watch y false false)) else None
  | Wake k => match senders y !! k with
              | Some (SSleep b sz) => Some (Done (set_sender y k (SWoken b sz)))
              | Some (STurn b sz) => Some (Done (set_sender y k (SRetry b sz)))
              | _ => None
              end
  end.

Fixpoint sacts (y : ssys) (l : list saction) : option (outcome ssys) :=
  match l with
  | [] => Some (Done y)
  | x :: l => match sact y x with Some (Done y) => sacts y l | o => o end
  end.

(** ** The invariant *)

Definition active (t : sender) : bool :=
  match t with SSleep _ _ | SWoken _ _ | SRemove _ _ => true | _ => false end.
Definition waiting (t : sender) : nat := match t with STurn _ _ | SRetry _ _ => 1 | _ => 0 end.
Definition returned (t : sender) : list (list byte) :=
  match t with SRet b sz true => [frame_of b sz] | _ => [] end.
Definition pdu_ok (b : list byte) (sz : Z) : Prop := 4 ≤ sz ≤ Zlength b ∧ is_u32 sz.
Definition valid_sender (t : sender) : Prop :=
  match t with SNew b sz | STurn b sz | SRetry b sz => pdu_ok b sz | _ => True end.

(** the frame of [b] is being written, or writing has failed *)
Definition in_progress (y : ssys) (b : list byte) (sz : Z) : Prop :=
  writing (cn_wpdu (sc y)) (frame_of b sz) ∧ cb_sz (cn_wpdu (sc y)) = sz ∧
  wire y = mjoin (sent y) ++ take (Z.to_nat (cb_solong (cn_wpdu (sc y)))) (frame_of b sz) ∧
  (cn_dead (sc y) = false → cb_solong (cn_wpdu (sc y)) < sz →
   wants_write y = true ∧ registered y = true).
Definition failed (y : ssys) : Prop :=
  cn_dead (sc y) = true ∧ cb_buf (cn_wpdu (sc y)) ≠ None.

(** the sender that owns [wpdu_] *)
Definition current_ok (y : ssys) (t : sender) : Prop :=
  match t with
  | SSleep b sz => in_progress y b sz ∧
      (if cn_dead (sc y) then closed y = true else cb_solong (cn_wpdu (sc y)) < sz)
  | SWoken b sz => in_progress y b sz ∨ failed y
  | SRemove b sz => failed y
  | _ => False
  end.

Record send_inv (y : ssys) : Prop := {
  si_free : cb_buf (cn_wpdu (sc y)) = None →
    cn_wpdu (sc y) = charbuf_empty ∧ (cn_dead (sc y) = false → wire y = mjoin (sent y)) ∧
    (∀ k t, senders y !! k = Some t → active t = false ∧ ∀ b sz, t ≠ STurn b sz);
  si_busy : cb_buf (cn_wpdu (sc y)) ≠ None →
    ∃ k t, senders y !! k = Some t ∧ current_ok y t ∧
      ∀ j u, j ≠ k → senders y !! j = Some u → active u = false;
  si_prefix : ∃ tail, wire y = mjoin (sent y) ++ tail;
  si_wait : waiters_ y = Z.of_nat (sum_list_with waiting (senders y));
  si_ret : mjoin (returned <$> senders y) ≡ₚ sent y;
  si_valid : ∀ k t, senders y !! k = Some t → valid_sender t;
  si_closed : closed y = true → cn_dead (sc y) = true }.

(** the other senders, while sender [k], now in [t], is in its step *)
Record around (y : ssys) (k : nat) (t : sender) : Prop := {
  ar_k : senders y !! k = Some t;
  ar_other : ∀ j u, j ≠ k → senders y !! j = Some u → active u = false;
  ar_wait : waiters_ y + Z.of_nat (waiting t) = Z.of_nat (sum_list_with waiting (senders y));
  ar_ret : returned t = [] ∧ mjoin (returned <$> senders y) ≡ₚ sent y;
  ar_prefix : ∃ tail, wire y = mjoin (sent y) ++ tail;
  ar_valid : ∀ j u, senders y !! j = Some u → valid_sender u;
  ar_closed : closed y = true → cn_dead (sc y) = true }.

Lemma current_active y t : current_ok y t → active t = true.
Proof. by destruct t. Qed.

Lemma current_buf y t : current_ok y t → cb_buf (cn_wpdu (sc y)) ≠ None.
Proof.
  destruct t; simpl; try done.
  - intros [((x&->&_)&_) _]. done.
  - intros [((x&->&_)&_)|[_ ?]]; done.
  - by intros [_ ?].
Qed.

(** sender [k] becomes, or stays, the owner of [wpdu_] *)
Lemma inv_current y k t t' :
  around y k t → waiting t' = 0%nat → returned t' = [] → current_ok y t' →
  send_inv (set_sender y k t').
Proof.
  intros [Hk Ho Hw [Hr1 Hr2] Hp Hv Hcl] Hw' Hr' Hc.
  pose proof (current_buf y t' Hc) as Hb. split; simpl.
  - intros Hn. by rewrite Hn in Hb.
  - intros _. exists k, t'. split; [by apply list_lookup_insert_eq; eapply lookup_lt_Some|].
    split; [exact Hc|]. intros j u Hj E. rewrite list_lookup_insert_ne in E by done.
    by eapply Ho.
  - exact Hp.
  - pose proof (sum_list_with_insert waiting _ _ _ t' Hk). lia.
  - destruct (mjoin_insert returned _ k _ t' Hk) as (r&H1&H2).
    rewrite H2, Hr', <-Hr2, H1, Hr1. done.
  - intros j u [(_&<-&_)|(_&E)]%list_lookup_insert_Some; [by destruct t'|by eapply Hv].
  - exact Hcl.
Qed.

(** a sender that does not own [wpdu_] goes on to another such state *)
Lemma inv_other y k t t' n :
  send_inv y → senders y !! k = Some t → active t = false → active t' = false →
  n + Z.of_nat (waiting t) = waiters_ y + Z.of_nat (waiting t') →
  returned t = [] → returned t' = [] → valid_sender t' →
  (∀ b sz, t' = STurn b sz → cb_buf (cn_wpdu (sc y)) ≠ None) →
  send_inv (set_sender (set_waiters y n) k t').
Proof.
  intros [] Hk Ha Ha' Hn Hr Hr' Hv' Ht'. pose proof (lookup_lt_Some _ _ _ Hk) as Hlt.
  split; simpl.
  - intros Hb. destruct (si_free0 Hb) as (H1&H2&H3). split; [done|]. split; [done|].
    intros j u [(_&<-&_)|(_&E)]%list_lookup_insert_Some; [|by eapply H3].
    split; [done|]. intros b sz ->. by apply (Ht' b sz).
  - intros Hb. destruct (si_busy0 Hb) as (i&u&E&Hc&Ho). exists i, u.
    assert (i ≠ k) by (intros ->; apply current_active in Hc; congruence).
    rewrite list_lookup_insert_ne by done. split; [done|]. split; [exact Hc|].
    intros j u' Hj [(_&<-&_)|(_&E')]%list_lookup_insert_Some; [done|by eapply Ho].
  - done.
  - pose proof (sum_list_with_insert waiting _ _ _ t' Hk). lia.
  - destruct (mjoin_insert returned _ k _ t' Hk) as (r&H1&H2).
    rewrite H2, Hr', <-si_ret0, H1, Hr. done.
  - intros j u [(_&<-&_)|(_&E)]%list_lookup_insert_Some; [done|by eapply si_valid0].
  - done.
Qed.

(** *** The end of [send] *)

Lemma retry_facts t :
  waiting (retry t) = waiting t ∧ returned (retry t) = returned t ∧
  active (retry t) = active t ∧ (valid_sender t → valid_sender (retry t)) ∧
  ∀ b sz, retry t ≠ STurn b sz.
Proof. by destruct t. Qed.

(** the list of senders after the broadcast *)
Definition after_broadcast (y : ssys) : list sender :=
  if decide (0 < waiters_ y) then retry <$> senders y else senders y.

Lemma after_broadcast_spec y k t u :
  around y k t → waiting u = 0%nat → active u = false →
  let l := <[k := u]> (after_broadcast y) in
  length l = length (senders y) ∧
  (∀ j v, l !! j = Some v → active v = false ∧ ∀ b sz, v ≠ STurn b sz) ∧
  waiters_ y = Z.of_nat (sum_list_with waiting l) ∧
  mjoin (returned <$> l) ≡ₚ returned u ++ sent y ∧
  (valid_sender u → ∀ j v, l !! j = Some v → valid_sender v).
Proof.
  intros [Hk Ho Hw [Hr1 Hr2] _ Hv _] Hu Hua l.
  assert (∃ t', after_broadcast y !! k = Some t' ∧ waiting t' = waiting t ∧ returned t' = [] ∧
    sum_list_with waiting (after_broadcast y) = sum_list_with waiting (senders y) ∧
    mjoin (returned <$> after_broadcast y) = mjoin (returned <$> senders y) ∧
    length (after_broadcast y) = length (senders y) ∧
    (∀ j v, j ≠ k → after_broadcast y !! j = Some v → active v = false ∧ valid_sender v ∧
      (0 < waiters_ y → ∀ b sz, v ≠ STurn b sz)))
    as (t'&Hk'&Hwt&Hrt&Hsum&Hret&Hlen&Hoth).
  { unfold after_broadcast. destruct (decide (0 < waiters_ y)).
    - exists (retry t). rewrite list_lookup_fmap, Hk, length_fmap.
      destruct (retry_facts t) as (E1&E2&_). rewrite E1, E2. split_and!; try done.
      + apply sum_list_with_fmap. intros x. apply (retry_facts x).
      + f_equal. rewrite <-list_fmap_compose. apply list_fmap_ext. intros ? x _.
        apply (retry_facts x).
      + intros j v Hj. rewrite list_lookup_fmap. intros (v'&E&->)%fmap_Some.
        destruct (retry_facts v') as (_&_&Ea&Ev&Et). rewrite Ea. split_and!; [by eapply Ho| |done].
        by eapply Ev, Hv.
    - exists t. split_and!; try done. intros j v Hj E. split_and!; [by eapply Ho|by eapply Hv|done]. }
  pose proof (sum_list_with_insert waiting _ _ _ u Hk') as Hs.
  assert (waiters_ y = Z.of_nat (sum_list_with waiting l)) as Hwl by (unfold l; lia).
  split_and!.
  - unfold l. by rewrite length_insert.
  - intros j v E. apply list_lookup_insert_Some in E as E'. destruct E' as [(_&<-&_)|(Hj&E')].
    + split; [done|]. by intros b sz ->.
    + destruct (Hoth j v) as (Ha&_&Ht); [done|done|]. split; [done|]. intros b sz ->.
      destruct (decide (0 < waiters_ y)) as [Hp|Hn]; [by apply (Ht Hp b sz)|].
      pose proof (sum_list_with_lookup waiting _ _ _ E). simpl in *. lia.
  - done.
  - destruct (mjoin_insert returned _ k _ u Hk') as (r&H1&H2). unfold l.
    rewrite H2, <-Hr2, <-Hret, H1, Hrt. done.
  - intros Hvu j v [(_&<-&_)|(Hj&E)]%list_lookup_insert_Some; [done|]. by eapply Hoth.
Qed.

Lemma inv_finish y k t b sz :
  around y k t →
  (cn_dead (sc y) = false → cb_solong (cn_wpdu (sc y)) = cb_sz (cn_wpdu (sc y)) →
   wire y = mjoin (sent y) ++ frame_of b sz) →
  (cn_dead (sc y) = false → cb_solong (cn_wpdu (sc y)) = cb_sz (cn_wpdu (sc y))) →
  send_inv (send_finish y k b sz).
Proof.
  intros Ha Hwire Hfull.
  set (ret := negb (cn_dead (sc y)) && bool_decide (cb_solong (cn_wpdu (sc y)) = cb_sz (cn_wpdu (sc y)))).
  destruct (after_broadcast_spec y k t (SRet b sz ret) Ha eq_refl eq_refl)
    as (_&Hl1&Hl2&Hl3&Hl4).
  assert (∃ y', send_finish y k b sz = y' ∧ sc y' = set_wpdu (sc y) charbuf_empty ∧
    waiters_ y' = waiters_ y ∧ senders y' = <[k := SRet b sz ret]> (after_broadcast y) ∧
    wire y' = wire y ∧ closed y' = closed y ∧
    sent y' = (if ret then sent y ++ [frame_of b sz] else sent y))
    as (y'&->&E1&E2&E3&E4&E6&E5).
  { eexists. split; [done|]. unfold send_finish, after_broadcast. fold ret. simpl.
    destruct (decide (0 < waiters_ y)), ret; simpl; rewrite ?app_nil_r; done. }
  destruct (ar_prefix _ _ _ Ha) as [tail Htail].
  assert (∃ tail', wire y = mjoin (sent y') ++ tail' ∧ (cn_dead (sc y) = false → tail' = []))
    as (tail'&Ht'&Htd).
  { rewrite E5. destruct (cn_dead (sc y)) eqn:Ed; unfold ret; simpl.
    - by exists tail.
    - rewrite bool_decide_eq_true_2 by auto. exists []. split; [|done].
      rewrite join_app. simpl. rewrite !app_nil_r. auto. }
  split; rewrite ?E1, ?E2, ?E3, ?E4, ?E6; simpl; try done; [| | | |apply Ha].
  - intros _. split; [done|]. split; [intros Hd; by rewrite Ht', (Htd Hd), app_nil_r|].
    intros j u E. by apply (Hl1 j u).
  - by exists tail'.
  - rewrite Hl3, E5. destruct ret; simpl; [|done]. by rewrite Permutation_app_comm.
  - by apply Hl4.
Qed.

(** *** Writing *)

#[export] Instance no_error_dec a : Decision (no_error a).
Proof. destruct a; apply _. Defined.

(** one [writepdu] of a frame: it goes on with it, or fails without a trace on the wire *)
Lemma write_step c a f :
  writing (cn_wpdu c) f →
  ∃ c' ok out, writepdu c a = Done (c', ok, out) ∧ cn_dead c' = cn_dead c ∧
    cb_buf (cn_wpdu c') ≠ None ∧
    (if ok : bool then
       writing (cn_wpdu c') f ∧ cb_sz (cn_wpdu c') = cb_sz (cn_wpdu c) ∧
       take (Z.to_nat (cb_solong (cn_wpdu c))) f ++ out = take (Z.to_nat (cb_solong (cn_wpdu c'))) f
     else out = []).
Proof.
  intros Hw. destruct (decide (no_error a)) as [Ha|Ha].
  - destruct (writepdu_spec c a f Hw Ha) as (c'&out&E&Hw'&Ht&Hsz&_).
    exists c', true, out. split; [done|]. split; [|split; [by destruct Hw' as (x&->&_)|done]].
    unfold writepdu in E. repeat case_match; inv_done; simplify_eq; try done; by simpl.
  - destruct a as [q|e]; [by destruct Ha|]. simpl in Ha.
    destruct Hw as (x&Hb&Hsz&Hu&Hsol&Hf&Htk). unfold writepdu.
    rewrite bool_decide_eq_true_2 by lia. destruct (decide (cb_solong (cn_wpdu c) = _)) as [He|He].
    + exists c, true, []. split; [done|]. split; [done|]. split; [by rewrite Hb|].
      split; [by exists x|]. by rewrite app_nil_r.
    + rewrite Hb. destruct (decide (cb_solong (cn_wpdu c) = 0)).
      * destruct (mem_write_header x (cb_sz (cn_wpdu c)) Hsz Hu) as (x'&->&_&_). simpl.
        rewrite decide_False by done. eexists _, false, []. by split_and!.
      * simpl. rewrite decide_False by done. eexists _, false, []. by split_and!.
Qed.

Lemma full_frame b sz c :
  writing (cn_wpdu c) (frame_of b sz) → cb_sz (cn_wpdu c) = sz →
  cb_solong (cn_wpdu c) = cb_sz (cn_wpdu c) →
  take (Z.to_nat (cb_solong (cn_wpdu c))) (frame_of b sz) = frame_of b sz.
Proof.
  intros (x&Hb&Hsz&Hu&Hsol&Hf&Htk) Es Hfull. apply take_ge.
  rewrite Hf, <-Es in *. pose proof (frame_of_length x (cb_sz (cn_wpdu c)) Hsz). lia.
Qed.

Lemma send_write_inv y k t b sz a :
  around y k t → cn_dead (sc y) = false → wire y = mjoin (sent y) →
  pdu_ok b sz → ∃ y', send_write y k b sz a = Done y' ∧ send_inv y'.
Proof.
  intros Ha Hd Hwire [Hsz Hu]. unfold send_write.
  set (c := set_wpdu (sc y) {| cb_buf := Some b; cb_sz := sz; cb_solong := 0 |}).
  assert (writing (cn_wpdu c) (frame_of b sz)) as Hw.
  { exists b. simpl. split_and!; try done; try lia. }
  destruct (write_step c a _ Hw) as (c'&ok&out&E&Hdead&Hbuf&Hok). rewrite E. cbn [obind].
  assert (∀ d : connection, closed y = true → cn_dead d = true) as Hcl
    by (intros d Hx; apply (ar_closed _ _ _ Ha) in Hx; congruence).
  assert (cn_dead c' = false) as Hd' by (by rewrite Hdead).
  assert (∀ d w r, (closed y = true → cn_dead d = true) → around {| sc := d; waiters_ := waiters_ y; senders := senders y;
    wants_write := w; registered := r; closed := closed y; wire := wire y ++ out;
    sent := sent y |} k t) as Har.
  { intros d w r Hdc. destruct Ha as [A1 A2 A3 A4 [tail A5] A6 A7]. split; simpl; try done.
    exists (tail ++ out). by rewrite A5, app_assoc. }
  destruct ok; cbn [negb].
  - destruct Hok as (Hw'&Hsz'&Hout). simpl in Hsz', Hout.
    assert (out = take (Z.to_nat (cb_solong (cn_wpdu c'))) (frame_of b sz)) as Ho
      by (rewrite <-Hout; done).
    destruct (decide (cb_solong (cn_wpdu c') = cb_sz (cn_wpdu c'))) as [Hf|Hf].
    + eexists. split; [done|]. apply (inv_finish _ k t); [apply Har, Hcl|simpl|done].
      intros _ _. rewrite Hwire, Ho. f_equal. by apply full_frame.
    + assert (0 ≤ cb_solong (cn_wpdu c') ≤ cb_sz (cn_wpdu c')) as Hr
        by (destruct Hw' as (?&_&_&_&?&_); lia).
      assert (must_wait (set_watch (set_conn y c' out) true true) = true) as ->.
      { unfold must_wait. simpl. rewrite Hd', !bool_decide_eq_true_2 by lia. done. }
      eexists. split; [done|]. apply (inv_current _ k t); [apply Har, Hcl|done|done|].
      simpl. rewrite Hd'. split; [|lia]. split; [exact Hw'|]. split; [done|]. simpl.
      split; [by rewrite Hwire, Ho at 1|done].
  - eexists. split; [done|]. apply (inv_current _ k t); [apply Har, Hcl|done|done|].
    split; [done|exact Hbuf].
Qed.

(** a sender in its step, with the count of waiters adjusted *)
Lemma inv_around y k t n :
  send_inv y → senders y !! k = Some t → returned t = [] → n + Z.of_nat (waiting t) = waiters_ y →
  (∀ j u, j ≠ k → senders y !! j = Some u → active u = false) →
  around (set_waiters y n) k t.
Proof. intros [] Hk Hr Hn Ho. split; simpl; try done. lia. Qed.

Lemma set_waiters_id y : set_waiters y (waiters_ y) = y.
Proof. by destruct y. Qed.

(** nobody owns [wpdu_] *)
Lemma inv_free y :
  send_inv y → cb_buf (cn_wpdu (sc y)) = None →
  ∀ j u, senders y !! j = Some u → active u = false.
Proof. intros HI Hb j u E. destruct (si_free y HI Hb) as (_&_&H). by destruct (H j u E). Qed.

(** the head of [send]; [n]: the waiters without the sender itself *)
Lemma send_turn_inv y k t b sz a y' :
  send_inv y → senders y !! k = Some t → t = SNew b sz ∨ t = SRetry b sz →
  send_turn (set_waiters y (waiters_ y + 1 - Z.of_nat (waiting t))) k b sz a = Done y' →
  send_inv y'.
Proof.
  intros HI Hk Ht. pose proof (si_valid _ HI _ _ Hk) as Hv.
  assert (pdu_ok b sz ∧ active t = false ∧ returned t = [] ∧ 0 ≤ Z.of_nat (waiting t) ≤ 1)
    as (Hp&Hna&Hr&Hw) by (destruct Ht as [->| ->]; simpl in *; split_and!; (done || lia)).
  unfold send_turn. cbn [sc set_waiters waiters_].
  destruct (cn_dead (sc y)) eqn:Ed; cbn [negb andb].
  - intros [= <-].
    apply (inv_other y k t (SRet b sz false) (waiters_ y + 1 - Z.of_nat (waiting t) - 1) HI Hk Hna);
      simpl; try done; lia.
  - destruct (decide (cb_buf (cn_wpdu (sc y)) = None)) as [Hb|Hb].
    + rewrite bool_decide_eq_true_2 by done. cbn [negb]. intros E.
      assert (around (set_waiters y (waiters_ y - Z.of_nat (waiting t))) k t) as Har
        by (apply inv_around; [done..|lia|]; intros j u _; by apply inv_free).
      replace (waiters_ y + 1 - Z.of_nat (waiting t) - 1) with (waiters_ y - Z.of_nat (waiting t))
        in E by lia.
      destruct (send_write_inv _ k t b sz a Har) as (y1&E1&HI1); [done| |done|].
      { by apply (si_free _ HI Hb). }
      assert (y1 = y') as <-; [|done]. unfold set_waiters in E, E1. simpl in E, E1. congruence.
    + rewrite bool_decide_eq_false_2 by done. cbn [negb]. intros [= <-].
      apply (inv_other y k t (STurn b sz) (waiters_ y + 1 - Z.of_nat (waiting t)) HI Hk Hna);
        simpl; try done; lia.
Qed.

(** *** The callbacks *)

(** the polling thread changed the connection and signals [send_complete_] *)
Lemma signal_inv y y1 k y2 :
  send_inv y → senders y1 = senders y → waiters_ y1 = waiters_ y → sent y1 = sent y →
  (∃ tail, wire y1 = mjoin (sent y1) ++ tail) →
  (cb_buf (cn_wpdu (sc y)) = None → cn_wpdu (sc y1) = charbuf_empty ∧
    (cn_dead (sc y1) = false → wire y1 = mjoin (sent y1))) →
  (∀ b sz, in_progress y b sz → in_progress y1 b sz ∨ failed y1) → (failed y → failed y1) →
  (closed y1 = true → cn_dead (sc y1) = true) →
  signal_complete y1 k = Some y2 → send_inv y2.
Proof.
  intros HI Es Ew Ese Hp Hfree Hpr Hfa Hcl H.
  destruct (decide (cb_buf (cn_wpdu (sc y)) = None)) as [Hb|Hb].
  - destruct (Hfree Hb) as [H1 H2]. destruct (si_free _ HI Hb) as (_&_&H3).
    assert (sum_list_with sleeping (senders y1) = 0%nat) as Hs.
    { rewrite Es. apply sum_list_with_zero, Forall_lookup. intros j u E.
      destruct (H3 j u E) as [Ha _]. by destruct u. }
    unfold signal_complete in H. rewrite decide_True in H by done. injection H as <-.
    destruct HI. split; rewrite ?Es, ?Ew, ?Ese; try done.
    + intros _. split_and!; [done|by rewrite <-Ese|done].
    + intros Hn. by rewrite H1 in Hn.
    + by rewrite <-Ese.
  - destruct (si_busy _ HI Hb) as (i&t&Ei&Hc&Ho).
    assert (around y1 i t) as Har.
    { destruct HI. pose proof (current_active _ _ Hc) as Ha.
      split; rewrite ?Es, ?Ew, ?Ese; try done; [destruct t; try done; simpl; lia|by destruct t|by rewrite <-Ese]. }
    pose proof (ar_k _ _ _ Har) as Ei1. unfold signal_complete in H.
    destruct (decide (sum_list_with sleeping (senders y1) = 0%nat)) as [Hz|Hz].
    + injection H as <-. rewrite sum_list_with_zero, Forall_lookup in Hz.
      specialize (Hz i t Ei1). assert (current_ok y1 t) as Hc1.
      { destruct t as [| | |b sz|b sz|b sz|]; simpl in *; try done; [|by apply Hfa].
        destruct Hc as [Hc|Hc]; [by apply Hpr|right; by apply Hfa]. }
      replace y1 with (set_sender y1 i t)
        by (destruct y1; unfold set_sender, set_senders; simpl in *; by rewrite list_insert_id).
      apply (inv_current y1 i t t Har); [by destruct t|by destruct t|done].
    + destruct (senders y1 !! k) as [[]|] eqn:Ek; try done. injection H as <-.
      assert (k = i) as ->.
      { destruct (decide (k = i)) as [|Hne]; [done|]. by specialize (ar_other _ _ _ Har k _ Hne Ek). }
      rewrite Ei1 in Ek. injection Ek as ->.
      apply (inv_current y1 i _ _ Har); [done|done|]. destruct Hc as [Hc _]. by apply Hpr.
Qed.

(** a connection that the callback or [closeconn] kills keeps the frame in progress *)
Lemma in_progress_dead y y1 b sz :
  in_progress y b sz → cn_wpdu (sc y1) = cn_wpdu (sc y) → wire y1 = wire y → sent y1 = sent y →
  cn_dead (sc y1) = true → in_progress y1 b sz.
Proof.
  intros (H1&H2&H3&H4) Ew Ewi Ese Hd. unfold in_progress. rewrite Ew, Ewi, Ese, Hd. done.
Qed.

Lemma read_failed_inv y k y' : send_inv y → read_failed y k = Some y' → send_inv y'.
Proof.
  intros HI. unfold read_failed. destruct (cn_dead (sc y)) eqn:Ed; [by intros [= <-]|].
  apply (signal_inv y); simpl; rewrite ?app_nil_r; try done.
  - apply HI.
  - intros Hb. split; [|done]. by apply (si_free _ HI).
  - intros b sz Hpr. left. eapply in_progress_dead; [exact Hpr|..]; simpl; rewrite ?app_nil_r; done.
  - intros [H1 H2]. by split.
Qed.

(** on a live connection the current sender waits for the rest of its PDU *)
Lemma current_in_progress y t :
  current_ok y t → cn_dead (sc y) = false →
  ∃ b sz, in_progress y b sz ∧ (t = SSleep b sz ∨ t = SWoken b sz).
Proof.
  intros Hc Hd. destruct t as [| | |b sz|b sz|b sz|]; simpl in *; try done.
  - exists b, sz. by split; [apply Hc|left].
  - destruct Hc as [Hc|[Hc _]]; [|congruence]. exists b, sz. by split; [|right].
  - destruct Hc as [Hc _]. congruence.
Qed.

Lemma in_progress_fun y b sz :
  in_progress y b sz → ∀ b' sz', in_progress y b' sz' → frame_of b' sz' = frame_of b sz ∧ sz' = sz.
Proof.
  intros (H1&H2&_) b' sz' (H1'&H2'&_).
  destruct H1 as (x&Ex&_&_&_&Hf&_), H1' as (x'&Ex'&_&_&_&Hf'&_).
  rewrite Ex in Ex'. injection Ex' as <-. split; congruence.
Qed.

(** [write_cb] without a PDU to write *)
Lemma write_cb_idle y :
  send_inv y → cn_dead (sc y) = false → cb_sz (cn_wpdu (sc y)) = 0 →
  send_inv (set_watch y false (registered y)).
Proof.
  intros HI Ed Hz. destruct HI. split; simpl; try done.
  intros Hb. destruct (si_busy0 Hb) as (i&t&_&Hc&_).
  destruct (current_in_progress y t Hc Ed) as (b&sz&((?&_&?&_)&Hs&_)&_). lia.
Qed.

Lemma write_cb_inv y a k y' :
  send_inv y → registered y && wants_write y = true → write_cb y a k = Some (Done y') → send_inv y'.
Proof.
  intros HI [Hreg Hww]%andb_prop. unfold write_cb.
  destruct (cn_dead (sc y)) eqn:Ed; [done|].
  destruct (decide (cb_sz (cn_wpdu (sc y)) = 0)) as [Hz|Hz].
  - intros [= <-]. by apply write_cb_idle.
  - destruct (decide (cb_buf (cn_wpdu (sc y)) = None)) as [Hb|Hb].
    { destruct (si_free _ HI Hb) as (Hw&_&_). by rewrite Hw in Hz. }
    destruct (si_busy _ HI Hb) as (i&t&Ei&Hc&Ho).
    destruct (current_in_progress y t Hc Ed) as (b&sz&Hpr&Ht).
    pose proof (in_progress_fun y b sz Hpr) as Hsame. destruct Hpr as (Hw&Hsz&Hwire&Hwr).
    destruct (write_step (sc y) a _ Hw) as (c'&ok&out&E&Hd'&Hb'&Hok). rewrite E.
    destruct (si_prefix _ HI) as [tail Htail].
    assert (∃ tl, wire y ++ out = mjoin (sent y) ++ tl) as Htl
      by (exists (tail ++ out); by rewrite Htail, app_assoc).
    destruct ok; cbn [negb].
    + destruct Hok as (Hw'&Hsz'&Hout).
      assert (in_progress (set_conn y c' out) b sz) as Hpr'.
      { split; [done|]. split; [simpl; congruence|]. simpl. split; [|done].
        by rewrite Hwire, <-app_assoc, Hout. }
      rewrite decide_False by (destruct Hw' as (?&_&_&_&?&_); lia).
      destruct (decide (cb_solong (cn_wpdu c') < cb_sz (cn_wpdu c'))) as [Hlt|Hge].
      * intros [= <-]. destruct HI.
        split; simpl; try done; [|intros Hx; apply si_closed0 in Hx; congruence].
        intros _. exists i, t. split; [done|]. split; [|done].
        destruct Ht as [->| ->]; simpl; [|by left]. split; [done|]. rewrite Hd', Ed. lia.
      * destruct (signal_complete _ k) as [y1|] eqn:Esig; [|done]. intros [= <-].
        apply (signal_inv y (set_conn y c' out) k); simpl; try done.
        -- intros b' sz' Hpr1. left. destruct (Hsame b' sz' Hpr1) as [Ef ->].
           destruct Hpr' as (P1&P2&P3&P4). split; [by rewrite Ef|]. split; [done|].
           split; [by rewrite Ef|done].
        -- intros [H1 _]. congruence.
        -- intros Hx. apply (si_closed _ HI) in Hx. congruence.
    + destruct (signal_complete _ k) as [y1|] eqn:Esig; [|done]. intros [= <-].
      eapply (signal_inv y _ k); [done|..|exact Esig]; simpl; try done.
      all: intros; right; by split.
Qed.

(** *** Every step keeps the invariant *)

Lemma send_inv_new fd lossy : send_inv (ssys_new fd lossy).
Proof.
  split; simpl; try done. by exists [].
Qed.

(** the senders sleep and wake without a signal *)
Lemma wake_inv y k y' : send_inv y → sact y (Wake k) = Some (Done y') → send_inv y'.
Proof.
  intros HI. simpl. destruct (senders y !! k) as [t|] eqn:Ek; [|done].
  destruct t as [|b sz| |b sz| | |]; try done; intros [= <-].
  - rewrite <-(set_waiters_id (set_sender y k (SRetry b sz))).
    apply (inv_other y k _ (SRetry b sz) (waiters_ y) HI Ek); simpl; try done.
    apply (si_valid _ HI _ _ Ek).
  - assert (cb_buf (cn_wpdu (sc y)) ≠ None) as Hb.
    { intros Hb. by specialize (inv_free y HI Hb k _ Ek). }
    destruct (si_busy _ HI Hb) as (i&t&Ei&Hc&Ho).
    assert (i = k) as ->.
    { destruct (decide (k = i)) as [|Hne]; [done|]. by specialize (Ho k _ Hne Ek). }
    rewrite Ek in Ei. injection Ei as <-. rewrite <-(set_waiters_id y).
    apply (inv_current _ k (SSleep b sz)); [|done|done|].
    + apply inv_around; try done. simpl. lia.
    + destruct Hc as [Hc _]. by left.
Qed.

Lemma resume_inv y k y' : send_inv y → sact y (Resume k) = Some (Done y') → send_inv y'.
Proof.
  intros HI. simpl. destruct (senders y !! k) as [t|] eqn:Ek; [|done]. intros H.
  assert (active t = true) as Ht by (by destruct t).
  assert (cb_buf (cn_wpdu (sc y)) ≠ None) as Hb.
  { intros Hb. specialize (inv_free y HI Hb k _ Ek). congruence. }
  destruct (si_busy _ HI Hb) as (i&t'&Ei&Hc&Ho).
  assert (i = k) as ->.
  { destruct (decide (k = i)) as [|Hne]; [done|]. specialize (Ho k _ Hne Ek). congruence. }
  rewrite Ek in Ei. injection Ei as <-.
  assert (around y k t) as Har.
  { rewrite <-(set_waiters_id y). apply inv_around; try done; destruct t; try done; simpl; lia. }
  destruct t as [| | | |b sz|b sz|]; try done; injection H as <-.
  - unfold must_wait. destruct (cn_dead (sc y)) eqn:Ed; cbn [negb andb].
    { apply (inv_finish _ k _ _ _ Har); congruence. }
    destruct Hc as [Hc|[Hd _]]; [|congruence].
    assert (0 ≤ cb_solong (cn_wpdu (sc y)) ≤ cb_sz (cn_wpdu (sc y))) as Hr
      by (destruct Hc as ((?&_&_&_&?&_)&_); lia).
    rewrite bool_decide_eq_true_2 by lia. cbn [andb].
    destruct (decide (cb_solong (cn_wpdu (sc y)) < cb_sz (cn_wpdu (sc y)))) as [Hlt|Hge].
    + rewrite bool_decide_eq_true_2 by done. apply (inv_current _ k _ _ Har); [done|done|].
      simpl. rewrite Ed. split; [done|]. destruct Hc as (_&<-&_). done.
    + rewrite bool_decide_eq_false_2 by done.
      apply (inv_finish _ k _ _ _ Har); [|intros _; lia]. intros _ Hf.
      destruct Hc as (Hw&Hs&->&_). f_equal. by apply full_frame.
  - destruct Hc as [Hd Hbuf].
    assert (around (set_watch y false false) k (SRemove b sz)) as Har'.
    { destruct Har. by split. }
    apply (inv_finish _ k _ _ _ Har'); simpl; congruence.
Qed.

Lemma close_inv y : send_inv y → cn_dead (sc y) = false →
  send_inv (set_closed (set_conn y (set_dead (sc y)) [])).
Proof.
  intros HI Ed. destruct HI. split; simpl; rewrite ?app_nil_r; try done.
  - intros Hb. destruct (si_free0 Hb) as (H1&H2&H3). by split_and!.
  - intros Hb. destruct (si_busy0 Hb) as (i&t&Ei&Hc&Ho). exists i, t. split; [done|]. split; [|done].
    assert (∀ b sz, in_progress y b sz →
      in_progress (set_closed (set_conn y (set_dead (sc y)) [])) b sz) as Hp.
    { intros b sz Hpr. eapply in_progress_dead; [exact Hpr|..]; simpl; rewrite ?app_nil_r; done. }
    destruct t as [| | |b sz|b sz|b sz|]; simpl in *; try done.
    + split; [apply Hp, Hc|done].
    + destruct Hc as [Hc|[Hc _]]; [left; by apply Hp|congruence].
Qed.

Lemma close_done_inv y : send_inv y → closed y = true → send_inv (set_watch y false false).
Proof.
  intros HI Hcl. pose proof (si_closed _ HI Hcl) as Hd. destruct HI. split; simpl; try done.
  intros Hb. destruct (si_busy0 Hb) as (i&t&Ei&Hc&Ho). exists i, t. split; [done|]. split; [|done].
  assert (∀ b sz, in_progress y b sz → in_progress (set_watch y false false) b sz) as Hp
    by (intros b sz Hpr; by eapply in_progress_dead).
  destruct t as [| | |b sz|b sz|b sz|]; simpl in *; try done.
  - destruct Hc as [Hc Hc']. split; [by apply Hp|done].
  - destruct Hc as [Hc|Hc]; [left; by apply Hp|by right].
Qed.

Lemma send_new_inv y b sz :
  send_inv y → pdu_ok b sz → send_inv (set_senders y (senders y ++ [SNew b sz])).
Proof.
  intros HI Hok. destruct HI. split; simpl; try done.
  - intros Hb. destruct (si_free0 Hb) as (H1&H2&H3). split_and!; [done|done|].
    intros k t [E|(_&E)]%lookup_app_Some; [by eapply H3|].
    apply list_lookup_singleton_Some in E as [_ <-]. done.
  - intros Hb. destruct (si_busy0 Hb) as (i&t&Ei&Hc&Ho). exists i, t.
    rewrite lookup_app_l by by eapply lookup_lt_Some. split; [done|]. split; [exact Hc|].
    intros j u Hj [E|(_&E)]%lookup_app_Some; [by eapply Ho|].
    apply list_lookup_singleton_Some in E as [_ <-]. done.
  - rewrite sum_list_with_app. simpl. lia.
  - rewrite fmap_app, join_app. simpl. by rewrite app_nil_r.
  - intros k t [E|(_&E)]%lookup_app_Some; [by eapply si_valid0|].
    apply list_lookup_singleton_Some in E as [_ <-]. done.
Qed.

(** the callers of [send] pass buffers that hold the PDU *)
Definition good_send (x : saction) : Prop :=
  match x with Send b sz => pdu_ok b sz | _ => True end.

Lemma sact_inv y x y' : send_inv y → good_send x → sact y x = Some (Done y') → send_inv y'.
Proof.
  intros HI Hg. destruct x as [b sz|k a|k|a k|k| | |k].
  - intros [= <-]. by apply send_new_inv.
  - simpl. destruct (senders y !! k) as [t|] eqn:Ek; [|done].
    destruct t as [b sz| |b sz| | | |]; try done; intros [= H];
      (eapply (send_turn_inv y k _ b sz a y' HI Ek); [by auto|rewrite <-H; f_equal]);
      destruct y; unfold set_waiters; simpl; f_equal; lia.
  - by apply resume_inv.
  - simpl. destruct (registered y && wants_write y) eqn:E; [|done]. by apply write_cb_inv.
  - simpl. destruct (registered y); [|done].
    destruct (read_failed y k) as [y1|] eqn:E; [|done]. intros [= <-]. by eapply read_failed_inv.
  - intros [= <-]. destruct (cn_dead (sc y)) eqn:Ed; [done|]. by apply close_inv.
  - simpl. destruct (closed y) eqn:Ec; [|done]. intros [= <-]. by apply close_done_inv.
  - by apply wake_inv.
Qed.

Lemma sacts_inv y l y' :
  send_inv y → Forall good_send l → sacts y l = Some (Done y') → send_inv y'.
Proof.
  intros HI Hl. revert y HI. induction Hl as [|x l Hx Hl IH]; simpl; intros y HI; [by intros [= <-]|].
  destruct (sact y x) as [[y1|]|] eqn:E; try done. apply IH. by eapply sact_inv.
Qed.

(** ** The theorems *)


Lemma write_cb_enabled y a k b sz : senders y !! k = Some (SSleep b sz) → write_cb y a k ≠ None.
Proof.
  intros E. assert (∀ y1, senders y1 = senders y → ∃ y2, signal_complete y1 k = Some y2) as Hs.
  { intros y1 E1. unfold signal_complete. rewrite E1, E. case_decide; eauto. }
  unfold write_cb. destruct (cn_dead (sc y)); [done|]. destruct (decide (cb_sz _ = 0)); [done|].
  destruct (writepdu (sc y) a) as [[[c ok] out]|]; [|done].
  destruct (negb ok).
  - edestruct Hs as [y2 ->]; done.
  - destruct (decide (cb_solong _ < 0)); [done|]. destruct (decide (cb_solong _ < cb_sz _)); [done|].
    edestruct Hs as [y2 ->]; done.
Qed.

(** nothing is left to do for the senders and for the polling thread *)
Definition quiescent (y : ssys) : Prop :=
  (∀ k a, sact y (Enter k a) = None) ∧ (∀ k, sact y (Resume k) = None) ∧
  ∀ a k, sact y (WriteCb a k) = None.

(** C28. Unless [closeconn] interferes no call of [send] is stuck: a sender that waits for the
    rest of its PDU to be written is on a live connection that the poll manager watches for
    writing, a sender that waits for its turn waits for another one that can go on, and when
    nothing is left to do every call has returned. *)
Theorem no_sender_is_stuck fd lossy l y :
  Forall good_send l → sacts (ssys_new fd lossy) l = Some (Done y) → closed y = false →
  (∀ k b sz, senders y !! k = Some (SSleep b sz) →
    cn_dead (sc y) = false ∧ registered y = true ∧ wants_write y = true) ∧
  (∀ k b sz, senders y !! k = Some (STurn b sz) →
    ∃ j u, j ≠ k ∧ senders y !! j = Some u ∧ active u = true) ∧
  (quiescent y → Forall (λ t, ∃ b sz r, t = SRet b sz r) (senders y)).
Proof.
  intros Hl H Hcl. apply sacts_inv in H as HI; [|apply send_inv_new|done].
  assert (∀ k b sz, senders y !! k = Some (SSleep b sz) →
    cn_dead (sc y) = false ∧ registered y = true ∧ wants_write y = true) as Hsl.
  { intros k b sz Ek. assert (cb_buf (cn_wpdu (sc y)) ≠ None) as Hb.
    { intros Hb. by specialize (inv_free y HI Hb k _ Ek). }
    destruct (si_busy _ HI Hb) as (i&t&Ei&Hc&Ho).
    assert (i = k) as ->.
    { destruct (decide (k = i)) as [|Hne]; [done|]. by specialize (Ho k _ Hne Ek). }
    rewrite Ek in Ei. injection Ei as <-. destruct Hc as [(_&_&_&Hw) Hd].
    destruct (cn_dead (sc y)) eqn:Ed; [congruence|]. by destruct (Hw eq_refl Hd). }
  assert (∀ k b sz, senders y !! k = Some (STurn b sz) →
    ∃ j u, j ≠ k ∧ senders y !! j = Some u ∧ active u = true) as Htu.
  { intros k b sz Ek. destruct (decide (cb_buf (cn_wpdu (sc y)) = None)) as [Hb|Hb].
    - destruct (si_free _ HI Hb) as (_&_&Hf). destruct (Hf k _ Ek) as [_ Hn]. by destruct (Hn b sz).
    - destruct (si_busy _ HI Hb) as (i&t&Ei&Hc&_). apply current_active in Hc.
      exists i, t. split_and!; [|done|done]. intros ->. rewrite Ek in Ei. by injection Ei as <-. }
  split; [done|]. split; [done|]. intros (Q1&Q2&Q3).
  assert (∀ j u, senders y !! j = Some u → active u = false) as Hna.
  { intros j u E. destruct u as [| | |b sz|b sz|b sz|]; try done.
    - destruct (Hsl j b sz E) as (Hd&Hr&Hw). specialize (Q3 (WError EAGAIN) j). simpl in Q3.
      rewrite Hr, Hw in Q3. by apply (write_cb_enabled y (WError EAGAIN) j b sz) in Q3.
    - specialize (Q2 j). simpl in Q2. by rewrite E in Q2.
    - specialize (Q2 j). simpl in Q2. by rewrite E in Q2. }
  apply Forall_lookup. intros k t E. destruct t as [b sz|b sz|b sz|b sz|b sz|b sz|b sz r].
  - specialize (Q1 k (WError EAGAIN)). simpl in Q1. by rewrite E in Q1.
  - destruct (Htu k b sz E) as (j&u&_&Ej&Hu). specialize (Hna j u Ej). congruence.
  - specialize (Q1 k (WError EAGAIN)). simpl in Q1. by rewrite E in Q1.
  - by specialize (Hna k _ E).
  - by specialize (Hna k _ E).
  - by specialize (Hna k _ E).
  - by exists b, sz, r.
Qed.

(** *** Runs *)

Definition sample_pdu : list byte := be32 0 ++ be32 7.

Definition run (l : list saction) : ssys :=
  match sacts (ssys_new 5 0) l with Some (Done y) => y | _ => ssys_new 5 0 end.

(** the kernel takes three bytes of a PDU, and its sender waits for the rest *)
Definition half_sent : list saction := [Send sample_pdu 8; Enter 0 (WAccept 3)].

(** a sleeping sender of a dead connection without callbacks stays asleep *)
Lemma stranded y l y' k b sz :
  cn_dead (sc y) = true → registered y = false → senders y !! k = Some (SSleep b sz) →
  Forall (λ x, ∀ j, x ≠ Wake j) l → sacts y l = Some (Done y') →
  senders y' !! k = Some (SSleep b sz).
Proof.
  intros Hd Hr Ek Hl. revert y Hd Hr Ek.
  induction Hl as [|x l Hx Hl IH]; simpl; intros y Hd Hr Ek H; [by injection H as <-|].
  destruct (sact y x) as [[y1|]|] eqn:E; try done.
  assert (cn_dead (sc y1) = true ∧ registered y1 = false ∧ senders y1 !! k = Some (SSleep b sz))
    as (H1&H2&H3); [|by eapply IH].
  assert (∀ y0 j b0 sz0, cn_dead (sc y0) = true → registered y0 = false →
    senders y0 = senders y → j ≠ k →
    cn_dead (sc (send_finish y0 j b0 sz0)) = true ∧ registered (send_finish y0 j b0 sz0) = false ∧
    senders (send_finish y0 j b0 sz0) !! k = Some (SSleep b sz)) as Hfin.
  { intros y0 j b0 sz0 Hd0 Hr0 Es Hj. unfold send_finish. rewrite Hd0. cbn [negb andb].
    destruct (decide _); simpl; rewrite list_lookup_insert_ne by done; rewrite Es.
    - rewrite list_lookup_fmap, Ek. by split_and!.
    - by split_and!. }
  destruct x as [b0 sz0|j a|j|a j|j| | |j]; simpl in E.
  - injection E as <-. simpl. rewrite lookup_app_l by by eapply lookup_lt_Some. by split_and!.
  - destruct (senders y !! j) as [t|] eqn:Ej; [|done].
    assert (j ≠ k) by (intros ->; rewrite Ek in Ej; by injection Ej as <-).
    destruct t as [b0 sz0| |b0 sz0| | | |]; try done; injection E as E; unfold send_turn in E;
      simpl in E; rewrite Hd in E; simpl in E; injection E as <-; simpl;
      rewrite list_lookup_insert_ne by done; by split_and!.
  - destruct (senders y !! j) as [t|] eqn:Ej; [|done].
    assert (j ≠ k) by (intros ->; rewrite Ek in Ej; by injection Ej as <-).
    destruct t as [| | | |b0 sz0|b0 sz0|]; try done; injection E as <-.
    + unfold must_wait. rewrite Hd. cbn [negb andb]. by apply Hfin.
    + by apply (Hfin (set_watch y false false)).
  - by rewrite Hr in E.
  - by rewrite Hr in E.
  - injection E as <-. rewrite Hd. by split_and!.
  - destruct (closed y); [|done]. injection E as <-. by split_and!.
  - by destruct (Hx j).
Qed.

(** [closeconn] does not signal [send_complete_]: a thread that waits in [send] for the rest
    of its PDU when another thread closes the connection waits for ever. *)
Theorem close_strands_sender :
  ∃ y, sacts (ssys_new 5 0) (half_sent ++ [Close; CloseDone]) = Some (Done y) ∧
    ∀ l y', Forall (λ x, ∀ j, x ≠ Wake j) l → sacts y l = Some (Done y') →
      senders y' !! 0%nat = Some (SSleep sample_pdu 8).
Proof.
  exists (run (half_sent ++ [Close; CloseDone])). split; [vm_compute; reflexivity|].
  intros l y' Hl H. eapply stranded; [| | |exact Hl|exact H]; vm_compute; reflexivity.
Qed.

(** [write_cb] asserts that the connection is alive.  It need not be: after a PDU that was
    sent in pieces [fd_] stays watched for writing, and when the [write] of the next PDU
    fails, [send] marks the connection dead and gives the mutex back before the callback is
    removed.  No [closeconn] takes part. *)
Theorem write_cb_meets_dead_connection :
  sacts (ssys_new 5 0)
    (half_sent ++ [WriteCb (WAccept 100) 0; Resume 0; Send sample_pdu 8; Enter 1 (WError 32);
                   WriteCb (WAccept 100) 0]) = Some (Fault AssertFailed).
Proof. vm_compute. reflexivity. Qed.

(** *** Witnesses *)

Definition two_senders : list saction :=
  half_sent ++ [Send sample_pdu 8; Enter 1 (WAccept 100)].

Lemma two_senders_good : Forall good_send two_senders.
Proof. repeat constructor; vm_compute; done. Qed.


Lemma no_sender_is_stuck_witness :
  senders (run two_senders) !! 1%nat = Some (STurn sample_pdu 8) ∧
  ∃ j u, j ≠ 1%nat ∧ senders (run two_senders) !! j = Some u ∧ active u = true.
Proof.
  assert (H : sacts (ssys_new 5 0) two_senders = Some (Done (run two_senders)))
    by (vm_compute; reflexivity).
  assert (E : senders (run two_senders) !! 1%nat = Some (STurn sample_pdu 8))
    by (vm_compute; reflexivity).
  split; [exact E|].
  destruct (no_sender_is_stuck 5 0 two_senders _ two_senders_good H ltac:(vm_compute; reflexivity))
    as (_&Ht&_).
  exact (Ht 1%nat sample_pdu 8 E).
Defined.
