(* ===== verification/Listener.v ===== *)
(** * The listener: [tcpsconn] of [rpc/connection.cc]

    The accept thread of a server keeps one reference to every connection it
    has accepted, in the map [conns_] from descriptors to pointers.  The answers
    of [select] and [accept], and what the other threads do to the connections
    in the meantime, are the events of the loop. *)

From S2P Require Import Prelude Marshall Address Connection.

(** ** Definitions *)

(** [std::map<int, connection *>]: sorted by descriptor *)
Abbreviation conns := (list (Z * ptr)) (only parsing).

(** [conns_[fd] = p] *)
Fixpoint conns_insert (fd : Z) (p : ptr) (l : conns) : conns :=
  match l with
  | [] => [(fd, p)]
  | (k, q) :: l' =>
      if decide (fd < k) then (fd, p) :: l
      else if decide (fd = k) then (fd, p) :: l' else (k, q) :: conns_insert fd p l'
  end.

(** What the system answers to the constructor: to [socket], [bind], [listen] and
    [pipe] (with its two descriptors), to [fcntl(F_GETFL)], and to the creation of
    the accept thread. *)
Record tcp_answers := TcpAnswers {
  ta_socket : Z; ta_bind : Z; ta_listen : Z; ta_pipe : Z; ta_pipe_fds : Z * Z; ta_flags : Z;
  ta_thread : Z }.

Definition O_NONBLOCK : Z := 0x800.

(** [pipe_flags]: the flags that the constructor sets on the end to read from *)
Record tcpsconn := Tcpsconn {
  lossy_ : Z; sock_port : Z; tcp_ : Z; pipe_ : Z * Z; pipe_flags : Z; th_ : Z; conns_of : conns }.

(** the constructor; the address is any of the host, the port in network order *)
Definition tcpsconn_new (port lossy : Z) (a : tcp_answers) : outcome tcpsconn :=
  let port := htons port in
  if decide (ta_socket a < 0) then Fault AssertFailed
  else if decide (ta_bind a < 0) then Fault AssertFailed
  else if decide (ta_listen a < 0) then Fault AssertFailed
  else if decide (ta_pipe a < 0) then Fault AssertFailed
  else
    let flags := Z.lor (ta_flags a) O_NONBLOCK in
    check! bool_decide (ta_thread a ≠ 0) in
    Done (Tcpsconn lossy port (ta_socket a) (ta_pipe_fds a) flags (ta_thread a) []).

(** the collection of dead connections: [erase(i)] invalidates the iterator that
    the [for] statement increments next *)
Fixpoint gc (s : conn_store) (l : conns) : outcome conn_store :=
  match l with
  | [] => Done s
  | (_, p) :: l' =>
      let! d := isdead s p in
      let! one := (if d then let! n := conn_ref s p in Done (bool_decide (n = 1))
                   else Done false) in
      if one then let! _ := decref s p in Fault UseAfterFree else gc s l'
  end.

(** [process_accept] after [accept] returned the descriptor [fd]; [p] is where
    [new connection] put the object *)
Definition process_accept (lossy : Z) (s : conn_store) (l : conns) (fd : Z) (p : ptr)
    : outcome (conn_store * conns) :=
  let s := <[p := connection_new fd lossy]> s in
  let! s := gc s l in Done (s, conns_insert fd p l).

Inductive accept_event :=
  | SelectError (errno : Z)
  | SelectReady (pipe tcp : bool) (a : option (Z * ptr))  (**r [a]: the answer of [accept] *)
  | Others (s : conn_store).                              (**r other threads ran *)

Inductive accept_state := Accepting | Returned | Exited.
Definition EINTR : Z := 4.

(** the loop of [accept_conn], as far as the events reach *)
Fixpoint accept_conn (lossy : Z) (s : conn_store) (l : conns) (evs : list accept_event)
    : outcome (conn_store * conns * accept_state) :=
  match evs with
  | [] => Done (s, l, Accepting)
  | Others s :: evs => accept_conn lossy s l evs
  | SelectError e :: evs =>
      if decide (e = EINTR) then accept_conn lossy s l evs else Fault AssertFailed
  | SelectReady pipe tcp a :: evs =>
      if pipe then Done (s, l, Returned)
      else if tcp then
        match a with
        | None => Done (s, l, Exited)
        | Some (fd, p) =>
            let! '(s, l) := process_accept lossy s l fd p in accept_conn lossy s l evs
        end
      else Fault AssertFailed
  end.

(** [~tcpsconn()] after the accept thread was joined *)
Fixpoint close_all (s : conn_store) (l : conns) : outcome conn_store :=
  match l with
  | [] => Done s
  | (_, p) :: l' =>
      let! '(s, _) := closeconn s p in
      let! s := decref s p in
      close_all s l'
  end.

(** ** Facts *)

Definition collectable (s : conn_store) (e : Z * ptr) : bool :=
  match s !! e.2 with
  | Some c => cn_dead c && bool_decide (cn_refno c = 1)
  | None => false
  end.

Lemma conns_ok_unreferenced s p c refs m :
  conns_ok s (p :: refs) m → (∀ q, q ∈ m → q ∈ refs) → s !! p = Some c → cn_refno c = 1 →
  cb_buf (cn_wpdu c) = None.
Proof.
  intros [[_ H2] H3] Hm Hc Hn. destruct (cb_buf (cn_wpdu c)) eqn:Hb; [|done]. exfalso.
  assert (p ∈ refs) as Hp by (apply Hm, (H3 p c Hc); by rewrite Hb).
  pose proof (H2 p c Hc) as E. rewrite filter_eq_cons, decide_True in E by done.
  assert (p ∈ filter (eq p) refs) as Hf by (by apply list_elem_of_filter).
  destruct (filter (eq p) refs); [by apply elem_of_nil in Hf|]. simpl in E. lia.
Qed.

Lemma gc_exact s l refs m :
  conns_ok s (l.*2 ++ refs) m → (∀ q, q ∈ m → q ∈ refs) →
  gc s l = if existsb (collectable s) l then Fault UseAfterFree else Done s.
Proof.
  revert refs. induction l as [|[fd p] l IH]; intros refs Hok Hm; [done|].
  destruct (conns_ok_deref s p _ m Hok) as (c&Hd&Hc); [by left|].
  assert (gc s l = if existsb (collectable s) l then Fault UseAfterFree else Done s) as E.
  { apply (IH (p :: refs)); [|intros; right; auto].
    eapply conns_ok_perm; [|exact Hok]. cbn. by rewrite Permutation_middle. }
  cbn [gc existsb]. unfold isdead, conn_ref, collectable at 1. cbn [snd]. rewrite Hd, Hc. cbn.
  destruct (cn_dead c) eqn:Hdead; cbn; [|done]. case_bool_decide as Hn; cbn; [|done].
  destruct (conns_ok_decref s p (l.*2 ++ refs) m) as (s'&->&_); [done| |done].
  intros q Hq. apply elem_of_app. auto.
Qed.

Lemma conns_ok_closeconn s p refs m :
  conns_ok s refs m → p ∈ refs →
  ∃ s' b, closeconn s p = Done (s', b) ∧ conns_ok s' refs m ∧
    (∀ q, q ≠ p → s' !! q = s !! q) ∧ ∃ c, s' !! p = Some c ∧ cn_dead c = true.
Proof.
  intros Hok Hp. destruct (conns_ok_deref s p refs m Hok Hp) as (c&Hd&Hc).
  unfold closeconn. rewrite Hd. cbn. destruct (cn_dead c) eqn:Hdead.
  { exists s, false. split_and!; eauto. }
  exists (<[p := set_dead c]> s), true. destruct Hok as [[H1 H2] H3].
  split_and!; [done|split; [split|]|by intros; apply lookup_insert_ne|].
  - intros q Hq. rewrite lookup_insert. case_decide; eauto.
  - intros q c'. rewrite lookup_insert. case_decide as E; [|apply H2].
    intros [= <-]. subst q. exact (H2 p c Hc).
  - intros q c'. rewrite lookup_insert. case_decide as E; [|apply H3].
    intros [= <-]. subst q. exact (H3 p c Hc).
  - exists (set_dead c). by rewrite lookup_insert_eq.
Qed.

(** deleted, or closed *)
Definition shut (s : conn_store) (p : ptr) : Prop :=
  ∀ c, s !! p = Some c → cn_dead c = true.

Lemma decref_shut s s' p q : decref s p = Done s' → shut s q → shut s' q.
Proof.
  unfold decref, shut. destruct (deref s p) as [c|] eqn:Hc; [|done]. apply deref_Done in Hc.
  cbn. case_bool_decide; [|done]. intros E Hq c'.
  assert (∀ n, <[p := set_refno c n]> s !! q = Some c' → cn_dead c' = true) as Hins.
  { clear E. intros n. rewrite lookup_insert. case_decide; [|apply Hq].
    intros [= <-]. cbn. apply Hq. by subst q. }
  case_decide; [|inv_done; eauto]. destruct (cn_dead c); [|inv_done; eauto].
  unfold conn_delete in E. destruct (deref _ p) as [c1|]; [|done]. cbn in E.
  destruct (cn_dead c1); [|done]. case_bool_decide; [|done]. cbn in E. inv_done.
  rewrite lookup_delete. case_decide; [done|]. eauto.
Qed.

Lemma decref_absent s s' p q : decref s p = Done s' → s !! q = None → s' !! q = None.
Proof.
  intros E Hq. destruct (s' !! q) as [c'|] eqn:Hc; [|done].
  destruct (decref_lookup s s' p q c' E Hc) as (c&Hc'&_). congruence.
Qed.

Lemma close_all_spec s l refs m :
  conns_ok s (l.*2 ++ refs) m → (∀ q, q ∈ m → q ∈ refs) →
  ∃ s', close_all s l = Done s' ∧ conns_ok s' refs m ∧
    (∀ q, q ∈ l.*2 → shut s' q ∧ (q ∉ refs → s' !! q = None)) ∧
    (∀ q, shut s q → shut s' q) ∧ (∀ q, s !! q = None → s' !! q = None).
Proof.
  revert s. induction l as [|[fd p] l IH]; intros s Hok Hm.
  { exists s. split_and!; try done. intros q Hq. by apply elem_of_nil in Hq. }
  destruct (conns_ok_closeconn s p _ m Hok) as (s1&b&E1&Hok1&Hne&c&Hc&Hdead); [by left|].
  assert (∀ q, q ∈ m → q ∈ l.*2 ++ refs) as Hm' by (intros; apply elem_of_app; auto).
  destruct (conns_ok_decref s1 p (l.*2 ++ refs) m Hok1 Hm') as (s2&E2&Hok2).
  destruct (IH s2 Hok2 Hm) as (s3&E3&Hok3&Hl&Hsh&Hab).
  assert (shut s1 p) as Hs1 by (intros c'; congruence).
  cbn [close_all]. rewrite E1. cbn. rewrite E2. cbn. exists s3.
  split_and!; [exact E3|exact Hok3|..].
  - intros q Hq. cbn in Hq. apply elem_of_cons in Hq as [->|Hq]; [|by apply Hl].
    split; [by eapply Hsh, decref_shut|]. intros Hp.
    destruct (decide (p ∈ l.*2)) as [|Hpl]; [by apply Hl|]. apply Hab.
    assert (p ∉ l.*2 ++ refs) as Hpn by (intros [|]%elem_of_app; auto).
    assert (p ∉ refs → cb_buf (cn_wpdu c) = None) as Hw.
    { intros _. destruct (cb_buf (cn_wpdu c)) eqn:Hb; [|done]. exfalso.
      apply Hpn, Hm', (proj2 Hok1 p c Hc). by rewrite Hb. }
    destruct (decref_refs_ok s1 p c (l.*2 ++ refs) (proj1 Hok1) Hc) as (s2'&E2'&_&Hiff).
    { intros _. by apply Hw. }
    rewrite E2 in E2'. injection E2' as <-. by apply Hiff.
  - intros q Hq. eapply Hsh, decref_shut; [exact E2|].
    destruct (decide (q = p)) as [->|]; [done|]. unfold shut. rewrite Hne by done. exact Hq.
  - intros q Hq. eapply Hab, decref_absent; [exact E2|]. rewrite Hne; [done|].
    intros ->. destruct (conns_ok_deref s p _ m Hok) as (?&_&?); [by left|congruence].
Qed.

Lemma conns_insert_perm fd p l :
  fd ∉ l.*1 → conns_insert fd p l ≡ₚ (fd, p) :: l.
Proof.
  induction l as [|[k q] l IH]; intros Hn; [done|]. cbn in *. apply not_elem_of_cons in Hn as [].
  case_decide; [done|]. rewrite decide_False by done. rewrite IH by done. apply perm_swap.
Qed.

Lemma conns_insert_sorted fd p l :
  StronglySorted Z.lt l.*1 → StronglySorted Z.lt (conns_insert fd p l).*1.
Proof.
  induction l as [|[k q] l IH]; intros Hs; [repeat constructor|]. cbn in *.
  apply StronglySorted_inv in Hs as [Hs Hk]. case_decide; cbn.
  { constructor; [by constructor|]. constructor; [done|].
    eapply Forall_impl; [exact Hk|]. cbn. lia. }
  case_decide; cbn; [subst; by constructor|]. constructor; [by apply IH|].
  clear -Hk H H0. induction l as [|[a r] l IH]; cbn; [repeat constructor; lia|].
  cbn in Hk. apply Forall_cons in Hk as [Ha Hk]. case_decide; cbn.
  { constructor; [lia|]. by constructor. }
  case_decide; cbn; constructor; [lia|done|done|by apply IH].
Qed.

(** *** The loop, when nothing has died *)

(** the connections that the events bring *)
Definition arrivals (evs : list accept_event) : conns :=
  omap (λ e, match e with SelectReady false true (Some a) => Some a | _ => None end) evs.

Definition arrives (e : accept_event) : Prop :=
  match e with
  | SelectError e => e = EINTR
  | SelectReady false true (Some _) => True
  | _ => False
  end.

Definition all_alive (s : conn_store) (l : conns) : Prop :=
  ∀ p c, p ∈ l.*2 → s !! p = Some c → cn_dead c = false.

Lemma alive_not_collectable s l : all_alive s l → existsb (collectable s) l = false.
Proof.
  intros Ha. induction l as [|[fd p] l IH]; [done|]. cbn [existsb].
  rewrite IH by (intros q c Hq; apply Ha; by right). unfold collectable. cbn [snd].
  destruct (s !! p) as [c|] eqn:Hc; [|done]. by rewrite (Ha p c) by (done || by left).
Qed.

Lemma collectable_insert s l p c :
  p ∉ l.*2 → existsb (collectable (<[p := c]> s)) l = existsb (collectable s) l.
Proof.
  induction l as [|[fd q] l IH]; intros Hp; [done|]. cbn in Hp.
  apply not_elem_of_cons in Hp as [Hq Hp]. cbn [existsb]. rewrite IH by done.
  unfold collectable at 1 3. cbn [snd]. by rewrite lookup_insert_ne.
Qed.

Lemma process_accept_spec lossy s l fd p refs m :
  conns_ok s (l.*2 ++ refs) m → (∀ q, q ∈ m → q ∈ refs) → s !! p = None → fd ∉ l.*1 →
  process_accept lossy s l fd p =
    (if existsb (collectable s) l then Fault UseAfterFree
     else Done (<[p := connection_new fd lossy]> s, conns_insert fd p l)) ∧
  conns_ok (<[p := connection_new fd lossy]> s) ((conns_insert fd p l).*2 ++ refs) m ∧ p ∉ l.*2.
Proof.
  intros Hok Hm Hp Hfd. assert (p ∉ l.*2) as Hpl.
  { intros Hin. destruct (conns_ok_deref s p _ m Hok) as (c&_&?); [|congruence].
    apply elem_of_app. by left. }
  pose proof (conns_ok_new s p fd lossy _ m Hok Hp) as Hnew. split_and!; [| |done].
  - unfold process_accept. cbv zeta. rewrite (gc_exact _ l (p :: refs) m).
    + rewrite collectable_insert by done. by destruct (existsb _ l).
    + eapply conns_ok_perm; [|exact Hnew]. by rewrite Permutation_middle.
    + intros q Hq. right. auto.
  - eapply conns_ok_perm; [|exact Hnew]. by rewrite (conns_insert_perm fd p l Hfd).
Qed.

Lemma accept_conn_spec lossy t a refs m evs s l :
  conns_ok s (l.*2 ++ refs) m → (∀ q, q ∈ m → q ∈ refs) →
  StronglySorted Z.lt l.*1 → all_alive s l → Forall arrives evs →
  NoDup ((arrivals evs).*1 ++ l.*1) → NoDup (arrivals evs).*2 →
  (∀ p, p ∈ (arrivals evs).*2 → s !! p = None) →
  ∃ s' l', accept_conn lossy s l (evs ++ [SelectReady true t a]) = Done (s', l', Returned) ∧
    l' ≡ₚ arrivals evs ++ l ∧ StronglySorted Z.lt l'.*1 ∧ all_alive s' l' ∧
    conns_ok s' (l'.*2 ++ refs) m.
Proof.
  revert s l. induction evs as [|e evs IH]; intros s l Hok Hm Hs Ha He Hfd Hpd Hnew.
  { exists s, l. by split_and!. }
  apply Forall_cons in He as [He Hes]. destruct e as [e|[] [] [[fd p]|]|]; try done.
  { cbn in He. cbn. rewrite decide_True by done. by apply IH. }
  change (arrivals (_ :: evs)) with ((fd, p) :: arrivals evs) in *.
  rewrite !fmap_cons in *. cbn [fst snd] in *. cbn [app] in Hfd.
  apply NoDup_cons in Hfd as [Hfd Hfds]. apply NoDup_cons in Hpd as [Hpd Hpds].
  assert (fd ∉ l.*1) as Hfl by (intros ?; apply Hfd, elem_of_app; by right).
  destruct (process_accept_spec lossy s l fd p refs m Hok Hm) as (E&Hok'&Hpl);
    [apply Hnew; by left|done|].
  rewrite alive_not_collectable in E by done.
  destruct (IH (<[p := connection_new fd lossy]> s) (conns_insert fd p l))
    as (s'&l'&E'&Hp'&Hs'&Ha'&Hok''); try done.
  - by apply conns_insert_sorted.
  - intros q c. rewrite (conns_insert_perm fd p l Hfl). cbn. rewrite lookup_insert.
    intros [->|Hq]%elem_of_cons; [rewrite decide_True by done; by intros [= <-]|].
    case_decide; [by intros [= <-]|]. by apply Ha.
  - rewrite (conns_insert_perm fd p l Hfl). cbn. rewrite <-Permutation_middle.
    by apply NoDup_cons.
  - intros q Hq. rewrite lookup_insert_ne; [apply Hnew; by right|]. by intros ->.
  - exists s', l'. split_and!; try done.
    + cbn [app accept_conn]. rewrite E. exact E'.
    + rewrite Hp', (conns_insert_perm fd p l Hfl). cbn. by rewrite Permutation_middle.
Qed.

(** ** Theorems *)

(** The accept thread never collects a dead connection that it alone holds: a new
    connection arrives either when there is none of these, and is added, or the
    thread drops the reference and then increments an iterator that [erase] has
    invalidated. *)
Theorem process_accept_exact lossy s l fd p refs m :
  conns_ok s (l.*2 ++ refs) m → (∀ q, q ∈ m → q ∈ refs) → s !! p = None → fd ∉ l.*1 →
  process_accept lossy s l fd p =
    (if existsb (collectable s) l then Fault UseAfterFree
     else Done (<[p := connection_new fd lossy]> s, conns_insert fd p l)) ∧
  conns_ok (<[p := connection_new fd lossy]> s) ((conns_insert fd p l).*2 ++ refs) m.
Proof.
  intros Hok Hm Hp Hfd. by destruct (process_accept_spec lossy s l fd p refs m) as (?&?&?).
Qed.

(** The constructor succeeds exactly when every call it makes does; it then listens
    without a connection, on the port that was asked for, and never blocks on its
    pipe. *)
Lemma tcpsconn_new_spec port lossy a :
  (∃ c, tcpsconn_new port lossy a = Done c ∧ conns_of c = [] ∧ lossy_ c = lossy ∧
     sock_port c = htons port ∧ Z.testbit (pipe_flags c) 11 = true) ∨
  tcpsconn_new port lossy a = Fault AssertFailed ∧
    (ta_socket a < 0 ∨ ta_bind a < 0 ∨ ta_listen a < 0 ∨ ta_pipe a < 0 ∨ ta_thread a = 0).
Proof.
  unfold tcpsconn_new. repeat (case_decide; [right; tauto|]).
  case_bool_decide; [left|right; tauto]. eexists. split; [done|]. split_and!; try done.
  change (Z.testbit (Z.lor (ta_flags a) O_NONBLOCK) 11 = true). rewrite Z.lor_spec. apply orb_true_r.
Qed.


(** ** Witnesses *)

Lemma empty_store_ok : conns_ok ∅ [] [].
Proof. split; [split|]; [by intros p ?%elem_of_nil|done|done]. Qed.

(** one connection, dead and held by nobody else *)
Definition dead_conn : connection := set_dead (connection_new 7 0).
Definition dead_store : conn_store := {[ 100 := dead_conn ]}.

Lemma dead_store_ok : conns_ok dead_store [100] [].
Proof.
  split; [split|].
  - intros p ->%list_elem_of_singleton. by exists dead_conn.
  - unfold dead_store. intros p c [<- <-]%lookup_singleton_Some. by vm_compute.
  - unfold dead_store. intros p c [<- <-]%lookup_singleton_Some Hw. by vm_compute in Hw.
Qed.

Lemma process_accept_exact_witness :
  process_accept 0 dead_store [(7, 100)] 8 200 = Fault UseAfterFree ∧
  conns_ok (<[200 := connection_new 8 0]> dead_store) [100; 200] [].
Proof.
  apply (process_accept_exact 0 dead_store [(7, 100)] 8 200 [] []).
  - apply dead_store_ok.
  - intros q Hq. exact Hq.
  - vm_compute. reflexivity.
  - cbn. intros [H|H]%elem_of_cons; [discriminate H|by apply elem_of_nil in H].
Defined.

Definition good_answers : tcp_answers := TcpAnswers 5 0 0 0 (6, 7) 2 1.

