(* ===== verification/Stubs.v ===== *)
(** * RPC stubs: the templates [rpcc::call], [rpcc::call_m] and [rpcs::reg]

    [rpc/rpc.h] writes the client stub and the server's unmarshalling handler
    [h1] once per number of arguments (0 to 7 and 1 to 7).  Here the list of the
    argument types is a value, [params]; the definitions below unfold to the
    template of each arity.  [call1] and the transport are parameters of the
    stubs; [Rpcc.v] and [Rpcs.v] supply them. *)

From S2P Require Import Prelude Marshall Codec.

(** ** The return values reserved by the library ([class rpc_const]) *)

Definition rpc_bind : Z := 1.
Definition timeout_failure : Z := -1.
Definition unmarshal_args_failure : Z := -2.
Definition unmarshal_reply_failure : Z := -3.
Definition atmostonce_failure : Z := -4.
Definition oldsrv_failure : Z := -5.
Definition bind_failure : Z := -6.

(** ** Argument lists *)

Inductive params : Type → Type :=
  | PNil : params unit
  | PCons {A As} (c : codec A) (ps : params As) : params (A * As).

(** [m << a1; m << a2; ...] *)
Fixpoint put_args {As} (ps : params As) (m : marshall) : As → outcome marshall :=
  match ps in params As return As → outcome marshall with
  | PNil => λ _, Done m
  | PCons c ps => λ a, let! m := c_put c m a.1 in put_args ps m a.2
  end.

(** [A1 a1; A2 a2; ...; args >> a1; args >> a2; ...] *)
Fixpoint get_args {As} (ps : params As) (u : unmarshall) : outcome (unmarshall * As) :=
  match ps in params As return outcome (unmarshall * As) with
  | PNil => Done (u, tt)
  | PCons c ps =>
      let! '(u, a) := c_get c u (c_init c) in
      let! '(u, rest) := get_args ps u in
      Done (u, (a, rest))
  end.

(** ** The stubs *)

(** the method of a server object of state [S]: arguments, then the variable of
    the result; the new state, the result and the return value *)
Abbreviation method S As R := (S → As → R → outcome (S * R * Z)).

(** [handler::fn] *)
Abbreviation handler S := (S → unmarshall → marshall → outcome (S * unmarshall * marshall * Z)).

(** [h1::fn] of the [reg] templates *)
Definition h1_fn {S As R} (ps : params As) (cr : codec R) (meth : method S As R) : handler S :=
  λ s args ret,
    let r := c_init cr in
    let! '(args, a) := get_args ps args in
    if negb (okdone args) then Done (s, args, ret, unmarshal_args_failure)
    else
      let! '(s, r, b) := meth s a r in
      let! ret := c_put cr ret r in
      Done (s, args, ret, b).

(** the interface of [call1] to the stubs: it fills the [unmarshall] *)
Abbreviation transport W := (W → marshall → unmarshall → outcome (W * unmarshall * Z)).

Definition call_m {W R} (cr : codec R) (call1 : transport W) (w : W) (req : marshall) (r : R)
    : outcome (W * R * Z) :=
  let u := unmarshall_empty in
  let! '(w, u, intret) := call1 w req u in
  if decide (intret < 0) then Done (w, r, intret)
  else
    let! '(u, r) := c_get cr u r in
    if negb (okdone u) then Done (w, r, unmarshal_reply_failure)
    else Done (w, r, intret).

Definition call {H : Heap} {W As R} (ps : params As) (cr : codec R) (call1 : transport W)
    (w : W) (a : As) (r : R) : outcome (W * R * Z) :=
  let! m := put_args ps marshall_new a in
  call_m cr call1 w m r.

(** ** A transport that reaches the handler

    [loopback] is what [call1], [dispatch] and [got_pdu] do with the two
    buffers when nothing is lost: pack the request header, unpack it at the
    server, run the handler, pack the reply header, unpack it at the client and
    hand the rest over with [take_in]. *)

Definition loopback {H : Heap} {S} (h : req_header) (f : handler S) : transport S :=
  λ s req un,
    let! req := pack_req_header req h in
    let '(b, sz, _) := marshall_take_buf req in
    let! '(u, hd) := unpack_req_header (unmarshall_new (default [] b) sz) in
    let! '(s, _, rep, ret) := f s u marshall_new in
    let! rep := pack_reply_header rep (make_reply_header (rq_xid hd) ret) in
    let '(b, sz, _) := marshall_take_buf rep in
    let! '(u, rh) := unpack_reply_header (unmarshall_new (default [] b) sz) in
    Done (s, fst (take_in un u), rp_ret rh).

(** ** The interface of argument lists *)

(** [params] all of whose codecs obey [CodecLaws] *)
Fixpoint args_ok {As} (ps : params As) : Type :=
  match ps with
  | PNil => unit
  | PCons c ps => CodecLaws c * args_ok ps
  end.
Existing Class args_ok.

#[export] Instance args_ok_nil : args_ok PNil := tt.
#[export] Instance args_ok_cons {A As} (c : codec A) (ps : params As)
  `{Hc : !CodecLaws c, Hps : !args_ok ps} : args_ok (PCons c ps) := (Hc, Hps).

Fixpoint enc_args {As} (ps : params As) : args_ok ps → As → list byte :=
  match ps in params As return args_ok ps → As → list byte with
  | PNil => λ _ _, []
  | PCons c ps => λ L a, @enc _ c (fst L) a.1 ++ enc_args ps (snd L) a.2
  end.
Fixpoint valid_args {As} (ps : params As) : args_ok ps → As → Prop :=
  match ps in params As return args_ok ps → As → Prop with
  | PNil => λ _ _, True
  | PCons c ps => λ L a, @c_valid _ c (fst L) a.1 ∧ valid_args ps (snd L) a.2
  end.

(** ** The interface of transports

    A transport [t] on worlds [W] carries calls to the handler [f] of a server
    object when, in a world that is [ok], the handler runs once on the bytes of
    the request and what it wrote comes back with its return value; [app w] is
    the server object in [w], [rets] are the return values that can be carried
    and [after] relates the worlds before and after the call. *)
Class Carries `{Heap} {W S} (t : transport W) (app : W → S) (ok : W → Prop)
    (after : W → W → Prop) (rets : Z → Prop) (f : handler S) : Prop :=
  carries w req l un s' rep ret lr :
    ok w → appends marshall_new req l → mind req ≤ MARSHALL_MAX →
    (∀ u, reads u l → ∃ u', f (app w) u marshall_new = Done (s', u', rep, ret)) →
    appends marshall_new rep lr → mind rep ≤ MARSHALL_MAX → rets ret →
    ∃ w' un', t w req un = Done (w', un', ret) ∧ reads un' lr ∧ app w' = s' ∧ after w w'.

Section facts.
Context `{Heap}.

Lemma put_args_spec {As} (ps : params As) (L : args_ok ps) m a :
  valid_args ps L a → marshall_wf m → mind m + Zlength (enc_args ps L a) ≤ MARSHALL_MAX →
  puts (put_args ps m a) m (enc_args ps L a).
Proof.
  revert m. induction ps as [|A As c ps IH]; intros m Hv Hwf Hmax; simpl in *.
  - by apply puts_Done.
  - destruct L as [Lc Lps], Hv as [Hv1 Hv2]. simpl in *. rewrite length_app in Hmax.
    apply puts_bind; [|intros m' (Hwf'&Hi&Hs)].
    + apply put_enc; [done..|lia].
    + apply IH; [done..|lia].
Qed.

Lemma get_args_spec {As} (ps : params As) (L : args_ok ps) u a l :
  valid_args ps L a → reads u (enc_args ps L a ++ l) →
  get_args ps u = Done (advance u (Zlength (enc_args ps L a)), a).
Proof.
  revert u. induction ps as [|A As c ps IH]; intros u Hv Hr; simpl in *.
  - destruct a. do 2 f_equal. unfold advance. destruct u; unfold set_uind; simpl. f_equal. lia.
  - destruct L as [Lc Lps], a as [a rest], Hv as [Hv1 Hv2]. simpl in *.
    rewrite <-app_assoc in Hr. rewrite (get_enc c u a _ Hv1 Hr). simpl.
    apply reads_advance in Hr. rewrite (IH Lps _ _ Hv2 Hr). simpl.
    rewrite advance_advance, length_app. do 3 f_equal. lia.
Qed.
End facts.

(** ** Theorems *)

Section theorems.
Context `{Heap}.

(** the payload of a fresh buffer with [l] appended *)
Lemma payload_new m l :
  appends marshall_new m l →
  marshall_str m = take 24 (marshall_str m) ++ l ∧ RPC_HEADER_SZ ≤ mind m.
Proof.
  intros (Hwf&Hi&Hs). pose proof (marshall_str_length _ marshall_new_wf) as E.
  change (mind marshall_new) with 24 in *. change RPC_HEADER_SZ with 24.
  split; [|lia]. rewrite Hs at 1 2. by rewrite take_app_length' by lia.
Qed.

(** the request as the handler sees it *)
Lemma request_received m l hd :
  appends marshall_new m l → mind m ≤ MARSHALL_MAX → req_header_ok hd →
  ∃ m' b u, pack_req_header m hd = Done m' ∧
    fst (marshall_take_buf m') = (Some b, mind m) ∧
    unpack_req_header (unmarshall_new b (mind m)) = Done (u, hd) ∧ reads u l.
Proof.
  intros Hm Hmax Hh. destruct (payload_new m l Hm) as [Hs Hi].
  apply req_header_roundtrip; [apply Hm|done|lia|done].
Qed.

(** the whole transport around a handler that succeeds *)
Lemma loopback_spec {S} (f : handler S) hd s m l un s' rep ret lr :
  appends marshall_new m l → mind m ≤ MARSHALL_MAX → req_header_ok hd →
  (∀ u, reads u l → ∃ u', f s u marshall_new = Done (s', u', rep, ret)) →
  appends marshall_new rep lr → mind rep ≤ MARSHALL_MAX → is_s32 ret →
  ∃ u', loopback hd f s m un = Done (s', u', ret) ∧ reads u' lr.
Proof.
  intros Hm Hmax Hh Hf Hrep Hrmax Hret.
  destruct (request_received m l hd Hm Hmax Hh) as (m'&b&u&Hp&Htk&Hu&Hr).
  destruct (payload_new rep lr Hrep) as [Hs Hi].
  assert (reply_header_ok (make_reply_header (rq_xid hd) ret)) as Hro
    by (split; simpl; apply s32_range).
  destruct (reply_header_roundtrip rep (make_reply_header (rq_xid hd) ret) lr)
    as (rep'&br&ur&Hpr&Htkr&Hur&Hrr&Hir); [apply Hrep|done|lia|done|].
  destruct (Hf u Hr) as [u' Hfu].
  exists (take_in un ur).1. split; [|by apply take_in_reads].
  unfold loopback. rewrite Hp. simpl. unfold marshall_take_buf in Htk. simpl in Htk.
  injection Htk as Hb Hsz. rewrite Hb, Hsz. simpl. rewrite Hu. simpl. rewrite Hfu. simpl.
  rewrite Hpr. simpl. unfold marshall_take_buf in Htkr. simpl in Htkr.
  injection Htkr as Hbr Hszr. rewrite Hbr, Hszr. simpl. rewrite Hur. simpl.
  by rewrite s32_small.
Qed.

#[export] Instance loopback_carries {S} hd (f : handler S) :
  req_header_ok hd →
  Carries (loopback hd f) id (λ _, True) (λ _ _, True) is_s32 f.
Proof.
  intros Hh w req l un s' rep ret lr _ Hm Hmax Hf Hrep Hrmax Hret.
  destruct (loopback_spec f hd w req l un s' rep ret lr Hm Hmax Hh Hf Hrep Hrmax Hret)
    as (u'&E&Hr). by exists s', u'.
Qed.

(** ** The client stub and the server stub together *)

Section carried.
Context {W S} (t : transport W) (app : W → S) (ok : W → Prop) (after : W → W → Prop)
  (rets : Z → Prop).

(** the request of the client stub *)
Lemma put_request {As} (ps : params As) (L : args_ok ps) a :
  valid_args ps L a → RPC_HEADER_SZ + Zlength (enc_args ps L a) ≤ MARSHALL_MAX →
  ∃ m, put_args ps marshall_new a = Done m ∧ appends marshall_new m (enc_args ps L a) ∧
    mind m ≤ MARSHALL_MAX.
Proof.
  intros Ha Hmax.
  destruct (put_args_spec ps L marshall_new a Ha marshall_new_wf Hmax) as (m&Hp&Hm).
  exists m. split; [done|]. split; [done|]. destruct Hm as (_&->&_).
  change (mind marshall_new) with RPC_HEADER_SZ. lia.
Qed.

(** both stubs around the method; [r0] is what the client's variable held *)
Lemma call_carried {As R} (ps : params As) (L : args_ok ps) (cr : codec R) `{!CodecLaws cr}
    (meth : method S As R) `{!Carries t app ok after rets (h1_fn ps cr meth)} w a s' r b r0 :
  ok w → valid_args ps L a → RPC_HEADER_SZ + Zlength (enc_args ps L a) ≤ MARSHALL_MAX →
  meth (app w) a (c_init cr) = Done (s', r, b) →
  c_valid cr r → RPC_HEADER_SZ + Zlength (enc cr r) ≤ MARSHALL_MAX → rets b →
  (∀ u, reads u (enc cr r ++ []) → c_get cr u r0 = Done (advance u (Zlength (enc cr r)), r)) →
  ∃ w', call ps cr t w a r0 = Done (w', if decide (b < 0) then r0 else r, b) ∧
    app w' = s' ∧ after w w'.
Proof.
  intros Hok Ha Hmax Hm Hr Hrmax Hb Hget.
  destruct (put_request ps L a Ha Hmax) as (m&Hp&Hreq&Hmm).
  destruct (put_enc cr marshall_new r Hr marshall_new_wf Hrmax) as (rep&Hpr&Hrep).
  destruct (carries (t := t) (f := h1_fn ps cr meth) w m (enc_args ps L a) unmarshall_empty
    s' rep b (enc cr r)) as (w'&u'&Ht&Hu'&Happ&Haft); try done.
  { intros u Hu. rewrite <-(app_nil_r (enc_args ps L a)) in Hu.
    exists (advance u (Zlength (enc_args ps L a))).
    unfold h1_fn. rewrite (get_args_spec ps L u a [] Ha Hu). simpl.
    apply reads_advance in Hu. rewrite (okdone_reads _ _ Hu). simpl. rewrite Hm. simpl.
    by rewrite Hpr. }
  { destruct Hrep as (_&->&_). change (mind marshall_new) with RPC_HEADER_SZ. lia. }
  exists w'. split; [|done].
  unfold call, call_m. rewrite Hp. simpl. rewrite Ht. simpl. case_decide; [done|].
  rewrite <-(app_nil_r (enc cr r)) in Hu'. rewrite (Hget u' Hu'). simpl.
  apply reads_advance in Hu'. by rewrite (okdone_reads _ _ Hu').
Qed.

(** a handler that refuses its arguments *)
Lemma call_refused_by {As R} (pc : params As) (Lc : args_ok pc) (cr : codec R) (f : handler S)
    `{!Carries t app ok after rets f} w a (r : R) :
  ok w → valid_args pc Lc a → RPC_HEADER_SZ + Zlength (enc_args pc Lc a) ≤ MARSHALL_MAX →
  rets unmarshal_args_failure →
  (∀ u, reads u (enc_args pc Lc a) →
     ∃ u', f (app w) u marshall_new = Done (app w, u', marshall_new, unmarshal_args_failure)) →
  ∃ w', call pc cr t w a r = Done (w', r, unmarshal_args_failure) ∧ app w' = app w ∧ after w w'.
Proof.
  intros Hok Ha Hmax Hret Hf. destruct (put_request pc Lc a Ha Hmax) as (m&Hp&Hreq&Hmm).
  destruct (carries (t := t) (f := f) w m (enc_args pc Lc a) unmarshall_empty
    (app w) marshall_new unmarshal_args_failure []) as (w'&u'&Ht&_&Happ&Haft); try done.
  { apply appends_nil, marshall_new_wf. }
  exists w'. split; [|done]. unfold call, call_m. rewrite Hp. simpl. by rewrite Ht.
Qed.
End carried.

Lemma call_loopback_into {S As R} (ps : params As) (L : args_ok ps) (cr : codec R)
    `{!CodecLaws cr} (meth : method S As R) hd s a s' r b r0 :
  valid_args ps L a → RPC_HEADER_SZ + Zlength (enc_args ps L a) ≤ MARSHALL_MAX →
  req_header_ok hd → meth s a (c_init cr) = Done (s', r, b) →
  c_valid cr r → RPC_HEADER_SZ + Zlength (enc cr r) ≤ MARSHALL_MAX → is_s32 b →
  (∀ u, reads u (enc cr r ++ []) → c_get cr u r0 = Done (advance u (Zlength (enc cr r)), r)) →
  call ps cr (loopback hd (h1_fn ps cr meth)) s a r0 =
    Done (s', if decide (b < 0) then r0 else r, b).
Proof.
  intros Ha Hmax Hh Hm Hr Hrmax Hb Hget. pose proof (loopback_carries hd (h1_fn ps cr meth) Hh).
  destruct (call_carried _ id _ _ _ ps L cr meth s a s' r b r0 I Ha Hmax Hm Hr Hrmax Hb Hget)
    as (w'&E&<-&_). done.
Qed.

Lemma call_loopback {S As R} (ps : params As) (L : args_ok ps) (cr : codec R)
    `{!CodecLaws cr} (meth : method S As R) hd s a s' r b :
  valid_args ps L a → RPC_HEADER_SZ + Zlength (enc_args ps L a) ≤ MARSHALL_MAX →
  req_header_ok hd → meth s a (c_init cr) = Done (s', r, b) →
  c_valid cr r → RPC_HEADER_SZ + Zlength (enc cr r) ≤ MARSHALL_MAX → is_s32 b →
  call ps cr (loopback hd (h1_fn ps cr meth)) s a (c_init cr) =
    Done (s', if decide (b < 0) then c_init cr else r, b).
Proof. intros. apply (call_loopback_into ps L cr); try done. intros u Hu. by eapply get_enc. Qed.

Lemma call_refused {S As R} (pc : params As) (Lc : args_ok pc) (cr : codec R) (f : handler S)
    hd s a (r : R) :
  valid_args pc Lc a → RPC_HEADER_SZ + Zlength (enc_args pc Lc a) ≤ MARSHALL_MAX →
  req_header_ok hd →
  (∀ u, reads u (enc_args pc Lc a) →
     ∃ u', f s u marshall_new = Done (s, u', marshall_new, unmarshal_args_failure)) →
  call pc cr (loopback hd f) s a r = Done (s, r, unmarshal_args_failure).
Proof.
  intros Ha Hmax Hh Hf. pose proof (loopback_carries hd f Hh).
  destruct (call_refused_by (loopback hd f) id (λ _, True) (λ _ _, True) is_s32 pc Lc cr f s a r
    I Ha Hmax ltac:(by vm_compute) Hf) as (w'&E&Ew&_). rewrite E. by simpl in Ew; subst.
Qed.

Lemma h1_surplus {S Bs R} (ps : params Bs) (Ls : args_ok ps) (cr : codec R)
    (meth : method S Bs R) s b extra u :
  valid_args ps Ls b → extra ≠ [] → reads u (enc_args ps Ls b ++ extra) →
  h1_fn ps cr meth s u marshall_new =
    Done (s, advance u (Zlength (enc_args ps Ls b)), marshall_new, unmarshal_args_failure).
Proof.
  intros Hb Hx Hu. unfold h1_fn. rewrite (get_args_spec ps Ls u b extra Hb Hu). simpl.
  apply reads_advance in Hu. rewrite (okdone_reads _ _ Hu). by rewrite bool_decide_eq_false_2.
Qed.

(** C23. A call through the two stubs is the method: it runs once, on the arguments
    the client passed, and the client gets its result and return value. *)
Theorem call_is_method {S As R} (ps : params As) (L : args_ok ps) (cr : codec R)
    `{!CodecLaws cr} (meth : method S As R) hd s a s' r b :
  valid_args ps L a → RPC_HEADER_SZ + Zlength (enc_args ps L a) ≤ MARSHALL_MAX →
  req_header_ok hd → meth s a (c_init cr) = Done (s', r, b) →
  c_valid cr r → RPC_HEADER_SZ + Zlength (enc cr r) ≤ MARSHALL_MAX → is_s32 b →
  call ps cr (loopback hd (h1_fn ps cr meth)) s a (c_init cr) =
    Done (s', if decide (b < 0) then c_init cr else r, b).
Proof. apply call_loopback. Qed.

(** A call whose bytes are more than the arguments of the handler is refused
    before the method runs: the server object is unchanged, the client's result
    variable too, and the return value is [unmarshal_args_failure]. *)
Theorem call_surplus_arguments {S As Bs R} (pc : params As) (Lc : args_ok pc)
    (ps : params Bs) (Ls : args_ok ps) (cr : codec R)
    (meth : method S Bs R) hd s a b extra (r : R) :
  valid_args pc Lc a → RPC_HEADER_SZ + Zlength (enc_args pc Lc a) ≤ MARSHALL_MAX →
  req_header_ok hd → valid_args ps Ls b →
  enc_args pc Lc a = enc_args ps Ls b ++ extra → extra ≠ [] →
  call pc cr (loopback hd (h1_fn ps cr meth)) s a r = Done (s, r, unmarshal_args_failure).
Proof.
  intros Ha Hmax Hh Hb He Hx. apply (call_refused pc Lc); [done..|].
  intros u Hu. rewrite He in Hu. eexists. by eapply (h1_surplus ps Ls).
Qed.

End theorems.

(** ** Witnesses *)

#[local] Existing Instance zero_heap.

(** [srv::handle_22] of [rpc/rpctest.cc], the concatenation of two strings; the
    state counts its runs *)
Definition sample_method : method Z (list byte * (list byte * unit)) (list byte) :=
  λ n a r, Done (n + 1, a.1 ++ a.2.1, 0).
Definition sample_params := PCons c_string (PCons c_string PNil).
Definition sample_hd : req_header := make_req_header 1 22 3 4 0.

Lemma sample_hd_ok : req_header_ok sample_hd.
Proof. repeat split; vm_compute; discriminate. Qed.

Lemma call_is_method_witness :
  call sample_params c_string (loopback sample_hd (h1_fn sample_params c_string sample_method))
    6 (be32 65, (be32 7, tt)) [] = Done (7, be32 65 ++ be32 7, 0).
Proof.
  refine (call_is_method sample_params _ c_string sample_method sample_hd 6
    (be32 65, (be32 7, tt)) 7 (be32 65 ++ be32 7) 0 _ _ sample_hd_ok eq_refl _ _ _);
    repeat split; vm_compute; discriminate.
Defined.

(** three strings for the two of [handle_22], as in [simple_tests] *)
Lemma call_surplus_arguments_witness :
  call (PCons c_string sample_params) c_string
    (loopback sample_hd (h1_fn sample_params c_string sample_method))
    6 (be32 65, (be32 7, (be32 8, tt))) [] = Done (6, [], unmarshal_args_failure).
Proof.
  refine (call_surplus_arguments (PCons c_string sample_params) _ sample_params _ c_string
    sample_method sample_hd 6 (be32 65, (be32 7, (be32 8, tt))) (be32 65, (be32 7, tt))
    (be32 4 ++ be32 8) [] _ _ sample_hd_ok _ _ _);
    first [done | repeat split; vm_compute; discriminate].
Defined.
