(* ===== verification/Rpcc.v ===== *)
(** * The RPC client: [class rpcc] of [rpc/rpc.h] and [rpc/rpc.cc]

    The state of a client endpoint, the critical sections of [call1], [got_pdu]
    and [bind], the window of received xids, and the deadline loop of [call1].
    A critical section (the body of a [ScopedLock] on [m_] or [chan_m_]) is one
    definition; [call1] is their composition, with the effects of other threads
    during its waits as an input. *)

From S2P Require Import Prelude Marshall Codec Timespec Connection Stubs.

(** ** State *)

(** [struct caller]; its [xid] is its key in [calls_] *)
Record caller := Caller { ca_un : unmarshall; ca_intret : Z; ca_done : bool }.

Record rpcc := Rpcc {
  clt_nonce : Z; srv_nonce : Z; bind_done : bool; xid_ : Z; lossytest : Z; retrans : bool;
  chan : option Z; calls : gmap Z caller; xid_rep_window : list Z }.

Definition set_bound (c : rpcc) (n : Z) : rpcc :=
  {| clt_nonce := clt_nonce c; srv_nonce := n; bind_done := true; xid_ := xid_ c;
     lossytest := lossytest c; retrans := retrans c; chan := chan c; calls := calls c;
     xid_rep_window := xid_rep_window c |}.
Definition set_xid (c : rpcc) (x : Z) : rpcc :=
  {| clt_nonce := clt_nonce c; srv_nonce := srv_nonce c; bind_done := bind_done c; xid_ := x;
     lossytest := lossytest c; retrans := retrans c; chan := chan c; calls := calls c;
     xid_rep_window := xid_rep_window c |}.
Definition set_chan (c : rpcc) (p : option Z) : rpcc :=
  {| clt_nonce := clt_nonce c; srv_nonce := srv_nonce c; bind_done := bind_done c;
     xid_ := xid_ c; lossytest := lossytest c; retrans := retrans c; chan := p;
     calls := calls c; xid_rep_window := xid_rep_window c |}.
Definition set_calls (c : rpcc) (m : gmap Z caller) : rpcc :=
  {| clt_nonce := clt_nonce c; srv_nonce := srv_nonce c; bind_done := bind_done c;
     xid_ := xid_ c; lossytest := lossytest c; retrans := retrans c; chan := chan c;
     calls := m; xid_rep_window := xid_rep_window c |}.
Definition set_window (c : rpcc) (w : list Z) : rpcc :=
  {| clt_nonce := clt_nonce c; srv_nonce := srv_nonce c; bind_done := bind_done c;
     xid_ := xid_ c; lossytest := lossytest c; retrans := retrans c; chan := chan c;
     calls := calls c; xid_rep_window := w |}.

(** the constructor; [rnd] is what [random()] returns, [loss] the value of
    [RPC_LOSSY] (0 when it is unset) *)
Definition rpcc_new (with_retrans : bool) (rnd loss : Z) : rpcc :=
  {| clt_nonce := if with_retrans then u32 rnd else 0; srv_nonce := 0; bind_done := false;
     xid_ := 1; lossytest := loss; retrans := with_retrans; chan := None; calls := ∅;
     xid_rep_window := [0] |}.

(** the destructor *)
Definition rpcc_delete (c : rpcc) (s : conn_store) : outcome conn_store :=
  let! s := match chan c with
            | Some p => let! '(s, _) := closeconn s p in decref s p
            | None => Done s
            end in
  check! bool_decide (size (calls c) = 0%nat) in
  Done s.

(** ** The window of received xids *)

(** insertion before the first larger element *)
Fixpoint insert_xid (xid : Z) (w : list Z) : list Z :=
  match w with
  | [] => [xid]
  | y :: w' => if decide (xid < y) then xid :: w else y :: insert_xid xid w'
  end.

(** [while (front() + 1 == *it) pop_front();], the list in front of [it] being [l] *)
Fixpoint pop_while (v : Z) (l : list Z) : list Z :=
  match l with
  | [] => []
  | f :: l' => if decide (u32 (f + 1) = v) then pop_while v l' else l
  end.

(** the loop at [compress:]; [l] is in front of the iterator, [rest] starts at it *)
Fixpoint compress (l rest : list Z) : list Z :=
  match rest with
  | [] => l
  | v :: rest => compress (pop_while v l ++ [v]) rest
  end.

Definition update_window (w : list Z) (xid : Z) : outcome (list Z) :=
  match w with
  | [] => Fault OutOfBounds
  | front :: _ =>
      if decide (xid ≤ front) then Done w
      else match insert_xid xid w with
           | [] => Fault OutOfBounds
           | f :: rest => Done (compress [f] rest)
           end
  end.

Definition update_xid_rep (c : rpcc) (xid : Z) : outcome rpcc :=
  let! w := update_window (xid_rep_window c) xid in Done (set_window c w).

(** ** Calls *)

Definition to_max : Z := 120000.
Definition to_min : Z := 1000.

(** What [connect] and [new] answer: a failure, or the address of a new object
    and its descriptor. *)
Abbreviation connector := (conn_store → option (Z * Z)).

Section rpcc.
Context `{Heap}.

(** the first critical section of [call1]: a refusal, or the call's xid and the
    buffer with the request header *)
Definition call1_enter (c : rpcc) (proc : Z) (req : marshall)
    : outcome (rpcc * (Z + Z * marshall)) :=
  if (bool_decide (proc ≠ rpc_bind) && negb (bind_done c)) ||
     (bool_decide (proc = rpc_bind) && bind_done c)
  then Done (c, inl bind_failure)
  else
    let xid := xid_ c in
    let c := set_xid c (u32 (xid + 1)) in
    let ca := {| ca_un := unmarshall_empty; ca_intret := s32 stale; ca_done := false |} in
    let c := set_calls c (<[s32 xid := ca]> (calls c)) in
    match xid_rep_window c with
    | [] => Fault OutOfBounds
    | front :: _ =>
        let! req := pack_req_header req
          (make_req_header xid proc (clt_nonce c) (srv_nonce c) front) in
        Done (c, inr (xid, req))
    end.

(** the last critical section, and the value of the call *)
Definition call1_leave (c : rpcc) (xid : Z) : outcome (rpcc * unmarshall * Z) :=
  match calls c !! s32 xid with
  | None => Fault UseAfterFree
  | Some ca =>
      let c := set_calls c (delete (s32 xid) (calls c)) in
      let! c := update_xid_rep c xid in
      Done (c, ca_un ca, if ca_done ca then ca_intret ca else timeout_failure)
  end.

(** [got_pdu]: the upcall for a reply *)
Definition rpcc_got_pdu (c : rpcc) (b : list byte) (sz : Z) : outcome (rpcc * bool) :=
  let rep := unmarshall_new b sz in
  let! '(rep, h) := unpack_reply_header rep in
  if negb (uok rep) then Done (c, true)
  else
    let! c := update_xid_rep c (u32 (rp_xid h)) in
    match calls c !! rp_xid h with
    | None => Done (c, true)
    | Some ca =>
        if ca_done ca then Done (c, true)
        else
          let '(un, _) := take_in (ca_un ca) rep in
          let ca := {| ca_un := un; ca_intret := rp_ret h; ca_done := true |} in
          Done (set_calls c (<[rp_xid h := ca]> (calls c)), true)
    end.

(** ** Connections *)

Definition connect_to_dst (s : conn_store) (answer : connector) (loss : Z)
    : conn_store * option Z :=
  match answer s with
  | None => (s, None)
  | Some (p, fd) => (<[p := connection_new fd loss]> s, Some p)
  end.

Definition get_refconn (c : rpcc) (s : conn_store) (ch : option Z) (answer : connector)
    : outcome (rpcc * conn_store * option Z) :=
  let! '(c, s) :=
    match chan c with
    | None =>
        let '(s, p) := connect_to_dst s answer (lossytest c) in Done (set_chan c p, s)
    | Some p =>
        let! dead := isdead s p in
        if dead : bool then
          let! s := decref s p in
          let '(s, p) := connect_to_dst s answer (lossytest c) in Done (set_chan c p, s)
        else Done (c, s)
    end in
  match chan c with
  | None => Done (c, s, ch)
  | Some p =>
      let! s := match ch with Some q => decref s q | None => Done s end in
      let! s := incref s p in
      Done (c, s, Some p)
  end.

(** ** The loop of [call1] *)

(** its local variables *)
Record loop_st := LoopSt {
  lp_ch : option Z; lp_transmit : bool; lp_final : timespec; lp_to : Z }.

(** [nextdeadline] and the new [finaldeadline] *)
Definition next_deadline (final : timespec) (curr : Z) (now : timespec)
    : outcome (timespec * timespec) :=
  let! next := add_timespec now curr in
  if decide (0 < cmp_timespec next final)
  then Done (final, {| tv_sec := 0; tv_nsec := tv_nsec final |})
  else Done (next, final).

(** [curr_to.to <<= 1] *)
Definition double_to (curr : Z) : Z := s32 (Z.shiftl curr 1).

(** What one turn of the loop meets: the answer to [connect], the clock, and what
    other threads do to the client and its connections until the wait ends
    (with [done] set, or by the deadline). *)
Record tick := Tick {
  tk_answer : connector; tk_now : timespec;
  tk_world : rpcc * conn_store → rpcc * conn_store }.

(** [ca.done] *)
Definition call_done (c : rpcc) (xid : Z) : outcome bool :=
  match calls c !! s32 xid with Some ca => Done (ca_done ca) | None => Fault UseAfterFree end.

(** the head of the loop body: send, once per channel *)
Definition call1_transmit (w : rpcc * conn_store) (st : loop_st) (answer : connector)
    : outcome ((rpcc * conn_store) * loop_st * list Z) :=
  if lp_transmit st then
    let! '(c, s, ch) := get_refconn w.1 w.2 (lp_ch st) answer in
    Done ((c, s), {| lp_ch := ch; lp_transmit := false; lp_final := lp_final st;
                     lp_to := lp_to st |}, option_list ch)
  else Done (w, st, []).

(** the tail: retransmit on a new connection when the old one is dead *)
Definition call1_again (w : rpcc * conn_store) (st : loop_st) : outcome loop_st :=
  let! dead := match lp_ch st with None => Done true | Some p => isdead w.2 p end in
  Done {| lp_ch := lp_ch st; lp_transmit := lp_transmit st || (retrans w.1 && dead);
          lp_final := lp_final st; lp_to := double_to (lp_to st) |}.

(** The loop: [Some] of the state in which it ends and the connections the
    request was sent on, [None] when the ticks run out before. *)
Fixpoint call1_loop (xid : Z) (w : rpcc * conn_store) (st : loop_st) (ticks : list tick)
    : outcome (option ((rpcc * conn_store) * loop_st) * list Z) :=
  match ticks with
  | [] => Done (None, [])
  | t :: ticks =>
      let! '(w, st, sent) := call1_transmit w st (tk_answer t) in
      if decide (tv_sec (lp_final st) = 0) then Done (Some (w, st), sent)
      else
        let! '(_, final) := next_deadline (lp_final st) (lp_to st) (tk_now t) in
        let st := {| lp_ch := lp_ch st; lp_transmit := lp_transmit st; lp_final := final;
                     lp_to := lp_to st |} in
        let w := tk_world t w in
        let! done := call_done w.1 xid in
        if done : bool then Done (Some (w, st), sent)
        else
          let! st := call1_again w st in
          let! '(r, sent') := call1_loop xid w st ticks in
          Done (r, sent ++ sent')
  end.

(** after the loop: unregister the call and give the connection back *)
Definition call1_end (xid : Z) (r : option ((rpcc * conn_store) * loop_st)) (sent : list Z)
    : outcome (option ((rpcc * conn_store) * unmarshall * Z) * list Z) :=
  match r with
  | None => Done (None, sent)
  | Some (w, st) =>
      let! '(c, un, ret) := call1_leave w.1 xid in
      let! s := match lp_ch st with Some p => decref w.2 p | None => Done w.2 end in
      Done (Some ((c, s), un, ret), sent)
  end.

(** the whole of [call1]: [None] while it is waiting *)
Definition call1 (w : rpcc * conn_store) (proc : Z) (req : marshall) (to : Z)
    (start : timespec) (ticks : list tick)
    : outcome (option ((rpcc * conn_store) * unmarshall * Z) * list Z) :=
  let! '(c, r) := call1_enter w.1 proc req in
  match r with
  | inl e => Done (Some ((c, w.2), unmarshall_empty, e), [])
  | inr (xid, _) =>
      let! final := add_timespec start to in
      let st := {| lp_ch := None; lp_transmit := true; lp_final := final; lp_to := to_min |} in
      let! '(r, sent) := call1_loop xid (c, w.2) st ticks in
      call1_end xid r sent
  end.

(** [bind]: [call1] with the procedure number [rpc_bind] is a parameter *)
Definition rpcc_bind_to {E} (call1 : transport (rpcc * E)) (w : rpcc * E)
    : outcome ((rpcc * E) * Z) :=
  let! '(w, r, ret) := call (PCons c_int PNil) c_int call1 w (0, tt) (s32 stale) in
  if decide (ret = 0) then Done ((set_bound w.1 (u32 r), w.2), ret)
  else Done (w, ret).

End rpcc.

(** ** Facts: the window *)

(** [w] stands for the set [R] of received xids: everything up to the front, and
    the rest one by one, with a gap after the front.  An xid that is reported
    twice may be listed twice. *)
Definition gap (f v : Z) : Prop := v = f ∨ f + 1 < v.

Definition window_of (R : gset Z) (w : list Z) : Prop :=
  ∃ f t, w = f :: t ∧ StronglySorted Z.le w ∧ Forall (gap f) t ∧
    0 ≤ f ∧ Forall is_u32 w ∧ ∀ r, 0 ≤ r → (r ∈ R ↔ r ≤ f ∨ r ∈ t).

Lemma insert_xid_elem x w r : r ∈ insert_xid x w ↔ r = x ∨ r ∈ w.
Proof.
  induction w as [|y w IH]; simpl; [set_solver|]. case_decide; [set_solver|].
  rewrite elem_of_cons, IH. set_solver.
Qed.

Lemma insert_xid_Forall (P : Z → Prop) x w :
  P x → Forall P w → Forall P (insert_xid x w).
Proof.
  intros Hx Hw. apply Forall_forall. intros z [->|Hz]%insert_xid_elem; [done|].
  by eapply Forall_forall in Hw.
Qed.

Lemma insert_xid_sorted x w : StronglySorted Z.le w → StronglySorted Z.le (insert_xid x w).
Proof.
  induction 1 as [|y w Hs IH Hy]; simpl; [repeat constructor|]. case_decide.
  - constructor; [by constructor|]. constructor; [lia|].
    eapply Forall_impl; [done|]. simpl. lia.
  - constructor; [done|]. apply insert_xid_Forall; [lia|done].
Qed.

(** popping in front of [v] empties the list when [v] is the successor of the
    front, and does nothing otherwise *)
Lemma pop_while_spec f t v :
  Forall (λ y, y ≤ v) (f :: t) → Forall (gap f) t → is_u32 v → 0 ≤ f →
  pop_while v (f :: t) = if decide (v = f + 1) then [] else f :: t.
Proof.
  intros Hle Hg Hv Hf. apply Forall_cons in Hle as [Hfv Hle].
  destruct (decide (f = v)) as [->|Hne].
  { simpl. rewrite !decide_False by (lia_ints). done. }
  assert (u32 (f + 1) = f + 1) as Hw by (apply u32_small; lia_ints).
  case_decide as Hd; [|simpl; rewrite decide_False by (rewrite Hw; lia); done].
  assert (Forall (eq f) t) as Ht.
  { apply Forall_forall. intros y Hy. eapply Forall_forall in Hg as [?|?], Hle; try done.
    lia. }
  simpl. rewrite Hw, decide_True by done. clear Hg Hle. induction Ht as [|y t <- _ IH]; [done|].
  simpl. by rewrite Hw, decide_True.
Qed.

Lemma compress_spec rest f t :
  StronglySorted Z.le ((f :: t) ++ rest) → Forall (gap f) t → 0 ≤ f →
  Forall is_u32 ((f :: t) ++ rest) →
  ∃ f' t', compress (f :: t) rest = f' :: t' ∧ StronglySorted Z.le (f' :: t') ∧
    Forall (gap f') t' ∧ f ≤ f' ∧ Forall is_u32 (f' :: t') ∧
    ∀ r, (r ≤ f' ∨ r ∈ t') ↔ (r ≤ f ∨ r ∈ t ∨ r ∈ rest).
Proof.
  revert f t. induction rest as [|v rest IH]; intros f t Hs Hg Hf Hu.
  { rewrite app_nil_r in Hs, Hu. exists f, t. simpl. split_and!; try done.
    intros r. set_solver. }
  pose proof Hu as [Hu1 [Hv Hu2]%Forall_cons]%Forall_app.
  apply StronglySorted_app in Hs as (Hsep&Hs1&Hs2).
  assert (Forall (λ y, y ≤ v) (f :: t)) as Hle.
  { apply Forall_forall. intros y Hy. apply Hsep; set_solver. }
  assert (f ≤ v) as Hfv by (by apply Forall_cons in Hle as [? _]).
  cbn [compress]. rewrite pop_while_spec by done. case_decide as Hd.
  - destruct (IH v []) as (f'&t'&E&?&?&?&?&Hr); [done|done|lia|by constructor|].
    simpl app. rewrite E. exists f', t'. split_and!; try done; [lia|].
    assert (∀ y, y ∈ t → y ≤ f) as Ht.
    { intros y Hy. eapply Forall_forall in Hg as [->|?]; [lia| |done].
      eapply (Forall_forall _ (f :: t)) in Hle; [|by apply elem_of_cons; right]. lia. }
    intros r. rewrite Hr, elem_of_cons, elem_of_nil. split.
    + intros [?|[[]|?]]; [|tauto]. destruct (decide (r = v)); [tauto|]. left. lia.
    + intros [?|[Hin%Ht|[->|?]]]; [left; lia..|tauto].
  - simpl app. destruct (IH f (t ++ [v])) as (f'&t'&E&?&?&?&?&Hr); try done.
    { rewrite app_comm_cons, <-app_assoc. apply StronglySorted_app. split_and!; try done. }
    { apply Forall_app. split; [done|]. constructor; [|done]. unfold gap. lia. }
    { by rewrite app_comm_cons, <-app_assoc. }
    exists f', t'. split_and!; try done. intros r. rewrite Hr. set_solver.
Qed.

(** [update_xid_rep] adds one xid to the set that the window stands for. *)
Lemma update_window_spec R w xid :
  window_of R w → is_u32 xid →
  ∃ w', update_window w xid = Done w' ∧ window_of ({[xid]} ∪ R) w'.
Proof.
  intros (f&t&->&Hs&Hg&Hf&Hu&HR) Hx. simpl. case_decide as Hle.
  { eexists. split; [done|]. exists f, t. split_and!; try done.
    intros r Hr. rewrite elem_of_union, elem_of_singleton, HR by done.
    split; [|tauto]. intros [->|?]; [by left|done]. }
  rewrite decide_False by lia.
  apply StronglySorted_inv in Hs as [Hs Hft]. apply Forall_cons in Hu as [Huf Hut].
  destruct (compress_spec (insert_xid xid t) f []) as (f'&t'&E&?&?&?&?&Hr); simpl; try done.
  - constructor; [by apply insert_xid_sorted|]. apply insert_xid_Forall; [lia|done].
  - constructor; [done|]. by apply insert_xid_Forall.
  - eexists. split; [by rewrite E|]. exists f', t'. split_and!; try done; [lia|].
    intros r Hr0. rewrite Hr, elem_of_union, elem_of_singleton, HR by done.
    rewrite insert_xid_elem. set_solver.
Qed.

Lemma window_of_new : window_of {[0]} [0].
Proof.
  exists 0, []. split_and!; [done|apply SSorted_cons; constructor|constructor|lia|by repeat constructor|].
  intros r Hr. rewrite elem_of_singleton, elem_of_nil. lia.
Qed.

(** ** Facts: connections *)

(** What a thread inside [call1] relies on: its call is registered, the window
    is one, and its own connection and the client's are counted references ([others] are the
    references of other threads, among them those inside [send]). *)
Definition world_ok (xid : Z) (ch : option Z) (w : rpcc * conn_store) : Prop :=
  is_Some (calls w.1 !! s32 xid) ∧ (∃ R, window_of R (xid_rep_window w.1)) ∧
  ∃ others, conns_ok w.2 (option_list ch ++ option_list (chan w.1) ++ others) others.

(** memory is allocated where no object lives *)
Definition fresh_answer (answer : connector) : Prop :=
  ∀ s p fd, answer s = Some (p, fd) → s !! p = None.

Section rpcc_facts.
Context `{Heap}.

Lemma connect_ok c s answer refs m :
  conns_ok s refs m → fresh_answer answer →
  ∃ s' p, connect_to_dst s answer (lossytest c) = (s', p) ∧
    conns_ok s' (option_list p ++ refs) m.
Proof.
  intros Hok Hf. unfold connect_to_dst. destruct (answer s) as [[p fd]|] eqn:E; simpl.
  - eexists _, (Some p). split; [done|]. apply conns_ok_new; [done|]. by eapply Hf.
  - by exists s, None.
Qed.

(** the first half of [get_refconn]: the client's channel *)
Lemma reconnect_ok c s answer refs m :
  conns_ok s (option_list (chan c) ++ refs) m → (∀ q, q ∈ m → q ∈ refs) → fresh_answer answer →
  ∃ c' s', match chan c with
    | None => let '(s, p) := connect_to_dst s answer (lossytest c) in Done (set_chan c p, s)
    | Some p => let! dead := isdead s p in
        if dead : bool then
          let! s := decref s p in
          let '(s, p) := connect_to_dst s answer (lossytest c) in Done (set_chan c p, s)
        else Done (c, s)
    end = Done (c', s') ∧
    c' = set_chan c (chan c') ∧ conns_ok s' (option_list (chan c') ++ refs) m.
Proof.
  intros Hok Hm Hf. destruct (chan c) as [p|] eqn:Hch; simpl in Hok.
  - destruct (conns_ok_deref s p _ _ Hok) as (cp&Hd&Hcp); [set_solver|].
    unfold isdead. rewrite Hd. simpl. destruct (cn_dead cp).
    + destruct (conns_ok_decref s p _ _ Hok Hm) as (s0&->&Hok0). simpl.
      destruct (connect_ok c s0 answer _ _ Hok0 Hf) as (s1&q&->&Hok1).
      by eexists _, s1.
    + exists c, s. split; [done|]. split; [by destruct c|]. by rewrite Hch.
  - destruct (connect_ok c s answer _ _ Hok Hf) as (s1&q&->&Hok1). by eexists _, s1.
Qed.

(** [get_refconn] gives the caller a reference of its own to the client's
    channel and loses no other reference. *)
Lemma get_refconn_ok xid c s ch answer :
  world_ok xid ch (c, s) → fresh_answer answer →
  ∃ c' s' ch', get_refconn c s ch answer = Done (c', s', ch') ∧
    world_ok xid ch' (c', s') ∧ c' = set_chan c (chan c') ∧
    ch' = match chan c' with Some p => Some p | None => ch end.
Proof.
  intros (Hc&Hw&others&Hok) Hf. simpl in Hc, Hw, Hok. unfold get_refconn.
  eapply conns_ok_perm in Hok; [|apply Permutation_app_swap_app].
  destruct (reconnect_ok c s answer _ _ Hok) as (c1&s1&->&Hc1&Hok1); [set_solver|done|].
  simpl. destruct (chan c1) as [p|] eqn:Hp.
  - assert (∃ s2, match ch with Some q => decref s1 q | None => Done s1 end = Done s2 ∧
      conns_ok s2 (p :: others) others) as (s2&->&Hok2).
    { destruct ch as [q|]; simpl in Hok1; [|by exists s1].
      apply conns_ok_decref; [|set_solver]. eapply conns_ok_perm; [|exact Hok1]. constructor. }
    simpl. destruct (conns_ok_incref s2 p _ _ Hok2) as (s3&->&Hok3); [set_solver|]. simpl.
    eexists c1, s3, (Some p). rewrite Hp. split; [done|]. split; [|done].
    split; [by rewrite Hc1|]. split; [by rewrite Hc1|]. exists others. simpl. by rewrite Hp.
  - eexists c1, s1, ch. rewrite Hp. split; [done|]. split; [|done].
    split; [by rewrite Hc1|]. split; [by rewrite Hc1|]. exists others. simpl. by rewrite Hp.
Qed.

(** ** Facts: the deadline loop *)

(** The answer of [connect] is a new object, and what other threads do during a
    wait keeps what this thread relies on ([retrans_] is never assigned). *)
Definition tick_ok (t : tick) : Prop :=
  fresh_answer (tk_answer t) ∧
  (∀ xid ch w, world_ok xid ch w → world_ok xid ch (tk_world t w)) ∧
  ∀ w, retrans (tk_world t w).1 = retrans w.1.

(** The clock readings when no wait before is answered: a wait lasts until its
    deadline at least. *)
Fixpoint honest (final : timespec) (curr t : Z) (nows : list timespec) : Prop :=
  match nows with
  | [] => True
  | now :: nows =>
      normal now ∧ t ≤ nanos now ∧
      ∀ next final', next_deadline final curr now = Done (next, final') →
        honest final' (double_to curr) (nanos next) nows
  end.

Lemma cmp_timespec_pos a b :
  0 ≤ tv_nsec a ≤ 1000000000 → 0 ≤ tv_nsec b ≤ 1000000000 →
  nanos b < nanos a → 0 < cmp_timespec a b.
Proof. unfold nanos, cmp_timespec. intros. repeat case_decide; lia. Qed.

(** one deadline: the final one, after which the loop ends, or a later one *)
Lemma next_deadline_spec final curr t now :
  normal now → t ≤ nanos now → 0 ≤ curr → 0 ≤ tv_nsec final ≤ 1000000000 →
  ∃ next final', next_deadline final curr now = Done (next, final') ∧
    0 ≤ tv_nsec final' ≤ 1000000000 ∧
    ((tv_sec final' = 0 ∧ next = final) ∨
     (final' = final ∧ t + curr * 1000000 ≤ nanos next ≤ nanos final)).
Proof.
  intros Hn Ht Hc Hf. unfold next_deadline.
  destruct (add_timespec_spec now curr Hn Hc) as (next&->&Hnx&Hns). simpl.
  case_decide as Hcmp; eexists _, _; (split; [done|]); (split; [done|]).
  - by left.
  - right. split; [done|]. split; [lia|].
    destruct (decide (nanos final < nanos next)) as [Hlt|]; [|lia].
    by apply cmp_timespec_pos in Hlt.
Qed.

Lemma double_to_small curr : 0 ≤ curr → curr * 2 ≤ INT_MAX → double_to curr = curr * 2.
Proof.
  intros H0 H1. unfold double_to. rewrite Z.shiftl_mul_pow2 by lia.
  apply s32_small. unfold is_s32, INT_MIN. lia.
Qed.

(** one turn up to the deadline *)
Lemma transmit_ok xid w st answer :
  world_ok xid (lp_ch st) w → fresh_answer answer →
  ∃ w' ch sent, call1_transmit w st answer =
      Done (w', {| lp_ch := ch; lp_transmit := false; lp_final := lp_final st;
                   lp_to := lp_to st |}, sent) ∧
    world_ok xid ch w' ∧ retrans w'.1 = retrans w.1 ∧
    (length sent ≤ if lp_transmit st then 1 else 0)%nat.
Proof.
  intros Hw Hf. unfold call1_transmit. destruct (lp_transmit st) eqn:Ht.
  - destruct w as [c s]. cbn [fst snd]. destruct (get_refconn_ok xid c s _ answer Hw Hf)
      as (c'&s'&ch'&->&Hw'&Hc'&_). simpl.
    eexists _, _, _. split; [done|]. split; [done|]. split; [by rewrite Hc'|].
    by destruct ch'; simpl; lia.
  - eexists w, (lp_ch st), []. split; [by destruct st; simpl in *; subst|]. done.
Qed.

Lemma again_ok xid w st :
  world_ok xid (lp_ch st) w →
  ∃ b, call1_again w st = Done {| lp_ch := lp_ch st; lp_transmit := b; lp_final := lp_final st;
    lp_to := double_to (lp_to st) |} ∧
  (retrans w.1 = false → b = lp_transmit st).
Proof.
  intros (_&_&others&Hok). unfold call1_again. destruct (lp_ch st) as [p|] eqn:Hch; simpl.
  - destruct (conns_ok_deref _ p _ _ Hok) as (c&Hd&_); [set_solver|].
    unfold isdead. rewrite Hd. simpl. eexists. split; [done|]. intros ->. apply orb_false_r.
  - eexists. split; [done|]. intros ->. apply orb_false_r.
Qed.

Lemma call_done_ok xid ch w : world_ok xid ch w → is_done (call_done w.1 xid).
Proof. intros ([ca Hca]&_). unfold call_done. rewrite Hca. by eexists. Qed.

(** What a finished run of the loop guarantees. *)
Definition loop_result (xid : Z) (w : rpcc * conn_store) (st : loop_st)
    (o : outcome (option ((rpcc * conn_store) * loop_st) * list Z)) : Prop :=
  ∃ w' st' sent, o = Done (Some (w', st'), sent) ∧ world_ok xid (lp_ch st') w' ∧
    (retrans w.1 = false → (length sent ≤ if lp_transmit st then 1 else 0)%nat).

(** the turn after the final deadline was chosen *)
Lemma loop_last xid w st t ticks :
  world_ok xid (lp_ch st) w → tick_ok t → tv_sec (lp_final st) = 0 →
  loop_result xid w st (call1_loop xid w st (t :: ticks)).
Proof.
  intros Hw (Hf&_) Hz. simpl.
  destruct (transmit_ok xid w st (tk_answer t) Hw Hf) as (w1&ch&sent&->&Hw1&_&Hs). simpl.
  rewrite decide_True by done. eexists w1, _, sent. split; [done|]. by split.
Qed.

(** one turn in front of the others *)
Lemma loop_turn xid w st t ticks next final' :
  world_ok xid (lp_ch st) w → tick_ok t → tv_sec (lp_final st) ≠ 0 →
  next_deadline (lp_final st) (lp_to st) (tk_now t) = Done (next, final') →
  (∀ w st', world_ok xid (lp_ch st') w → lp_final st' = final' →
     lp_to st' = double_to (lp_to st) → loop_result xid w st' (call1_loop xid w st' ticks)) →
  loop_result xid w st (call1_loop xid w st (t :: ticks)).
Proof.
  intros Hw (Hf&Ht&Htr) Hz Hnd IH. simpl.
  destruct (transmit_ok xid w st (tk_answer t) Hw Hf) as (w1&ch&sent&->&Hw1&Hr1&Hs). simpl.
  rewrite decide_False, Hnd by done. simpl. apply (Ht xid ch) in Hw1.
  destruct (call_done_ok _ _ _ Hw1) as [d ->]. simpl. destruct d.
  { eexists _, _, sent. split; [done|]. by split. }
  set (st1 := {| lp_ch := ch; lp_transmit := false; lp_final := final'; lp_to := lp_to st |}).
  destruct (again_ok xid (tk_world t w1) st1 Hw1) as (b&->&Hb). simpl.
  destruct (IH (tk_world t w1) {| lp_ch := ch; lp_transmit := b; lp_final := final';
    lp_to := double_to (lp_to st) |}) as (w2&st2&sent2&->&Hw2&Hs2); [done..|]. simpl.
  eexists w2, st2, _. split; [done|]. split; [done|]. intros Hr. rewrite length_app.
  rewrite Htr, Hr1 in Hs2, Hb. specialize (Hb Hr). subst b. simpl in Hs2.
  specialize (Hs2 Hr). lia.
Qed.

Lemma loop_ends xid n : ∀ ticks w st t,
  world_ok xid (lp_ch st) w → Forall tick_ok ticks →
  honest (lp_final st) (lp_to st) t (tk_now <$> ticks) →
  0 ≤ tv_nsec (lp_final st) ≤ 1000000000 → 0 < lp_to st →
  lp_to st * 2 ^ Z.of_nat n ≤ INT_MAX →
  nanos (lp_final st) - t < lp_to st * (2 ^ (Z.of_nat n + 1) - 1) * 1000000 →
  (n + 2 ≤ length ticks)%nat →
  loop_result xid w st (call1_loop xid w st ticks).
Proof.
  induction n as [|n IH]; intros ticks w st t Hw Htk Hh Hf H0 Hmax Ht Hlen;
    (destruct ticks as [|t1 ticks]; [simpl in Hlen; lia|]);
    apply Forall_cons in Htk as [Ht1 Htk]; destruct Hh as (Hn&Htn&Hh);
    (destruct (decide (tv_sec (lp_final st) = 0)); [by apply loop_last|]);
    destruct (next_deadline_spec (lp_final st) (lp_to st) t (tk_now t1))
      as (next&final'&Hnd&Hf'&Hcase); [done|done|lia|done| |done|done|lia|done|];
    apply (loop_turn xid w st t1 ticks next final'); try done; intros w' st' Hw' Hfin Hto.
  - destruct Hcase as [[Hz _]|[_ Hge]]; [|change (2 ^ (Z.of_nat 0 + 1)) with 2 in Ht; lia].
    destruct ticks as [|t2 ticks]; [simpl in Hlen; lia|].
    apply Forall_cons in Htk as [Ht2 _]. apply loop_last; [done|done|congruence].
  - destruct Hcase as [[Hz _]|[Heq Hge]].
    { destruct ticks as [|t2 ticks]; [simpl in Hlen; lia|].
      apply Forall_cons in Htk as [Ht2 _]. apply loop_last; [done|done|congruence]. }
    rewrite Nat2Z.inj_succ in *. rewrite Z.pow_succ_r in Hmax by lia.
    replace (Z.succ (Z.of_nat n) + 1) with (Z.succ (Z.of_nat n + 1)) in Ht by lia.
    rewrite (Z.pow_succ_r 2 (Z.of_nat n + 1)) in Ht by lia.
    assert (1 ≤ 2 ^ Z.of_nat n) as HP by (pose proof (Z.pow_pos_nonneg 2 (Z.of_nat n)); lia).
    assert (lp_to st * 2 ≤ INT_MAX) as H2.
    { pose proof (Z.mul_le_mono_nonneg_l 1 (2 ^ Z.of_nat n) (lp_to st * 2)). lia. }
    rewrite double_to_small in Hto by lia.
    apply (IH ticks w' st' (nanos next)); try done; try (rewrite Hto; lia).
    + rewrite Hfin, Hto, <-(double_to_small (lp_to st)) by lia. by apply Hh.
    + by rewrite Hfin.
    + rewrite Hfin, Heq, Hto. lia.
    + simpl in Hlen. lia.
Qed.
(** a client that is refused every connection and whom nobody disturbs *)
Definition refused_tick (now : timespec) : tick :=
  {| tk_answer := λ _, None; tk_now := now; tk_world := λ w, w |}.

Lemma refused_tick_ok now : tick_ok (refused_tick now).
Proof. by split_and!. Qed.

(** it sends nothing, and the loop leaves the client as it was *)
Lemma loop_refused xid nows : ∀ c s st o,
  chan c = None → lp_ch st = None → is_Some (calls c !! s32 xid) →
  call1_loop xid (c, s) st (refused_tick <$> nows) = Done o →
  o.2 = [] ∧ ∀ w' st', o.1 = Some (w', st') → w' = (c, s) ∧ lp_ch st' = None.
Proof.
  induction nows as [|now nows IH]; intros c s st o Hc Hst [ca Hca] E.
  { simpl in E. injection E as <-. done. }
  assert (set_chan c None = c) as Hset by (destruct c; simpl in *; by subst).
  assert (∃ st1, call1_transmit (c, s) st (λ _, None) = Done ((c, s), st1, []) ∧
    lp_ch st1 = None ∧ lp_final st1 = lp_final st ∧ lp_to st1 = lp_to st) as (st1&Et&H1&Hf&Hto).
  { unfold call1_transmit, get_refconn, connect_to_dst. destruct (lp_transmit st); [|by exists st].
    cbn [fst snd]. rewrite Hc. cbn [obind]. rewrite Hset, Hc, Hst. by eexists. }
  cbn [fmap list_fmap call1_loop refused_tick tk_answer tk_now tk_world] in E.
  rewrite Et in E. cbn [obind] in E. case_decide.
  { injection E as <-. split; [done|]. by intros ? ? [= <- <-]. }
  apply obind_Done_inv in E as ([next final]&En&E).
  unfold call_done in E. cbn [fst] in E. rewrite Hca in E. cbn [obind] in E.
  destruct (ca_done ca).
  { injection E as <-. split; [done|]. by intros ? ? [= <- <-]. }
  unfold call1_again in E. cbn [lp_ch lp_transmit lp_final lp_to] in E. rewrite H1 in E.
  cbn [obind] in E. apply obind_Done_inv in E as ([r sent]&Er&E).
  injection E as <-. apply IH in Er as [Hs Hr]; [|done|done|by exists ca].
  split; [by rewrite Hs|done].
Qed.

(** *** Entering [call1] *)

(** what [call1] needs of the client and the request *)
Definition call1_ready (c : rpcc) (R : gset Z) (proc : Z) (req : marshall) : Prop :=
  window_of R (xid_rep_window c) ∧ is_u32 (xid_ c) ∧
  bool_decide (proc = rpc_bind) = negb (bind_done c) ∧ marshall_wf req ∧ RPC_HEADER_SZ ≤ mind req.

(** [n] doublings of the first timeout reach [to] *)
Definition doublings (n : nat) (to : Z) : Prop :=
  0 ≤ to < 1000 * (2 ^ (Z.of_nat n + 1) - 1) ∧ (n ≤ 21)%nat.

(** the client with the new call registered, and the loop at its start *)
Definition entered (c : rpcc) : rpcc :=
  set_calls (set_xid c (u32 (xid_ c + 1)))
    (<[s32 (xid_ c) :=
       {| ca_un := unmarshall_empty; ca_intret := s32 stale; ca_done := false |}]> (calls c)).
Definition loop_start (final : timespec) : loop_st :=
  {| lp_ch := None; lp_transmit := true; lp_final := final; lp_to := to_min |}.

Lemma call1_enter_ready c R proc req :
  call1_ready c R proc req →
  ∃ req' f, head (xid_rep_window c) = Some f ∧
    pack_req_header req (make_req_header (xid_ c) proc (clt_nonce c) (srv_nonce c) f) = Done req' ∧
    call1_enter c proc req = Done (entered c, inr (xid_ c, req')).
Proof.
  intros (Hw&Hx&Hb&Hwf&Hi). unfold call1_enter.
  assert ((bool_decide (proc ≠ rpc_bind) && negb (bind_done c)) ||
    (bool_decide (proc = rpc_bind) && bind_done c) = false) as ->.
  { rewrite bool_decide_not, Hb. by destruct (bind_done c). }
  pose proof Hw as (f&t&Hft&_). simpl. rewrite Hft.
  destruct (pack_req_header_spec req (make_req_header (xid_ c) proc (clt_nonce c)
    (srv_nonce c) f) Hwf Hi) as (req'&E&_).
  exists req', f. rewrite E. by split_and!.
Qed.

Lemma call1_starts c s R proc req to start ticks :
  call1_ready c R proc req → normal start → 0 ≤ to →
  ∃ final, add_timespec start to = Done final ∧ 0 ≤ tv_nsec final ≤ 1000000000 ∧
    nanos final = nanos start + to * 1000000 ∧
    call1 (c, s) proc req to start ticks =
      let! '(r, sent) := call1_loop (xid_ c) (entered c, s) (loop_start final) ticks in
      call1_end (xid_ c) r sent.
Proof.
  intros Hc Hst Hto. destruct (call1_enter_ready c R proc req Hc) as (req'&f&_&_&E1).
  unfold call1. cbn [fst snd]. rewrite E1. cbn [obind].
  destruct (add_timespec_spec start to Hst Hto) as (final&E&Hfin&Hns).
  exists final. rewrite E. do 3 (split; [done|]). done.
Qed.

(** with enough ticks the loop that [call1] enters ends *)
Lemma call1_loop_ends n c s R others proc req to start final ticks :
  call1_ready c R proc req → conns_ok s (option_list (chan c) ++ others) others →
  doublings n to → 0 ≤ tv_nsec final ≤ 1000000000 → nanos final = nanos start + to * 1000000 →
  (n + 2 ≤ length ticks)%nat → Forall tick_ok ticks →
  honest final to_min (nanos start) (tk_now <$> ticks) →
  loop_result (xid_ c) (entered c, s) (loop_start final)
    (call1_loop (xid_ c) (entered c, s) (loop_start final) ticks).
Proof.
  intros (Hw&_) Hs [Hto Hn] Hns Hfin Hlen Htk Hh.
  apply (loop_ends (xid_ c) n ticks (entered c, s) (loop_start final) (nanos start)); try done.
  - split; [|split; [by exists R|by exists others]]. simpl. by rewrite lookup_insert_eq.
  - simpl. unfold to_min, INT_MAX.
    assert (2 ^ Z.of_nat n ≤ 2 ^ 21) by (apply Z.pow_le_mono_r; lia). lia.
  - simpl. rewrite Hfin. unfold to_min. lia.
Qed.

(** a call that is refused every connection sends nothing and times out *)
Lemma call1_refused n c s R others proc req to start nows :
  call1_ready c R proc req → chan c = None → conns_ok s others others →
  normal start → doublings n to → (n + 2 ≤ length nows)%nat →
  (∀ final, add_timespec start to = Done final → honest final to_min (nanos start) nows) →
  ∃ c', call1 (c, s) proc req to start (refused_tick <$> nows) =
    Done (Some ((c', s), unmarshall_empty, timeout_failure), []) ∧
    chan c' = None ∧ calls c' = delete (s32 (xid_ c)) (calls c).
Proof.
  intros Hc Hch Hs Hst Hto Hlen Hh.
  destruct (call1_starts c s R proc req to start (refused_tick <$> nows) Hc Hst) as
    (final&E&Hns&Hfin&->); [apply Hto|].
  assert (is_Some (calls (entered c) !! s32 (xid_ c))) as Hc1.
  { simpl. by rewrite lookup_insert_eq. }
  destruct (call1_loop_ends n c s R others proc req to start final (refused_tick <$> nows))
    as (w2&st2&sent&E2&_&_); try done.
  { by rewrite Hch. }
  { by rewrite length_fmap. }
  { apply Forall_fmap, Forall_true, refused_tick_ok. }
  { rewrite <-list_fmap_compose, list_fmap_id. by apply Hh. }
  destruct (loop_refused (xid_ c) nows (entered c) s (loop_start final) _ Hch eq_refl Hc1 E2)
    as [Hsent Hr].
  destruct (Hr _ _ eq_refl) as [-> Hch2]. simpl in Hsent. subst sent. rewrite E2. simpl.
  unfold call1_leave. simpl. rewrite lookup_insert_eq. simpl. unfold update_xid_rep. simpl.
  destruct Hc as (Hw&Hx&_). destruct (update_window_spec _ _ (xid_ c) Hw Hx) as (w3&->&Hw3).
  simpl. rewrite Hch2. eexists. split; [done|]. split; [done|]. simpl. by rewrite delete_insert_eq.
Qed.

End rpcc_facts.

(** ** Theorems *)

(** The window after reports of the xids [l], in any order. *)
Fixpoint updates (w l : list Z) : outcome (list Z) :=
  match l with
  | [] => Done w
  | x :: l => let! w := update_window w x in updates w l
  end.

Lemma updates_spec R w l :
  window_of R w → Forall is_u32 l →
  ∃ w', updates w l = Done w' ∧ window_of (list_to_set l ∪ R) w'.
Proof.
  intros Hw Hl. revert R w Hw. induction Hl as [|x l Hx _ IH]; intros R w Hw; simpl.
  - exists w. split; [done|]. by rewrite (left_id_L ∅ (∪)).
  - destruct (update_window_spec R w x Hw Hx) as (w1&->&Hw1). simpl.
    destruct (IH _ _ Hw1) as (w2&->&Hw2). exists w2. split; [done|].
    assert ({[x]} ∪ list_to_set l ∪ R = list_to_set l ∪ ({[x]} ∪ R)) as -> by set_solver.
    done.
Qed.

(** C14. Whatever the order in which xids are reported, with whatever repetitions and
    gaps, the front of the window ([xid_rep] of the next request) is the largest
    xid up to which every xid was reported. *)
Theorem xid_window_exact l :
  Forall is_u32 l →
  ∃ w f, updates [0] l = Done w ∧ head w = Some f ∧
    (∀ r, 0 < r ≤ f → r ∈ l) ∧ f + 1 ∉ l.
Proof.
  intros Hl. destruct (updates_spec _ _ l window_of_new Hl) as (w&E&f&t&->&_&Hg&Hf&_&HR).
  exists (f :: t), f. split; [done|]. split; [done|]. split.
  - intros r Hr. destruct (HR r ltac:(lia)) as [_ Hin]. specialize (Hin ltac:(lia)). set_solver by lia.
  - intros Hin. destruct (HR (f + 1) ltac:(lia)) as [Hin' _].
    destruct Hin' as [?|Ht]; [set_solver|lia|].
    eapply Forall_forall in Hg as [?|?]; [| |done]; lia.
Qed.

Section theorems.
Context `{Heap}.

(** C34. Whatever bytes arrive as a reply, [got_pdu] does not fault.  It can complete
    only the call the header names, only once, with the header's return value,
    and reports that xid to the window; every other call is as before. *)
Theorem got_pdu_total c R b sz :
  window_of R (xid_rep_window c) → 0 ≤ sz ≤ Zlength b → sz ≤ INT_MAX →
  ∃ c', rpcc_got_pdu c b sz = Done (c', true) ∧
    (∃ R', R ⊆ R' ∧ window_of R' (xid_rep_window c')) ∧
    (calls c' = calls c ∨
     ∃ x ca ca', calls c !! x = Some ca ∧ ca_done ca = false ∧
       ca_done ca' = true ∧ calls c' = <[x := ca']> (calls c) ∧
       window_of ({[u32 x]} ∪ R) (xid_rep_window c') ∧
       ∃ u h, unpack_reply_header (unmarshall_new b sz) = Done (u, h) ∧ uok u = true ∧
         x = rp_xid h ∧ ca_intret ca' = rp_ret h ∧ ca_un ca' = (take_in (ca_un ca) u).1).
Proof.
  intros Hw Hsz Hmax. unfold rpcc_got_pdu.
  destruct (unpack_reply_header_total _ (new_cursor_wf b sz Hsz Hmax)) as (u&h&E&_&_&Hx&_).
  rewrite E. simpl. destruct (uok u) eqn:Hok; simpl.
  2: { exists c. split; [done|]. split; [by exists R|by left]. }
  unfold update_xid_rep.
  destruct (update_window_spec R _ (u32 (rp_xid h)) Hw (u32_range _)) as (w&->&Hw'). simpl.
  assert (∃ R', R ⊆ R' ∧ window_of R' w) as Hw2 by (eexists; split; [|done]; set_solver).
  destruct (calls c !! rp_xid h) as [ca|] eqn:Hca; [|eexists; split; [done|by auto]].
  destruct (ca_done ca) eqn:Hd; [eexists; split; [done|by auto]|].
  eexists. split; [done|]. split; [done|]. right.
  eexists (rp_xid h), ca, _. split_and!; try done; [done|].
  exists u, h. by split_and!.
Qed.


End theorems.

(** ** Witnesses *)

#[local] Existing Instance zero_heap.

Lemma xid_window_exact_witness :
  ∃ w f, updates [0] [3; 1; 1; 5] = Done w ∧ head w = Some f ∧
    (∀ r, 0 < r ≤ f → r ∈ [3; 1; 1; 5]) ∧ f + 1 ∉ [3; 1; 1; 5].
Proof. apply xid_window_exact. by repeat constructor. Defined.

(** a client with one call waiting, xid 1 *)
Definition sample_client : rpcc :=
  set_calls (set_xid (set_bound (rpcc_new true 77 0) 9) 2)
    {[ 1 := {| ca_un := unmarshall_empty; ca_intret := 0; ca_done := false |} ]}.

(** a reply to xid 1 with return value 6, in a block of 24 bytes *)
Definition sample_reply_pdu : list byte :=
  be32 24 ++ be32 1 ++ be32 6 ++ be32 0 ++ be32 0 ++ be32 0.

Lemma got_pdu_total_witness :
  ∃ c', rpcc_got_pdu sample_client sample_reply_pdu 24 = Done (c', true) ∧
    (∃ R', {[0]} ⊆ R' ∧ window_of R' (xid_rep_window c')) ∧
    (calls c' = calls sample_client ∨
     ∃ x ca ca', calls sample_client !! x = Some ca ∧ ca_done ca = false ∧
       ca_done ca' = true ∧ calls c' = <[x := ca']> (calls sample_client) ∧
       window_of ({[u32 x]} ∪ {[0]}) (xid_rep_window c') ∧
       ∃ u h, unpack_reply_header (unmarshall_new sample_reply_pdu 24) = Done (u, h) ∧
         uok u = true ∧
         x = rp_xid h ∧ ca_intret ca' = rp_ret h ∧ ca_un ca' = (take_in (ca_un ca) u).1).
Proof.
  apply got_pdu_total; [apply window_of_new|split; vm_compute; discriminate|vm_compute; discriminate].
Defined.

(** the client that sends it: nothing ever comes back *)
Definition silent (now : timespec) : tick :=
  {| tk_answer := λ s, if decide (s !! 1 = None) then Some (1, 3) else None;
     tk_now := now; tk_world := λ w, w |}.

Lemma silent_ok now : tick_ok (silent now).
Proof.
  split; [|by split]. intros s p fd. simpl. case_decide; [|done]. intros [= <- _]. done.
Qed.

Definition sample_ticks : list tick :=
  silent <$> [Timespec 100 0; Timespec 101 5; Timespec 103 9; Timespec 104 0].

Lemma sample_honest final :
  add_timespec (Timespec 100 0) 3000 = Done final →
  honest final to_min (nanos (Timespec 100 0)) (tk_now <$> sample_ticks).
Proof.
  intros E. vm_compute in E. injection E as <-. simpl.
  repeat (split; [split; simpl; lia|]; split; [by vm_compute|];
    intros ? ? E; vm_compute in E; injection E as <- <-).
  done.
Qed.

