(* ===== verification/Rpcs.v ===== *)
(** * The RPC server: [class rpcs] of [rpc/rpc.h] and [rpc/rpc.cc]

    The state of a server endpoint and the steps of [dispatch].  Several pool
    threads run [dispatch] at once; each critical section of it (the body of a
    [ScopedLock]) is one definition, and [dispatch] is their composition.  The
    saved replies are pointers into a heap of blocks, because the code frees and
    reads them without holding the lock. *)

From S2P Require Import Prelude Marshall Codec Connection Stubs.

(** ** State *)

Abbreviation blocks := (gmap Z (list byte)).

Record reply_t := ReplyT { rt_xid : Z; rt_cb_present : bool; rt_buf : option Z; rt_sz : Z }.

Definition reply_new (xid : Z) : reply_t :=
  {| rt_xid := xid; rt_cb_present := false; rt_buf := None; rt_sz := 0 |}.

Inductive rpcstate_t :=
  | NEW
  | INPROGRESS
  | DONE (b : option Z) (sz : Z)   (**r with the two output arguments *)
  | FORGOTTEN.

#[export] Instance reply_t_eq_dec : EqDecision reply_t.
Proof. solve_decision. Defined.
#[export] Instance rpcstate_t_eq_dec : EqDecision rpcstate_t.
Proof. solve_decision. Defined.

(** [S] is the state of the objects whose methods are registered *)
Record rpcs (S : Type) := Rpcs {
  nonce_ : Z;
  reply_window_ : gmap Z (list reply_t);
  heap : blocks;
  conns_ : gmap Z (option Z);
  counting_ : Z; curr_counts_ : Z; counts_ : gmap Z Z;
  procs_ : gmap Z (handler S) }.
Arguments Rpcs {S} _ _ _ _ _ _ _ _.
Arguments nonce_ {S} _.
Arguments reply_window_ {S} _.
Arguments heap {S} _.
Arguments conns_ {S} _.
Arguments counting_ {S} _.
Arguments curr_counts_ {S} _.
Arguments counts_ {S} _.
Arguments procs_ {S} _.

(** the memory allocator: the address of a new block *)
Class Allocator := {
  alloc : blocks → Z;
  alloc_fresh h : h !! alloc h = None }.

(** [free(p)]; a null pointer is ignored *)
Definition free_block (h : blocks) (p : option Z) : outcome blocks :=
  match p with
  | None => Done h
  | Some p => match h !! p with Some _ => Done (delete p h) | None => Fault UseAfterFree end
  end.

(** the first [sz] bytes at [p] *)
Definition read_block (h : blocks) (p : option Z) (sz : Z) : outcome (list byte) :=
  match p with
  | None => Fault NullDeref
  | Some p => match h !! p with Some b => mem_slice b 0 sz | None => Fault UseAfterFree end
  end.

(** a PDU handed to [connection::send] *)
Record sent := Sent { sn_conn : Z; sn_bytes : list byte }.

(** what a thread holds between the steps *)
Record job := Job { jb_conn : Z; jb_hdr : req_header; jb_req : unmarshall }.

(** where a step leaves the thread: finished, or going on *)
Inductive progress (A : Type) :=
  | Finished (l : list sent)
  | Go (a : A).
Arguments Finished {A} _.
Arguments Go {A} _.

Section rpcs.
Context `{Heap, Allocator} {S : Type}.
Implicit Types (v : rpcs S).

Definition set_window v w h : rpcs S :=
  {| nonce_ := nonce_ v; reply_window_ := w; heap := h; conns_ := conns_ v;
     counting_ := counting_ v; curr_counts_ := curr_counts_ v; counts_ := counts_ v;
     procs_ := procs_ v |}.
Definition set_conns v m : rpcs S :=
  {| nonce_ := nonce_ v; reply_window_ := reply_window_ v; heap := heap v; conns_ := m;
     counting_ := counting_ v; curr_counts_ := curr_counts_ v; counts_ := counts_ v;
     procs_ := procs_ v |}.
Definition set_counts v curr m : rpcs S :=
  {| nonce_ := nonce_ v; reply_window_ := reply_window_ v; heap := heap v; conns_ := conns_ v;
     counting_ := counting_ v; curr_counts_ := curr; counts_ := m; procs_ := procs_ v |}.
Definition set_procs v m : rpcs S :=
  {| nonce_ := nonce_ v; reply_window_ := reply_window_ v; heap := heap v; conns_ := conns_ v;
     counting_ := counting_ v; curr_counts_ := curr_counts_ v; counts_ := counts_ v;
     procs_ := m |}.

(** ** Registration and statistics *)

Definition reg1 v (proc : Z) (h : handler S) : outcome (rpcs S) :=
  check! bool_decide (procs_ v !! s32 proc = None) in
  Done (set_procs v (<[s32 proc := h]> (procs_ v))).

(** [reg]: the handler [h1] around a method *)
Definition reg v (proc : Z) {As R} (ps : params As) (cr : codec R) (meth : method S As R)
    : outcome (rpcs S) :=
  reg1 v proc (h1_fn ps cr meth).

(** [rpcbind]: the handler of [rpc_const::bind] returns the server's nonce *)
Definition rpcbind (nonce : Z) : method S (Z * unit) Z :=
  λ s a r, Done (s, s32 nonce, 0).

(** the constructor; [rnd] is what [random()] returns *)
Definition rpcs_new (rnd count : Z) : outcome (rpcs S) :=
  reg {| nonce_ := u32 rnd; reply_window_ := ∅; heap := ∅; conns_ := ∅;
         counting_ := count; curr_counts_ := count; counts_ := ∅; procs_ := ∅ |}
    rpc_bind (PCons c_int PNil) c_int (rpcbind (u32 rnd)).

Definition updatestat v (proc : Z) : outcome (rpcs S) :=
  let! n := int_result (default 0 (counts_ v !! proc) + 1) in
  let! curr := int_result (curr_counts_ v - 1) in
  Done (set_counts v (if decide (curr = 0) then counting_ v else curr)
          (<[proc := n]> (counts_ v))).

(** ** The reply window *)

(** the loop of [checkduplicate_and_update] over one client's list: what is left
    of the list, and the verdict when the xid is found *)
Fixpoint scan_window (xid xid_rep : Z) (l : list reply_t) (h : blocks)
    : outcome (list reply_t * blocks * option rpcstate_t) :=
  match l with
  | [] => Done ([], h, None)
  | r :: l =>
      if decide (rt_xid r = xid) then
        if decide (rt_xid r ≤ xid_rep) then
          let! h := free_block h (rt_buf r) in Done (l, h, Some FORGOTTEN)
        else if rt_cb_present r then Done (r :: l, h, Some (DONE (rt_buf r) (rt_sz r)))
        else Done (r :: l, h, Some INPROGRESS)
      else if decide (rt_xid r ≤ xid_rep) then
        let! h := free_block h (rt_buf r) in scan_window xid xid_rep l h
      else
        let! '(l, h, st) := scan_window xid xid_rep l h in Done (r :: l, h, st)
  end.

Definition checkduplicate_and_update v (clt_nonce xid xid_rep : Z)
    : outcome (rpcs S * rpcstate_t) :=
  match reply_window_ v !! clt_nonce with
  | None => Fault OutOfBounds
  | Some l =>
      let! '(l, h, st) := scan_window xid xid_rep l (heap v) in
      match st with
      | Some st => Done (set_window v (<[clt_nonce := l]> (reply_window_ v)) h, st)
      | None =>
          Done (set_window v (<[clt_nonce := l ++ [reply_new xid]]> (reply_window_ v)) h, NEW)
      end
  end.

(** the loop of [add_reply]: the first entry with the xid gets a copy of [b] *)
Fixpoint fill_reply (xid : Z) (b : option Z) (sz : Z) (l : list reply_t) (h : blocks)
    : outcome (list reply_t * blocks) :=
  match l with
  | [] => Done ([], h)
  | r :: l =>
      if decide (rt_xid r = xid) then
        let! bytes := read_block h b sz in
        let p := alloc h in
        Done ({| rt_xid := rt_xid r; rt_cb_present := true; rt_buf := Some p; rt_sz := sz |} :: l,
              <[p := bytes]> h)
      else let! '(l, h) := fill_reply xid b sz l h in Done (r :: l, h)
  end.

Definition add_reply v (clt_nonce xid : Z) (b : option Z) (sz : Z) : outcome (rpcs S) :=
  let! '(l, h) := fill_reply xid b sz (default [] (reply_window_ v !! clt_nonce)) (heap v) in
  Done (set_window v (<[clt_nonce := l]> (reply_window_ v)) h).

Fixpoint free_replies (l : list reply_t) (h : blocks) : outcome blocks :=
  match l with
  | [] => Done h
  | r :: l => let! h := free_block h (rt_buf r) in free_replies l h
  end.

Definition free_reply_window v : outcome (rpcs S) :=
  let! h := free_replies (mjoin (snd <$> map_to_list (reply_window_ v))) (heap v) in
  Done (set_window v ∅ h).

(** ** [dispatch] *)

(** a reply without payload, [rep.pack_reply_header(rh); rep.cstr(), rep.size()] *)
Definition error_reply (xid ret : Z) : outcome (list byte) :=
  let! rep := pack_reply_header marshall_new {| rp_xid := xid; rp_ret := ret |} in
  Done (marshall_str rep).

(** up to the lookup of the procedure *)
Definition dispatch_header v (cs : conn_store) (c : Z) (buf : list byte) (sz : Z)
    : outcome (conn_store * progress (job * handler S)) :=
  let! '(req, h) := unpack_req_header (unmarshall_new buf sz) in
  if negb (uok req) then let! cs := decref cs c in Done (cs, Finished [])
  else if bool_decide (rq_srv_nonce h ≠ 0) && bool_decide (rq_srv_nonce h ≠ nonce_ v) then
    let! b := error_reply (rq_xid h) oldsrv_failure in
    Done (cs, Finished [{| sn_conn := c; sn_bytes := b |}])
  else
    match procs_ v !! rq_proc h with
    | None => let! cs := decref cs c in Done (cs, Finished [])
    | Some f => Done (cs, Go ({| jb_conn := c; jb_hdr := h; jb_req := req |}, f))
    end.

(** a list for a client that is not known yet *)
Definition dispatch_new_client v (clt_nonce : Z) : rpcs S :=
  match reply_window_ v !! clt_nonce with
  | Some _ => v
  | None => set_window v (<[clt_nonce := []]> (reply_window_ v)) (heap v)
  end.

(** save the latest good connection to the client *)
Definition dispatch_save_conn v (cs : conn_store) (clt_nonce c : Z)
    : outcome (rpcs S * conn_store) :=
  match conns_ v !! clt_nonce with
  | None =>
      let! cs := incref cs c in
      Done (set_conns v (<[clt_nonce := Some c]> (conns_ v)), cs)
  | Some old =>
      if decide (old = Some c) then Done (v, cs)
      else match old with
      | None => Fault NullDeref
      | Some q =>
          let! cs := decref cs q in
          let! cs := incref cs c in
          Done (set_conns v (<[clt_nonce := Some c]> (conns_ v)), cs)
      end
  end.

(** the duplicate check; a client with nonce 0 does not ask for it *)
Definition dispatch_check v (cs : conn_store) (j : job)
    : outcome (rpcs S * conn_store * rpcstate_t) :=
  let n := rq_clt_nonce (jb_hdr j) in
  if decide (n = 0) then Done (v, cs, NEW)
  else
    let v := dispatch_new_client v n in
    let! '(v, cs) := dispatch_save_conn v cs n (jb_conn j) in
    let! '(v, st) := checkduplicate_and_update v n (u32 (rq_xid (jb_hdr j)))
                       (u32 (rq_xid_rep (jb_hdr j))) in
    Done (v, cs, st).

(** the verdicts that end the thread, and the statistics before a new request *)
Definition dispatch_verdict v (cs : conn_store) (j : job) (st : rpcstate_t)
    : outcome (rpcs S * conn_store * progress unit) :=
  match st with
  | NEW =>
      let! v := (if decide (counting_ v = 0) then Done v else updatestat v (rq_proc (jb_hdr j))) in
      Done (v, cs, Go tt)
  | INPROGRESS => let! cs := decref cs (jb_conn j) in Done (v, cs, Finished [])
  | DONE b sz =>
      let! bytes := read_block (heap v) b sz in
      let! cs := decref cs (jb_conn j) in
      Done (v, cs, Finished [{| sn_conn := jb_conn j; sn_bytes := bytes |}])
  | FORGOTTEN =>
      let! bytes := error_reply (rq_xid (jb_hdr j)) atmostonce_failure in
      let! cs := decref cs (jb_conn j) in
      Done (v, cs, Finished [{| sn_conn := jb_conn j; sn_bytes := bytes |}])
  end.

(** after the handler: pack the header and take the buffer *)
Definition dispatch_pack v (j : job) (rep : marshall) (ret : Z) : outcome (rpcs S * Z * Z) :=
  check! bool_decide (0 ≤ ret) || bool_decide (ret = unmarshal_args_failure) in
  let! rep := pack_reply_header rep {| rp_xid := rq_xid (jb_hdr j); rp_ret := ret |} in
  let '(b, sz, _) := marshall_take_buf rep in
  let p := alloc (heap v) in
  Done (set_window v (reply_window_ v) (<[p := default [] b]> (heap v)), p, sz).

(** get the latest connection to the client *)
Definition dispatch_latest v (cs : conn_store) (clt_nonce c : Z)
    : outcome (rpcs S * conn_store * Z) :=
  let! dead := isdead cs c in
  if negb dead then Done (v, cs, c)
  else
    let latest := default None (conns_ v !! clt_nonce) in
    let v := set_conns v (<[clt_nonce := latest]> (conns_ v)) in
    if decide (latest = Some c) then Done (v, cs, c)
    else
      let! cs := decref cs c in
      match latest with
      | None => Fault NullDeref
      | Some q => let! cs := incref cs q in Done (v, cs, q)
      end.

(** record the reply, only for clients that require at-most-once logic *)
Definition dispatch_record v (j : job) (b1 sz1 : Z) : outcome (rpcs S) :=
  if decide (0 < rq_clt_nonce (jb_hdr j))
  then add_reply v (rq_clt_nonce (jb_hdr j)) (u32 (rq_xid (jb_hdr j))) (Some b1) sz1
  else Done v.

(** send the reply and let the connection go *)
Definition dispatch_send v (cs : conn_store) (j : job) (b1 sz1 : Z)
    : outcome (rpcs S * conn_store * list sent) :=
  let n := rq_clt_nonce (jb_hdr j) in
  let! '(v, cs, c) := dispatch_latest v cs n (jb_conn j) in
  let! bytes := read_block (heap v) (Some b1) sz1 in
  let! v := (if decide (n = 0) then
               let! h := free_block (heap v) (Some b1) in Done (set_window v (reply_window_ v) h)
             else Done v) in
  let! cs := decref cs c in
  Done (v, cs, [{| sn_conn := c; sn_bytes := bytes |}]).

(** after the handler returned [ret], to the end of [dispatch] *)
Definition dispatch_finish v (cs : conn_store) (j : job) (rep : marshall) (ret : Z)
    : outcome (rpcs S * conn_store * list sent) :=
  let! '(v, b1, sz1) := dispatch_pack v j rep ret in
  let! v := dispatch_record v j b1 sz1 in
  dispatch_send v cs j b1 sz1.

(** the whole, run by one thread without interruption *)
Definition dispatch v (cs : conn_store) (s : S) (c : Z) (buf : list byte) (sz : Z)
    : outcome (rpcs S * conn_store * S * list sent) :=
  let! '(cs, p) := dispatch_header v cs c buf sz in
  match p with
  | Finished l => Done (v, cs, s, l)
  | Go (j, f) =>
      let! '(v, cs, st) := dispatch_check v cs j in
      let! '(v, cs, p) := dispatch_verdict v cs j st in
      match p with
      | Finished l => Done (v, cs, s, l)
      | Go _ =>
          let! '(s, _, rep, ret) := f s (jb_req j) marshall_new in
          let! '(v, cs, l) := dispatch_finish v cs j rep ret in
          Done (v, cs, s, l)
      end
  end.

(** [got_pdu]: the upcall for a request; [accepted] is what [addObjJob] answers *)
Definition rpcs_got_pdu (cs : conn_store) (c : Z) (accepted : bool) : outcome (conn_store * bool) :=
  let! cs := incref cs c in
  if accepted then Done (cs, true)
  else let! cs := decref cs c in Done (cs, false).

End rpcs.

Arguments error_reply : simpl never.
Arguments dispatch_header : simpl never.
Arguments dispatch_check : simpl never.
Arguments dispatch_finish : simpl never.

(** ** Facts: blocks *)

(** [ps] are the pointers that someone has to free: distinct, and not freed yet *)
Definition owned_ok (h : blocks) (ps : list Z) : Prop :=
  NoDup ps ∧ ∀ p, p ∈ ps → is_Some (h !! p).

Lemma owned_ok_perm h l1 l2 : l1 ≡ₚ l2 → owned_ok h l1 → owned_ok h l2.
Proof. intros Hp [H1 H2]. split; [by rewrite <-Hp|]. intros p. rewrite <-Hp. apply H2. Qed.

(** [h'] agrees with [h] on the pointers [ps] *)
Definition same_blocks (h h' : blocks) (ps : list Z) : Prop := ∀ p, p ∈ ps → h' !! p = h !! p.

Lemma free_block_ok h p ps :
  owned_ok h (option_list p ++ ps) →
  ∃ h', free_block h p = Done h' ∧ owned_ok h' ps ∧ same_blocks h h' ps.
Proof.
  intros [Hn Hs]. destruct p as [p|]; simpl in *.
  - apply NoDup_cons in Hn as [Hp Hn]. destruct (Hs p) as [b ->]; [set_solver|].
    assert (same_blocks h (delete p h) ps) as Hsame.
    { intros q Hq. rewrite lookup_delete_ne; [done|]. intros ->. done. }
    eexists. split; [done|]. split; [|done]. split; [done|].
    intros q Hq. rewrite Hsame by done. apply Hs. set_solver.
  - exists h. split; [done|]. split; [by split|done].
Qed.

Lemma alloc_ok `{Allocator} h ps b :
  owned_ok h ps → owned_ok (<[alloc h := b]> h) (alloc h :: ps) ∧
    same_blocks h (<[alloc h := b]> h) ps.
Proof.
  intros [Hn Hs]. assert (alloc h ∉ ps) as Hf.
  { intros Hin. apply Hs in Hin as [? ?]. by rewrite alloc_fresh in *. }
  assert (same_blocks h (<[alloc h := b]> h) ps) as Hsame.
  { intros q Hq. rewrite lookup_insert_ne; [done|]. intros <-. done. }
  split; [|done]. split; [by constructor|].
  intros q [->|Hq]%elem_of_cons; [rewrite lookup_insert_eq; done|].
  rewrite Hsame by done. by apply Hs.
Qed.

(** ** Facts: the reply window *)

Definition bufs (l : list reply_t) : list Z := omap rt_buf l.
Definition xids (l : list reply_t) : list Z := rt_xid <$> l.

(** what is kept of a list by a request that acknowledges [xid_rep] *)
Definition unacked (xid_rep : Z) (l : list reply_t) : list reply_t :=
  filter (λ r, xid_rep < rt_xid r) l.

Definition verdict (r : reply_t) (xid_rep : Z) : rpcstate_t :=
  if decide (rt_xid r ≤ xid_rep) then FORGOTTEN
  else if rt_cb_present r then DONE (rt_buf r) (rt_sz r) else INPROGRESS.

(** the result of the scan: the list and the verdict *)
Definition scanned (xid xid_rep : Z) (l l' : list reply_t) (st : option rpcstate_t) : Prop :=
  match st with
  | None => (xid ∉ xids l) ∧ l' = unacked xid_rep l
  | Some st => ∃ l1 r l2, l = l1 ++ r :: l2 ∧ (xid ∉ xids l1) ∧ rt_xid r = xid ∧
      st = verdict r xid_rep ∧
      l' = unacked xid_rep l1 ++ (if decide (xid ≤ xid_rep) then [] else [r]) ++ l2
  end.

Lemma bufs_cons r l : bufs (r :: l) = option_list (rt_buf r) ++ bufs l.
Proof. unfold bufs. simpl. by destruct (rt_buf r). Qed.

Lemma scanned_cons xid xid_rep r l l' st :
  rt_xid r ≠ xid → scanned xid xid_rep l l' st →
  scanned xid xid_rep (r :: l)
    (if decide (rt_xid r ≤ xid_rep) then l' else r :: l') st.
Proof.
  intros Hr Hs. destruct st as [st|]; simpl in *.
  - destruct Hs as (l1&r1&l2&->&Hx&Hr1&Hst&->). exists (r :: l1), r1, l2.
    split_and!; try done; [set_solver|]. unfold unacked. case_decide.
    + by rewrite filter_cons_False by lia.
    + by rewrite filter_cons_True by lia.
  - destruct Hs as [Hx ->]. split; [set_solver|]. unfold unacked. case_decide.
    + by rewrite filter_cons_False by lia.
    + by rewrite filter_cons_True by lia.
Qed.

Lemma scanned_incl xid xid_rep l l' st : scanned xid xid_rep l l' st → l' ⊆ l.
Proof.
  destruct st as [st|]; simpl.
  - intros (l1&r&l2&->&_&_&_&->) x. rewrite !elem_of_app. intros [Hx|[Hx|Hx]].
    + left. by apply list_elem_of_filter in Hx as [_ Hx].
    + right. case_decide; set_solver.
    + right. by apply elem_of_cons; right.
  - intros [_ ->] x Hx. by apply list_elem_of_filter in Hx as [_ Hx].
Qed.

Lemma bufs_incl l l' : l' ⊆ l → bufs l' ⊆ bufs l.
Proof.
  intros Hl p. unfold bufs. rewrite !list_elem_of_omap. intros (r&Hr&Hp). eauto.
Qed.

(** The scan never frees a block twice nor one that it does not own. *)
Lemma scan_window_ok xid xid_rep l h ps :
  owned_ok h (bufs l ++ ps) →
  ∃ l' h' st, scan_window xid xid_rep l h = Done (l', h', st) ∧
    scanned xid xid_rep l l' st ∧
    owned_ok h' (bufs l' ++ ps) ∧ same_blocks h h' (bufs l' ++ ps).
Proof.
  revert h ps. induction l as [|r l IH]; intros h ps Hok; simpl.
  { exists [], h, None. split; [done|]. split; [|done]. split; [apply not_elem_of_nil|done]. }
  rewrite bufs_cons, <-app_assoc in Hok. case_decide as Hx.
  - assert (∀ l' st, st = verdict r xid_rep →
      l' = (if decide (xid ≤ xid_rep) then [] else [r]) ++ l →
      scanned xid xid_rep (r :: l) l' (Some st)) as Hsc.
    { intros l' st -> ->. exists [], r, l. split_and!; try done. apply not_elem_of_nil. }
    unfold verdict in Hsc. rewrite Hx in *. case_decide.
    + destruct (free_block_ok _ _ _ Hok) as (h'&->&?&?). simpl. eauto 10.
    + destruct (rt_cb_present r); eexists _, h, _; (split; [done|]);
        (split; [by apply Hsc|]); rewrite bufs_cons, <-app_assoc; done.
  - case_decide as Hr.
    + destruct (free_block_ok _ _ _ Hok) as (h1&->&Hok1&Hsame1). simpl.
      destruct (IH h1 ps Hok1) as (l'&h'&st&->&Hsc&Hok'&Hsame'). exists l', h', st.
      split; [done|]. pose proof (bufs_incl _ _ (scanned_incl _ _ _ _ _ Hsc)) as Hincl. split.
      { apply (scanned_cons _ _ r) in Hsc; [|done]. by rewrite decide_True in Hsc. }
      split; [done|]. intros p Hp. rewrite (Hsame' p Hp). apply Hsame1.
      apply elem_of_app. apply elem_of_app in Hp as [Hp|Hp]; [left; by apply Hincl|by right].
    + assert (owned_ok h (bufs l ++ option_list (rt_buf r) ++ ps)) as Hok2.
      { eapply owned_ok_perm; [|exact Hok]. apply Permutation_app_swap_app. }
      destruct (IH h _ Hok2) as (l'&h'&st&->&Hsc&Hok'&Hsame'). simpl.
      eexists _, h', st. split; [done|]. split.
      { apply (scanned_cons _ _ r) in Hsc; [|done]. by rewrite decide_False in Hsc. }
      rewrite bufs_cons, <-app_assoc. split.
      * eapply owned_ok_perm; [|exact Hok']. apply Permutation_app_swap_app.
      * intros p Hp. apply Hsame'. rewrite !elem_of_app in *. tauto.
Qed.

(** the blocks of all lists *)
Definition all_bufs (w : gmap Z (list reply_t)) : list Z :=
  mjoin (bufs ∘ snd <$> map_to_list w).

Lemma all_bufs_insert w n l : all_bufs (<[n := l]> w) ≡ₚ bufs l ++ all_bufs (delete n w).
Proof.
  unfold all_bufs. rewrite <-insert_delete_eq.
  rewrite (map_to_list_insert (delete n w)) by apply lookup_delete_eq. done.
Qed.

Lemma all_bufs_lookup w n l : w !! n = Some l → all_bufs w ≡ₚ bufs l ++ all_bufs (delete n w).
Proof. intros Hl. rewrite <-(insert_id w n l Hl) at 1. by rewrite all_bufs_insert. Qed.

(** an entry owns a block exactly when its reply is present *)
Definition entry_ok (h : blocks) (r : reply_t) : Prop :=
  if rt_cb_present r
  then ∃ p b, rt_buf r = Some p ∧ h !! p = Some b ∧ Zlength b = rt_sz r
  else rt_buf r = None.

(** The invariant of the reply windows.  [ps] are the blocks owned by threads. *)
Definition window_ok (w : gmap Z (list reply_t)) (h : blocks) (ps : list Z) : Prop :=
  owned_ok h (all_bufs w ++ ps) ∧
  ∀ n l, w !! n = Some l → NoDup (xids l) ∧ Forall (entry_ok h) l.

Lemma entry_ok_same h h' r ps :
  entry_ok h r → same_blocks h h' ps → (∀ p, rt_buf r = Some p → p ∈ ps) → entry_ok h' r.
Proof.
  unfold entry_ok. destruct (rt_cb_present r); [|done]. intros (p&b&Hp&Hb&Hl) Hs Hin.
  exists p, b. rewrite Hs by auto. done.
Qed.

Lemma elem_of_all_bufs w n l r p :
  w !! n = Some l → r ∈ l → rt_buf r = Some p → p ∈ all_bufs w.
Proof.
  intros Hl Hr Hp. rewrite (all_bufs_lookup w n l Hl). apply elem_of_app. left.
  unfold bufs. apply list_elem_of_omap. eauto.
Qed.

(** replacing one client's list keeps the invariant, when the blocks of the
    windows that stay are untouched *)
Lemma window_ok_replace w h n l' h' ps ps' :
  (∀ m l, w !! m = Some l → m ≠ n → NoDup (xids l) ∧ Forall (entry_ok h) l) →
  owned_ok h' (bufs l' ++ all_bufs (delete n w) ++ ps') →
  same_blocks h h' (all_bufs (delete n w) ++ ps) →
  NoDup (xids l') → Forall (entry_ok h') l' →
  window_ok (<[n := l']> w) h' ps'.
Proof.
  intros Hw Hok Hsame Hnd Hent. split.
  - eapply owned_ok_perm; [|exact Hok]. by rewrite all_bufs_insert, app_assoc.
  - intros m l. rewrite lookup_insert. case_decide as Hd; [intros [= <-]; done|].
    intros Hl. destruct (Hw m l Hl) as [Hndl Hel]; [done|]. split; [done|].
    apply Forall_forall. intros r Hr. eapply Forall_forall in Hel; [|done].
    eapply entry_ok_same; [done|exact Hsame|]. intros p Hp. apply elem_of_app. left.
    eapply (elem_of_all_bufs _ m l); [|done..]. by rewrite lookup_delete_ne.
Qed.

Lemma xids_app l1 l2 : xids (l1 ++ l2) = xids l1 ++ xids l2.
Proof. apply fmap_app. Qed.

Lemma unacked_xids xid_rep l : xids (unacked xid_rep l) ⊆ xids l.
Proof.
  intros x. unfold xids, unacked. rewrite !list_elem_of_fmap. intros (r&->&Hr).
  apply list_elem_of_filter in Hr as [_ Hr]. eauto.
Qed.

Lemma unacked_NoDup xid_rep l : NoDup (xids l) → NoDup (xids (unacked xid_rep l)).
Proof.
  intros H. eapply sublist_NoDup; [exact H|]. unfold xids, unacked.
  apply fmap_sublist. apply sublist_filter.
Qed.

(** The outcome of [checkduplicate_and_update] on one client's list. *)
Definition checked (xid xid_rep : Z) (l l' : list reply_t) (st : rpcstate_t) : Prop :=
  match st with
  | NEW => (xid ∉ xids l) ∧ l' = unacked xid_rep l ++ [reply_new xid]
  | st => scanned xid xid_rep l l' (Some st)
  end.

Lemma scanned_checked xid xid_rep l l' st :
  scanned xid xid_rep l l' (Some st) → checked xid xid_rep l l' st.
Proof.
  intros (l1&r&l2&?&?&?&->&?). unfold checked.
  destruct (verdict r xid_rep) eqn:Ev; try (exists l1, r, l2; rewrite Ev; by split_and!).
  exfalso. unfold verdict in Ev. destruct (decide (rt_xid r ≤ xid_rep)); [done|].
  by destruct (rt_cb_present r).
Qed.

Lemma scanned_sublist xid xid_rep l l' st :
  scanned xid xid_rep l l' (Some st) → l' `sublist_of` l.
Proof.
  intros (l1&r&l2&->&_&_&_&->). apply sublist_app; [apply sublist_filter|].
  case_decide; simpl; [by apply sublist_cons|done].
Qed.

Section window_facts.
Context `{Heap, Allocator} {S : Type}.
Implicit Types (v : rpcs S).

(** The duplicate check neither faults nor frees a block that is still saved,
    for any request of a known client; it touches this client's list only. *)
Lemma checkduplicate_ok v n l xid xid_rep ps :
  window_ok (reply_window_ v) (heap v) ps → reply_window_ v !! n = Some l →
  ∃ l' h' st, checkduplicate_and_update v n xid xid_rep =
      Done (set_window v (<[n := l']> (reply_window_ v)) h', st) ∧
    checked xid xid_rep l l' st ∧
    window_ok (<[n := l']> (reply_window_ v)) h' ps ∧
    same_blocks (heap v) h' (bufs l' ++ all_bufs (delete n (reply_window_ v)) ++ ps).
Proof.
  intros [Hown Hw] Hl. set (rest := all_bufs (delete n (reply_window_ v)) ++ ps).
  assert (owned_ok (heap v) (bufs l ++ rest)) as Hok.
  { eapply owned_ok_perm; [|exact Hown]. unfold rest. by rewrite (all_bufs_lookup _ n l Hl), app_assoc. }
  destruct (Hw n l Hl) as [Hnd Hent].
  destruct (scan_window_ok xid xid_rep l (heap v) rest Hok) as (l'&h'&st&E&Hsc&Hok'&Hsame).
  unfold checkduplicate_and_update. rewrite Hl, E. simpl.
  assert (Forall (entry_ok h') l') as Hent'.
  { apply Forall_forall. intros r Hr. pose proof (scanned_incl _ _ _ _ _ Hsc r Hr) as Hrl.
    eapply Forall_forall in Hent; [|done]. eapply entry_ok_same; [done|exact Hsame|].
    intros p Hp. apply elem_of_app. left. apply list_elem_of_omap. eauto. }
  assert (same_blocks (heap v) h' (all_bufs (delete n (reply_window_ v)) ++ ps)) as Hsr.
  { intros p Hp. apply Hsame. apply elem_of_app. by right. }
  assert (∀ l'', bufs l'' = bufs l' → NoDup (xids l'') → Forall (entry_ok h') l'' →
    window_ok (<[n := l'']> (reply_window_ v)) h' ps) as Hrep.
  { intros l'' Hb ??. eapply window_ok_replace; try done; [by eauto|by rewrite Hb]. }
  destruct st as [st|].
  - exists l', h', st. split; [done|]. split.
    { by apply scanned_checked. }
    split; [|exact Hsame]. apply Hrep; [done| |done].
    apply scanned_sublist in Hsc. eapply sublist_NoDup; [exact Hnd|]. by apply fmap_sublist.
  - destruct Hsc as [Hx ->].
    assert (bufs (unacked xid_rep l ++ [reply_new xid]) = bufs (unacked xid_rep l)) as Hb.
    { unfold bufs. rewrite omap_app. simpl. by rewrite app_nil_r. }
    eexists _, h', NEW. split; [done|]. split; [by split|]. split; [|by rewrite Hb].
    apply Hrep; [done| |].
    + rewrite xids_app. apply NoDup_app. split_and!; [by apply unacked_NoDup| |apply NoDup_singleton].
      intros x Hin%unacked_xids Hx'. apply list_elem_of_singleton in Hx' as ->. done.
    + apply Forall_app. split; [done|]. by constructor.
Qed.

Lemma owned_ok_drop h l k : owned_ok h (k ++ l) → owned_ok h l.
Proof.
  intros [H1 H2]. apply NoDup_app in H1 as (_&_&H1). split; [done|].
  intros p Hp. apply H2, elem_of_app. by right.
Qed.

Lemma bufs_app l1 l2 : bufs (l1 ++ l2) = bufs l1 ++ bufs l2.
Proof. apply omap_app. Qed.

Definition filled (h : blocks) (xid sz : Z) : reply_t :=
  {| rt_xid := xid; rt_cb_present := true; rt_buf := Some (alloc h); rt_sz := sz |}.

Lemma fill_reply_spec xid b blk sz l1 r l2 h :
  h !! b = Some blk → 0 ≤ sz ≤ Zlength blk → xid ∉ xids l1 → rt_xid r = xid →
  fill_reply xid (Some b) sz (l1 ++ r :: l2) h =
    Done (l1 ++ filled h xid sz :: l2, <[alloc h := take (Z.to_nat sz) blk]> h).
Proof.
  intros Hb Hsz Hx Hr. induction l1 as [|r1 l1 IH]; simpl.
  - rewrite decide_True by done. rewrite Hb, mem_slice_Done by lia. simpl.
    unfold filled. by rewrite Hr, drop_0.
  - simpl in Hx. apply not_elem_of_cons in Hx as [Hx1 Hx]. rewrite decide_False by done.
    by rewrite IH.
Qed.

Lemma fill_reply_absent xid b sz l h :
  xid ∉ xids l → fill_reply xid b sz l h = Done (l, h).
Proof.
  induction l as [|r l IH]; simpl; [done|]. intros [Hx1 Hx]%not_elem_of_cons.
  rewrite decide_False by done. by rewrite IH.
Qed.

(** [add_reply] saves a copy of the reply in the entry of the request. *)
Lemma add_reply_ok v n xid b blk sz l1 r l2 ps :
  window_ok (reply_window_ v) (heap v) ps → reply_window_ v !! n = Some (l1 ++ r :: l2) →
  rt_xid r = xid → heap v !! b = Some blk → 0 ≤ sz ≤ Zlength blk →
  ∃ h', add_reply v n xid (Some b) sz =
      Done (set_window v (<[n := l1 ++ filled (heap v) xid sz :: l2]> (reply_window_ v)) h') ∧
    window_ok (<[n := l1 ++ filled (heap v) xid sz :: l2]> (reply_window_ v)) h' ps ∧
    same_blocks (heap v) h' (b :: all_bufs (reply_window_ v) ++ ps) ∧
    h' !! alloc (heap v) = Some (take (Z.to_nat sz) blk).
Proof.
  intros [Hown Hw] Hl Hr Hb Hsz. destruct (Hw n _ Hl) as [Hnd Hent].
  assert (xid ∉ xids l1) as Hx.
  { rewrite xids_app in Hnd. apply NoDup_app in Hnd as (_&Hd&_). intros Hin.
    apply (Hd xid Hin). simpl. rewrite Hr. by left. }
  unfold add_reply. rewrite Hl. simpl.
  rewrite (fill_reply_spec xid b blk) by done. simpl.
  set (h' := <[alloc (heap v) := take (Z.to_nat sz) blk]> (heap v)).
  destruct (alloc_ok (heap v) _ (take (Z.to_nat sz) blk) Hown) as [Hown' Hsame'].
  fold h' in Hown', Hsame'.
  assert (same_blocks (heap v) h' (b :: all_bufs (reply_window_ v) ++ ps)) as Hs.
  { intros p [->|Hp]%elem_of_cons; [|by apply Hsame'].
    unfold h'. rewrite lookup_insert_ne; [done|]. intros E. rewrite <-E, alloc_fresh in Hb. done. }
  exists h'. split; [done|]. split; [|split; [done|apply lookup_insert_eq]].
  assert (∀ m l, reply_window_ v !! m = Some l → Forall (entry_ok h') l) as Hent'.
  { intros m l Hm. destruct (Hw m l Hm) as [_ Hf]. apply Forall_forall. intros y Hy.
    eapply Forall_forall in Hf; [|done]. eapply entry_ok_same; [done|exact Hs|].
    intros p Hp. apply elem_of_cons. right. apply elem_of_app. left.
    by eapply elem_of_all_bufs. }
  eapply window_ok_replace; [intros m l Hm _; by eapply Hw| | | |].
  - apply (owned_ok_drop _ _ (option_list (rt_buf r))).
    eapply owned_ok_perm; [|exact Hown'].
    rewrite (all_bufs_lookup _ n _ Hl), !bufs_app, !bufs_cons. simpl. solve_Permutation.
  - intros p Hp. apply Hs, elem_of_cons. right. rewrite (all_bufs_lookup _ n _ Hl).
    rewrite <-app_assoc. apply elem_of_app. right. exact Hp.
  - rewrite xids_app in *. simpl. by rewrite <-Hr.
  - specialize (Hent' n _ Hl). apply Forall_app in Hent' as [? [_ ?]%Forall_cons].
    apply Forall_app. split; [done|]. constructor; [|done].
    exists (alloc (heap v)), (take (Z.to_nat sz) blk). simpl. split; [done|].
    split; [apply lookup_insert_eq|]. rewrite length_take. lia.
Qed.
End window_facts.

(** ** Facts: connections *)

(** the references that the table of client connections holds *)
Definition crefs (m : gmap Z (option Z)) : list Z := omap id (snd <$> map_to_list m).

Definition nonnull (m : gmap Z (option Z)) : Prop := ∀ n o, m !! n = Some o → is_Some o.

Lemma crefs_insert m n c : crefs (<[n := Some c]> m) ≡ₚ c :: crefs (delete n m).
Proof.
  unfold crefs. rewrite <-insert_delete_eq.
  rewrite (map_to_list_insert (delete n m)) by apply lookup_delete_eq. done.
Qed.

Lemma crefs_lookup m n c : m !! n = Some (Some c) → crefs m ≡ₚ c :: crefs (delete n m).
Proof. intros Hc. rewrite <-(insert_id m n _ Hc) at 1. by rewrite crefs_insert. Qed.

Section conn_facts.
Context `{Heap, Allocator} {S : Type}.
Implicit Types (v : rpcs S).

(** Saving the connection takes one reference for the table and gives back the
    one it replaces. *)
Lemma save_conn_ok v cs n c others :
  conns_ok cs (c :: crefs (conns_ v) ++ others) others → nonnull (conns_ v) →
  ∃ m cs', dispatch_save_conn v cs n c = Done (set_conns v m, cs') ∧
    m !! n = Some (Some c) ∧ nonnull m ∧ conns_ok cs' (c :: crefs m ++ others) others.
Proof.
  intros Hok Hnn. unfold dispatch_save_conn.
  assert (nonnull (<[n := Some c]> (conns_ v))) as Hnn'.
  { intros m o. rewrite lookup_insert. case_decide; [by intros [= <-]|apply Hnn]. }
  destruct (conns_ v !! n) as [[q|]|] eqn:Hn.
  - case_decide as Hq.
    + injection Hq as ->. exists (conns_ v), cs. split; [by destruct v|]. done.
    + eapply conns_ok_perm in Hok; [|by rewrite (crefs_lookup _ n q Hn)].
      eapply conns_ok_perm in Hok; [|apply Permutation_swap].
      destruct (conns_ok_decref cs q _ _ Hok) as (cs1&->&Hok1); [set_solver|]. simpl.
      destruct (conns_ok_incref cs1 c _ _ Hok1) as (cs2&->&Hok2); [set_solver|]. simpl.
      eexists _, cs2. split; [done|]. split; [apply lookup_insert_eq|]. split; [done|].
      eapply conns_ok_perm; [|exact Hok2]. by rewrite crefs_insert.
  - by destruct (Hnn n None Hn).
  - destruct (conns_ok_incref cs c _ _ Hok) as (cs2&->&Hok2); [set_solver|]. simpl.
    eexists _, cs2. split; [done|]. split; [apply lookup_insert_eq|]. split; [done|].
    eapply conns_ok_perm; [|exact Hok2]. rewrite crefs_insert. by rewrite (delete_id _ n Hn).
Qed.

(** The reply goes to the client's latest connection when the request's own is
    dead; a client without a nonce has no entry in the table. *)
Lemma latest_ok v cs n c cc q others :
  conns_ok cs (c :: crefs (conns_ v) ++ others) others → cs !! c = Some cc →
  (cn_dead cc = true → conns_ v !! n = Some (Some q)) →
  ∃ cs' c', dispatch_latest v cs n c = Done (v, cs', c') ∧
    c' = (if cn_dead cc then q else c) ∧
    conns_ok cs' (c' :: crefs (conns_ v) ++ others) others.
Proof.
  intros Hok Hc Hq. unfold dispatch_latest, isdead, deref. rewrite Hc. simpl.
  destruct (cn_dead cc); simpl; [|by exists cs, c]. specialize (Hq eq_refl).
  rewrite Hq. simpl.
  assert (set_conns v (<[n := Some q]> (conns_ v)) = v) as ->.
  { rewrite insert_id by done. by destruct v. }
  case_decide as Hcq; [injection Hcq as ->; by exists cs, c|].
  destruct (conns_ok_decref cs c _ _ Hok) as (cs1&->&Hok1); [set_solver|]. simpl.
  destruct (conns_ok_incref cs1 q _ _ Hok1) as (cs2&->&Hok2).
  { apply elem_of_app. left. rewrite (crefs_lookup _ n q Hq). by left. }
  simpl. by exists cs2, q.
Qed.
End conn_facts.

(** ** Facts: [dispatch] *)

(** The invariant of a server between the steps of its threads: [held] are
    connections and [ps] blocks that threads hold. *)
Definition rpcs_ok {S} (v : rpcs S) (cs : conn_store) (held others ps : list Z) : Prop :=
  window_ok (reply_window_ v) (heap v) ps ∧ nonnull (conns_ v) ∧
  conns_ok cs (held ++ crefs (conns_ v) ++ others) others.

(** the statistics stay inside [int] *)
Definition counts_ok {S} (v : rpcs S) : Prop :=
  INT_MIN < curr_counts_ v ≤ INT_MAX ∧
  ∀ p, INT_MIN ≤ default 0 (counts_ v !! p) < INT_MAX.

(** What [dispatch] relies on in a handler: it terminates on any arguments and
    returns a well-formed reply and an admissible value. *)
Definition handler_ok `{Heap} {S} (f : handler S) : Prop :=
  ∀ s u, cursor_wf u → ∃ s' u' rep ret, f s u marshall_new = Done (s', u', rep, ret) ∧
    marshall_wf rep ∧ RPC_HEADER_SZ ≤ mind rep ≤ MARSHALL_MAX ∧
    (0 ≤ ret ≤ INT_MAX ∨ ret = unmarshal_args_failure).

Section dispatch_facts.
Context `{Heap, Allocator} {S : Type}.
Implicit Types (v : rpcs S).

Lemma error_reply_ok xid ret : is_done (error_reply xid ret).
Proof.
  unfold error_reply.
  destruct (pack_reply_header_spec marshall_new {| rp_xid := xid; rp_ret := ret |})
    as (m&->&_); [apply marshall_new_wf|done|]. by eexists.
Qed.

Lemma new_client_ok v n ps :
  window_ok (reply_window_ v) (heap v) ps →
  ∃ l w, dispatch_new_client v n = set_window v w (heap v) ∧ w !! n = Some l ∧
    window_ok w (heap v) ps ∧ l = default [] (reply_window_ v !! n).
Proof.
  intros Hw. unfold dispatch_new_client. destruct (reply_window_ v !! n) as [l|] eqn:Hl.
  - exists l, (reply_window_ v). split; [by destruct v|done].
  - exists [], (<[n := []]> (reply_window_ v)). split; [done|].
    split; [apply lookup_insert_eq|]. split; [|done]. destruct Hw as [Hown Hw].
    apply (window_ok_replace _ (heap v) _ _ _ ps); [intros m l Hm _; by eapply Hw| |done|..];
      [|constructor..]. by rewrite (delete_id _ n Hl).
Qed.

(** The duplicate check of [dispatch]: total, whatever the request. *)
Lemma dispatch_check_ok v cs j others ps :
  rpcs_ok v cs [jb_conn j] others ps →
  ∃ w h m cs' st, dispatch_check v cs j = Done (set_conns (set_window v w h) m, cs', st) ∧
    rpcs_ok (set_conns (set_window v w h) m) cs' [jb_conn j] others ps ∧
    (rq_clt_nonce (jb_hdr j) = 0 → w = reply_window_ v ∧ h = heap v ∧ m = conns_ v ∧ cs' = cs ∧ st = NEW) ∧
    (rq_clt_nonce (jb_hdr j) ≠ 0 →
     m !! rq_clt_nonce (jb_hdr j) = Some (Some (jb_conn j)) ∧
     ∃ l', w !! rq_clt_nonce (jb_hdr j) = Some l' ∧
       checked (u32 (rq_xid (jb_hdr j))) (u32 (rq_xid_rep (jb_hdr j)))
         (default [] (reply_window_ v !! rq_clt_nonce (jb_hdr j))) l' st ∧
       same_blocks (heap v) h (bufs l')).
Proof.
  intros (Hw&Hnn&Hc). unfold dispatch_check. case_decide as Hn.
  { exists (reply_window_ v), (heap v), (conns_ v), cs, NEW. by split; [destruct v|]. }
  set (n := rq_clt_nonce (jb_hdr j)) in *.
  destruct (new_client_ok v n ps Hw) as (l&w&->&Hl&Hw1&Hlw).
  destruct (save_conn_ok (set_window v w (heap v)) cs n (jb_conn j) others Hc Hnn)
    as (m&cs1&->&Hm&Hnn1&Hc1). simpl.
  destruct (checkduplicate_ok (set_conns (set_window v w (heap v)) m) n l
    (u32 (rq_xid (jb_hdr j))) (u32 (rq_xid_rep (jb_hdr j))) ps Hw1 Hl)
    as (l'&h'&st&->&Hch&Hw2&Hsame). rewrite obind_Done.
  exists (<[n := l']> w), h', m, cs1, st. split; [done|]. split; [done|]. split; [done|]. intros _.
  split; [done|]. exists l'. rewrite <-Hlw. split; [apply lookup_insert_eq|]. split; [done|].
  intros p Hp. apply Hsame, elem_of_app. by left.
Qed.

Lemma updatestat_ok v proc :
  counts_ok v → ∃ c m, updatestat v proc = Done (set_counts v c m).
Proof.
  intros [Hc Hm]. specialize (Hm proc). unfold updatestat.
  rewrite int_result_Done by (unfold is_s32; lia). simpl.
  rewrite int_result_Done by (unfold is_s32; lia). simpl. by eexists _, _.
Qed.

(** the statistics before a new request *)
Lemma new_stat_ok v proc :
  counts_ok v →
  ∃ c m, (if decide (counting_ v = 0) then Done v else updatestat v proc) =
      Done (set_counts v c m) ∧ (counting_ v = 0 → c = curr_counts_ v ∧ m = counts_ v).
Proof.
  intros Hcnt. case_decide; [by exists (curr_counts_ v), (counts_ v); split; [destruct v|]|].
  destruct (updatestat_ok v proc Hcnt) as (c&m&E). by exists c, m.
Qed.

(** The reply as a block of memory. *)
Lemma dispatch_pack_ok v j rep ret ps :
  window_ok (reply_window_ v) (heap v) ps → marshall_wf rep → RPC_HEADER_SZ ≤ mind rep →
  (0 ≤ ret ∨ ret = unmarshal_args_failure) →
  ∃ rep' blk, pack_reply_header rep {| rp_xid := rq_xid (jb_hdr j); rp_ret := ret |} = Done rep' ∧
    dispatch_pack v j rep ret =
      Done (set_window v (reply_window_ v) (<[alloc (heap v) := blk]> (heap v)),
            alloc (heap v), mind rep) ∧
    0 ≤ mind rep ≤ Zlength blk ∧ take (Z.to_nat (mind rep)) blk = marshall_str rep' ∧
    window_ok (reply_window_ v) (<[alloc (heap v) := blk]> (heap v)) (alloc (heap v) :: ps).
Proof.
  intros [Hown Hw] Hwf Hi Hret. unfold dispatch_pack.
  assert (bool_decide (0 ≤ ret) || bool_decide (ret = unmarshal_args_failure) = true) as ->.
  { rewrite orb_true_iff, !bool_decide_eq_true. done. }
  destruct (pack_reply_header_spec rep {| rp_xid := rq_xid (jb_hdr j); rp_ret := ret |} Hwf Hi)
    as (rep'&->&Hwf'&Hi'&_). pose proof Hwf' as (b&Hb&Hlen&Hcap&_).
  exists rep', b. split; [done|]. simpl. unfold marshall_str. rewrite Hb, Hi'. simpl.
  split; [done|]. split; [lia|]. split; [done|].
  destruct (alloc_ok _ _ b Hown) as [Hown' Hsame]. split.
  - eapply owned_ok_perm; [|exact Hown']. apply Permutation_middle.
  - intros n l Hl. destruct (Hw n l Hl) as [? Hent]. split; [done|].
    apply Forall_forall. intros r Hr. eapply Forall_forall in Hent; [|done].
    eapply entry_ok_same; [done|exact Hsame|]. intros p Hp. apply elem_of_app. left.
    by eapply elem_of_all_bufs.
Qed.

(** the entry of the list [l] for [xid] holds the reply [bytes] *)
Definition saved_reply (h : blocks) (l : list reply_t) (xid : Z) (bytes : list byte) : Prop :=
  ∃ l1 r l2, l = l1 ++ r :: l2 ∧ rt_xid r = xid ∧ rt_cb_present r = true ∧
    read_block h (rt_buf r) (rt_sz r) = Done bytes.

(** the part of [dispatch_finish] that records the reply *)
Lemma record_reply_ok v n xid p blk sz ps :
  window_ok (reply_window_ v) (heap v) (p :: ps) → heap v !! p = Some blk →
  0 ≤ sz ≤ Zlength blk → 0 ≤ n →
  (n ≠ 0 → ∃ l, reply_window_ v !! n = Some l ∧ xid ∈ xids l) →
  ∃ w h, (if decide (0 < n) then add_reply v n xid (Some p) sz else Done v) =
      Done (set_window v w h) ∧
    window_ok w h (p :: ps) ∧ h !! p = Some blk ∧
    (n ≠ 0 → ∃ l, w !! n = Some l ∧ saved_reply h l xid (take (Z.to_nat sz) blk) ∧
       xids l = xids (default [] (reply_window_ v !! n))).
Proof.
  intros Hw Hp Hsz Hn Hx. destruct (decide (0 < n)) as [Hpos|].
  2: { exists (reply_window_ v), (heap v). split_and!; try done; [by destruct v|]. intros. lia. }
  destruct Hx as (l&Hl&Hin); [lia|].
  apply list_elem_of_fmap in Hin as (r&->&Hr). apply list_elem_of_split in Hr as (l1&l2&->).
  destruct (add_reply_ok v n (rt_xid r) p blk sz l1 r l2 (p :: ps) Hw Hl eq_refl Hp Hsz)
    as (h'&->&Hw'&Hsame&Hnew).
  eexists _, h'. split; [done|]. split; [done|]. split; [rewrite Hsame; [done|by left]|].
  intros _. eexists. split; [apply lookup_insert_eq|]. split.
  2: { rewrite Hl. simpl. by rewrite !xids_app. }
  exists l1, (filled (heap v) (rt_xid r) sz), l2. split_and!; try done. simpl.
  rewrite Hnew, mem_slice_Done; rewrite ?length_take; [|lia..].
  by rewrite drop_0, firstn_firstn, Nat.min_id.
Qed.

(** After the handler: the reply is saved and sent, the thread's reference to
    the connection is given back. *)
Lemma dispatch_finish_ok v cs j rep ret cc q others ps :
  rpcs_ok v cs [jb_conn j] others ps → cs !! jb_conn j = Some cc →
  marshall_wf rep → RPC_HEADER_SZ ≤ mind rep → (0 ≤ ret ∨ ret = unmarshal_args_failure) →
  0 ≤ rq_clt_nonce (jb_hdr j) →
  (cn_dead cc = true → conns_ v !! rq_clt_nonce (jb_hdr j) = Some (Some q)) →
  (rq_clt_nonce (jb_hdr j) ≠ 0 → ∃ l, reply_window_ v !! rq_clt_nonce (jb_hdr j) = Some l ∧
     u32 (rq_xid (jb_hdr j)) ∈ xids l) →
  ∃ rep' w h cs',
    pack_reply_header rep {| rp_xid := rq_xid (jb_hdr j); rp_ret := ret |} = Done rep' ∧
    dispatch_finish v cs j rep ret = Done (set_window v w h, cs',
      [{| sn_conn := if cn_dead cc then q else jb_conn j; sn_bytes := marshall_str rep' |}]) ∧
    rpcs_ok (set_window v w h) cs' [] others
      (if decide (rq_clt_nonce (jb_hdr j) = 0) then ps else alloc (heap v) :: ps) ∧
    (rq_clt_nonce (jb_hdr j) ≠ 0 → ∃ l, w !! rq_clt_nonce (jb_hdr j) = Some l ∧
       saved_reply h l (u32 (rq_xid (jb_hdr j))) (marshall_str rep') ∧
       xids l = xids (default [] (reply_window_ v !! rq_clt_nonce (jb_hdr j)))).
Proof.
  intros (Hw&Hnn&Hc) Hcc Hwf Hi Hret Hn Hq Hx.
  unfold dispatch_finish, dispatch_record, dispatch_send.
  set (n := rq_clt_nonce (jb_hdr j)) in *. set (xid := u32 (rq_xid (jb_hdr j))) in *.
  destruct (dispatch_pack_ok v j rep ret ps Hw Hwf Hi Hret) as (rep'&blk&Hp&->&Hsz&Hstr&Hw1).
  simpl. set (p := alloc (heap v)) in *. set (h1 := <[p := blk]> (heap v)) in *.
  destruct (record_reply_ok (set_window v (reply_window_ v) h1) n xid p blk (mind rep) ps)
    as (w&h2&->&Hw2&Hp2&Hsaved); [done|apply lookup_insert_eq|done|done|done|]. simpl.
  destruct (latest_ok (set_window v w h2) cs n (jb_conn j) cc q others Hc Hcc Hq)
    as (cs1&c'&E&Hc'&Hok1). unfold set_window in E |- *. simpl in E |- *. rewrite E. simpl.
  rewrite Hp2, mem_slice_Done by lia. rewrite drop_0, Hstr. simpl.
  destruct (conns_ok_decref cs1 c' _ _ Hok1) as (cs2&Hd&Hok2); [set_solver|].
  destruct (decide (n = 0)) as [Hn0|Hn0].
  - simpl. rewrite Hd. simpl. subst c'.
    eexists rep', w, _, cs2. split; [done|]. split; [done|]. split; [|done].
    split; [|by split]. destruct Hw2 as [Hown2 Hw2].
    destruct (free_block_ok h2 (Some p) (all_bufs w ++ ps)) as (h3&Hf&Hown3&Hs3).
    { eapply owned_ok_perm; [|exact Hown2]. by rewrite <-Permutation_middle. }
    simpl in Hf. rewrite Hp2 in Hf. injection Hf as <-. simpl. split; [done|].
    intros m l Hm. destruct (Hw2 m l Hm) as [? Hent]. split; [done|].
    apply Forall_forall. intros r Hr. eapply Forall_forall in Hent; [|done].
    eapply entry_ok_same; [done|exact Hs3|]. intros x Hxp. apply elem_of_app. left.
    by eapply elem_of_all_bufs.
  - simpl. rewrite Hd. simpl. subst c'. eexists rep', w, h2, cs2. split; [done|].
    split; [done|]. split; [by split|]. intros _. rewrite <-Hstr. by apply Hsaved.
Qed.

(** a saved reply can be read *)
Lemma checked_done w h ps n xid xid_rep l l' b sz :
  window_ok w h ps → w !! n = Some l' → checked xid xid_rep l l' (DONE b sz) →
  ∃ bytes, read_block h b sz = Done bytes.
Proof.
  intros [_ Hw] Hl' (l1&r&l2&->&_&Hr&Hv&->). unfold verdict in Hv. rewrite Hr in Hv.
  destruct (decide (xid ≤ xid_rep)); [done|]. destruct (rt_cb_present r) eqn:Hp; [|done].
  injection Hv as -> ->. destruct (Hw n _ Hl') as [_ Hent].
  apply Forall_app in Hent as [_ [Hent _]%Forall_cons]. unfold entry_ok in Hent.
  rewrite Hp in Hent. destruct Hent as (p&blk&->&Hb&Hlen). simpl. rewrite Hb.
  rewrite mem_slice_Done by lia. by eexists.
Qed.

(** the request asks for another server *)
Definition old_instance v (buf : list byte) (sz : Z) : bool :=
  match unpack_req_header (unmarshall_new buf sz) with
  | Done (u, h) => uok u && bool_decide (rq_srv_nonce h ≠ 0) && bool_decide (rq_srv_nonce h ≠ nonce_ v)
  | Fault _ => false
  end.

Lemma rpcs_ok_decref v cs c others ps :
  rpcs_ok v cs [c] others ps → ∃ cs', decref cs c = Done cs' ∧ rpcs_ok v cs' [] others ps.
Proof.
  intros (Hw&Hn&Hc). destruct (conns_ok_decref cs c _ _ Hc) as (cs'&E&Hc'); [set_solver|].
  exists cs'. split; [done|]. by split.
Qed.

Lemma dispatch_header_ok v cs c buf sz others ps :
  rpcs_ok v cs [c] others ps → 0 ≤ sz ≤ Zlength buf → sz ≤ INT_MAX →
  ∃ cs' p, dispatch_header v cs c buf sz = Done (cs', p) ∧
    match p with
    | Finished l => (length l ≤ 1)%nat ∧
        rpcs_ok v cs' (if old_instance v buf sz then [c] else []) others ps
    | Go (j, f) => cs' = cs ∧ jb_conn j = c ∧ cursor_wf (jb_req j) ∧ req_header_ok (jb_hdr j) ∧
        procs_ v !! rq_proc (jb_hdr j) = Some f ∧ old_instance v buf sz = false ∧
        unpack_req_header (unmarshall_new buf sz) = Done (jb_req j, jb_hdr j)
    end.
Proof.
  intros Hok Hsz Hmax. unfold dispatch_header, old_instance.
  destruct (unpack_req_header_total _ (new_cursor_wf buf sz Hsz Hmax)) as (u&h&->&Hu&_&Hh).
  rewrite obind_Done. destruct (rpcs_ok_decref v cs c others ps Hok) as (cs1&Hd&Hok1).
  destruct (uok u); cbn [negb andb].
  2: { rewrite Hd. eexists cs1, _. split; [done|]. simpl. split; [lia|done]. }
  destruct (bool_decide (rq_srv_nonce h ≠ 0) && bool_decide (rq_srv_nonce h ≠ nonce_ v)).
  { destruct (error_reply_ok (rq_xid h) oldsrv_failure) as [b ->]. simpl.
    eexists cs, _. split; [done|]. simpl. split; [lia|done]. }
  destruct (procs_ v !! rq_proc h) as [f|] eqn:Hf.
  - eexists cs, _. split; [done|]. simpl. by split_and!.
  - rewrite Hd. simpl. eexists cs1, _. split; [done|]. simpl. split; [lia|done].
Qed.
End dispatch_facts.

(** ** Theorems *)

Section theorems.
Context `{Heap, Allocator} {S : Type}.
Implicit Types (v : rpcs S).


(** one entry per xid *)
Lemma entry_unique l r1 r2 :
  NoDup (xids l) → r1 ∈ l → r2 ∈ l → rt_xid r1 = rt_xid r2 → r1 = r2.
Proof.
  induction l as [|r l IH]; [set_solver|]. intros [Hr Hl]%NoDup_cons H1 H2 Hx.
  apply elem_of_cons in H1 as [->|H1], H2 as [->|H2]; try done.
  - destruct Hr. rewrite Hx. by apply list_elem_of_fmap_2.
  - destruct Hr. rewrite <-Hx. by apply list_elem_of_fmap_2.
  - by apply IH.
Qed.

(** the verdict on a request whose reply is saved *)
Lemma checked_saved h xid xid_rep l l' st bytes :
  NoDup (xids l) → checked xid xid_rep l l' st → saved_reply h l xid bytes → xid_rep < xid →
  ∃ r, r ∈ l' ∧ rt_xid r = xid ∧ rt_cb_present r = true ∧
    st = DONE (rt_buf r) (rt_sz r) ∧ read_block h (rt_buf r) (rt_sz r) = Done bytes.
Proof.
  intros Hnd Hch (k1&r&k2&Hl&Hx&Hp&Hrd) Hlt.
  assert (r ∈ l) as Hr by (rewrite Hl; set_solver).
  assert (xid ∈ xids l) as Hxl by (rewrite <-Hx; by apply list_elem_of_fmap_2).
  destruct (decide (st = NEW)) as [->|Hst]; [by destruct Hch as [? _]|].
  assert (scanned xid xid_rep l l' (Some st)) as (l1&r0&l2&Hl0&_&Hx0&->&->) by (by destruct st).
  assert (r0 = r) as ->.
  { apply (entry_unique l); [done|rewrite Hl0; set_solver|done|congruence]. }
  exists r. rewrite decide_False by lia. split; [set_solver|]. split_and!; try done.
  unfold verdict. rewrite decide_False by lia. by rewrite Hp.
Qed.

(** A request seen for the first time, in detail: the new state of the server. *)
Lemma dispatch_new v cs s c buf sz others ps j f s' u' rep ret :
  rpcs_ok v cs [c] others ps → counts_ok v → 0 ≤ sz ≤ Zlength buf → sz ≤ INT_MAX →
  dispatch_header v cs c buf sz = Done (cs, Go (j, f)) → rq_clt_nonce (jb_hdr j) ≠ 0 →
  u32 (rq_xid (jb_hdr j)) ∉ xids (default [] (reply_window_ v !! rq_clt_nonce (jb_hdr j))) →
  f s (jb_req j) marshall_new = Done (s', u', rep, ret) →
  marshall_wf rep → RPC_HEADER_SZ ≤ mind rep → (0 ≤ ret ∨ ret = unmarshal_args_failure) →
  ∃ w h m k n cs' rep' l b,
    let v' := set_window (set_counts (set_conns v m) k n) w h in
    dispatch v cs s c buf sz =
      Done (v', cs', s', [{| sn_conn := c; sn_bytes := marshall_str rep' |}]) ∧
    pack_reply_header rep {| rp_xid := rq_xid (jb_hdr j); rp_ret := ret |} = Done rep' ∧
    w !! rq_clt_nonce (jb_hdr j) = Some l ∧
    saved_reply h l (u32 (rq_xid (jb_hdr j))) (marshall_str rep') ∧
    (∀ x, x ∈ xids l → x = u32 (rq_xid (jb_hdr j)) ∨
       x ∈ xids (default [] (reply_window_ v !! rq_clt_nonce (jb_hdr j)))) ∧
    rpcs_ok v' cs' [] others (b :: ps) ∧
    (counting_ v = 0 → k = curr_counts_ v ∧ n = counts_ v).
Proof.
  intros Hok Hcnt Hsz Hmax Hhd Hn Hx Hf Hwf Hi Hret.
  destruct (dispatch_header_ok v cs c buf sz others ps Hok Hsz Hmax) as (cs1&p&E&Hp).
  rewrite Hhd in E. injection E as <- <-. destruct Hp as (_&<-&_&Hh&_).
  unfold dispatch. rewrite Hhd, obind_Done.
  destruct (dispatch_check_ok v cs j others ps Hok) as (w&h&m&cs2&st&->&Hok2&_&Hnz).
  destruct (Hnz Hn) as (Hm&l'&Hl'&Hch&_). rewrite obind_Done.
  set (v2 := set_conns (set_window v w h) m) in *.
  assert (st = NEW) as ->.
  { destruct st; [done|..]; destruct Hch as (l1&r&l2&E&_&Hr&_);
      exfalso; apply Hx; rewrite E, xids_app; apply elem_of_app; right; rewrite <-Hr; by left. }
  destruct Hch as [_ ->].
  destruct (new_stat_ok v2 (rq_proc (jb_hdr j)) Hcnt) as (k&m'&Hstat&Hk).
  unfold dispatch_verdict. rewrite Hstat. cbn [obind]. rewrite Hf. cbn [obind].
  pose proof Hok2 as (_&_&Hc2).
  destruct (conns_ok_deref cs2 (jb_conn j) _ _ Hc2) as (cc2&_&Hcc2); [simpl; set_solver|].
  destruct (dispatch_finish_ok (set_counts v2 k m') cs2 j rep ret cc2 (jb_conn j) others ps)
    as (rep'&w'&h'&cs'&Hpk&->&Hok'&Hsv); try done.
  - by destruct Hh as (_&_&[? _]&_).
  - intros _. eexists. split; [exact Hl'|]. rewrite xids_app. apply elem_of_app. right. by left.
  - rewrite decide_False in Hok' by done. destruct (Hsv Hn) as (l&Hl&Hs&Hxs).
    eexists w', h', m, k, m', cs', rep', l, _. cbv zeta.
    split; [by destruct (cn_dead cc2)|]. split; [done|]. split; [done|]. split; [done|].
    split; [|by split]. simpl in Hxs. rewrite Hl' in Hxs. simpl in Hxs. intros x.
    rewrite Hxs, xids_app, elem_of_app. intros [Hu|Hu%list_elem_of_singleton]; [|by left].
    right. by apply unacked_xids in Hu.
Qed.

(** C9. A request seen for the first time: the handler runs once, on the bytes after
    the header; the reply that is sent is saved in the client's window.  (The
    block [b] from [take_buf], of which the window holds a copy, belongs to
    nobody afterwards: it leaks.) *)
Theorem dispatch_new_request v cs s c buf sz others ps j f s' u' rep ret :
  rpcs_ok v cs [c] others ps → counts_ok v → 0 ≤ sz ≤ Zlength buf → sz ≤ INT_MAX →
  dispatch_header v cs c buf sz = Done (cs, Go (j, f)) → rq_clt_nonce (jb_hdr j) ≠ 0 →
  u32 (rq_xid (jb_hdr j)) ∉ xids (default [] (reply_window_ v !! rq_clt_nonce (jb_hdr j))) →
  f s (jb_req j) marshall_new = Done (s', u', rep, ret) →
  marshall_wf rep → RPC_HEADER_SZ ≤ mind rep → (0 ≤ ret ∨ ret = unmarshal_args_failure) →
  ∃ v' cs' rep' l b, dispatch v cs s c buf sz =
      Done (v', cs', s', [{| sn_conn := c; sn_bytes := marshall_str rep' |}]) ∧
    pack_reply_header rep {| rp_xid := rq_xid (jb_hdr j); rp_ret := ret |} = Done rep' ∧
    reply_window_ v' !! rq_clt_nonce (jb_hdr j) = Some l ∧
    saved_reply (heap v') l (u32 (rq_xid (jb_hdr j))) (marshall_str rep') ∧
    rpcs_ok v' cs' [] others (b :: ps).
Proof.
  intros Hok Hcnt Hsz Hmax Hhd Hn Hx Hf Hwf Hi Hret.
  destruct (dispatch_new v cs s c buf sz others ps j f s' u' rep ret Hok Hcnt Hsz Hmax Hhd Hn Hx
    Hf Hwf Hi Hret) as (w&h&m&k&n&cs'&rep'&l&b&E&Hp&Hl&Hs&_&Hok'&_).
  eexists _, cs', rep', l, b. by split_and!.
Qed.

(** C10. A duplicate of a request that was answered: the saved reply is sent again, the
    handler does not run, and the reply stays saved. *)
Theorem dispatch_duplicate v cs s c buf sz others ps j f l bytes :
  rpcs_ok v cs [c] others ps → 0 ≤ sz ≤ Zlength buf → sz ≤ INT_MAX →
  dispatch_header v cs c buf sz = Done (cs, Go (j, f)) → rq_clt_nonce (jb_hdr j) ≠ 0 →
  reply_window_ v !! rq_clt_nonce (jb_hdr j) = Some l →
  saved_reply (heap v) l (u32 (rq_xid (jb_hdr j))) bytes →
  u32 (rq_xid_rep (jb_hdr j)) < u32 (rq_xid (jb_hdr j)) →
  ∃ v' cs', dispatch v cs s c buf sz =
      Done (v', cs', s, [{| sn_conn := c; sn_bytes := bytes |}]) ∧
    rpcs_ok v' cs' [] others ps ∧
    ∃ l', reply_window_ v' !! rq_clt_nonce (jb_hdr j) = Some l' ∧
      saved_reply (heap v') l' (u32 (rq_xid (jb_hdr j))) bytes.
Proof.
  intros Hok Hsz Hmax Hhd Hn Hl Hsv Hlt.
  destruct (dispatch_header_ok v cs c buf sz others ps Hok Hsz Hmax) as (cs1&p&E&Hp).
  rewrite Hhd in E. injection E as <- <-. destruct Hp as (_&<-&_).
  unfold dispatch. rewrite Hhd, obind_Done.
  destruct (dispatch_check_ok v cs j others ps Hok) as (w&h&m&cs2&st&->&Hok2&_&Hnz).
  destruct (Hnz Hn) as (Hm&l'&Hl'&Hch&Hsame). rewrite obind_Done. rewrite Hl in Hch. simpl in Hch.
  assert (NoDup (xids l)) as Hnd by (by eapply Hok).
  destruct (checked_saved _ _ _ _ _ _ _ Hnd Hch Hsv Hlt) as (r&Hr&Hx&Hpr&->&Hrd).
  set (v2 := set_conns (set_window v w h) m) in *.
  destruct (rpcs_ok_decref v2 cs2 _ others ps Hok2) as (cs3&Hd3&Hok3).
  assert (read_block h (rt_buf r) (rt_sz r) = Done bytes) as Hrd'.
  { destruct (rt_buf r) as [q|] eqn:Hq; [|done]. simpl in *. rewrite Hsame; [done|].
    apply list_elem_of_omap. eauto. }
  unfold dispatch_verdict. change (heap v2) with h. rewrite Hrd'. cbn [obind].
  rewrite Hd3. cbn [obind]. exists v2, cs3. split; [done|]. split; [done|].
  exists l'. split; [done|]. apply list_elem_of_split in Hr as (l1&l2&->).
  by exists l1, r, l2.
Qed.

(** A client without a nonce (one made with [retrans] false) whose connection has
    died before its reply is ready crashes the server: [conns_[0]] is a null
    pointer. *)
Theorem dispatch_no_nonce_dead v cs s c cc buf sz others ps j f s' u' rep ret :
  rpcs_ok v cs [c] others ps → counts_ok v → 0 ≤ sz ≤ Zlength buf → sz ≤ INT_MAX →
  dispatch_header v cs c buf sz = Done (cs, Go (j, f)) → rq_clt_nonce (jb_hdr j) = 0 →
  conns_ v !! 0 = None → cs !! c = Some cc → cn_dead cc = true →
  f s (jb_req j) marshall_new = Done (s', u', rep, ret) →
  marshall_wf rep → RPC_HEADER_SZ ≤ mind rep → (0 ≤ ret ∨ ret = unmarshal_args_failure) →
  dispatch v cs s c buf sz = Fault NullDeref.
Proof.
  intros Hok Hcnt Hsz Hmax Hhd Hn H0n Hcc Hdead Hf Hwf Hi Hret.
  destruct (dispatch_header_ok v cs c buf sz others ps Hok Hsz Hmax) as (cs1&p&E&Hp).
  rewrite Hhd in E. injection E as <- <-. destruct Hp as (_&<-&_).
  unfold dispatch. rewrite Hhd, obind_Done. unfold dispatch_check. rewrite decide_True by done.
  assert (∃ c m', (if decide (counting_ v = 0) then Done v else updatestat v (rq_proc (jb_hdr j)))
    = Done (set_counts v c m')) as (k&m'&Hstat).
  { case_decide; [by exists (curr_counts_ v), (counts_ v); destruct v|]. by apply updatestat_ok. }
  unfold dispatch_verdict. cbn [obind]. rewrite Hstat. cbn [obind]. rewrite Hf. cbn [obind].
  unfold dispatch_finish, dispatch_record, dispatch_send. rewrite Hn. destruct Hok as (Hw&_&Hc).
  destruct (dispatch_pack_ok (set_counts v k m') j rep ret ps Hw Hwf Hi Hret)
    as (rep'&blk&_&->&_). cbn [obind]. simpl (decide (0 < 0)). cbn [obind].
  unfold dispatch_latest, isdead, deref. rewrite Hcc. simpl. rewrite Hdead. simpl.
  rewrite H0n. simpl. destruct (conns_ok_decref cs _ _ _ Hc) as (cs2&->&_); [set_solver|]. done.
Qed.

Lemma free_replies_ok l h ps :
  owned_ok h (bufs l ++ ps) →
  ∃ h', free_replies l h = Done h' ∧ owned_ok h' ps ∧ same_blocks h h' ps ∧
    dom h' = dom h ∖ list_to_set (bufs l).
Proof.
  revert h. induction l as [|r l IH]; intros h Hok; simpl.
  { exists h. split_and!; try done. set_solver. }
  rewrite bufs_cons, <-app_assoc in Hok.
  destruct (free_block_ok _ _ _ Hok) as (h1&Hf&Hok1&Hs1). rewrite Hf. simpl.
  destruct (IH h1 Hok1) as (h2&->&Hok2&Hs2&Hd). exists h2. split; [done|]. split; [done|].
  split.
  { intros p Hp. rewrite Hs2 by done. apply Hs1, elem_of_app. by right. }
  rewrite Hd. destruct (rt_buf r) as [p|]; simpl in Hf.
  - destruct (h !! p); [|done]. injection Hf as <-. rewrite dom_delete_L. set_solver.
  - injection Hf as <-. set_solver.
Qed.

(** The destructor's [free_reply_window] frees every saved reply, each once, and
    nothing else. *)
Theorem free_reply_window_exact v ps :
  window_ok (reply_window_ v) (heap v) ps →
  ∃ v', free_reply_window v = Done v' ∧ reply_window_ v' = ∅ ∧
    dom (heap v') = dom (heap v) ∖ list_to_set (all_bufs (reply_window_ v)) ∧
    same_blocks (heap v) (heap v') ps.
Proof.
  intros [Hown _].
  assert (bufs (mjoin (snd <$> map_to_list (reply_window_ v))) = all_bufs (reply_window_ v)) as Hb.
  { unfold all_bufs. generalize (map_to_list (reply_window_ v)) as m. intros m.
    induction m as [|[n l] m IH]; [done|]. simpl. rewrite bufs_app. f_equal. exact IH. }
  rewrite <-Hb in *. destruct (free_replies_ok _ _ _ Hown) as (h'&E&_&Hs&Hd).
  unfold free_reply_window. rewrite E. simpl. eexists. split; [done|]. simpl. by split_and!.
Qed.
End theorems.

(** ** Witnesses *)

#[local] Existing Instance zero_heap.

Definition fresh_allocator : Allocator.
Proof.
  refine {| alloc h := fresh (dom h) |}. intros h. apply not_elem_of_dom, is_fresh.
Defined.
#[local] Existing Instance fresh_allocator.

(** a server with one procedure, 22, that counts its runs *)
Definition sample_handler : handler Z := λ s u m, Done (s + 1, u, m, 0).

Definition sample_server : rpcs Z :=
  {| nonce_ := 9; reply_window_ := ∅; heap := ∅; conns_ := ∅; counting_ := 0;
     curr_counts_ := 0; counts_ := ∅; procs_ := {[ 22 := sample_handler ]} |}.

Definition sample_conns (dead : bool) : conn_store :=
  {[ 1 := if dead then set_dead (connection_new 5 0) else connection_new 5 0 ]}.

(** xid 1, procedure 22, the client's nonce, the server's nonce, xid_rep 0 *)
Definition sample_request (clt : Z) : list byte :=
  be32 24 ++ be32 1 ++ be32 22 ++ be32 clt ++ be32 9 ++ be32 0.

Lemma sample_server_ok dead : rpcs_ok sample_server (sample_conns dead) [1] [] [].
Proof.
  split; [|split; [done|split; [split|]]].
  - split; [by split; [constructor|set_solver]|done].
  - intros p Hp. assert (p = 1) as -> by (apply list_elem_of_singleton; exact Hp). done.
  - unfold sample_conns. intros p c [<- <-]%lookup_singleton_Some. by destruct dead.
  - unfold sample_conns. intros p c [<- <-]%lookup_singleton_Some. by destruct dead.
Qed.

Lemma sample_counts : counts_ok sample_server.
Proof.
  split; [|intros p; change (INT_MIN ≤ default 0 ((∅ : gmap Z Z) !! p) < INT_MAX);
    rewrite lookup_empty]; simpl; unfold INT_MIN, INT_MAX; lia.
Qed.

Lemma sample_handler_ok : handler_ok sample_handler.
Proof.
  intros s u _. eexists _, _, _, _. split; [done|]. split; [apply marshall_new_wf|].
  split; [split; vm_compute; discriminate|left; split; vm_compute; discriminate].
Qed.

Lemma sample_procs_ok p f : procs_ sample_server !! p = Some f → handler_ok f.
Proof.
  change (({[22 := sample_handler]} : gmap Z (handler Z)) !! p = Some f → handler_ok f).
  intros [_ <-]%lookup_singleton_Some. apply sample_handler_ok.
Qed.


Definition sample_job (clt : Z) : job :=
  {| jb_conn := 1;
     jb_hdr := {| rq_xid := 1; rq_proc := 22; rq_clt_nonce := clt; rq_srv_nonce := 9;
                  rq_xid_rep := 0 |};
     jb_req := set_uind (unmarshall_new (sample_request clt) 24) 24 |}.

Lemma dispatch_new_request_witness :
  ∃ v' cs' rep' l b, dispatch sample_server (sample_conns false) 6 1 (sample_request 77) 24 =
      Done (v', cs', 7, [{| sn_conn := 1; sn_bytes := marshall_str rep' |}]) ∧
    pack_reply_header marshall_new {| rp_xid := 1; rp_ret := 0 |} = Done rep' ∧
    reply_window_ v' !! 77 = Some l ∧ saved_reply (heap v') l 1 (marshall_str rep') ∧
    rpcs_ok v' cs' [] [] [b].
Proof.
  apply (dispatch_new_request sample_server (sample_conns false) 6 1 (sample_request 77) 24
    [] [] (sample_job 77) sample_handler 7 (jb_req (sample_job 77)));
    first [done | apply sample_server_ok | apply sample_counts | apply marshall_new_wf
          | by left | by vm_compute | set_solver].
Defined.

(** the same server after it answered *)
Definition sample_answered : rpcs Z :=
  set_window sample_server
    {[ 77 := [ {| rt_xid := 1; rt_cb_present := true; rt_buf := Some 4; rt_sz := 8 |} ] ]}
    {[ 4 := be32 5 ++ be32 6 ]}.

Lemma sample_answered_ok : rpcs_ok sample_answered (sample_conns false) [1] [] [].
Proof.
  destruct (sample_server_ok false) as (_&Hn&Hc). split; [|by split]. split.
  - unfold sample_answered, set_window, all_bufs. simpl reply_window_. rewrite map_to_list_singleton.
    split; [apply NoDup_singleton|]. intros p Hp. apply list_elem_of_singleton in Hp as ->. done.
  - unfold sample_answered. simpl. intros n l [<- <-]%lookup_singleton_Some.
    split; [apply NoDup_singleton|]. constructor; [|constructor]. exists 4, (be32 5 ++ be32 6). done.
Qed.

Lemma dispatch_duplicate_witness :
  ∃ v' cs', dispatch sample_answered (sample_conns false) 7 1 (sample_request 77) 24 =
      Done (v', cs', 7, [{| sn_conn := 1; sn_bytes := be32 5 ++ be32 6 |}]) ∧
    rpcs_ok v' cs' [] [] [] ∧
    ∃ l', reply_window_ v' !! 77 = Some l' ∧ saved_reply (heap v') l' 1 (be32 5 ++ be32 6).
Proof.
  apply (dispatch_duplicate sample_answered (sample_conns false) 7 1 (sample_request 77) 24
    [] [] (sample_job 77) sample_handler
    [ {| rt_xid := 1; rt_cb_present := true; rt_buf := Some 4; rt_sz := 8 |} ]);
    first [done | apply sample_answered_ok | by vm_compute | eexists [], _, []; by split_and!].
Defined.

Lemma dispatch_no_nonce_dead_witness :
  dispatch sample_server (sample_conns true) 6 1 (sample_request 0) 24 = Fault NullDeref.
Proof.
  apply (dispatch_no_nonce_dead sample_server (sample_conns true) 6 1
    (set_dead (connection_new 5 0)) (sample_request 0) 24 [] [] (sample_job 0) sample_handler
    7 (jb_req (sample_job 0)) marshall_new 0); 
    first [done | apply sample_server_ok | apply sample_counts | apply marshall_new_wf
          | by left | by vm_compute].
Defined.

Lemma free_reply_window_exact_witness :
  ∃ v', free_reply_window sample_answered = Done v' ∧ reply_window_ v' = ∅ ∧
    dom (heap v') = dom (heap sample_answered) ∖
      list_to_set (all_bufs (reply_window_ sample_answered)) ∧
    same_blocks (heap sample_answered) (heap v') [].
Proof. apply free_reply_window_exact, sample_answered_ok. Defined.

(** registering a procedure under a new number *)
Lemma reg_new `{Heap} {S As R} (v : rpcs S) proc (ps : params As) (cr : codec R) meth :
  s32 proc = proc → procs_ v !! proc = None →
  reg v proc ps cr meth = Done (set_procs v (<[proc := h1_fn ps cr meth]> (procs_ v))).
Proof. intros E Hp. unfold reg, reg1. rewrite E. by rewrite bool_decide_eq_true_2. Qed.

(** a chain of registrations under distinct numbers, and a lookup in its table *)
Ltac register :=
  repeat (rewrite reg_new; [|done|by repeat (rewrite lookup_insert_ne by done)]; cbn [obind]).
Ltac find_proc := repeat (rewrite lookup_insert_ne by done); apply lookup_insert_eq.

(** ** The transport to a server: requests reach the handler that it registered for
    their number; a request for another number is dropped, and the call times out *)

Definition registered_call1 {H : Heap} {S} (hd : Z → req_header) (v : rpcs S) (proc : Z) :
    transport S :=
  match procs_ v !! proc with
  | Some f => loopback (hd proc) f
  | None => λ w _ u, Done (w, u, timeout_failure)
  end.

Lemma registered_call1_spec {H : Heap} {S} (hd : Z → req_header) (v : rpcs S) proc f :
  procs_ v !! proc = Some f → registered_call1 hd v proc = loopback (hd proc) f.
Proof. intros E. unfold registered_call1. by rewrite E. Qed.
