(* ===== verification/Shutdown.v ===== *)
(** * The end of a server: [~rpcs()] of [rpc/rpc.cc]

    The destructor deletes the listener ([close_all] of [Listener.v]), then the
    thread pool, which runs the requests that are still queued, and frees the
    reply window ([Rpcs.v]). *)

From S2P Require Import Prelude Marshall Connection Listener Rpcs.

(** ** Definitions *)

Section rpcs_delete.
Context `{Heap, Allocator} {S : Type}.
Implicit Types (v : rpcs S).

(** the jobs that [~ThrPool()] leaves to the workers, here one after the other *)
Fixpoint run_jobs v (cs : conn_store) (s : S) (jobs : list (Z * list byte * Z))
    : outcome (rpcs S * conn_store * S) :=
  match jobs with
  | [] => Done (v, cs, s)
  | (c, b, sz) :: jobs =>
      let! '(v, cs, s, _) := dispatch v cs s c b sz in run_jobs v cs s jobs
  end.

(** [l] are the connections of the listener *)
Definition rpcs_delete v (cs : conn_store) (s : S) (l : list (Z * Z))
    (jobs : list (Z * list byte * Z)) : outcome (rpcs S * conn_store * S) :=
  let! cs := close_all cs l in
  let! '(v, cs, s) := run_jobs v cs s jobs in
  let! v := free_reply_window v in
  Done (v, cs, s).

(** ** Theorems *)

(** Deleting a server without pending requests closes every connection, frees every
    saved reply once, and deletes the connections that no client had made a
    request on.  The others are in [conns_], whose references nobody gives back:
    each of them is closed, and leaked. *)
Theorem rpcs_delete_leaks v cs s l ps :
  window_ok (reply_window_ v) (heap v) ps →
  conns_ok cs (l.*2 ++ crefs (conns_ v)) [] →
  ∃ v' cs', rpcs_delete v cs s l [] = Done (v', cs', s) ∧
    reply_window_ v' = ∅ ∧
    dom (heap v') = dom (heap v) ∖ list_to_set (all_bufs (reply_window_ v)) ∧
    (∀ p, p ∈ l.*2 → p ∉ crefs (conns_ v) → cs' !! p = None) ∧
    (∀ p, p ∈ l.*2 → p ∈ crefs (conns_ v) → ∃ c, cs' !! p = Some c ∧ cn_dead c = true).
Proof.
  intros Hw Hok.
  destruct (close_all_spec cs l _ [] Hok) as (cs'&E&Hok'&Hl&_);
    [by intros q ?%elem_of_nil|].
  destruct (free_reply_window_exact v ps Hw) as (v'&Ev&?&?&_).
  exists v', cs'. unfold rpcs_delete. rewrite E. cbn. rewrite Ev. split_and!; try done.
  - intros p Hp Hn. by apply Hl.
  - intros p Hp Hc. destruct (conns_ok_deref cs' p _ [] Hok' Hc) as (c&_&Ec).
    exists c. split; [done|]. by apply (proj1 (Hl p Hp)).
Qed.

End rpcs_delete.

(** ** Witnesses *)

#[local] Existing Instance zero_heap.
#[local] Existing Instance fresh_allocator.

(** two connections, of which the client with nonce 77 uses the first *)
Definition two_conns : conn_store :=
  <[1 := set_refno (connection_new 5 0) 2]> {[ 2 := connection_new 6 0 ]}.
Definition used_server : rpcs Z := set_conns sample_answered {[ 77 := Some 1 ]}.

Lemma two_conns_ok : conns_ok two_conns [1; 2; 1] [].
Proof.
  unfold two_conns. split; [split|].
  - intros p Hp. rewrite lookup_insert. case_decide; [done|].
    assert (p = 2) as -> by set_solver. done.
  - intros p c. rewrite lookup_insert. case_decide as E.
    + intros [= <-]. by subst p.
    + intros [<- <-]%lookup_singleton_Some. done.
  - intros p c. rewrite lookup_insert. case_decide as E.
    + intros [= <-] Hw. by destruct Hw.
    + intros [<- <-]%lookup_singleton_Some Hw. by destruct Hw.
Qed.

Lemma rpcs_delete_leaks_witness :
  ∃ v' cs', rpcs_delete used_server two_conns 6 [(5, 1); (6, 2)] [] = Done (v', cs', 6) ∧
    reply_window_ v' = ∅ ∧
    dom (heap v') = dom (heap used_server) ∖
      list_to_set (all_bufs (reply_window_ used_server)) ∧
    (∀ p, p ∈ [1; 2] → p ∉ crefs (conns_ used_server) → cs' !! p = None) ∧
    (∀ p, p ∈ [1; 2] → p ∈ crefs (conns_ used_server) →
       ∃ c, cs' !! p = Some c ∧ cn_dead c = true).
Proof.
  apply (rpcs_delete_leaks used_server two_conns 6 [(5, 1); (6, 2)] []).
  - exact (proj1 sample_answered_ok).
  - apply two_conns_ok.
Defined.

(** a request of a client without a nonce, queued when the server is deleted *)
Example rpcs_delete_pending_no_nonce :
  rpcs_delete sample_server {[ 1 := set_refno (connection_new 5 0) 2 ]} 6 [(5, 1)]
    [(1, sample_request 0, 24)] = Fault NullDeref.
Proof. vm_compute. reflexivity. Qed.
