(* ===== verification/AtMostOnce.v ===== *)
(** * At-most-once execution: one client, a server and the network between

    The transition system of an [rpcc] endpoint and an [rpcs] endpoint.  Every
    transition is a critical section of [Rpcc.v] or [Rpcs.v]; any number of server
    threads interleave.  The network is the set of PDUs ever sent: it may lose,
    delay, duplicate and reorder them, as a client's old and new connections
    together can.  Other clients are arbitrary requests with another nonce. *)

From S2P Require Import Prelude Marshall Codec Stubs Connection Rpcc Rpcs.

(** ** The system *)

(** where a server thread stands in [dispatch] *)
Inductive pc (S : Type) :=
  | PStart (b : list byte) (c : Z)
  | PClient (j : job) (f : handler S)
  | PConn (j : job) (f : handler S)
  | PCheck (j : job) (f : handler S)
  | PVerdict (j : job) (f : handler S) (st : rpcstate_t)
  | PRun (j : job) (f : handler S)
  | PPack (j : job) (rep : marshall) (ret : Z)
  | PRecord (j : job) (b1 sz1 : Z)
  | PSend (j : job) (b1 sz1 : Z)
  | PEnd.
Arguments PStart {S} _ _.
Arguments PClient {S} _ _.
Arguments PConn {S} _ _.
Arguments PCheck {S} _ _.
Arguments PVerdict {S} _ _ _.
Arguments PRun {S} _ _.
Arguments PPack {S} _ _ _.
Arguments PRecord {S} _ _ _.
Arguments PSend {S} _ _ _.
Arguments PEnd {S}.

(** one run of a handler: the client's nonce, the xid, the return value *)
Record run := Run { rn_clt : Z; rn_xid : Z; rn_ret : Z }.

#[export] Instance run_eq_dec : EqDecision run.
Proof. solve_decision. Defined.

Record sys (S : Type) := Sys {
  sy_cl : rpcc;
  sy_calls : nat;                   (**r calls made so far *)
  sy_reqs : list (list byte);       (**r requests of this client *)
  sy_replies : list (list byte);    (**r what was sent in answer to them *)
  sy_srv : rpcs S; sy_conns : conn_store; sy_app : S;
  sy_threads : list (pc S);
  sy_runs : list run;
  sy_hist : blocks                  (**r every block ever allocated *) }.
Arguments Sys {S} _ _ _ _ _ _ _ _ _ _.
Arguments sy_cl {S} _.
Arguments sy_calls {S} _.
Arguments sy_reqs {S} _.
Arguments sy_replies {S} _.
Arguments sy_srv {S} _.
Arguments sy_conns {S} _.
Arguments sy_app {S} _.
Arguments sy_threads {S} _.
Arguments sy_runs {S} _.
Arguments sy_hist {S} _.

Definition nonce_of (b : list byte) : option Z :=
  match unpack_req_header (unmarshall_new b (Zlength b)) with
  | Done (u, h) => if uok u then Some (rq_clt_nonce h) else None
  | Fault _ => None
  end.

Section system.
Context `{Heap, Allocator} {S : Type}.

(** the result of one step of a thread *)
Record stepped := Stepped {
  sp_srv : rpcs S; sp_conns : conn_store; sp_app : S; sp_pc : pc S;
  sp_clt : option Z; sp_sent : list sent; sp_run : list run }.

Definition silent_step v cs s p : stepped :=
  {| sp_srv := v; sp_conns := cs; sp_app := s; sp_pc := p; sp_clt := None; sp_sent := [];
     sp_run := [] |}.

(** one critical section of [dispatch] *)
Definition thread_step (v : rpcs S) (cs : conn_store) (s : S) (p : pc S) : outcome stepped :=
  match p with
  | PStart b c =>
      let! '(cs, r) := dispatch_header v cs c b (Zlength b) in
      match r with
      | Finished l => Done {| sp_srv := v; sp_conns := cs; sp_app := s; sp_pc := PEnd;
                              sp_clt := nonce_of b; sp_sent := l; sp_run := [] |}
      | Go (j, f) => Done (silent_step v cs s (PClient j f))
      end
  | PClient j f =>
      if decide (rq_clt_nonce (jb_hdr j) = 0) then Done (silent_step v cs s (PVerdict j f NEW))
      else Done (silent_step (dispatch_new_client v (rq_clt_nonce (jb_hdr j))) cs s (PConn j f))
  | PConn j f =>
      let! '(v, cs) := dispatch_save_conn v cs (rq_clt_nonce (jb_hdr j)) (jb_conn j) in
      Done (silent_step v cs s (PCheck j f))
  | PCheck j f =>
      let! '(v, st) := checkduplicate_and_update v (rq_clt_nonce (jb_hdr j))
                         (u32 (rq_xid (jb_hdr j))) (u32 (rq_xid_rep (jb_hdr j))) in
      Done (silent_step v cs s (PVerdict j f st))
  | PVerdict j f st =>
      let! '(v, cs, r) := dispatch_verdict v cs j st in
      match r with
      | Finished l => Done {| sp_srv := v; sp_conns := cs; sp_app := s; sp_pc := PEnd;
                              sp_clt := Some (rq_clt_nonce (jb_hdr j)); sp_sent := l;
                              sp_run := [] |}
      | Go _ => Done (silent_step v cs s (PRun j f))
      end
  | PRun j f =>
      let! '(s, _, rep, ret) := f s (jb_req j) marshall_new in
      Done {| sp_srv := v; sp_conns := cs; sp_app := s; sp_pc := PPack j rep ret;
              sp_clt := None; sp_sent := [];
              sp_run := [ {| rn_clt := rq_clt_nonce (jb_hdr j);
                             rn_xid := u32 (rq_xid (jb_hdr j)); rn_ret := ret |} ] |}
  | PPack j rep ret =>
      let! '(v, b1, sz1) := dispatch_pack v j rep ret in
      Done (silent_step v cs s (PRecord j b1 sz1))
  | PRecord j b1 sz1 =>
      let! v := dispatch_record v j b1 sz1 in
      Done (silent_step v cs s (PSend j b1 sz1))
  | PSend j b1 sz1 =>
      let! '(v, cs, l) := dispatch_send v cs j b1 sz1 in
      Done {| sp_srv := v; sp_conns := cs; sp_app := s; sp_pc := PEnd;
              sp_clt := Some (rq_clt_nonce (jb_hdr j)); sp_sent := l; sp_run := [] |}
  | PEnd => Done (silent_step v cs s PEnd)
  end.

(** a thread that is not interrupted *)
Fixpoint run_alone (fuel : nat) (v : rpcs S) (cs : conn_store) (s : S) (p : pc S)
    : outcome (rpcs S * conn_store * S * list sent) :=
  match fuel with
  | O => Done (v, cs, s, [])
  | Datatypes.S fuel =>
      let! r := thread_step v cs s p in
      let! '(v, cs, s, l) := run_alone fuel (sp_srv r) (sp_conns r) (sp_app r) (sp_pc r) in
      Done (v, cs, s, sp_sent r ++ l)
  end.

Inductive action :=
  | ACall (proc : Z) (args : list byte)   (**r a thread of the client enters [call1] *)
  | AReply (i : nat)                      (**r the [i]-th reply arrives at the client *)
  | ALeave (xid : Z)                      (**r a call ends, answered or not *)
  | ABind (nonce : Z)                     (**r [bind] succeeds *)
  | ARecv (i : nat) (c : Z)               (**r the [i]-th request arrives at the server *)
  | AForeign (b : list byte) (c : Z)      (**r a request of another client arrives *)
  | AConns (cs : conn_store)              (**r connections come, go and die *)
  | AThread (t : nat).                    (**r a server thread makes a step *)

Definition set_client (y : sys S) c : sys S :=
  {| sy_cl := c; sy_calls := sy_calls y; sy_reqs := sy_reqs y; sy_replies := sy_replies y;
     sy_srv := sy_srv y; sy_conns := sy_conns y; sy_app := sy_app y;
     sy_threads := sy_threads y; sy_runs := sy_runs y; sy_hist := sy_hist y |}.

Definition add_thread (y : sys S) p : sys S :=
  {| sy_cl := sy_cl y; sy_calls := sy_calls y; sy_reqs := sy_reqs y;
     sy_replies := sy_replies y; sy_srv := sy_srv y; sy_conns := sy_conns y;
     sy_app := sy_app y; sy_threads := sy_threads y ++ [p]; sy_runs := sy_runs y;
     sy_hist := sy_hist y |}.

Definition to_option {A} (o : outcome A) : option A :=
  match o with Done a => Some a | Fault _ => None end.

(** A block is new when its address was never used before: a thread that reads a
    freed block then faults (and has no step) instead of reading another one. *)
Definition new_blocks (y : sys S) (v : rpcs S) : Prop :=
  ∀ p, p ∈ dom (heap v) → p ∈ dom (heap (sy_srv y)) ∨ p ∉ dom (sy_hist y).

#[export] Instance new_blocks_dec y v : Decision (new_blocks y v).
Proof.
  refine (cast_if (decide (set_Forall (λ p, p ∈ dom (heap (sy_srv y)) ∨ p ∉ dom (sy_hist y))
    (dom (heap v))))); done.
Defined.

Definition act (n : Z) (y : sys S) (a : action) : option (sys S) :=
  match a with
  | ACall proc args =>
      match (let! req := marshall_rawbytes marshall_new args (Zlength args) in
             call1_enter (sy_cl y) proc req) with
      | Done (c, inr (_, req)) =>
          if decide (RPC_HEADER_SZ + Zlength args ≤ MARSHALL_MAX) then
            Some {| sy_cl := c; sy_calls := Datatypes.S (sy_calls y);
                    sy_reqs := sy_reqs y ++ [marshall_str req]; sy_replies := sy_replies y;
                    sy_srv := sy_srv y; sy_conns := sy_conns y; sy_app := sy_app y;
                    sy_threads := sy_threads y; sy_runs := sy_runs y; sy_hist := sy_hist y |}
          else None
      | _ => None
      end
  | AReply i =>
      b ← sy_replies y !! i;
      '(c, _) ← to_option (rpcc_got_pdu (sy_cl y) b (Zlength b));
      Some (set_client y c)
  | ALeave xid =>
      if decide (0 ≤ xid < 2 ^ 32) then
        '(c, _, _) ← to_option (call1_leave (sy_cl y) xid); Some (set_client y c)
      else None
  | ABind nonce => Some (set_client y (set_bound (sy_cl y) (u32 nonce)))
  | ARecv i c => b ← sy_reqs y !! i; Some (add_thread y (PStart b c))
  | AForeign b c =>
      if decide (nonce_of b = Some n ∨ INT_MAX < Zlength b) then None
      else Some (add_thread y (PStart b c))
  | AConns cs =>
      Some {| sy_cl := sy_cl y; sy_calls := sy_calls y; sy_reqs := sy_reqs y;
              sy_replies := sy_replies y; sy_srv := sy_srv y; sy_conns := cs;
              sy_app := sy_app y; sy_threads := sy_threads y; sy_runs := sy_runs y;
              sy_hist := sy_hist y |}
  | AThread t =>
      p ← sy_threads y !! t;
      r ← to_option (thread_step (sy_srv y) (sy_conns y) (sy_app y) p);
      if decide (new_blocks y (sp_srv r)) then
        Some {| sy_cl := sy_cl y; sy_calls := sy_calls y; sy_reqs := sy_reqs y;
                sy_replies := sy_replies y ++
                  (if decide (sp_clt r = Some n) then sn_bytes <$> sp_sent r else []);
                sy_srv := sp_srv r; sy_conns := sp_conns r; sy_app := sp_app r;
                sy_threads := <[t := sp_pc r]> (sy_threads y);
                sy_runs := sy_runs y ++ sp_run r;
                sy_hist := heap (sp_srv r) ∪ sy_hist y |}
      else None
  end.

Definition step (n : Z) : relation (sys S) := λ y y', ∃ a, act n y a = Some y'.

Fixpoint acts (n : Z) (y : sys S) (l : list action) : option (sys S) :=
  match l with
  | [] => Some y
  | a :: l => y ← act n y a; acts n y l
  end.

(** a client with nonce [n] that has not called yet, and a server without clients *)
Definition initial (n : Z) (y : sys S) : Prop :=
  (∃ loss, sy_cl y = rpcc_new true n loss) ∧ sy_calls y = 0%nat ∧
  sy_reqs y = [] ∧ sy_replies y = [] ∧ sy_threads y = [] ∧ sy_runs y = [] ∧ sy_hist y = ∅ ∧
  reply_window_ (sy_srv y) = ∅ ∧ heap (sy_srv y) = ∅ ∧
  ∀ p f, procs_ (sy_srv y) !! p = Some f → handler_ok f.

(** the runs for one request of the client *)
Definition runs_of (n xid : Z) (l : list run) : list run :=
  filter (λ r, rn_clt r = n ∧ rn_xid r = xid) l.

End system.

Arguments dispatch_verdict : simpl never.
Arguments dispatch_pack : simpl never.
Arguments dispatch_record : simpl never.
Arguments dispatch_send : simpl never.
Arguments dispatch_save_conn : simpl never.
Arguments checkduplicate_and_update : simpl never.

(** ** What the threads know

    Facts that stay true once they hold: the xids [kn_R] that the client has
    reported as received, the bound [kn_X] of the xids it has used, the runs of
    handlers so far and the blocks allocated so far. *)

Record know := Know { kn_R : gset Z; kn_X : Z; kn_runs : list run; kn_hist : blocks }.

Definition know_le (e e' : know) : Prop :=
  kn_R e ⊆ kn_R e' ∧ kn_X e ≤ kn_X e' ∧ kn_runs e ⊆ kn_runs e' ∧ kn_hist e ⊆ kn_hist e'.

#[export] Instance know_le_preorder : PreOrder know_le.
Proof.
  split; [by intros e|]. intros e1 e2 e3 (?&?&?&?) (?&?&?&?).
  split; [by etrans|]. split; [lia|]. split; by etrans.
Qed.

Section know.
Context (n : Z).

(** an admissible answer to request [x]: the value of a run of its handler, or
    the refusal of another instance of the server *)
Definition answer_ok (e : know) (x ret : Z) : Prop :=
  ret = oldsrv_failure ∨ Run n x ret ∈ kn_runs e.

Definition reply_ok (e : know) (x : Z) (b : list byte) : Prop :=
  ∃ u h, unpack_reply_header (unmarshall_new b (Zlength b)) = Done (u, h) ∧
    u32 (rp_xid h) = x ∧ is_s32 (rp_xid h) ∧ answer_ok e x (rp_ret h).

(** a PDU among the replies *)
Definition sent_ok (e : know) (b : list byte) : Prop := ∃ x, 1 ≤ x < kn_X e ∧ reply_ok e x b.

(** the first [sz] bytes at [p] are a reply to [x] *)
Definition held (e : know) (x p sz : Z) : Prop :=
  ∃ blk b, kn_hist e !! p = Some blk ∧ mem_slice blk 0 sz = Done b ∧ reply_ok e x b.

(** a request of the client: what it acknowledges was received *)
Definition req_ok (e : know) (h : req_header) : Prop :=
  rq_clt_nonce h = n →
  1 ≤ u32 (rq_xid h) < kn_X e ∧ u32 (rq_xid_rep h) < u32 (rq_xid h) ∧
  ∀ r, 0 ≤ r ≤ u32 (rq_xid_rep h) → r ∈ kn_R e.

Definition pdu_ok (e : know) (b : list byte) : Prop :=
  Zlength b ≤ INT_MAX ∧
  ∀ u h, unpack_req_header (unmarshall_new b (Zlength b)) = Done (u, h) → uok u = true →
    req_ok e h.

Definition job_ok (e : know) (j : job) : Prop :=
  cursor_wf (jb_req j) ∧ req_header_ok (jb_hdr j) ∧ req_ok e (jb_hdr j).

Definition job_xid (j : job) : Z := u32 (rq_xid (jb_hdr j)).
Definition ours (j : job) : Prop := rq_clt_nonce (jb_hdr j) = n.

Definition verdict_ok (e : know) (x : Z) (st : rpcstate_t) : Prop :=
  match st with
  | DONE b sz => ∃ p, b = Some p ∧ held e x p sz
  | FORGOTTEN => False
  | _ => True
  end.

Definition thread_ok `{Heap} {S} (e : know) (p : pc S) : Prop :=
  match p with
  | PStart b _ => pdu_ok e b
  | PClient j f | PConn j f | PCheck j f | PRun j f => job_ok e j ∧ handler_ok f
  | PVerdict j f st => job_ok e j ∧ handler_ok f ∧ (ours j → verdict_ok e (job_xid j) st)
  | PPack j rep ret => job_ok e j ∧ marshall_wf rep ∧ RPC_HEADER_SZ ≤ mind rep ≤ MARSHALL_MAX ∧
      (0 ≤ ret ≤ INT_MAX ∨ ret = unmarshal_args_failure) ∧
      (ours j → Run n (job_xid j) ret ∈ kn_runs e)
  | PRecord j b sz | PSend j b sz => job_ok e j ∧ (ours j → held e (job_xid j) b sz)
  | PEnd => True
  end.

Definition entry_known (e : know) (r : reply_t) : Prop :=
  rt_cb_present r = true → ∃ p, rt_buf r = Some p ∧ held e (rt_xid r) p (rt_sz r).

Definition client_list {S} (v : rpcs S) : list reply_t := default [] (reply_window_ v !! n).

Definition server_ok `{Heap} {S} (e : know) (v : rpcs S) : Prop :=
  heap v ⊆ kn_hist e ∧ (∀ p f, procs_ v !! p = Some f → handler_ok f) ∧
  Forall (entry_known e) (client_list v).

(** *** All of this is stable *)

Lemma answer_ok_le e e' x ret : know_le e e' → answer_ok e x ret → answer_ok e' x ret.
Proof. intros (_&_&H&_) [->|Hin]; [by left|right; by apply H]. Qed.

Lemma reply_ok_le e e' x b : know_le e e' → reply_ok e x b → reply_ok e' x b.
Proof. intros He (u&h&?&?&?&?). exists u, h. split_and!; try done. by eapply answer_ok_le. Qed.

Lemma sent_ok_le e e' b : know_le e e' → sent_ok e b → sent_ok e' b.
Proof.
  intros He (x&Hx&Hr). pose proof He as (_&?&_). exists x. split; [lia|]. by eapply reply_ok_le.
Qed.

Lemma held_le e e' x p sz : know_le e e' → held e x p sz → held e' x p sz.
Proof.
  intros He (blk&b&Hp&Hb&Hr). exists blk, b. split; [|split; [done|by eapply reply_ok_le]].
  destruct He as (_&_&_&He). by eapply lookup_weaken.
Qed.

Lemma req_ok_le e e' h : know_le e e' → req_ok e h → req_ok e' h.
Proof.
  intros (HR&HX&_) Hr Hn. destruct (Hr Hn) as (?&?&Hrep). split; [lia|]. split; [done|].
  intros r ?. by apply HR, Hrep.
Qed.

Lemma pdu_ok_le e e' b : know_le e e' → pdu_ok e b → pdu_ok e' b.
Proof. intros He [? H]. split; [done|]. intros u h ??. eapply req_ok_le; eauto. Qed.

Lemma job_ok_le e e' j : know_le e e' → job_ok e j → job_ok e' j.
Proof. intros He (?&?&?). split_and!; try done. by eapply req_ok_le. Qed.

Lemma verdict_ok_le e e' x st : know_le e e' → verdict_ok e x st → verdict_ok e' x st.
Proof.
  intros He. destruct st as [| |b sz|]; simpl; try done. intros (p&?&?). exists p.
  split; [done|]. by eapply held_le.
Qed.

Lemma thread_ok_le `{Heap} {S} e e' (p : pc S) : know_le e e' → thread_ok e p → thread_ok e' p.
Proof.
  intros He. pose proof (job_ok_le e e') as Hj. pose proof (held_le e e') as Hh.
  destruct p; simpl; try naive_solver.
  - by apply pdu_ok_le.
  - intros (?&?&Hv). split; [by apply Hj|]. split; [done|]. intros Ho.
    eapply verdict_ok_le; [done|]. by apply Hv.
  - intros (?&?&?&?&Hr). split; [by apply Hj|]. do 3 (split; [done|]).
    intros Ho. apply He, Hr, Ho.
Qed.

Lemma entry_known_le e e' r : know_le e e' → entry_known e r → entry_known e' r.
Proof. intros He Hr Hp. destruct (Hr Hp) as (p&?&?). exists p. split; [done|]. by eapply held_le. Qed.
End know.

(** ** What the steps of the server do to its state *)

Section effects.
Context `{Heap, Allocator} {S : Type}.
Implicit Types (v : rpcs S).

Lemma scan_window_inv xid xid_rep l h l' h' st :
  scan_window xid xid_rep l h = Done (l', h', st) → scanned xid xid_rep l l' st ∧ h' ⊆ h.
Proof.
  revert h l'. induction l as [|r l IH]; intros h l'; simpl.
  { intros E. inv_done. split; [|done]. split; [apply not_elem_of_nil|done]. }
  assert (∀ h1, free_block h (rt_buf r) = Done h1 → h1 ⊆ h) as Hfree.
  { intros h1. unfold free_block. destruct (rt_buf r) as [p|]; [|intros; by inv_done].
    destruct (h !! p); [|done]. intros; inv_done. apply delete_subseteq. }
  case_decide as Hx.
  - assert (∀ l' st, st = verdict r xid_rep →
      l' = (if decide (xid ≤ xid_rep) then [] else [r]) ++ l →
      scanned xid xid_rep (r :: l) l' (Some st)) as Hsc.
    { intros l0 st0 -> ->. exists [], r, l. split_and!; try done. apply not_elem_of_nil. }
    unfold verdict in Hsc. rewrite Hx in *. case_decide.
    + destruct (free_block _ _) as [h1|] eqn:E; [|done]. simpl. intros E'. inv_done. eauto.
    + destruct (rt_cb_present r); intros; inv_done; eauto.
  - case_decide as Hr.
    + destruct (free_block _ _) as [h1|] eqn:E; [|done]. simpl. intros E'.
      apply IH in E' as [Hsc Hsub]. split; [|by etrans; eauto].
      apply (scanned_cons _ _ r) in Hsc; [|done]. by rewrite decide_True in Hsc.
    + destruct (scan_window _ _ l h) as [[[l1 h1] st1]|] eqn:E; [|done]. simpl. intros E'. inv_done.
      apply IH in E as [Hsc Hsub]. split; [|done].
      apply (scanned_cons _ _ r) in Hsc; [|done]. by rewrite decide_False in Hsc.
Qed.

Lemma checkduplicate_inv v n xid xid_rep v' st :
  checkduplicate_and_update v n xid xid_rep = Done (v', st) →
  ∃ l l' h', reply_window_ v !! n = Some l ∧ checked xid xid_rep l l' st ∧ h' ⊆ heap v ∧
    v' = Rpcs.set_window v (<[n := l']> (reply_window_ v)) h'.
Proof.
  unfold checkduplicate_and_update. destruct (reply_window_ v !! n) as [l|] eqn:Hl; [|done].
  destruct (scan_window _ _ _ _) as [[[l1 h1] st1]|] eqn:E; [|done]. simpl.
  apply scan_window_inv in E as [Hsc Hsub]. destruct st1 as [st1|]; intros; inv_done.
  - eexists l, l1, h1. split_and!; try done. by apply scanned_checked.
  - eexists l, _, h1. split_and!; try done. destruct Hsc as [? ->]. done.
Qed.

Lemma fill_reply_inv xid b sz l h l' h' :
  fill_reply xid b sz l h = Done (l', h') →
  (l' = l ∧ h' = h) ∨
  ∃ l1 r l2 bytes, l = l1 ++ r :: l2 ∧ rt_xid r = xid ∧ read_block h b sz = Done bytes ∧
    l' = l1 ++ filled h xid sz :: l2 ∧ h' = <[alloc h := bytes]> h.
Proof.
  revert l' h'. induction l as [|r l IH]; intros l' h'; simpl; [intros; inv_done; by left|].
  case_decide as Hx.
  - destruct (read_block h b sz) as [bytes|] eqn:Hrd; [|done]. simpl. intros; inv_done.
    right. exists [], r, l, bytes. unfold filled. by split_and!.
  - destruct (fill_reply _ _ _ l h) as [[l1 h1]|] eqn:E; [|done]. simpl. intros; inv_done.
    destruct (IH _ _ eq_refl) as [[-> ->]|(k1&r1&k2&bytes&->&?&?&->&->)]; [by left|right].
    by exists (r :: k1), r1, k2, bytes.
Qed.
End effects.

(** *** Replies decode to what was packed *)

Section replies.
Context `{Heap}.

Lemma packed_reply rep h :
  marshall_wf rep → RPC_HEADER_SZ ≤ mind rep ≤ MARSHALL_MAX → reply_header_ok h →
  ∃ rep' u, pack_reply_header rep h = Done rep' ∧ mind rep' = mind rep ∧ marshall_wf rep' ∧
    unpack_reply_header
      (unmarshall_new (marshall_str rep') (Zlength (marshall_str rep'))) = Done (u, h).
Proof.
  intros Hwf [Hi Hmax] Hh.
  destruct (pack_reply_header_spec rep h Hwf Hi) as (rep'&Hp&Hwf'&Hi'&Hs).
  pose proof (marshall_str_length rep Hwf) as Hlen.
  pose proof (marshall_str_length rep' Hwf') as Hlen'.
  change RPC_HEADER_SZ with 24 in *.
  eexists rep', _. split; [done|]. split; [done|]. split; [done|].
  rewrite <-(take_drop 12 (drop 12 (marshall_str rep))) in Hs.
  rewrite Hs in Hlen' |- *. apply unpack_reply_header_at; [| |done|].
  - rewrite length_take. lia.
  - rewrite length_take, length_drop. lia.
  - unfold MARSHALL_MAX in *. rewrite Hlen'. lia_ints.
Qed.

(** a block whose first bytes are a packed reply *)
Lemma packed_held n e x p rep h rep' blk :
  marshall_wf rep → RPC_HEADER_SZ ≤ mind rep ≤ MARSHALL_MAX → reply_header_ok h →
  pack_reply_header rep h = Done rep' → kn_hist e !! p = Some blk →
  mbuf rep' = Some blk → u32 (rp_xid h) = x → answer_ok n e x (rp_ret h) →
  held n e x p (mind rep').
Proof.
  intros Hwf Hi Hh Hp Hb Hm Hx Ha.
  destruct (packed_reply rep h Hwf Hi Hh) as (rep1&u&Hp1&Hi1&Hwf1&Hu).
  rewrite Hp in Hp1. injection Hp1 as <-.
  exists blk, (marshall_str rep'). split; [done|].
  pose proof Hwf1 as (blk'&Hm'&Hlen&Hcap&_). rewrite Hm in Hm'. injection Hm' as <-.
  split.
  - rewrite mem_slice_Done by lia. unfold marshall_str. by rewrite Hm, drop_0.
  - exists u, h. destruct Hh. by split_and!.
Qed.

Lemma error_reply_known n e xid ret b :
  error_reply xid ret = Done b → is_s32 xid → is_s32 ret → answer_ok n e (u32 xid) ret →
  reply_ok n e (u32 xid) b.
Proof.
  unfold error_reply. intros E Hx Hr Ha. apply obind_Done_inv in E as (rep'&Hp&E). inv_done.
  destruct (packed_reply marshall_new {| rp_xid := xid; rp_ret := ret |})
    as (rep1&u&Hp1&_&_&Hu); [apply marshall_new_wf|split; vm_compute; discriminate|by split|].
  rewrite Hp in Hp1. injection Hp1 as <-.
  exists u, {| rp_xid := xid; rp_ret := ret |}. by split_and!.
Qed.
End replies.

(** *** The steps, one by one *)

Section steps.
Context `{Heap, Allocator} {S : Type}.
Implicit Types (v : rpcs S).

Lemma dispatch_header_inv v cs c b cs' p :
  dispatch_header v cs c b (Zlength b) = Done (cs', p) →
  match p with
  | Finished l => l = [] ∨ ∃ u h m,
      unpack_req_header (unmarshall_new b (Zlength b)) = Done (u, h) ∧ uok u = true ∧
      error_reply (rq_xid h) oldsrv_failure = Done m ∧ l = [ {| sn_conn := c; sn_bytes := m |} ]
  | Go (j, f) => unpack_req_header (unmarshall_new b (Zlength b)) = Done (jb_req j, jb_hdr j) ∧
      uok (jb_req j) = true ∧ procs_ v !! rq_proc (jb_hdr j) = Some f
  end.
Proof.
  unfold dispatch_header. intros E. apply obind_Done_inv in E as ([u h]&Hu&E).
  destruct (uok u) eqn:Hok; cbn [negb] in E.
  2: { apply obind_Done_inv in E as (?&_&E). injection E as <- <-. by left. }
  destruct (bool_decide (rq_srv_nonce h ≠ 0) && bool_decide (rq_srv_nonce h ≠ nonce_ v)).
  { apply obind_Done_inv in E as (m&Hm&E). injection E as <- <-. right. exists u, h, m.
    repeat (split; [assumption|]). reflexivity. }
  destruct (procs_ v !! rq_proc h) eqn:Hf.
  - by injection E as <- <-.
  - apply obind_Done_inv in E as (?&_&E). injection E as <- <-. by left.
Qed.

(** a step that leaves the windows and the procedures alone *)
Definition same_tables v v' : Prop :=
  procs_ v' = procs_ v ∧ reply_window_ v' = reply_window_ v.

Lemma save_conn_inv v cs k c v' cs' :
  dispatch_save_conn v cs k c = Done (v', cs') → same_tables v v' ∧ heap v' = heap v.
Proof.
  unfold dispatch_save_conn. destruct (conns_ v !! k) as [old|]; [case_decide|].
  - intros E. by injection E as <- <-.
  - destruct old; [|done]. intros E. inv_done. done.
  - intros E. inv_done. done.
Qed.

Lemma new_client_inv v k n :
  procs_ (dispatch_new_client v k) = procs_ v ∧ heap (dispatch_new_client v k) = heap v ∧
  client_list n (dispatch_new_client v k) = client_list n v.
Proof.
  unfold dispatch_new_client, client_list. destruct (reply_window_ v !! k) eqn:E; [done|].
  simpl. split_and!; [done..|]. rewrite lookup_insert. case_decide as Hk; [subst|done]. by rewrite E.
Qed.

Lemma dispatch_verdict_inv v cs j st v' cs' p :
  dispatch_verdict v cs j st = Done (v', cs', p) →
  same_tables v v' ∧ heap v' = heap v ∧
  match p with
  | Go _ => st = NEW
  | Finished l => st ≠ NEW ∧ ∀ m, m ∈ l →
      (∃ b sz, st = DONE b sz ∧ read_block (heap v) b sz = Done (sn_bytes m)) ∨ st = FORGOTTEN
  end.
Proof.
  unfold dispatch_verdict. destruct st as [| |b sz|]; intros E; inv_done.
  - split; [|split]; [..|done]; case_decide; inv_done; try done; unfold updatestat in *; by inv_done.
  - split; [by split|]. split; [reflexivity|]. split; [discriminate|].
    intros m Hm. by apply elem_of_nil in Hm.
  - split; [by split|]. split; [reflexivity|]. split; [discriminate|].
    intros m ->%list_elem_of_singleton. left. exists b, sz. by split.
  - split; [by split|]. split; [reflexivity|]. split; [discriminate|]. intros m _. by right.
Qed.

Lemma dispatch_pack_inv v j rep ret v' b1 sz1 :
  dispatch_pack v j rep ret = Done (v', b1, sz1) →
  ∃ rep', pack_reply_header rep {| rp_xid := rq_xid (jb_hdr j); rp_ret := ret |} = Done rep' ∧
    same_tables v v' ∧ heap v' = <[b1 := default [] (mbuf rep')]> (heap v) ∧
    b1 = alloc (heap v) ∧ sz1 = mind rep'.
Proof.
  unfold dispatch_pack. destruct (_ || _); [|done]. intros E.
  apply obind_Done_inv in E as (rep'&Hp&E). unfold marshall_take_buf in E.
  injection E as <- <- <-. by exists rep'.
Qed.

Lemma dispatch_send_inv v cs j b1 sz1 v' cs' l :
  dispatch_send v cs j b1 sz1 = Done (v', cs', l) →
  same_tables v v' ∧ heap v' ⊆ heap v ∧
  ∀ m, m ∈ l → read_block (heap v) (Some b1) sz1 = Done (sn_bytes m).
Proof.
  unfold dispatch_send. intros E. apply obind_Done_inv in E as ([[v1 cs1] c1]&E1&E).
  assert (same_tables v v1 ∧ heap v1 = heap v) as [[Hp Hw] Hh].
  { unfold dispatch_latest in E1. apply obind_Done_inv in E1 as (d&_&E1).
    destruct (negb d); [by injection E1 as <- <- <-|].
    destruct (decide (_ = Some _)); [by injection E1 as <- <- <-|].
    apply obind_Done_inv in E1 as (?&_&E1). destruct (default None _); [|done]. by inv_done. }
  apply obind_Done_inv in E as (bytes&Hb&E).
  apply obind_Done_inv in E as (v2&E2&E). apply obind_Done_inv in E as (cs2&_&E).
  injection E as <- <- <-. rewrite Hh in Hb, E2.
  assert (same_tables v v2 ∧ heap v2 ⊆ heap v) as [Hs2 Hh2].
  { case_decide; [|injection E2 as <-; split; [done|by rewrite Hh]].
    apply obind_Done_inv in E2 as (h2&Hf&E2). injection E2 as <-. split; [done|]. simpl.
    unfold free_block in Hf. destruct (heap v !! b1); [|done]. injection Hf as <-.
    apply delete_subseteq. }
  split; [done|]. split; [done|]. intros m ->%list_elem_of_singleton. done.
Qed.

(** recording a reply: one entry of one list points to a copy of it *)
Lemma dispatch_record_inv n v j b1 sz1 v' :
  dispatch_record v j b1 sz1 = Done v' →
  procs_ v' = procs_ v ∧
  ((heap v' = heap v ∧ client_list n v' = client_list n v) ∨
   ∃ bytes, read_block (heap v) (Some b1) sz1 = Done bytes ∧
     heap v' = <[alloc (heap v) := bytes]> (heap v) ∧
     (client_list n v' = client_list n v ∨
      ours n j ∧ ∃ l1 r l2, client_list n v = l1 ++ r :: l2 ∧ rt_xid r = job_xid j ∧
        client_list n v' = l1 ++ filled (heap v) (job_xid j) sz1 :: l2)).
Proof.
  unfold dispatch_record, client_list. case_decide as Hpos; [|intros E; injection E as <-; auto].
  unfold add_reply. set (k := rq_clt_nonce (jb_hdr j)). intros E.
  apply obind_Done_inv in E as ([l' h']&Hf&E). injection E as <-. split; [done|].
  simpl. apply fill_reply_inv in Hf as [[-> ->]|(l1&r&l2&bytes&Hl&Hr&Hrd&->&->)].
  - left. split; [done|]. rewrite lookup_insert. case_decide as Hk; [by rewrite <-Hk|done].
  - right. exists bytes. split; [done|]. split; [done|].
    rewrite lookup_insert. case_decide as Hk; [right|by left].
    split; [exact Hk|]. exists l1, r, l2. rewrite <-Hk. by split_and!.
Qed.
End steps.

(** *** What each step preserves *)

(** the thread will run, or is running, the handler of request [x] *)
Definition claim {S} (n x : Z) (p : pc S) : nat :=
  match p with
  | PVerdict j _ NEW | PRun j _ =>
      if decide (rq_clt_nonce (jb_hdr j) = n ∧ job_xid j = x) then 1%nat else 0%nat
  | _ => 0%nat
  end.

(** request [x] has an entry in the client's list *)
Definition listed {S} (n x : Z) (v : rpcs S) : nat :=
  if decide (x ∈ xids (client_list n v)) then 1%nat else 0%nat.

Section preserved.
Context `{Heap, Allocator} {S : Type} (n : Z).
Implicit Types (v : rpcs S).

Record step_good (e e' : know) v (p : pc S) (r : @stepped S) : Prop := StepGood {
  good_server : server_ok n e' (sp_srv r);
  good_thread : thread_ok n e' (sp_pc r);
  good_sent : sp_clt r = Some n → Forall (λ m, sent_ok n e' (sn_bytes m)) (sp_sent r);
  good_count : ∀ x, 0 ≤ x → x ∉ kn_R e →
    (claim n x (sp_pc r) + length (runs_of n x (sp_run r)) + listed n x v =
     claim n x p + listed n x (sp_srv r))%nat }.

Lemma server_ok_le e e' v v' :
  know_le e e' → server_ok n e v → procs_ v' = procs_ v → heap v' ⊆ kn_hist e' →
  client_list n v' = client_list n v → server_ok n e' v'.
Proof.
  intros He (_&Hp&Hl) Ep Hh El. split; [done|]. rewrite Ep, El. split; [done|].
  eapply Forall_impl; [exact Hl|]. intros r. by apply entry_known_le.
Qed.

(** a step of a thread that neither claims a run nor touches the list *)
Lemma quiet_step e e' v cs s p v' p' :
  know_le e e' → server_ok n e v → procs_ v' = procs_ v → heap v' ⊆ kn_hist e' →
  client_list n v' = client_list n v → thread_ok n e' p' → (∀ x, claim n x p' = claim n x p) →
  step_good e e' v p (silent_step v' cs s p').
Proof.
  intros He Hs Ep Hh El Ht Hc. split; simpl; [by eapply server_ok_le|done|done|].
  intros x _ _. unfold listed. rewrite Hc, El. lia.
Qed.

(** The duplicate check on the client's own list. *)
Lemma checked_listed x rep l l' st y :
  checked x rep l l' st → rep < x → rep < y →
  (y ∈ xids l' ↔ y ∈ xids l ∨ (st = NEW ∧ y = x)) ∧ (st = NEW → x ∉ xids l).
Proof.
  intros Hch Hx Hy.
  assert (∀ k, y ∈ xids (unacked rep k) ↔ y ∈ xids k) as Hun.
  { intros k. split; [apply unacked_xids|]. unfold xids, unacked.
    intros (r&->&Hr)%list_elem_of_fmap. apply list_elem_of_fmap. exists r. split; [done|].
    by apply list_elem_of_filter. }
  destruct (decide (st = NEW)) as [->|Hst].
  - destruct Hch as [Hn ->]. split; [|done]. rewrite xids_app, elem_of_app, Hun. set_solver.
  - split; [|done]. assert (scanned x rep l l' (Some st)) as (l1&r&l2&->&_&Hr&_&->) by (by destruct st).
    rewrite decide_False by lia. rewrite !xids_app, !elem_of_app, Hun. set_solver.
Qed.

Lemma checked_known e x rep l l' st :
  checked x rep l l' st → rep < x → Forall (entry_known n e) l →
  Forall (entry_known n e) l' ∧ verdict_ok n e x st.
Proof.
  intros Hch Hx Hl. destruct (decide (st = NEW)) as [->|Hst].
  - destruct Hch as [_ ->]. split; [|done]. apply Forall_app. split; [|by constructor].
    apply Forall_forall. intros r [_ Hr]%list_elem_of_filter. eapply Forall_forall in Hl; [exact Hl|exact Hr].
  - assert (scanned x rep l l' (Some st)) as Hsc by (by destruct st). split.
    + apply Forall_forall. intros r Hr. eapply Forall_forall in Hl; [done|].
      by eapply scanned_incl.
    + destruct Hsc as (l1&r&l2&->&_&Hr&->&_).
      apply Forall_app in Hl as [_ [Hl _]%Forall_cons]. unfold verdict.
      rewrite decide_False by lia. destruct (rt_cb_present r) eqn:Hp; [|done].
      rewrite <-Hr. by apply Hl.
Qed.

Lemma check_step e e' v cs s j f v' st :
  know_le e e' → server_ok n e v → thread_ok n e (PCheck j f) →
  checkduplicate_and_update v (rq_clt_nonce (jb_hdr j)) (u32 (rq_xid (jb_hdr j)))
    (u32 (rq_xid_rep (jb_hdr j))) = Done (v', st) →
  heap v' ⊆ kn_hist e' →
  step_good e e' v (PCheck j f) (silent_step v' cs s (PVerdict j f st)).
Proof.
  intros He Hs [Hj Hf] E Hh. apply checkduplicate_inv in E as (l&l'&h'&Hl&Hch&Hsub&->).
  pose proof Hs as (_&Hp&Hk). pose proof (job_ok_le _ _ _ _ He Hj) as Hj'.
  destruct (decide (rq_clt_nonce (jb_hdr j) = n)) as [Hn|Hn].
  - assert (client_list n v = l) as El by (unfold client_list; by rewrite <-Hn, Hl).
    rewrite El in Hk. destruct Hj as (_&_&Hreq). destruct (Hreq Hn) as (Hx&Hrep&HR).
    assert (client_list n (Rpcs.set_window v (<[rq_clt_nonce (jb_hdr j) := l']>
      (reply_window_ v)) h') = l') as El'.
    { unfold client_list. simpl. by rewrite <-Hn, lookup_insert_eq. }
    destruct (checked_known e _ _ _ _ _ Hch Hrep Hk) as [Hk' Hv].
    split; simpl.
    + split; [done|]. split; [done|]. rewrite El'. eapply Forall_impl; [exact Hk'|].
      intros r. by apply entry_known_le.
    + split; [done|]. split; [done|]. intros _. by eapply verdict_ok_le.
    + done.
    + intros x Hx0 Hxr. unfold listed. rewrite El, El'.
      assert (u32 (rq_xid_rep (jb_hdr j)) < x) as Hlt.
      { destruct (decide (x ≤ u32 (rq_xid_rep (jb_hdr j)))); [|lia]. by destruct Hxr; apply HR. }
      destruct (checked_listed _ _ _ _ _ x Hch Hrep Hlt) as [Hiff Hnew].
      unfold job_xid. destruct st; repeat case_decide; simpl; try lia; naive_solver.
  - apply quiet_step; try done.
    + unfold client_list. simpl. by rewrite lookup_insert_ne.
    + intros x. simpl. destruct st; try done. rewrite decide_False; [done|]. by intros [? _].
Qed.

Lemma start_step e e' v cs s b c r :
  know_le e e' → server_ok n e v → thread_ok n e (@PStart S b c) →
  thread_step v cs s (PStart b c) = Done r → heap (sp_srv r) ⊆ kn_hist e' →
  step_good e e' v (PStart b c) r.
Proof.
  intros He Hs [Hb Hq] E Hh. cbn [thread_step] in E.
  apply obind_Done_inv in E as ([cs' p]&E1&E). apply dispatch_header_inv in E1.
  destruct p as [l|[j f]]; cbn beta iota in E; injection E as <-.
  - split; simpl; [by eapply server_ok_le|done| |done].
    destruct E1 as [->|(u&h&m&Hu&Hok&Hm&->)]; [by constructor|].
    unfold nonce_of. rewrite Hu, Hok. intros [= Hn]. constructor; [|done]. simpl.
    destruct (Hq u h Hu Hok Hn) as (Hx&_). exists (u32 (rq_xid h)).
    pose proof He as (_&?&_). split; [lia|].
    eapply error_reply_known; [exact Hm| |by vm_compute|by left].
    destruct (unpack_req_header_total _ (new_cursor_wf b (Zlength b) ltac:(lia) Hb))
      as (u'&h'&Hu'&_&_&Hh'&_). congruence.
  - destruct E1 as (Hu&Hok&Hf). apply quiet_step; try done. split; [|by eapply Hs].
    destruct (unpack_req_header_total _ (new_cursor_wf b (Zlength b) ltac:(lia) Hb))
      as (u'&h'&Hu'&Hwf&_&Hh'). rewrite Hu in Hu'. injection Hu' as <- <-.
    split; [done|]. split; [done|]. eapply req_ok_le; [exact He|]. by eapply Hq.
Qed.

Lemma run_step e e' v cs s j f r :
  know_le e e' → server_ok n e v → thread_ok n e (PRun j f) →
  thread_step v cs s (PRun j f) = Done r → heap (sp_srv r) ⊆ kn_hist e' →
  sp_run r ⊆ kn_runs e' → step_good e e' v (PRun j f) r.
Proof.
  intros He Hs [Hj Hf] E Hh Hr. cbn [thread_step] in E.
  destruct (Hf s (jb_req j)) as (s'&u'&rep&ret&Ef&Hwf&Hi&Hret); [by destruct Hj|].
  rewrite Ef in E. injection E as <-. simpl in Hh, Hr.
  split; simpl; [by eapply server_ok_le| |done|].
  - split; [by eapply job_ok_le|]. split; [done|]. split; [done|]. split; [done|].
    intros Ho. apply Hr. unfold job_xid. rewrite Ho. by left.
  - intros x _ _. unfold runs_of, job_xid. rewrite filter_cons, filter_nil. simpl.
    unfold listed, client_list. repeat case_decide; simpl; lia.
Qed.

Lemma pack_step e e' v cs s j rep ret r :
  know_le e e' → server_ok n e v → thread_ok n e (@PPack S j rep ret) →
  thread_step v cs s (PPack j rep ret) = Done r → heap (sp_srv r) ⊆ kn_hist e' →
  step_good e e' v (PPack j rep ret) r.
Proof.
  intros He Hs (Hj&Hwf&Hi&Hret&Hrun) E Hh. cbn [thread_step] in E.
  apply obind_Done_inv in E as ([[v' b1] sz1]&E1&E). injection E as <-.
  apply dispatch_pack_inv in E1 as (rep'&Hp&[Ep Ew]&Eh&->&->). simpl in Hh.
  pose proof Hj as (_&(Hx&_)&_).
  assert (reply_header_ok {| rp_xid := rq_xid (jb_hdr j); rp_ret := ret |}) as Hho.
  { split; [done|]. simpl. destruct Hret as [?| ->]; [|by vm_compute]. unfold is_s32, INT_MIN. lia. }
  apply quiet_step; try done.
  - unfold client_list. by rewrite Ew.
  - split; [by eapply job_ok_le|]. intros Ho.
    destruct (packed_reply rep _ Hwf Hi Hho) as (rep1&u&Hp1&_&(blk&Hb&_)&_).
    rewrite Hp in Hp1. injection Hp1 as <-.
    eapply (packed_held n e' _ _ rep _ rep' blk); try done.
    + eapply lookup_weaken; [|exact Hh]. rewrite Eh, Hb. simpl. apply lookup_insert_eq.
    + right. simpl. apply He, Hrun, Ho.
Qed.

(** what a thread reads at a block it holds *)
Lemma held_read e e' x p sz h bytes :
  know_le e e' → held n e x p sz → h ⊆ kn_hist e → read_block h (Some p) sz = Done bytes →
  reply_ok n e' x bytes ∧ Zlength bytes = sz.
Proof.
  intros He (blk&b&Hp&Hb&Hr) Hh Hrd. simpl in Hrd. destruct (h !! p) as [blk'|] eqn:E; [|done].
  assert (kn_hist e !! p = Some blk') as E' by (by eapply lookup_weaken).
  rewrite Hp in E'. injection E' as <-. rewrite Hb in Hrd. injection Hrd as <-.
  split; [by eapply reply_ok_le|]. unfold mem_slice in Hb. case_bool_decide; [|done].
  injection Hb as <-. rewrite length_take, length_drop. lia.
Qed.

(** sending what a thread holds *)
Lemma send_step e e' v cs s j b1 sz1 r :
  know_le e e' → server_ok n e v → thread_ok n e (@PSend S j b1 sz1) →
  thread_step v cs s (PSend j b1 sz1) = Done r → heap (sp_srv r) ⊆ kn_hist e' →
  step_good e e' v (PSend j b1 sz1) r.
Proof.
  intros He Hs [Hj Hheld] E Hh. cbn [thread_step] in E.
  apply obind_Done_inv in E as ([[v' cs'] l]&E1&E). injection E as <-.
  apply dispatch_send_inv in E1 as ([Ep Ew]&Hsub&Hl). simpl in Hh.
  assert (client_list n v' = client_list n v) as El by (unfold client_list; by rewrite Ew).
  split; simpl; [by eapply server_ok_le|done| |].
  - intros [= Ho]. apply Forall_forall. intros m Hm. pose proof Hs as (Hsv&_).
    destruct (held_read e e' _ _ _ _ _ He (Hheld Ho) Hsv (Hl m Hm)) as [Hr _].
    destruct Hj as (_&_&Hq). destruct (Hq Ho) as (Hx&_). pose proof He as (_&?&_).
    exists (job_xid j). split; [unfold job_xid; lia|done].
  - intros x _ _. unfold listed. rewrite El. lia.
Qed.

Lemma record_step e e' v cs s j b1 sz1 r :
  know_le e e' → server_ok n e v → thread_ok n e (@PRecord S j b1 sz1) →
  thread_step v cs s (PRecord j b1 sz1) = Done r → heap (sp_srv r) ⊆ kn_hist e' →
  step_good e e' v (PRecord j b1 sz1) r.
Proof.
  intros He Hs [Hj Hheld] E Hh. cbn [thread_step] in E.
  apply obind_Done_inv in E as (v'&E1&E). injection E as <-. simpl in Hh.
  assert (thread_ok n e' (@PSend S j b1 sz1)) as Ht.
  { split; [by eapply job_ok_le|]. intros Ho. by eapply held_le, Hheld. }
  apply (dispatch_record_inv n) in E1 as [Ep [[Eh El]|(bytes&Hrd&Eh&Hl)]].
  { apply quiet_step; try done. }
  destruct Hl as [El|(Ho&l1&r&l2&El&Hr&El')]; [by apply quiet_step|].
  assert (xids (client_list n v') = xids (client_list n v)) as Ex.
  { rewrite El, El', !xids_app. simpl. by rewrite Hr. }
  split; simpl; [|done|done|intros x _ _; unfold listed; rewrite Ex; lia].
  pose proof Hs as (Hsv&Hp&Hk). split; [done|]. rewrite Ep. split; [done|].
  rewrite El in Hk. rewrite El'. apply Forall_app in Hk as [Hk1 [_ Hk2]%Forall_cons].
  assert (∀ k, Forall (entry_known n e) k → Forall (entry_known n e') k) as Hmono.
  { intros k Hk. eapply Forall_impl; [exact Hk|]. intros q. by apply entry_known_le. }
  apply Forall_app. split; [by apply Hmono|]. constructor; [|by apply Hmono].
  intros _. exists (alloc (heap v)). split; [done|]. simpl.
  destruct (held_read e e' _ _ _ _ _ He (Hheld Ho) Hsv Hrd) as [Hok Hlen].
  exists bytes, bytes. split; [|split; [|done]].
  - eapply lookup_weaken; [|exact Hh]. rewrite Eh. apply lookup_insert_eq.
  - rewrite mem_slice_Done by lia. rewrite drop_0. f_equal. apply firstn_all2. lia.
Qed.

Lemma verdict_step e e' v cs s j f st r :
  know_le e e' → server_ok n e v → thread_ok n e (PVerdict j f st) →
  thread_step v cs s (PVerdict j f st) = Done r → heap (sp_srv r) ⊆ kn_hist e' →
  step_good e e' v (PVerdict j f st) r.
Proof.
  intros He Hs (Hj&Hf&Hv) E Hh. cbn [thread_step] in E.
  apply obind_Done_inv in E as ([[v' cs'] p]&E1&E).
  apply dispatch_verdict_inv in E1 as ([Ep Ew]&Eh&Hp).
  assert (client_list n v' = client_list n v) as El by (unfold client_list; by rewrite Ew).
  pose proof (job_ok_le _ _ _ _ He Hj) as Hj'.
  destruct p as [l|[]]; injection E as <-; simpl in Hh.
  - destruct Hp as [Hst Hl]. split; simpl; [by eapply server_ok_le|done| |].
    + intros [= Ho]. specialize (Hv Ho). apply Forall_forall. intros m Hm. pose proof Hs as (Hsv&_).
      destruct (Hl m Hm) as [(b&sz&->&Hrd)| ->]; [|done]. destruct Hv as (q&->&Hq).
      destruct (held_read e e' _ _ _ _ _ He Hq Hsv Hrd) as [Hr _].
      destruct Hj as (_&_&Hreq). destruct (Hreq Ho) as (Hx&_). pose proof He as (_&?&_).
      exists (job_xid j). split; [unfold job_xid; lia|done].
    + intros x _ _. unfold listed. rewrite El. by destruct st.
  - rewrite Hp. by apply quiet_step.
Qed.

Lemma thread_step_good e e' v cs s p r :
  know_le e e' → server_ok n e v → thread_ok n e p → n ≠ 0 →
  thread_step v cs s p = Done r → heap (sp_srv r) ⊆ kn_hist e' →
  sp_run r ⊆ kn_runs e' → step_good e e' v p r.
Proof.
  intros He Hs Ht Hn0 E Hh Hr. pose proof (thread_ok_le _ _ _ _ He Ht) as Ht'.
  destruct p as [b c|j f|j f|j f|j f st|j f|j rep ret|j b sz|j b sz|].
  - by eapply start_step.
  - cbn [thread_step] in E. case_decide as Hz; injection E as <-.
    + apply quiet_step; try done.
      * destruct Ht' as [? ?]. split; [done|]. split; [done|]. by intros Ho.
      * intros x. simpl. rewrite decide_False; [done|]. intros [Ho _]. congruence.
    + destruct (new_client_inv v (rq_clt_nonce (jb_hdr j)) n) as (?&?&?). by apply quiet_step.
  - cbn [thread_step] in E. apply obind_Done_inv in E as ([v' cs']&E1&E). injection E as <-.
    apply save_conn_inv in E1 as [[? Ew] ?]. apply quiet_step; try done.
    unfold client_list. by rewrite Ew.
  - cbn [thread_step] in E. apply obind_Done_inv in E as ([v' st]&E1&E). injection E as <-.
    by apply check_step.
  - by eapply verdict_step.
  - by eapply run_step.
  - by eapply pack_step.
  - by eapply record_step.
  - by eapply send_step.
  - injection E as <-. by apply quiet_step.
Qed.
End preserved.

(** ** The invariant *)

(** what a step may do to the heap: free blocks, and fill new ones *)
Definition grows (h h' : blocks) : Prop :=
  ∀ p b, h' !! p = Some b → h !! p = Some b ∨ h !! p = None.

Lemma grows_subseteq h h' : h' ⊆ h → grows h h'.
Proof. intros Hs p b Hp. left. by eapply lookup_weaken. Qed.

Lemma grows_alloc `{Allocator} h b : grows h (<[alloc h := b]> h).
Proof.
  intros p b'. rewrite lookup_insert. case_decide as Hp; [|by left]. intros _. right.
  rewrite <-Hp. apply alloc_fresh.
Qed.

Section invariant.
Context `{Heap, Allocator} {S : Type} (n : Z).
Implicit Types (v : rpcs S) (y : sys S).

Lemma thread_step_grows v cs s (p : pc S) r :
  thread_step v cs s p = Done r → grows (heap v) (heap (sp_srv r)).
Proof.
  intros E. destruct p; cbn [thread_step] in E.
  - apply obind_Done_inv in E as ([cs' p]&_&E).
    destruct p as [l|[j f]]; injection E as <-; by apply grows_subseteq.
  - case_decide; injection E as <-; [by apply grows_subseteq|]. simpl.
    destruct (new_client_inv v (rq_clt_nonce (jb_hdr j)) n) as (_&->&_). by apply grows_subseteq.
  - apply obind_Done_inv in E as ([v' cs']&E1&E). injection E as <-.
    apply save_conn_inv in E1 as [_ Eh]. simpl. rewrite Eh. by apply grows_subseteq.
  - apply obind_Done_inv in E as ([v' st]&E1&E). injection E as <-.
    apply checkduplicate_inv in E1 as (l&l'&h'&_&_&Hs&->). by apply grows_subseteq.
  - apply obind_Done_inv in E as ([[v' cs'] p]&E1&E). apply dispatch_verdict_inv in E1 as (_&Eh&_).
    destruct p; injection E as <-; simpl; rewrite Eh; by apply grows_subseteq.
  - apply obind_Done_inv in E as ([[[s' u] rep] ret]&_&E). injection E as <-. by apply grows_subseteq.
  - apply obind_Done_inv in E as ([[v' b1] sz1]&E1&E). injection E as <-.
    apply dispatch_pack_inv in E1 as (rep'&_&_&Eh&->&_). simpl. rewrite Eh. apply grows_alloc.
  - apply obind_Done_inv in E as (v'&E1&E). injection E as <-. simpl.
    apply (dispatch_record_inv n) in E1 as (_&[[-> _]|(bytes&_&->&_)]);
      [by apply grows_subseteq|apply grows_alloc].
  - apply obind_Done_inv in E as ([[v' cs'] l]&E1&E). injection E as <-.
    apply dispatch_send_inv in E1 as (_&Hs&_). by apply grows_subseteq.
  - injection E as <-. by apply grows_subseteq.
Qed.

Lemma hist_extends y v :
  heap (sy_srv y) ⊆ sy_hist y → grows (heap (sy_srv y)) (heap v) → new_blocks y v →
  sy_hist y ⊆ heap v ∪ sy_hist y.
Proof.
  intros Hs Hg Hn. apply map_subseteq_spec. intros p b Hp. rewrite lookup_union.
  destruct (heap v !! p) as [b'|] eqn:E; [|by rewrite Hp].
  destruct (Hg p b' E) as [Ho|Ho].
  - assert (sy_hist y !! p = Some b') as Hp' by (by eapply lookup_weaken).
      rewrite Hp in Hp' |- *. by injection Hp' as <-.
  - destruct (Hn p) as [Hd|Hd]; [by eapply elem_of_dom_2|..].
    + apply elem_of_dom in Hd as [? ?]. congruence.
    + destruct Hd. by eapply elem_of_dom_2.
Qed.

Record client_ok (e : know) (c : rpcc) : Prop := ClientOk {
  cl_xid : xid_ c = kn_X e;
  cl_window : window_of (kn_R e) (xid_rep_window c);
  cl_received : ∀ r, r ∈ kn_R e → r < kn_X e;
  cl_nonce : clt_nonce c = n ∧ is_u32 (srv_nonce c);
  cl_calls : ∀ k ca, calls c !! k = Some ca → is_s32 k ∧ 1 ≤ u32 k < kn_X e ∧
    if ca_done ca then answer_ok n e (u32 k) (ca_intret ca) else u32 k ∉ kn_R e }.

(** the number of threads that will run the handler of request [x] *)
Definition claims (x : Z) (l : list (pc S)) : nat := sum_list_with (claim n x) l.

Record rest_ok (e : know) y : Prop := RestOk {
  rest_reqs : Forall (pdu_ok n e) (sy_reqs y);
  rest_replies : Forall (sent_ok n e) (sy_replies y);
  rest_server : server_ok n e (sy_srv y);
  rest_threads : Forall (thread_ok n e) (sy_threads y);
  rest_count : ∀ x, 0 ≤ x → x ∉ kn_R e →
    (claims x (sy_threads y) + length (runs_of n x (sy_runs y)) = listed n x (sy_srv y))%nat }.

Definition know_of (R : gset Z) y : know :=
  {| kn_R := R; kn_X := xid_ (sy_cl y); kn_runs := sy_runs y; kn_hist := sy_hist y |}.

Definition inv y : Prop :=
  ∃ R, client_ok (know_of R y) (sy_cl y) ∧ rest_ok (know_of R y) y ∧
    xid_ (sy_cl y) = 1 + Z.of_nat (sy_calls y).

Lemma rest_ok_le e e' y y' :
  know_le e e' → rest_ok e y → sy_replies y' = sy_replies y →
  sy_srv y' = sy_srv y → sy_threads y' = sy_threads y → sy_runs y' = sy_runs y →
  heap (sy_srv y) ⊆ kn_hist e' → Forall (pdu_ok n e') (sy_reqs y') → rest_ok e' y'.
Proof.
  intros He [H1 H2 H3 H4 H5] E2 E3 E4 E5 Hh Hq. split; rewrite ?E2, ?E3, ?E4, ?E5.
  - done.
  - eapply Forall_impl; [exact H2|]. intros b. by apply sent_ok_le.
  - by eapply server_ok_le.
  - eapply Forall_impl; [exact H4|]. intros p. by apply thread_ok_le.
  - intros x Hx Hr. apply H5; [done|]. intros Hin. apply Hr. by apply He.
Qed.

Lemma pdus_le e e' l : know_le e e' → Forall (pdu_ok n e) l → Forall (pdu_ok n e') l.
Proof. intros He Hl. eapply Forall_impl; [exact Hl|]. intros b. by apply pdu_ok_le. Qed.

(** *** The client's steps *)

(** reporting one more xid *)
Lemma client_report e c w x :
  client_ok e c → window_of ({[x]} ∪ kn_R e) w → 0 ≤ x < kn_X e →
  ∀ m, (∀ k ca, m !! k = Some ca → is_s32 k ∧ 1 ≤ u32 k < kn_X e ∧
    if ca_done ca then answer_ok n e (u32 k) (ca_intret ca)
    else (u32 k ∉ kn_R e) ∧ u32 k ≠ x) →
  client_ok {| kn_R := {[x]} ∪ kn_R e; kn_X := kn_X e; kn_runs := kn_runs e;
               kn_hist := kn_hist e |} (Rpcc.set_calls (Rpcc.set_window c w) m).
Proof.
  intros [H1 H2 H3 H4 H5] Hw Hx m Hm. split; simpl; try done.
  - intros r [->%elem_of_singleton|Hr]%elem_of_union; [lia|by apply H3].
  - intros k ca Hk. destruct (Hm k ca Hk) as (?&?&Hca). split; [done|]. split; [done|].
    destruct (ca_done ca); [done|]. rewrite elem_of_union, elem_of_singleton. tauto.
Qed.

Lemma know_le_report e x :
  know_le e {| kn_R := {[x]} ∪ kn_R e; kn_X := kn_X e; kn_runs := kn_runs e;
               kn_hist := kn_hist e |}.
Proof. split; simpl; [set_solver|]. split; [lia|done]. Qed.

Lemma u32_key k x : is_s32 k → u32 k = u32 x → is_s32 x → k = x.
Proof. intros. lia_ints. Qed.

(** a reply arrives *)
Lemma got_pdu_inv e c b c' r :
  client_ok e c → sent_ok n e b → rpcc_got_pdu c b (Zlength b) = Done (c', r) →
  ∃ e', know_le e e' ∧ kn_X e' = kn_X e ∧ kn_runs e' = kn_runs e ∧ kn_hist e' = kn_hist e ∧
    client_ok e' c' ∧ xid_ c' = xid_ c.
Proof.
  intros Hc (x&Hx&u&h&Hu&Hhx&Hs&Ha) E. unfold rpcc_got_pdu in E. rewrite Hu in E.
  cbn [obind] in E. destruct (negb (uok u)).
  { injection E as <- <-. exists e. by split_and!. }
  pose proof Hc as [H1 H2 H3 H4 H5]. unfold update_xid_rep in E. rewrite Hhx in E.
  assert (is_u32 x) as Hxu by (rewrite <-Hhx; apply u32_range).
  destruct (update_window_spec _ _ _ H2 Hxu) as (w&Ew&Hw). rewrite Ew in E. cbn [obind] in E.
  exists {| kn_R := {[x]} ∪ kn_R e; kn_X := kn_X e; kn_runs := kn_runs e; kn_hist := kn_hist e |}.
  split; [apply know_le_report|]. split; [done|]. split; [done|]. split; [done|].
  assert (∀ m, (∀ k ca, m !! k = Some ca →
      calls c !! k = Some ca ∧ (k = rp_xid h → ca_done ca = true) ∨
      k = rp_xid h ∧ ca_done ca = true ∧ is_Some (calls c !! k) ∧ ca_intret ca = rp_ret h) →
    client_ok {| kn_R := {[x]} ∪ kn_R e; kn_X := kn_X e; kn_runs := kn_runs e;
                 kn_hist := kn_hist e |} (Rpcc.set_calls (Rpcc.set_window c w) m)) as Hm.
  { intros m Hm. apply client_report; [done|done|lia|]. intros k ca Hk.
    destruct (Hm k ca Hk) as [[Hk' Hd]|(->&->&[ca0 Hk']&->)].
    - destruct (H5 k ca Hk') as (Hk1&?&Hca). split; [done|]. split; [done|].
      destruct (ca_done ca); [done|]. split; [done|]. intros Heq. discriminate Hd.
      apply u32_key; [done|congruence|done].
    - destruct (H5 _ _ Hk') as (?&?&_). split; [done|]. split; [done|]. by rewrite Hhx. }
  simpl in E. destruct (calls c !! rp_xid h) as [ca|] eqn:Hca.
  - destruct (ca_done ca) eqn:Hd.
    + injection E as <- <-. split; [|done]. apply (Hm (calls c)). intros k ca' Hk. left.
      split; [done|]. intros ->. congruence.
    + destruct (take_in (ca_un ca) u) as [un u'] eqn:Ht. injection E as <- <-. split; [|done].
      apply (Hm (<[rp_xid h := _]> (calls c))). intros k ca'. rewrite lookup_insert.
      case_decide as Hk; [|left; split; [done|by intros ->]].
      intros [= <-]. right. rewrite <-Hk, Hca. by split_and!.
  - injection E as <- <-. split; [|done]. apply (Hm (calls c)). intros k ca' Hk. left.
    split; [done|]. intros ->. congruence.
Qed.

(** a call ends *)
Lemma leave_inv e c xid c' u ret :
  client_ok e c → 0 ≤ xid < 2 ^ 32 → call1_leave c xid = Done (c', u, ret) →
  ∃ e', know_le e e' ∧ kn_X e' = kn_X e ∧ kn_runs e' = kn_runs e ∧ kn_hist e' = kn_hist e ∧
    client_ok e' c' ∧ xid_ c' = xid_ c.
Proof.
  intros Hc Hxid E. unfold call1_leave in E. pose proof Hc as [H1 H2 H3 H4 H5].
  destruct (calls c !! s32 xid) as [ca|] eqn:Hca; [|done].
  assert (is_u32 xid) as Hxu by done.
  destruct (H5 _ _ Hca) as (_&Hx&_). rewrite <-(s32_u32 xid), u32_s32, u32_idemp, u32_small in Hx by done.
  unfold update_xid_rep in E. simpl in E.
  destruct (update_window_spec _ _ _ H2 Hxu) as (w&Ew&Hw). rewrite Ew in E. cbn [obind] in E.
  injection E as <- _ _.
  exists {| kn_R := {[xid]} ∪ kn_R e; kn_X := kn_X e; kn_runs := kn_runs e; kn_hist := kn_hist e |}.
  split; [apply know_le_report|]. split; [done|]. split; [done|]. split; [done|]. split; [|done].
  apply (client_report e c w xid Hc Hw ltac:(lia) (delete (s32 xid) (calls c))).
  intros k ca' [Hne Hk]%lookup_delete_Some. destruct (H5 k ca' Hk) as (Hk1&?&Hca').
  split; [done|]. split; [done|]. destruct (ca_done ca'); [done|]. split; [done|].
  intros Heq. apply Hne. apply u32_key; [apply s32_range| |done].
  by rewrite u32_s32, Heq, u32_small.
Qed.

(** a call begins: its request acknowledges what was received *)
Lemma enter_inv e c proc args c' xid m req :
  is_u32 n → client_ok e c → kn_X e < 2 ^ 32 - 1 → 1 ≤ kn_X e →
  RPC_HEADER_SZ + Zlength args ≤ MARSHALL_MAX →
  marshall_rawbytes marshall_new args (Zlength args) = Done m →
  call1_enter c proc m = Done (c', inr (xid, req)) →
  let e' := {| kn_R := kn_R e; kn_X := kn_X e + 1; kn_runs := kn_runs e; kn_hist := kn_hist e |} in
  know_le e e' ∧ client_ok e' c' ∧ xid_ c' = xid_ c + 1 ∧ pdu_ok n e' (marshall_str req).
Proof.
  intros Hn [H1 H2 H3 [H4 H4'] H5] HX HX1 Hlen Hm E e'.
  assert (know_le e e') as He by (split; simpl; [done|split; [lia|done]]).
  unfold call1_enter in E. destruct (_ || _); [done|]. simpl in E.
  pose proof H2 as (f&t&Hf&_&_&Hf0&Hfu&HR). rewrite Hf in E.
  assert (is_u32 f) as Hfr by (rewrite Hf in Hfu; by apply Forall_cons in Hfu as [? _]).
  assert (f ∈ kn_R e) as HfR by (apply HR; lia). pose proof (H3 f HfR) as HfX.
  destruct (rawbytes_spec marshall_new args (Zlength args) marshall_new_wf eq_refl Hlen)
    as (m'&Hm'&Hwf&Hi&Hstr). rewrite Hm in Hm'. injection Hm' as <-.
  set (h := make_req_header (xid_ c) proc (clt_nonce c) (srv_nonce c) f) in E.
  assert (req_header_ok h) as Hh.
  { split; [apply s32_range|]. split; [apply s32_range|]. split; [apply u32_range|].
    split; [apply u32_range|apply s32_range]. }
  change (mind marshall_new) with RPC_HEADER_SZ in Hi.
  destruct (pack_req_header_spec m h Hwf) as (req'&Hp&Hwf'&Hi'&Hs); [lia|].
  rewrite Hp in E. injection E as <- <- <-.
  assert (u32 (xid_ c + 1) = xid_ c + 1) as Hnext by (apply u32_small; lia_ints).
  split; [done|]. split; [|split; [done|]].
  - split; simpl; try done; [lia|by intros r ?%H3; lia|].
    intros k ca. rewrite lookup_insert. case_decide as Hk; intros Hca.
    + injection Hca as <-. simpl. rewrite <-Hk. split; [apply s32_range|].
      rewrite u32_s32, u32_small, H1 by lia_ints. split; [lia|]. intros Hin%H3. lia.
    + destruct (H5 k ca Hca) as (?&?&?). split; [done|]. split; [lia|]. done.
  - pose proof (marshall_str_length m Hwf) as Hlm. pose proof (marshall_str_length req' Hwf') as Hlr.
    change RPC_HEADER_SZ with 24 in *. unfold MARSHALL_MAX in Hlen. split; [lia_ints|].
    intros u h' Hu _. rewrite Hs in Hu, Hlr.
    rewrite unpack_req_header_at in Hu; [|rewrite length_take; lia|done|lia_ints].
    injection Hu as _ <-. intros _. unfold h, make_req_header. simpl.
    rewrite !u32_s32, (u32_small (xid_ c)), (u32_small f), H1 by lia_ints.
    split; [lia|]. split; [lia|]. intros r Hr. apply HR; lia.
Qed.

(** *** The steps of the system *)

Lemma runs_of_app x l1 l2 : runs_of n x (l1 ++ l2) = runs_of n x l1 ++ runs_of n x l2.
Proof. apply filter_app. Qed.

Lemma thread_inv y t y' : n ≠ 0 → inv y → act n y (AThread t) = Some y' → inv y'.
Proof.
  intros Hn0 (R&Hc&[H1 H2 H3 H4 H5]&Hx) E. simpl in E.
  destruct (sy_threads y !! t) as [p|] eqn:Hp; [|done]. simpl in E.
  destruct (thread_step _ _ _ p) as [r|] eqn:Hr; [|done]. simpl in E.
  destruct (decide (new_blocks y (sp_srv r))) as [Hnew|]; [|done]. injection E as <-.
  set (e := know_of R y) in *.
  set (e' := {| kn_R := R; kn_X := xid_ (sy_cl y); kn_runs := sy_runs y ++ sp_run r;
                kn_hist := heap (sp_srv r) ∪ sy_hist y |}).
  assert (know_le e e') as He.
  { split; [done|]. split; [simpl; lia|]. split; [simpl; set_solver|]. simpl.
    apply hist_extends; [by destruct H3|by eapply thread_step_grows|done]. }
  assert (thread_ok n e p) as Htp by (by eapply Forall_lookup in H4).
  destruct (thread_step_good n e e' _ _ _ p r He H3 Htp Hn0 Hr) as [G1 G2 G3 G4].
  { apply map_union_subseteq_l. }
  { simpl. set_solver. }
  exists R. split; [|split; [|done]]; unfold know_of; simpl; fold e'.
  - destruct Hc as [C1 C2 C3 C4 C5]. split; try done. intros k ca Hk.
    destruct (C5 k ca Hk) as (?&?&Hca). split; [done|]. split; [done|].
    destruct (ca_done ca); [|done]. by eapply answer_ok_le.
  - split; simpl.
    + by eapply pdus_le.
    + apply Forall_app. split.
      * eapply Forall_impl; [exact H2|]. intros b. by apply sent_ok_le.
      * case_decide as Hcl; [|done]. apply Forall_fmap. by apply G3.
    + done.
    + apply Forall_insert; [|done]. eapply Forall_impl; [exact H4|]. intros q. by apply thread_ok_le.
    + intros x Hx0 HxR. specialize (G4 x Hx0 HxR). specialize (H5 x Hx0 HxR).
      pose proof (sum_list_with_insert (claim n x) _ t p (sp_pc r) Hp) as Hsum.
      unfold claims in *. rewrite runs_of_app, length_app. lia.
Qed.

(** a step of the client alone, which may learn of more answers *)
Lemma client_inv y R c' e' :
  rest_ok (know_of R y) y → xid_ (sy_cl y) = 1 + Z.of_nat (sy_calls y) → know_le (know_of R y) e' →
  kn_X e' = xid_ (sy_cl y) → kn_runs e' = sy_runs y → kn_hist e' = sy_hist y →
  client_ok e' c' → xid_ c' = xid_ (sy_cl y) → inv (set_client y c').
Proof.
  intros Hrest Hx He HX Hr Hh Hc' Hx'. exists (kn_R e').
  assert (know_of (kn_R e') (set_client y c') = e') as ->.
  { unfold know_of. simpl. rewrite Hx'. destruct e' as [? ? ? ?]. simpl in *. by subst. }
  split; [done|]. split; [|simpl; lia].
  eapply rest_ok_le; try done; [rewrite Hh; by destruct Hrest as [_ _ [? _] _ _]|].
  by eapply pdus_le, Hrest.
Qed.

Lemma act_inv y a y' :
  is_u32 n → n ≠ 0 → inv y → act n y a = Some y' → Z.of_nat (sy_calls y') < 2 ^ 32 - 1 → inv y'.
Proof.
  intros Hn Hn0 Hinv E Hcalls. destruct a as [proc args|i|xid|nonce|i c|b c|cs|t].
  all: [> | | | | | | | by eapply thread_inv].
  all: destruct Hinv as (R&Hc&Hrest&Hx); set (e := know_of R y) in *; simpl in E.
  - destruct (let! req := _ in call1_enter _ _ req) as [[c' [|[xid req]]]|] eqn:E1; [done| |done].
    case_decide as Hlen; [|done]. injection E as <-. simpl in Hcalls.
    apply obind_Done_inv in E1 as (m&Hm&E1).
    destruct (enter_inv e _ _ _ _ _ _ _ Hn Hc ltac:(simpl; lia) ltac:(simpl; lia) Hlen Hm E1)
      as (He&Hc'&Hx'&Hpdu).
    exists R. unfold know_of. simpl. rewrite Hx'. split; [done|]. split; [|lia].
    eapply rest_ok_le; try done; [by destruct Hrest as [_ _ [? _] _ _]|]. simpl.
    apply Forall_app. split; [|by constructor]. by eapply pdus_le, Hrest.
  - destruct (sy_replies y !! i) as [b|] eqn:Hb; [|done]. simpl in E.
    destruct (rpcc_got_pdu _ _ _) as [[c' r]|] eqn:Er; [|done]. injection E as <-.
    assert (sent_ok n e b) as Hs by (destruct Hrest as [_ H2 _ _ _]; by eapply Forall_lookup in H2).
    destruct (got_pdu_inv e _ b c' r Hc Hs Er) as (e'&He&HX&Hr&Hh&Hc'&Hx').
    by eapply (client_inv y R c' e').
  - case_decide as Hxid; [|done].
    destruct (call1_leave _ _) as [[[c' u] ret]|] eqn:El; [|done]. injection E as <-.
    destruct (leave_inv e _ xid c' u ret Hc Hxid El) as (e'&He&HX&Hr&Hh&Hc'&Hx').
    by eapply (client_inv y R c' e').
  - injection E as <-. exists R. split; [|split; [|done]].
    + destruct Hc as [? ? ? [? _] ?]. split; try done. split; [done|apply u32_range].
    + by destruct Hrest; split.
  - destruct (sy_reqs y !! i) as [b|] eqn:Hb; [|done]. injection E as <-.
    exists R. split; [done|]. split; [|done]. destruct Hrest as [H1 H2 H3 H4 H5]. split; simpl; try done.
    + apply Forall_app. split; [done|]. constructor; [|done]. by eapply Forall_lookup in H1.
    + intros x ??. unfold claims. rewrite sum_list_with_app. simpl. specialize (H5 x).
      unfold claims in H5. rewrite <-H5 by done. simpl. lia.
  - case_decide as Hb; [done|]. injection E as <-. exists R. split; [done|]. split; [|done].
    destruct Hrest as [H1 H2 H3 H4 H5]. split; simpl; try done.
    + apply Forall_app. split; [done|]. constructor; [|done]. split; [lia|].
      intros u h Hu Hok Hnh. destruct Hb. left. unfold nonce_of. by rewrite Hu, Hok, Hnh.
    + intros x ??. unfold claims. rewrite sum_list_with_app. simpl. specialize (H5 x).
      unfold claims in H5. rewrite <-H5 by done. simpl. lia.
  - injection E as <-. exists R. split; [done|]. split; [|done]. by destruct Hrest; split.
Qed.

Lemma inv_initial y : is_u32 n → initial n y → inv y.
Proof.
  intros Hn ([loss Hcl]&Hcalls&Hq&Hr&Ht&Hruns&Hhist&Hw&Hh&Hp).
  exists {[0]}. assert (know_of {[0]} y = Know {[0]} 1 [] ∅) as ->.
  { unfold know_of. by rewrite Hcl, Hruns, Hhist. }
  split; [|split].
  - rewrite Hcl. split; try done.
    + apply window_of_new.
    + simpl. intros r ->%elem_of_singleton. lia.
    + split; [by apply u32_small|]. by vm_compute.
  - split; rewrite ?Hq, ?Hr, ?Ht; try done.
    + split; [simpl; by rewrite Hh|]. split; [done|]. unfold client_list. by rewrite Hw.
    + intros x _ _. rewrite Hruns. unfold listed, client_list. by rewrite Hw.
  - by rewrite Hcl, Hcalls.
Qed.

Lemma act_calls y a y' : act n y a = Some y' → (sy_calls y ≤ sy_calls y')%nat.
Proof.
  intros E. destruct a as [proc args|i|xid|nonce|i c|b c|cs|t]; simpl in E.
  - destruct (let! req := _ in call1_enter _ _ req) as [[c' [|[xid req]]]|]; [done| |done].
    case_decide; [|done]. injection E as <-. simpl. lia.
  - destruct (sy_replies y !! i); [|done]. simpl in E.
    destruct (rpcc_got_pdu _ _ _) as [[c' r]|]; [|done]. by injection E as <-.
  - case_decide; [|done]. destruct (call1_leave _ _) as [[[c' u] ret]|]; [|done].
    by injection E as <-.
  - by injection E as <-.
  - destruct (sy_reqs y !! i); [|done]. by injection E as <-.
  - case_decide; [done|]. by injection E as <-.
  - by injection E as <-.
  - destruct (sy_threads y !! t); [|done]. simpl in E.
    destruct (thread_step _ _ _ _); [|done]. simpl in E. case_decide; [|done]. by injection E as <-.
Qed.

Lemma reachable_inv y0 y :
  is_u32 n → n ≠ 0 → initial n y0 → rtc (step n) y0 y → Z.of_nat (sy_calls y) < 2 ^ 32 - 1 →
  inv y.
Proof.
  intros Hn Hn0 Hi Hs. apply (rtc_invariant (step n)
    (λ y, Z.of_nat (sy_calls y) < 2 ^ 32 - 1 → inv y) y0 y); [|done|by intros _; apply inv_initial].
  intros a b IH [ac Hac] Hb. pose proof (act_calls a ac b Hac).
  eapply act_inv; [done|done|apply IH; lia|exact Hac|exact Hb].
Qed.

Lemma acts_reachable l y y' : acts n y l = Some y' → rtc (step n) y y'.
Proof.
  revert y. induction l as [|a l IH]; intros y; simpl; [intros [= ->]; done|].
  destruct (act n y a) as [y1|] eqn:E; [|done]. simpl. intros Hl.
  eapply rtc_l; [by exists a|by apply IH].
Qed.
End invariant.

(** ** Theorems *)

Section theorems.
Context `{Heap, Allocator} {S : Type} (n : Z).
Implicit Types (y : sys S).

(** C1. At-most-once execution.  While a call is unanswered, its handler has run, or
    is about to run, at most once in all threads together, whatever the network
    and the other clients do: lost, late, repeated and reordered requests and
    replies, several connections, any interleaving of the threads.  (The xids do
    not wrap around: fewer than 2^32 - 1 calls were made.) *)
Theorem at_most_once y0 y k ca :
  is_u32 n → n ≠ 0 → initial n y0 → rtc (step n) y0 y → Z.of_nat (sy_calls y) < 2 ^ 32 - 1 →
  calls (sy_cl y) !! k = Some ca → ca_done ca = false →
  (claims n (u32 k) (sy_threads y) + length (runs_of n (u32 k) (sy_runs y)) ≤ 1)%nat.
Proof.
  intros Hn Hn0 Hi Hs Hb Hk Hd.
  destruct (reachable_inv n y0 y Hn Hn0 Hi Hs Hb) as (R&[_ _ _ _ Hcalls]&[_ _ _ _ Hcount]&_).
  destruct (Hcalls k ca Hk) as (_&Hx&Hca). rewrite Hd in Hca.
  rewrite Hcount; [|lia|exact Hca]. unfold listed. case_decide; lia.
Qed.

(** C2. A call that was answered has the return value of a run of its handler, for
    its own xid, unless another instance of the server refused it. *)
Theorem answers_are_runs y0 y k ca :
  is_u32 n → n ≠ 0 → initial n y0 → rtc (step n) y0 y → Z.of_nat (sy_calls y) < 2 ^ 32 - 1 →
  calls (sy_cl y) !! k = Some ca → ca_done ca = true →
  ca_intret ca = oldsrv_failure ∨ Run n (u32 k) (ca_intret ca) ∈ sy_runs y.
Proof.
  intros Hn Hn0 Hi Hs Hb Hk Hd.
  destruct (reachable_inv n y0 y Hn Hn0 Hi Hs Hb) as (R&[_ _ _ _ Hcalls]&_).
  destruct (Hcalls k ca Hk) as (_&_&Hca). by rewrite Hd in Hca.
Qed.

(** C40. The verdict FORGOTTEN, and with it [atmostonce_failure], is never met by a
    client that numbers and acknowledges its calls as [rpcc] does. *)
Theorem forgotten_unreachable y0 y t j f :
  is_u32 n → n ≠ 0 → initial n y0 → rtc (step n) y0 y → Z.of_nat (sy_calls y) < 2 ^ 32 - 1 →
  sy_threads y !! t = Some (PVerdict j f FORGOTTEN) → rq_clt_nonce (jb_hdr j) ≠ n.
Proof.
  intros Hn Hn0 Hi Hs Hb Ht Ho.
  destruct (reachable_inv n y0 y Hn Hn0 Hi Hs Hb) as (R&_&[_ _ _ Hth _]&_).
  destruct (Forall_lookup_1 _ _ _ _ Hth Ht) as (_&_&Hv). by apply Hv.
Qed.

Lemma run_alone_end fuel v cs (s : S) : run_alone fuel v cs s PEnd = Done (v, cs, s, []).
Proof. induction fuel as [|fuel IH]; [done|]. simpl. by rewrite IH. Qed.

(** one step of [run_alone] *)
Lemma run_alone_S fuel v cs (s : S) p :
  run_alone (Datatypes.S fuel) v cs s p =
  let! r := thread_step v cs s p in
  let! '(v, cs, s, l) := run_alone fuel (sp_srv r) (sp_conns r) (sp_app r) (sp_pc r) in
  Done (v, cs, s, sp_sent r ++ l).
Proof. done. Qed.

Ltac fields := cbn [obind silent_step sp_srv sp_conns sp_app sp_pc sp_sent].
Ltac alone := rewrite run_alone_S; cbn [thread_step]; fields.
Ltac at_end := rewrite run_alone_end; simpl; by rewrite app_nil_r.

Lemma alone_finish fuel v cs (s : S) j rep ret :
  run_alone (3 + fuel) v cs s (PPack j rep ret) =
  let! '(v, cs, l) := dispatch_finish v cs j rep ret in Done (v, cs, s, l).
Proof.
  unfold dispatch_finish. change (3 + fuel)%nat with (Datatypes.S (2 + fuel)). alone.
  destruct (dispatch_pack v j rep ret) as [[[v1 b1] sz1]|]; fields; [|done].
  change (2 + fuel)%nat with (Datatypes.S (1 + fuel)). alone.
  destruct (dispatch_record v1 j b1 sz1) as [v2|]; fields; [|done].
  change (1 + fuel)%nat with (Datatypes.S fuel). alone.
  destruct (dispatch_send v2 cs j b1 sz1) as [[[v3 cs3] l]|]; fields; [|done].
  at_end.
Qed.

Lemma alone_verdict fuel v cs (s : S) j f st :
  run_alone (5 + fuel) v cs s (PVerdict j f st) =
  let! '(v, cs, p) := dispatch_verdict v cs j st in
  match p with
  | Finished l => Done (v, cs, s, l)
  | Go _ =>
      let! '(s, _, rep, ret) := f s (jb_req j) marshall_new in
      let! '(v, cs, l) := dispatch_finish v cs j rep ret in Done (v, cs, s, l)
  end.
Proof.
  change (5 + fuel)%nat with (Datatypes.S (4 + fuel)). alone.
  destruct (dispatch_verdict v cs j st) as [[[v1 cs1] [l|[]]]|]; fields; [| |done].
  { at_end. }
  change (4 + fuel)%nat with (Datatypes.S (3 + fuel)). alone.
  destruct (f s (jb_req j) marshall_new) as [[[[s1 u1] rep] ret]|]; fields; [|done].
  rewrite alone_finish.
  by destruct (dispatch_finish v1 cs1 j rep ret) as [[[v2 cs2] l]|].
Qed.

End theorems.

(** ** Executions *)

#[local] Existing Instance zero_heap.

(** an allocator that returns the address after the highest one in use *)
Definition top (l : list Z) : Z := foldr Z.max 0 l.

Lemma top_spec l p : p ∈ l → p ≤ top l.
Proof.
  induction l as [|q l IH]; [by intros ?%elem_of_nil|]. simpl.
  intros [->|Hp%IH]%elem_of_cons; lia.
Qed.

Definition top_allocator : Allocator.
Proof.
  refine {| alloc h := top (map_to_list h).*1 + 1 |}. intros h.
  destruct (h !! (top (map_to_list h).*1 + 1)) as [b|] eqn:E; [exfalso|done].
  apply elem_of_map_to_list in E. apply (list_elem_of_fmap_2 fst), top_spec in E. simpl in E. lia.
Defined.
#[local] Existing Instance top_allocator.

(** a connection with references for many PDUs *)
Definition busy_conns : conn_store := {[ 1 := set_refno (connection_new 5 0) 100 ]}.

Definition sample_sys : sys Z :=
  {| sy_cl := rpcc_new true 77 0; sy_calls := 0; sy_reqs := []; sy_replies := [];
     sy_srv := sample_server; sy_conns := busy_conns; sy_app := 0; sy_threads := [];
     sy_runs := []; sy_hist := ∅ |}.

Definition steps (k t : nat) : list action := replicate k (AThread t).

(** the client makes two calls of procedure 22; the server answers them *)
Definition two_calls : list action :=
  [ABind 9; ACall 22 []; ACall 22 []; ARecv 0 1; ARecv 1 1] ++ steps 9 0 ++ steps 9 1.

(** the client takes the answer to the first *)
Definition one_answer : list action := two_calls ++ [AReply 0].

(** the request of a third call, which acknowledges the first, is checked; then
    a copy of the first request arrives, late, and is served *)
Definition late_duplicate : list action :=
  one_answer ++ [ALeave 1; ACall 22 []; ARecv 2 1] ++ steps 4 2 ++ [ARecv 0 1] ++ steps 9 3.

(** a copy of the first request is checked before the third request *)
Definition racing_duplicate : list action :=
  one_answer ++ [ALeave 1; ARecv 0 1] ++ steps 4 2 ++ [ACall 22 []; ARecv 2 1] ++ steps 4 3.

(** At-most-once ends with the acknowledgement: a duplicate that the network
    delivers after the entry was dropped counts as a new request, and its handler
    runs again. *)
Theorem stale_duplicate_runs_again :
  ∃ y, acts 77 sample_sys late_duplicate = Some y ∧ length (runs_of 77 1 (sy_runs y)) = 2%nat.
Proof.
  destruct (acts 77 sample_sys late_duplicate) as [y|] eqn:E; [|by vm_compute in E].
  exists y. split; [done|].
  assert (option_map (λ y, length (runs_of 77 1 (sy_runs y)))
    (acts 77 sample_sys late_duplicate) = Some 2%nat) as E2 by (by vm_compute).
  rewrite E in E2. by injection E2.
Qed.

(** The reply of a duplicate is sent after the lock of the reply window was
    released: when the client's next request frees it in between, the thread
    reads freed memory. *)
Theorem freed_reply_is_read :
  ∃ y p, acts 77 sample_sys racing_duplicate = Some y ∧ sy_threads y !! 2%nat = Some p ∧
    thread_step (sy_srv y) (sy_conns y) (sy_app y) p = Fault UseAfterFree.
Proof.
  destruct (acts 77 sample_sys racing_duplicate) as [y|] eqn:E; [|by vm_compute in E].
  assert ((y ← acts 77 sample_sys racing_duplicate; p ← sy_threads y !! 2%nat;
    match thread_step (sy_srv y) (sy_conns y) (sy_app y) p with
    | Done _ => None | Fault f => Some f end) = Some UseAfterFree) as E2 by (by vm_compute).
  rewrite E in E2. simpl in E2. destruct (sy_threads y !! 2%nat) as [p|] eqn:Hp; [|done].
  exists y, p. split; [done|]. split; [done|]. simpl in E2.
  destruct (thread_step _ _ _ p); [done|]. by injection E2 as ->.
Qed.

Lemma sample_initial : initial 77 sample_sys.
Proof.
  split; [by exists 0|]. do 8 (split; [done|]). apply sample_procs_ok.
Qed.

(** the state of a run, with what is needed of it *)
Lemma sample_run l (P : sys Z → bool) :
  option_map P (acts 77 sample_sys l) = Some true →
  ∃ y, rtc (step 77) sample_sys y ∧ P y = true.
Proof.
  destruct (acts 77 sample_sys l) as [y|] eqn:E; [|done]. intros [= HP]. exists y.
  split; [by eapply acts_reachable|done].
Qed.

Definition call_is (d : bool) (y : sys Z) : bool :=
  bool_decide (sy_calls y = 2%nat) &&
  match calls (sy_cl y) !! 1 with Some ca => Bool.eqb (ca_done ca) d | None => false end.

Lemma call_is_spec d y :
  call_is d y = true →
  Z.of_nat (sy_calls y) < 2 ^ 32 - 1 ∧ ∃ ca, calls (sy_cl y) !! 1 = Some ca ∧ ca_done ca = d.
Proof.
  unfold call_is. intros [->%bool_decide_eq_true Hc]%andb_prop. split; [done|].
  destruct (calls (sy_cl y) !! 1) as [ca|]; [|done]. exists ca. split; [done|].
  by apply Bool.eqb_prop.
Qed.

Lemma at_most_once_witness :
  ∃ y, rtc (step 77) sample_sys y ∧
    (claims 77 1 (sy_threads y) + length (runs_of 77 1 (sy_runs y)) ≤ 1)%nat.
Proof.
  destruct (sample_run two_calls (call_is false)) as (y&Hs&(Hb&ca&Hk&Hd)%call_is_spec);
    [by vm_compute|]. exists y. split; [done|].
  apply (at_most_once 77 sample_sys y 1 ca); [by vm_compute|done|apply sample_initial|done..].
Defined.

Lemma answers_are_runs_witness :
  ∃ y ca, rtc (step 77) sample_sys y ∧
    (ca_intret ca = oldsrv_failure ∨ Run 77 1 (ca_intret ca) ∈ sy_runs y).
Proof.
  destruct (sample_run one_answer (call_is true)) as (y&Hs&(Hb&ca&Hk&Hd)%call_is_spec);
    [by vm_compute|]. exists y, ca. split; [done|].
  apply (answers_are_runs 77 sample_sys y 1 ca); [by vm_compute|done|apply sample_initial|done..].
Defined.

(** the first request of another client (nonce 5), which acknowledges itself *)
Definition forgetful : list byte :=
  be32 24 ++ be32 1 ++ be32 22 ++ be32 5 ++ be32 9 ++ be32 0.
Definition forgetful_again : list byte :=
  be32 24 ++ be32 1 ++ be32 22 ++ be32 5 ++ be32 9 ++ be32 1.

(** the nonce of the request whose thread holds the verdict FORGOTTEN *)
Definition forgotten_nonce (p : pc Z) : option Z :=
  match p with PVerdict j _ FORGOTTEN => Some (rq_clt_nonce (jb_hdr j)) | _ => None end.

Lemma forgotten_unreachable_witness :
  ∃ y j f, rtc (step 77) sample_sys y ∧ sy_threads y !! 1%nat = Some (PVerdict j f FORGOTTEN) ∧
    rq_clt_nonce (jb_hdr j) ≠ 77.
Proof.
  destruct (sample_run ([AForeign forgetful 1] ++ steps 9 0 ++
      [AForeign forgetful_again 1] ++ steps 4 1)
    (λ y, bool_decide (sy_calls y = 0%nat) &&
      bool_decide (sy_threads y !! 1%nat ≫= forgotten_nonce = Some 5))) as (y&Hs&Hy);
    [by vm_compute|].
  apply andb_prop in Hy as [Hc%bool_decide_eq_true Hy%bool_decide_eq_true].
  destruct (sy_threads y !! 1%nat) as [[| | | |j f [| | |]| | | | |]|] eqn:Ht; try discriminate Hy.
  exists y, j, f. split; [done|]. split; [done|].
  apply (forgotten_unreachable 77 sample_sys y 1 j f);
    [by vm_compute|done|apply sample_initial|done|by rewrite Hc|done].
Defined.
