(* ===== verification/Extent.v ===== *)
(** * The extent service: [extent_protocol.h], [extent_server.cc], [extent_client.cc]

    The wire form of a directory ([serialize], [deserialize]), the server's
    maps, the client's stubs, and the interface [ExtentLaws] that the file system
    relies on, implemented by the server behind the RPC stubs. *)

From S2P Require Import Prelude Marshall Codec Stubs Connection Rpcs.

(** ** The protocol *)

Definition OK : Z := 0.
Definition RPCERR : Z := 1.
Definition NOENT : Z := 2.
Definition IOERR : Z := 3.
Definition FBIG : Z := 4.

Definition rpc_put : Z := 0x6001.
Definition rpc_get : Z := 0x6002.
Definition rpc_getattr : Z := 0x6003.
Definition rpc_remove : Z := 0x6004.

Abbreviation filelist := (list (Z * list byte)).

Record attr := Attr { atime : Z; mtime : Z; ctime : Z; asize : Z }.

(** *** [serialize]: the integers are copied as they lie in memory *)

Definition sizeof_uint : Z := 4.
Definition sizeof_extentid : Z := 8.

Definition serialize_entry (e : Z * list byte) : list byte :=
  le_bytes 8 e.1 ++ le_bytes 4 (u32 (Zlength e.2)) ++ e.2.

Definition serialize (fl : filelist) : list byte :=
  le_bytes 4 (u32 (Zlength fl)) ++ mjoin (serialize_entry <$> fl).

(** *** [deserialize] reads through [c_str()], the bytes and a final NUL *)

Definition c_str (buf : list byte) : list byte := buf ++ [byte_of_Z 0].

(** an unsigned integer of [n] bytes at [cbuf + p] *)
Definition load (cbuf : list byte) (p n : Z) : outcome Z :=
  let! b := mem_slice cbuf p n in Done (le_value b).

(** the loop; [n] turns are left, the next one is number [i] *)
Fixpoint deserialize_loop (cbuf : list byte) (size_buf size_fl : Z) (n : nat) (i p : Z)
    (fl : filelist) : outcome (filelist * bool) :=
  match n with
  | O => Done (fl, true)
  | S n =>
      let! id := load cbuf p sizeof_extentid in
      let p := u32 (p + sizeof_extentid) in
      if decide (size_buf ≤ p) then Done (fl, false)
      else
        let! size_name := load cbuf p sizeof_uint in
        let p := u32 (p + sizeof_uint) in
        if decide (size_buf ≤ p) then Done (fl, false)
        else
          let! name := mem_slice cbuf p size_name in
          let p := u32 (p + size_name) in
          if decide (u32 (size_buf + Z.b2z (bool_decide (i = u32 (size_fl - 1)))) ≤ p)
          then Done (fl, false)
          else deserialize_loop cbuf size_buf size_fl n (i + 1) p (fl ++ [(id, name)])
  end.

Definition deserialize (buf : list byte) (fl : filelist) : outcome (filelist * bool) :=
  let cbuf := c_str buf in
  let size_buf := u32 (Zlength buf) in
  let! size_fl := load cbuf 0 sizeof_uint in
  if decide (size_buf < size_fl * (sizeof_uint + sizeof_extentid) + 4) then Done (fl, false)
  else deserialize_loop cbuf size_buf size_fl (Z.to_nat size_fl) 0 sizeof_uint fl.

(** *** The attributes *)

Section protocol.
Context `{Heap}.

Definition put_attr (m : marshall) (a : attr) : outcome marshall :=
  let! m := put_uint m (atime a) in
  let! m := put_uint m (mtime a) in
  let! m := put_uint m (ctime a) in
  put_uint m (asize a).

Definition get_attr (u : unmarshall) (a : attr) : outcome (unmarshall * attr) :=
  let! '(u, x1) := get_uint u (atime a) in
  let! '(u, x2) := get_uint u (mtime a) in
  let! '(u, x3) := get_uint u (ctime a) in
  let! '(u, x4) := get_uint u (asize a) in
  Done (u, {| atime := x1; mtime := x2; ctime := x3; asize := x4 |}).

Definition c_attr : codec attr :=
  Codec put_attr get_attr
    {| atime := u32 stale; mtime := u32 stale; ctime := u32 stale; asize := u32 stale |}.
End protocol.

(** ** The server *)

Record extent_server := ExtentServer { es_data : gmap Z (list byte); es_attr : gmap Z attr }.

(** [attr()], and what [operator[]] of the map makes *)
Definition attr_zero : attr := {| atime := 0; mtime := 0; ctime := 0; asize := 0 |}.

Definition extent_server_new : extent_server :=
  {| es_data := {[ 1 := serialize [] ]}; es_attr := {[ 1 := attr_zero ]} |}.

Definition es_put : method extent_server (Z * (list byte * unit)) Z :=
  λ s '(id, (buf, _)) r,
    let at' := match es_attr s !! id with
               | None => <[id := attr_zero]> (es_attr s) | Some _ => es_attr s end in
    Done ({| es_data := <[id := buf]> (es_data s); es_attr := at' |}, r, OK).

Definition es_get : method extent_server (Z * unit) (list byte) :=
  λ s '(id, _) buf,
    match es_data s !! id with
    | None => Done (s, buf, NOENT)
    | Some b => Done (s, b, OK)
    end.

Definition es_getattr : method extent_server (Z * unit) attr :=
  λ s '(id, _) a,
    match es_attr s !! id with
    | None => Done (s, a, NOENT)
    | Some a => Done (s, a, OK)
    end.

Definition es_remove : method extent_server (Z * unit) Z := λ s _ r, Done (s, r, IOERR).

Section service.
Context `{Heap}.

Definition get_params := PCons c_ull PNil.
Definition put_params := PCons c_ull (PCons c_string PNil).

(** [main] of the server: an endpoint with the four handlers *)
Definition extent_smain (rnd count : Z) : outcome (rpcs extent_server) :=
  let! v := rpcs_new rnd count in
  let! v := reg v rpc_get get_params c_string es_get in
  let! v := reg v rpc_getattr get_params c_attr es_getattr in
  let! v := reg v rpc_put put_params c_int es_put in
  reg v rpc_remove get_params c_int es_remove.

(** ** The client: one call per operation; [call1] takes the procedure number *)

Section client.
Context {W : Type} (call1 : Z → transport W).

Definition ec_get (w : W) (eid : Z) (buf : list byte) : outcome (W * list byte * Z) :=
  call get_params c_string (call1 rpc_get) w (eid, tt) buf.

Definition ec_getattr (w : W) (eid : Z) (a : attr) : outcome (W * attr * Z) :=
  call get_params c_attr (call1 rpc_getattr) w (eid, tt) a.

Definition ec_put (w : W) (eid : Z) (buf : list byte) : outcome (W * Z) :=
  let! '(w, _, ret) := call put_params c_int (call1 rpc_put) w (eid, (buf, tt)) (s32 stale) in
  Done (w, ret).

Definition ec_remove (w : W) (eid : Z) : outcome (W * Z) :=
  let! '(w, _, ret) := call get_params c_int (call1 rpc_remove) w (eid, tt) (s32 stale) in
  Done (w, ret).
End client.
End service.

(** ** Facts: the wire form of a directory *)

Lemma le_value_range l : 0 ≤ le_value l < 256 ^ Zlength l.
Proof.
  induction l as [|b l IH]; [simpl; lia|]. cbn [le_value length].
  rewrite Nat2Z.inj_succ, Z.pow_succ_r by lia. pose proof (Z_of_byte_range b). lia.
Qed.

Lemma le_bytes_value l : le_bytes (length l) (le_value l) = l.
Proof.
  induction l as [|b l IH]; [done|]. cbn [le_value le_bytes length]. f_equal.
  - rewrite <-byte_of_Z_mod.
    replace ((Z_of_byte b + 256 * le_value l) `mod` 256) with (Z_of_byte b);
      [apply byte_of_Z_of_byte|].
    pose proof (Z_of_byte_range b). rewrite Z.mul_comm, Z.mod_add by lia. rewrite Z.mod_small; lia.
  - replace ((Z_of_byte b + 256 * le_value l) / 256) with (le_value l); [done|].
    pose proof (Z_of_byte_range b). rewrite Z.mul_comm, Z.div_add by lia.
    rewrite Z.div_small; lia.
Qed.

Lemma load_at pre n z post p :
  p = Zlength pre → 0 ≤ z < 256 ^ Z.of_nat n →
  load (pre ++ le_bytes n z ++ post) p (Z.of_nat n) = Done z.
Proof.
  intros -> Hz. unfold load. pose proof (mem_slice_mid pre (le_bytes n z) post) as E.
  rewrite le_bytes_length in E. rewrite E. simpl. by rewrite le_value_bytes.
Qed.

Lemma load_inv cbuf p n z :
  load cbuf p n = Done z →
  0 ≤ p ∧ 0 ≤ n ∧ p + n ≤ Zlength cbuf ∧ 0 ≤ z < 256 ^ n ∧
  le_bytes (Z.to_nat n) z = take (Z.to_nat n) (drop (Z.to_nat p) cbuf).
Proof.
  unfold load, mem_slice. case_bool_decide as Hb; [|done]. simpl. intros [= <-].
  set (l := take _ _). assert (length l = Z.to_nat n) as Hl.
  { unfold l. rewrite length_take, length_drop. lia. }
  pose proof (le_value_range l) as Hr. rewrite Hl, Z2Nat.id in Hr by lia.
  repeat (split; [lia|]). rewrite <-Hl. apply le_bytes_value.
Qed.

Lemma serialize_entry_length e : Zlength (serialize_entry e) = 12 + Zlength e.2.
Proof. unfold serialize_entry. rewrite !length_app, !le_bytes_length. lia. Qed.

Definition entries (fl : filelist) : list byte := mjoin (serialize_entry <$> fl).

Arguments serialize_entry : simpl never.
Arguments entries : simpl never.

Lemma entries_cons e fl : entries (e :: fl) = serialize_entry e ++ entries fl.
Proof. done. Qed.

Lemma entries_length fl : 12 * Zlength fl ≤ Zlength (entries fl).
Proof.
  induction fl as [|e fl IH]; [done|]. rewrite entries_cons, length_app.
  pose proof (serialize_entry_length e). cbn [length]. lia.
Qed.

(** the last name of a directory is not empty *)
Definition last_named (fl : filelist) : bool :=
  match last fl with Some (_, []) => false | _ => true end.

Lemma last_named_cons e1 e2 fl : last_named (e1 :: e2 :: fl) = last_named (e2 :: fl).
Proof. done. Qed.

(** one turn of the loop on a serialized entry *)
Lemma deserialize_turn pre id name post size_buf size_fl n i fl :
  let cbuf := pre ++ serialize_entry (id, name) ++ post in
  let p := Zlength pre + 12 + Zlength name in
  is_u64 id → Zlength pre + 12 + Zlength name < 2 ^ 32 → Zlength pre + 12 < size_buf →
  deserialize_loop cbuf size_buf size_fl (S n) i (Zlength pre) fl =
    if decide (u32 (size_buf + Z.b2z (bool_decide (i = u32 (size_fl - 1)))) ≤ p)
    then Done (fl, false)
    else deserialize_loop cbuf size_buf size_fl n (i + 1) p (fl ++ [(id, name)]).
Proof.
  intros cbuf p Hid Hp Hs. cbn [deserialize_loop].
  assert (load cbuf (Zlength pre) sizeof_extentid = Done id) as ->.
  { unfold cbuf, serialize_entry. rewrite <-!app_assoc. apply (load_at pre 8); [done|]. exact Hid. }
  cbn [obind]. unfold sizeof_extentid, sizeof_uint.
  rewrite (u32_small (Zlength pre + 8)) by lia_ints. rewrite decide_False by lia.
  assert (load cbuf (Zlength pre + 8) 4 = Done (Zlength name)) as ->.
  { unfold cbuf, serialize_entry. cbn [fst snd]. rewrite (u32_small (Zlength name)) by lia_ints.
    rewrite <-!app_assoc, (app_assoc pre). apply (load_at _ 4); [|lia_ints].
    rewrite length_app, le_bytes_length. lia. }
  cbn [obind]. replace (Zlength pre + 8 + 4) with (Zlength pre + 12) by lia.
  rewrite (u32_small (Zlength pre + 12)) by lia_ints. rewrite decide_False by lia.
  assert (mem_slice cbuf (Zlength pre + 12) (Zlength name) = Done name) as ->.
  { unfold cbuf, serialize_entry. cbn [fst snd]. set (k := u32 (Zlength name)).
    rewrite <-!app_assoc, (app_assoc pre), (app_assoc (pre ++ _)).
    pose proof (mem_slice_mid ((pre ++ le_bytes 8 id) ++ le_bytes 4 k) name post) as E.
    rewrite !length_app, !le_bytes_length in E. rewrite <-E. f_equal. lia. }
  cbn [obind]. by rewrite (u32_small (Zlength pre + 12 + Zlength name)) by lia_ints.
Qed.

(** the last entry, when its name is empty, ends where the bytes end *)
Lemma deserialize_empty_turn pre id size_buf size_fl n i fl :
  is_u64 id → size_buf = Zlength pre + 12 → size_buf < 2 ^ 32 →
  deserialize_loop (pre ++ serialize_entry (id, []) ++ c_str []) size_buf size_fl (S n) i
    (Zlength pre) fl = Done (fl, false).
Proof.
  intros Hid -> Hlen. cbn [deserialize_loop].
  assert (load (pre ++ serialize_entry (id, []) ++ c_str []) (Zlength pre) sizeof_extentid
    = Done id) as ->.
  { unfold serialize_entry. rewrite <-!app_assoc. by apply (load_at pre 8). }
  cbn [obind]. unfold sizeof_extentid, sizeof_uint.
  rewrite (u32_small (Zlength pre + 8)) by lia_ints. rewrite decide_False by lia.
  assert (load (pre ++ serialize_entry (id, []) ++ c_str []) (Zlength pre + 8) 4 = Done 0) as ->.
  { unfold serialize_entry. cbn [fst snd]. rewrite <-!app_assoc, (app_assoc pre).
    apply (load_at _ 4); [|done]. rewrite length_app, le_bytes_length. lia. }
  cbn [obind]. replace (Zlength pre + 8 + 4) with (Zlength pre + 12) by lia.
  rewrite (u32_small (Zlength pre + 12)) by lia_ints. by rewrite decide_True by lia.
Qed.

Lemma deserialize_entries pre fl2 fl size_fl i :
  fl2 ≠ [] → Forall (λ e, is_u64 e.1) fl2 → i + Zlength fl2 = size_fl → 0 ≤ i →
  size_fl < 2 ^ 32 → Zlength (pre ++ entries fl2) < 2 ^ 32 - 1 →
  ∃ fl', deserialize_loop (c_str (pre ++ entries fl2)) (Zlength (pre ++ entries fl2)) size_fl
      (length fl2) i (Zlength pre) fl = Done (fl', last_named fl2) ∧
    (last_named fl2 = true → fl' = fl ++ fl2).
Proof.
  revert pre fl i. induction fl2 as [|[id name] fl2 IH]; intros pre fl i Hne Hv Hi H0 Hmax Hlen;
    [done|]. clear Hne. apply Forall_cons in Hv as [Hid Hv]. simpl in Hid.
  assert (c_str (pre ++ entries ((id, name) :: fl2)) =
    pre ++ serialize_entry (id, name) ++ c_str (entries fl2)) as E.
  { unfold c_str. by rewrite entries_cons, !app_assoc. }
  assert (Zlength (pre ++ entries ((id, name) :: fl2)) =
    Zlength pre + 12 + Zlength name + Zlength (entries fl2)) as EL.
  { rewrite entries_cons, !length_app.
    pose proof (serialize_entry_length (id, name)) as Hsl. cbn [snd] in Hsl. lia. }
  rewrite EL in *. rewrite E. simpl length in Hi |- *.
  assert (u32 (size_fl - 1) = size_fl - 1) as Hu by (apply u32_small; lia_ints).
  destruct fl2 as [|e2 fl2].
  - simpl in Hi, Hlen. change (entries []) with (@nil byte) in *. simpl (Zlength []) in *.
    destruct (decide (name = [])) as [->|Hname].
    + exists fl. split; [|done]. apply deserialize_empty_turn; [done| |]; simpl (Zlength []) in *; lia.
    + assert (0 < Zlength name) by (destruct name; [done|simpl; lia]).
      rewrite deserialize_turn; [|done|lia|lia]. rewrite Hu, bool_decide_eq_true_2 by lia.
      simpl (Z.b2z true). rewrite u32_small by lia_ints. rewrite decide_False by lia.
      eexists. split; [|done]. cbn [deserialize_loop]. by destruct name.
  - pose proof (entries_length (e2 :: fl2)) as Hel. cbn [length] in Hel, Hi.
    rewrite deserialize_turn; [|done|lia|lia]. rewrite Hu, bool_decide_eq_false_2 by lia.
    simpl (Z.b2z false). rewrite u32_small by lia_ints. rewrite decide_False by lia.
    destruct (IH (pre ++ serialize_entry (id, name)) (fl ++ [(id, name)]) (i + 1))
      as (fl'&Eloop&Hfl'); try done; try (simpl length; lia).
    { rewrite !length_app. pose proof (serialize_entry_length (id, name)) as Hsl. cbn [snd] in Hsl. lia. }
    exists fl'. split; [|intros Hl; rewrite (Hfl' Hl), <-app_assoc; done].
    rewrite last_named_cons, <-Eloop. unfold c_str. rewrite <-!app_assoc, !length_app.
    pose proof (serialize_entry_length (id, name)) as Hsl. simpl snd in Hsl.
    f_equal; lia.
Qed.

(** reading inside the buffer: what was read lies in front of the rest *)
Lemma slice_prefix buf pre rest n b :
  buf = pre ++ rest → mem_slice (c_str buf) (Zlength pre) n = Done b →
  Zlength pre + n ≤ Zlength buf →
  ∃ rest', buf = (pre ++ b) ++ rest' ∧ rest = b ++ rest' ∧ Zlength b = n.
Proof.
  intros ->. unfold mem_slice, c_str. case_bool_decide as Hb; [|done]. intros [= <-] Hn.
  rewrite length_app in Hn. rewrite Nat2Z.id, <-app_assoc, drop_app_length.
  rewrite (take_app_le rest) by lia. exists (drop (Z.to_nat n) rest).
  rewrite <-app_assoc, take_drop, length_take. split_and!; [done..|lia].
Qed.

Lemma load_prefix buf pre rest n z :
  buf = pre ++ rest → load (c_str buf) (Zlength pre) (Z.of_nat n) = Done z →
  Zlength pre + Z.of_nat n ≤ Zlength buf →
  ∃ rest', buf = (pre ++ le_bytes n z) ++ rest' ∧ rest = le_bytes n z ++ rest' ∧
    0 ≤ z < 256 ^ Z.of_nat n.
Proof.
  unfold load. intros Hb E Hn. apply obind_Done_inv in E as (b&Hs&E). injection E as <-.
  destruct (slice_prefix buf pre rest _ b Hb Hs Hn) as (rest'&->&->&Hl).
  assert (length b = n) as <- by lia. rewrite le_bytes_value. exists rest'.
  split; [done|]. split; [done|]. apply le_value_range.
Qed.

Lemma load_end cbuf p n z : load cbuf p n = Done z → p + n ≤ Zlength cbuf ∧ 0 ≤ p.
Proof. intros (?&?&?&?)%load_inv. lia. Qed.

Lemma slice_end b i n l : mem_slice b i n = Done l → 0 ≤ i ∧ 0 ≤ n ∧ i + n ≤ Zlength b.
Proof. unfold mem_slice. case_bool_decide; [done|done]. Qed.

Lemma deserialize_loop_sound buf size_fl n i pre rest fl fl' :
  buf = pre ++ rest → Zlength buf < 2 ^ 32 - 1 →
  deserialize_loop (c_str buf) (Zlength buf) size_fl n i (Zlength pre) fl = Done (fl', true) →
  ∃ l rest', fl' = fl ++ l ∧ rest = entries l ++ rest' ∧ length l = n ∧
    Forall (λ e, is_u64 e.1) l.
Proof.
  intros Hb Hlen. revert i pre rest fl Hb. induction n as [|n IH]; intros i pre rest fl Hb E.
  { injection E as <-. exists [], rest. by rewrite app_nil_r. }
  cbn [deserialize_loop] in E. unfold sizeof_extentid, sizeof_uint in E.
  assert (Zlength (c_str buf) = Zlength buf + 1) as Hc.
  { unfold c_str. rewrite length_app. simpl. lia. }
  apply obind_Done_inv in E as (id&Hid&E). pose proof (load_end _ _ _ _ Hid).
  rewrite (u32_small (Zlength pre + 8)) in E by lia_ints. case_decide as Hp1; [done|].
  destruct (load_prefix buf pre rest 8 id Hb Hid) as (rest1&Hb1&->&Hidr); [lia|].
  set (pre1 := pre ++ le_bytes 8 id) in *.
  assert (Zlength pre + 8 = Zlength pre1) as E1.
  { unfold pre1. rewrite length_app, le_bytes_length. lia. }
  rewrite E1 in *. apply obind_Done_inv in E as (sz&Hsz&E). pose proof (load_end _ _ _ _ Hsz).
  rewrite (u32_small (Zlength pre1 + 4)) in E by lia_ints. case_decide as Hp2; [done|].
  destruct (load_prefix buf pre1 rest1 4 sz Hb1 Hsz) as (rest2&Hb2&->&Hszr); [lia|].
  set (pre2 := pre1 ++ le_bytes 4 sz) in *.
  assert (Zlength pre1 + 4 = Zlength pre2) as E2.
  { unfold pre2. rewrite length_app, le_bytes_length. lia. }
  rewrite E2 in *. apply obind_Done_inv in E as (name&Hname&E).
  assert (Zlength pre2 + sz ≤ Zlength buf + 1) as Hend.
  { apply slice_end in Hname. lia. }
  rewrite (u32_small (Zlength pre2 + sz)) in E by lia_ints. case_decide as Hp3; [done|].
  rewrite u32_small in Hp3 by (destruct (bool_decide _); simpl; lia_ints).
  destruct (slice_prefix buf pre2 rest2 sz name Hb2 Hname) as (rest3&Hb3&->&Hl).
  { destruct (bool_decide _); simpl in *; lia. }
  assert (Zlength pre2 + sz = Zlength (pre2 ++ name)) as E3 by (rewrite length_app; lia).
  rewrite E3 in E. destruct (IH _ _ _ _ Hb3 E) as (l&rest'&->&->&<-&Hv).
  exists ((id, name) :: l), rest'. split; [by rewrite <-app_assoc|]. split.
  - rewrite entries_cons. unfold serialize_entry. cbn [fst snd].
    rewrite Hl, u32_small by lia_ints. by rewrite <-!app_assoc.
  - split; [done|]. by constructor.
Qed.

(** ** The interface to the file system

    [ea_get] and the others start from a fresh result variable, as every caller
    does.  [view] is the contents of the store. *)

Record extent_api (W : Type) := ExtentApi {
  ea_get : W → Z → outcome (W * list byte * Z);
  ea_getattr : W → Z → outcome (W * attr * Z);
  ea_put : W → Z → list byte → outcome (W * Z) }.
Arguments ea_get {W} _ _ _.
Arguments ea_getattr {W} _ _ _.
Arguments ea_put {W} _ _ _ _.

Class ExtentLaws {W} (api : extent_api W) := {
  ext_ok : W → Prop;
  view : W → gmap Z (list byte);
  fits : list byte → Prop;
  fits_nil : fits [];
  fits_size b : fits b → Zlength b < 2 ^ 32 - 1;
  view_fits w id b : ext_ok w → view w !! id = Some b → fits b;
  get_law w id : ext_ok w → is_u64 id →
    ∃ w' b, ea_get api w id =
        Done (w', b, match view w !! id with Some _ => OK | None => NOENT end) ∧
      ext_ok w' ∧ view w' = view w ∧ (∀ b', view w !! id = Some b' → b = b');
  getattr_law w id : ext_ok w → is_u64 id →
    ∃ w' a, ea_getattr api w id =
        Done (w', a, match view w !! id with Some _ => OK | None => NOENT end) ∧
      ext_ok w' ∧ view w' = view w ∧ (is_Some (view w !! id) → a = attr_zero);
  put_law w id b : ext_ok w → is_u64 id → fits b →
    ∃ w', ea_put api w id b = Done (w', OK) ∧ ext_ok w' ∧ view w' = <[id := b]> (view w);
}.

#[local] Obligation Tactic := idtac.

(** ** The server behind the stubs *)

Section implementation.
Context `{Heap}.

#[export, program] Instance c_attr_laws : CodecLaws c_attr :=
  {| enc a := be32 (atime a) ++ be32 (mtime a) ++ be32 (ctime a) ++ be32 (asize a);
     c_valid a := is_u32 (atime a) ∧ is_u32 (mtime a) ∧ is_u32 (ctime a) ∧ is_u32 (asize a) |}.
Next Obligation.
  intros m a Ha Hwf Hm. cbv beta in Hm. rewrite !length_app, !be32_length in Hm.
  change (puts (put_attr m a) m
    (be32 (atime a) ++ be32 (mtime a) ++ be32 (ctime a) ++ be32 (asize a))). unfold put_attr.
  eapply puts_bind; [apply put_uint_spec; [done|lia]|intros m1 (?&Hi1&?)].
  rewrite be32_length in Hi1.
  eapply puts_bind; [apply put_uint_spec; [done|lia]|intros m2 (?&Hi2&?)].
  rewrite be32_length in Hi2.
  eapply puts_bind; [apply put_uint_spec; [done|lia]|intros m3 (?&Hi3&?)].
  rewrite be32_length in Hi3. apply put_uint_spec; [done|lia].
Qed.
Next Obligation.
  intros u [a1 a2 a3 a4] l (H1&H2&H3&H4) Hr. cbv beta in Hr. simpl in H1, H2, H3, H4.
  cbn [atime mtime ctime asize] in Hr. rewrite <-!app_assoc in Hr.
  change (c_get c_attr u (c_init c_attr)) with
    (let! '(u, x1) := get_uint u (u32 stale) in let! '(u, x2) := get_uint u (u32 stale) in
     let! '(u, x3) := get_uint u (u32 stale) in let! '(u, x4) := get_uint u (u32 stale) in
     Done (u, {| atime := x1; mtime := x2; ctime := x3; asize := x4 |})).
  destruct (get_uint_be32 u a1 _ (u32 stale) Hr) as [-> Hr1]. cbn [obind].
  destruct (get_uint_be32 _ a2 _ (u32 stale) Hr1) as [-> Hr2]. cbn [obind].
  destruct (get_uint_be32 _ a3 _ (u32 stale) Hr2) as [-> Hr3]. cbn [obind].
  destruct (get_uint_be32 _ a4 _ (u32 stale) Hr3) as [-> Hr4]. cbn [obind].
  rewrite !u32_small by done. rewrite !advance_advance. done.
Qed.

Context (hd : Z → req_header).

Definition extent_rpc (v : rpcs extent_server) : extent_api extent_server :=
  {| ea_get w id := ec_get (registered_call1 hd v) w id [];
     ea_getattr w id := ec_getattr (registered_call1 hd v) w id (c_init c_attr);
     ea_put w id b := ec_put (registered_call1 hd v) w id b |}.

Lemma extent_smain_procs rnd count :
  ∃ v, extent_smain rnd count = Done v ∧
    procs_ v !! rpc_get = Some (h1_fn get_params c_string es_get) ∧
    procs_ v !! rpc_getattr = Some (h1_fn get_params c_attr es_getattr) ∧
    procs_ v !! rpc_put = Some (h1_fn put_params c_int es_put) ∧
    procs_ v !! rpc_remove = Some (h1_fn get_params c_int es_remove).
Proof.
  unfold extent_smain, rpcs_new.
  register.
  eexists. split; [done|]. simpl.
  split_and!; find_proc.
Qed.

(** the sizes that the buffers of the RPC library can carry *)
Definition extent_fits (b : list byte) : Prop :=
  RPC_HEADER_SZ + 12 + Zlength b ≤ MARSHALL_MAX.

(** The invariant of the server: an attribute record, all zero, for every extent. *)
Definition extent_ok (s : extent_server) : Prop :=
  (∀ id b, es_data s !! id = Some b → extent_fits b) ∧
  ∀ id, es_attr s !! id = match es_data s !! id with Some _ => Some attr_zero | None => None end.

Lemma extent_server_new_ok : extent_ok extent_server_new.
Proof.
  split; simpl.
  - intros id b [<- <-]%lookup_singleton_Some. by vm_compute.
  - intros id. destruct (decide (id = 1)) as [->|Hne]; [done|].
    by rewrite !lookup_singleton_ne.
Qed.

Lemma es_put_ok s id b r :
  extent_ok s → extent_fits b →
  ∃ s', es_put s (id, (b, tt)) r = Done (s', r, OK) ∧ extent_ok s' ∧
    es_data s' = <[id := b]> (es_data s).
Proof.
  intros [Hf Ha] Hb. eexists. split; [done|]. split; [|done]. split; simpl.
  - intros i b'. rewrite lookup_insert. case_decide; [by intros [= <-]|apply Hf].
  - intros i. rewrite lookup_insert. specialize (Ha id) as Hid. case_decide as Hi.
    + subst i. rewrite Hid. destruct (es_data s !! id); [by rewrite Hid|apply lookup_insert_eq].
    + rewrite <-Ha. destruct (es_attr s !! id); [done|]. by rewrite lookup_insert_ne.
Qed.

Context (Hhd : ∀ proc, req_header_ok (hd proc)) {rnd count : Z} (v : rpcs extent_server).
Context (Hv : extent_smain rnd count = Done v).

#[export, program] Instance extent_rpc_laws : ExtentLaws (extent_rpc v) :=
  {| ext_ok := extent_ok; view := es_data; fits := extent_fits |}.
Next Obligation. by vm_compute. Qed.
Next Obligation.
  intros b Hb. unfold extent_fits, MARSHALL_MAX in Hb. change RPC_HEADER_SZ with 24 in Hb. lia_ints.
Qed.
Next Obligation. intros s id b [Hf _]. apply Hf. Qed.
Next Obligation.
  intros s id Hok Hid. destruct (extent_smain_procs rnd count) as (v'&Hv'&Hg&_).
  rewrite Hv in Hv'. injection Hv' as <-. cbn [ea_get extent_rpc]. unfold ec_get. rewrite (registered_call1_spec hd v _ _ Hg).
  exists s, (default [] (es_data s !! id)).
  rewrite (call_loopback get_params _ c_string es_get (hd rpc_get) s (id, tt) s
    (default [] (es_data s !! id)) (match es_data s !! id with Some _ => OK | None => NOENT end)).
  - split; [by destruct (es_data s !! id)|]. split; [done|]. split; [done|]. by intros b' ->.
  - by split.
  - by vm_compute.
  - apply Hhd.
  - simpl. by destruct (es_data s !! id).
  - destruct (es_data s !! id) as [b|] eqn:E; [|by vm_compute]. apply Hok in E.
    simpl. unfold extent_fits, MARSHALL_MAX in E. change RPC_HEADER_SZ with 24 in *. lia_ints.
  - destruct (es_data s !! id) as [b|] eqn:E; [|by vm_compute]. apply Hok in E.
    unfold extent_fits in E. change (default [] (Some b)) with b.
    change (enc c_string b) with (be32 (Zlength b) ++ b). rewrite length_app, be32_length. lia.
  - by destruct (es_data s !! id).
Qed.
Next Obligation.
  intros s id Hok Hid. destruct (extent_smain_procs rnd count) as (v'&Hv'&_&Hg&_).
  rewrite Hv in Hv'. injection Hv' as <-. cbn [ea_getattr extent_rpc]. unfold ec_getattr. rewrite (registered_call1_spec hd v _ _ Hg).
  pose proof Hok as [_ Ha]. specialize (Ha id).
  exists s, (default (c_init c_attr) (es_attr s !! id)).
  rewrite (call_loopback get_params _ c_attr es_getattr (hd rpc_getattr) s (id, tt) s
    (default (c_init c_attr) (es_attr s !! id))
    (match es_data s !! id with Some _ => OK | None => NOENT end)).
  - split; [by destruct (es_data s !! id)|]. split; [done|]. split; [done|].
    rewrite Ha. intros [b ->]. done.
  - by split.
  - by vm_compute.
  - apply Hhd.
  - unfold es_getattr. rewrite Ha. by destruct (es_data s !! id).
  - rewrite Ha. destruct (es_data s !! id); [by vm_compute|].
    simpl. split_and!; apply u32_range.
  - cbn [enc c_attr_laws]. rewrite !length_app, !be32_length. by vm_compute.
  - by destruct (es_data s !! id).
Qed.
Next Obligation.
  intros s id b Hok Hid Hb. destruct (extent_smain_procs rnd count) as (v'&Hv'&_&_&Hp&_).
  rewrite Hv in Hv'. injection Hv' as <-. cbn [ea_put extent_rpc]. unfold ec_put. rewrite (registered_call1_spec hd v _ _ Hp).
  destruct (es_put_ok s id b (s32 stale) Hok Hb) as (s'&Es&Hok'&Hd).
  exists s'. change (s32 stale) with (c_init c_int) at 1.
  rewrite (call_loopback put_params _ c_int es_put (hd rpc_put) s (id, (b, tt)) s' (s32 stale) OK);
    [done| | |apply Hhd|exact Es|apply s32_range|by vm_compute|by vm_compute].
  - split; [exact Hid|]. split; [|done]. simpl.
    unfold extent_fits, MARSHALL_MAX in Hb. change RPC_HEADER_SZ with 24 in *. lia_ints.
  - unfold extent_fits in Hb. change (enc_args put_params _ (id, (b, tt)))
      with ((be32 (id / 2 ^ 32) ++ be32 id) ++ (be32 (Zlength b) ++ b) ++ []).
    rewrite !length_app, !be32_length. simpl (length []). lia.
Qed.
End implementation.

(** what the store holds after the puts [l] *)
Definition contents (m : gmap Z (list byte)) (l : list (Z * list byte)) : gmap Z (list byte) :=
  foldl (λ m e, <[e.1 := e.2]> m) m l.

(** a sequence of puts through the interface *)
Fixpoint put_all {W} (api : extent_api W) (w : W) (l : list (Z * list byte)) : outcome W :=
  match l with
  | [] => Done w
  | (id, b) :: l => let! '(w, _) := ea_put api w id b in put_all api w l
  end.

Lemma put_all_spec {W} (api : extent_api W) `{!ExtentLaws api} w l :
  ext_ok w → Forall (λ e, is_u64 e.1 ∧ fits (api:=api) e.2) l →
  ∃ w', put_all api w l = Done w' ∧ ext_ok w' ∧
    view w' = contents (view w) l.
Proof.
  intros Hw Hl. revert w Hw. induction Hl as [|[id b] l [Hid Hb] _ IH]; intros w Hw; simpl.
  { by exists w. }
  destruct (put_law w id b Hw Hid Hb) as (w1&->&Hw1&Hv). simpl.
  destruct (IH w1 Hw1) as (w'&->&Hw'&Hv'). exists w'. split_and!; [done..|]. by rewrite Hv', Hv.
Qed.

(** ** Theorems *)

(** the check on the announced number of entries passes *)
Lemma count_check l : Zlength (serialize l) < 2 ^ 32 - 1 →
  u32 (Zlength (serialize l)) = Zlength (serialize l) ∧
  Zlength l * (sizeof_uint + sizeof_extentid) + 4 ≤ Zlength (serialize l) ∧
  load (c_str (serialize l)) 0 sizeof_uint = Done (Zlength l).
Proof.
  intros Hl. assert (Zlength (serialize l) = 4 + Zlength (entries l)) as E.
  { unfold serialize. rewrite length_app, le_bytes_length. fold (entries l). lia. }
  pose proof (entries_length l). unfold sizeof_uint, sizeof_extentid.
  split; [apply u32_small; lia_ints|]. split; [lia|].
  unfold c_str, serialize. rewrite (u32_small (Zlength l)) by lia_ints.
  rewrite <-app_assoc. apply (load_at [] 4); [done|lia_ints].
Qed.

Lemma deserialize_serialized l fl :
  Forall (λ e, is_u64 e.1) l → Zlength (serialize l) < 2 ^ 32 - 1 →
  ∃ fl', deserialize (serialize l) fl = Done (fl', last_named l) ∧
    (last_named l = true → fl' = fl ++ l).
Proof.
  intros Hv Hl. destruct (count_check l Hl) as (E1&E2&E3).
  unfold deserialize. rewrite E1, E3. cbn [obind]. rewrite decide_False by lia.
  destruct (decide (l = [])) as [->|Hne].
  { simpl. exists fl. by rewrite app_nil_r. }
  rewrite Nat2Z.id. unfold serialize in *. fold (entries l) in *.
  assert (Zlength l < 2 ^ 32).
  { pose proof (entries_length l). rewrite length_app in Hl. lia. }
  rewrite (u32_small (Zlength l)) in * by lia_ints.
  destruct (deserialize_entries (le_bytes 4 (Zlength l)) l fl (Zlength l) 0) as (fl'&E&Hfl');
    try done; try lia.
  rewrite le_bytes_length in E. exists fl'. by split.
Qed.

(** C20. A directory is read back from its wire form, as long as it is empty or its
    last name is not. *)
Theorem deserialize_serialize l fl :
  Forall (λ e, is_u64 e.1) l → Zlength (serialize l) < 2 ^ 32 - 1 → last_named l = true →
  deserialize (serialize l) fl = Done (fl ++ l, true).
Proof.
  intros Hv Hl Hn. destruct (deserialize_serialized l fl Hv Hl) as (fl'&->&Hfl').
  by rewrite Hn, (Hfl' Hn).
Qed.

(** A directory whose last name is empty cannot be read back. *)
Theorem deserialize_last_unnamed l id fl :
  Forall (λ e, is_u64 e.1) l → is_u64 id → Zlength (serialize (l ++ [(id, [])])) < 2 ^ 32 - 1 →
  ∃ fl', deserialize (serialize (l ++ [(id, [])])) fl = Done (fl', false).
Proof.
  intros Hv Hid Hl. destruct (deserialize_serialized (l ++ [(id, [])]) fl) as (fl'&->&_); try done.
  - apply Forall_app. split; [done|]. by constructor.
  - exists fl'. unfold last_named. by rewrite last_snoc.
Qed.

(** what [deserialize] accepts *)
Lemma deserialize_accepts buf fl fl' :
  Zlength buf < 2 ^ 32 - 1 → deserialize buf fl = Done (fl', true) →
  ∃ l rest, fl' = fl ++ l ∧ buf = serialize l ++ rest ∧ Forall (λ e, is_u64 e.1) l.
Proof.
  intros Hlen E. unfold deserialize in E. rewrite (u32_small (Zlength buf)) in E by lia_ints.
  apply obind_Done_inv in E as (n&Hn&E). case_decide as Hc; [done|].
  unfold sizeof_uint, sizeof_extentid in Hc.
  pose proof (load_inv _ _ _ _ Hn) as (_&_&_&Hnr&_).
  destruct (load_prefix buf [] buf 4 n eq_refl Hn) as (rest1&Hb1&->&_); [simpl; lia|].
  change ([] ++ le_bytes 4 n) with (le_bytes 4 n) in Hb1. change sizeof_uint with (Zlength (le_bytes 4 n)) in E.
  apply (deserialize_loop_sound _ _ _ _ _ rest1) in E as (l&rest&->&->&Hl&Hv); [|done|done].
  exists l, rest. split; [done|]. split; [|done]. unfold serialize. fold (entries l).
  rewrite <-app_assoc, Hl, Z2Nat.id, u32_small by lia_ints. done.
Qed.

(** Whatever the bytes, what [deserialize] accepts is the wire form of the list
    it returns, perhaps followed by bytes that it does not look at. *)
Theorem deserialize_sound buf fl fl' :
  Zlength buf < 2 ^ 32 - 1 → deserialize buf fl = Done (fl', true) →
  ∃ l rest, fl' = fl ++ l ∧ buf = serialize l ++ rest ∧ Forall (λ e, is_u64 e.1) l.
Proof. apply deserialize_accepts. Qed.

(** A name that is announced longer than what follows makes [deserialize] read
    outside the buffer: the length is checked only after the name was copied. *)
Theorem deserialize_overread id sz name fl :
  is_u64 id → name ≠ [] → Zlength name + 1 < sz < 2 ^ 32 - 20 →
  deserialize (le_bytes 4 1 ++ le_bytes 8 id ++ le_bytes 4 sz ++ name) fl = Fault OutOfBounds.
Proof.
  intros Hid Hname Hsz. set (buf := _ ++ _).
  assert (0 < Zlength name) by (destruct name; [done|simpl; lia]).
  assert (Zlength buf = 16 + Zlength name) as Hlen.
  { unfold buf. rewrite !length_app, !le_bytes_length. lia. }
  unfold deserialize. rewrite Hlen, (u32_small (16 + _)) by lia_ints.
  assert (load (c_str buf) 0 sizeof_uint = Done 1) as ->.
  { unfold c_str, buf. rewrite <-app_assoc. by apply (load_at [] 4). }
  cbn [obind]. unfold sizeof_uint, sizeof_extentid. rewrite decide_False by lia.
  change (Z.to_nat 1) with 1%nat. cbn [deserialize_loop]. unfold sizeof_uint, sizeof_extentid.
  assert (load (c_str buf) 4 8 = Done id) as ->.
  { unfold c_str, buf. rewrite <-!app_assoc. by apply (load_at (le_bytes 4 1) 8). }
  cbn [obind]. change (u32 (4 + 8)) with 12. rewrite decide_False by lia.
  assert (load (c_str buf) 12 4 = Done sz) as ->.
  { unfold c_str, buf. rewrite <-!app_assoc, (app_assoc (le_bytes 4 1)).
    apply (load_at _ 4); [by rewrite length_app, !le_bytes_length|lia_ints]. }
  cbn [obind]. change (u32 (12 + 4)) with 16. rewrite decide_False by lia.
  unfold mem_slice. rewrite bool_decide_eq_false_2; [done|].
  unfold c_str. rewrite length_app. simpl length. lia.
Qed.

Section theorems.
Context `{Heap} (hd : Z → req_header) {rnd count : Z} (v : rpcs extent_server).

(** C21. The store behind the RPC stubs: after any sequence of puts, [get] returns what
    was put last under the identifier, and NOENT when nothing was; the root
    directory, 1, is there from the start and empty.  The attributes of an extent
    are all zero whatever was put, its size too. *)
Theorem extent_store l :
  (∀ proc, req_header_ok (hd proc)) → extent_smain rnd count = Done v →
  Forall (λ e, is_u64 e.1 ∧ extent_fits e.2) l →
  ∃ w, put_all (extent_rpc hd v) extent_server_new l = Done w ∧
    ∀ id, is_u64 id → ∃ w1 b w2 a ret,
      ea_get (extent_rpc hd v) w id = Done (w1, b, ret) ∧
      ea_getattr (extent_rpc hd v) w id = Done (w2, a, ret) ∧
      match contents (es_data extent_server_new) l !! id with
      | Some b' => ret = OK ∧ b = b' ∧ a = attr_zero
      | None => ret = NOENT
      end.
Proof.
  intros Hhd Hv Hl.
  destruct (put_all_spec (ExtentLaws0 := extent_rpc_laws hd Hhd v Hv) (extent_rpc hd v) extent_server_new l
    extent_server_new_ok Hl) as (w&->&Hw&Hview).
  exists w. split; [done|]. intros id Hid.
  change (es_data w = contents (es_data extent_server_new) l) in Hview. rewrite <-Hview.
  destruct (get_law (ExtentLaws := extent_rpc_laws hd Hhd v Hv) w id Hw Hid) as (w1&b&Eg&_&_&Hb).
  destruct (getattr_law (ExtentLaws := extent_rpc_laws hd Hhd v Hv) w id Hw Hid) as (w2&a&Ea&_&_&Ha).
  exists w1, b, w2, a, (match es_data w !! id with Some _ => OK | None => NOENT end).
  split; [exact Eg|]. split; [exact Ea|]. simpl in Hb, Ha.
  destruct (es_data w !! id) as [b'|]; [|done]. split; [done|]. split; [by apply Hb|by apply Ha].
Qed.
End theorems.

(** ** Witnesses *)

#[local] Existing Instance zero_heap.

Definition sample_dir : filelist := [(2147483651, be32 7); (5, []); (6, be32 8)].

Lemma deserialize_serialize_witness : deserialize (serialize sample_dir) [] = Done (sample_dir, true).
Proof. apply (deserialize_serialize sample_dir []); [by repeat constructor|by vm_compute..]. Defined.

Lemma deserialize_last_unnamed_witness :
  ∃ fl', deserialize (serialize (sample_dir ++ [(9, [])])) [] = Done (fl', false).
Proof.
  apply deserialize_last_unnamed; [by repeat constructor|by vm_compute..].
Defined.

Lemma deserialize_sound_witness :
  ∃ l rest, sample_dir = [] ++ l ∧ serialize sample_dir ++ be32 3 = serialize l ++ rest ∧
    Forall (λ e, is_u64 e.1) l.
Proof. apply deserialize_sound; by vm_compute. Defined.

Lemma deserialize_overread_witness :
  deserialize (le_bytes 4 1 ++ le_bytes 8 5 ++ le_bytes 4 100 ++ be32 7) [] = Fault OutOfBounds.
Proof. apply deserialize_overread; by vm_compute. Defined.

Definition sample_header (proc : Z) : req_header := make_req_header 1 proc 3 4 0.

Lemma sample_header_ok proc : req_header_ok (sample_header proc).
Proof.
  split; [apply s32_range|]. split; [apply s32_range|]. split; [apply u32_range|].
  split; [apply u32_range|apply s32_range].
Qed.

Definition sample_puts : list (Z * list byte) := [(1, serialize sample_dir); (5, be32 1); (5, be32 2)].

Lemma extent_store_witness :
  ∃ v w, extent_smain 9 0 = Done v ∧
    put_all (extent_rpc sample_header v) extent_server_new sample_puts = Done w ∧
    ∀ id, is_u64 id → ∃ w1 b w2 a ret,
      ea_get (extent_rpc sample_header v) w id = Done (w1, b, ret) ∧
      ea_getattr (extent_rpc sample_header v) w id = Done (w2, a, ret) ∧
      match contents (es_data extent_server_new) sample_puts !! id with
      | Some b' => ret = OK ∧ b = b' ∧ a = attr_zero
      | None => ret = NOENT
      end.
Proof.
  destruct (extent_smain_procs 9 0) as (v&Hv&_).
  destruct (extent_store sample_header v sample_puts sample_header_ok Hv) as (w&Hw&Hg);
    [by repeat constructor; vm_compute|]. exists v, w. by split_and!.
Defined.
