(* ===== verification/Yfs.v ===== *)
(** * The file system: [yfs_client.h] and [yfs_client.cc]

    [yfs_client] keeps directories in extents, in the wire form of
    [extent_protocol::serialize].  It is written, and proved, against the
    interface [extent_api] of the extent service. *)

From Stdlib Require Import Strings.Byte.
From S2P Require Import Prelude Address Marshall Codec Stubs Connection Rpcs Extent.

(** ** Identifiers *)

(** [ist >> finum] of a stream over [n]: blanks are skipped, a sign is taken, and a
    number that does not fit becomes the largest one; no digit at all gives 0 *)
Definition n2i (n : list byte) : Z :=
  let '(neg, s) := match skip_space n with
                   | c :: s => if decide (c = "-"%byte) then (true, s)
                               else if decide (c = "+"%byte) then (false, s) else (false, c :: s)
                   | [] => (false, [])
                   end in
  let v := leading 0 s in
  if decide (2 ^ 64 ≤ v) then 2 ^ 64 - 1 else if neg : bool then u64 (- v) else v.

(** [ost << inum]: at most twenty digits *)
Definition filename (inum : Z) : list byte := decimal 20 inum.

Definition isfile (inum : Z) : bool := bool_decide (Z.land inum 0x80000000 ≠ 0).
Definition isdir (inum : Z) : bool := negb (isfile inum).

(** [rnd] is what [rand()] returns *)
Definition new_inum (rnd isfile : Z) : Z :=
  u64 (Z.lor (u32 (Z.rem rnd 0x7FFFFFFF)) (u32 (Z.shiftl isfile 31))).

Record fileinfo := FileInfo { fi_size : Z; fi_atime : Z; fi_mtime : Z; fi_ctime : Z }.
Record dirinfo := DirInfo { di_atime : Z; di_mtime : Z; di_ctime : Z }.

(** ** The operations *)

Section yfs.
Context {W : Type} (ec : extent_api W).

Definition getfile (w : W) (inum : Z) (fin : fileinfo) : outcome (W * fileinfo * Z) :=
  let! '(w, a, r) := ea_getattr ec w inum in
  if decide (r ≠ OK) then Done (w, fin, IOERR)
  else Done (w, {| fi_size := asize a; fi_atime := atime a; fi_mtime := mtime a;
                   fi_ctime := ctime a |}, OK).

Definition getdir (w : W) (inum : Z) (din : dirinfo) : outcome (W * dirinfo * Z) :=
  let! '(w, a, r) := ea_getattr ec w inum in
  if decide (r ≠ OK) then Done (w, din, IOERR)
  else Done (w, {| di_atime := atime a; di_mtime := mtime a; di_ctime := ctime a |}, OK).

(** the search in the list of entries: the first one with the name *)
Fixpoint find_name (name : list byte) (fl : filelist) : option Z :=
  match fl with
  | [] => None
  | (i, nm) :: fl => if decide (nm = name) then Some i else find_name name fl
  end.

Definition lookup (w : W) (p_id : Z) (name : list byte) (id : Z) : outcome (W * Z * Z) :=
  let! '(w, buf, r) := ea_get ec w p_id in
  if decide (r ≠ OK) then Done (w, id, IOERR)
  else
    let! '(fl, good) := deserialize buf [] in
    if good : bool then
      match find_name name fl with
      | Some i => Done (w, i, OK)
      | None => Done (w, id, NOENT)
      end
    else Done (w, id, IOERR).

Definition readdir (w : W) (id : Z) (fl : filelist) : outcome (W * filelist * Z) :=
  let! '(w, buf, r) := ea_get ec w id in
  if decide (r ≠ OK) then Done (w, fl, IOERR)
  else
    let! '(fl, good) := deserialize buf fl in
    Done (w, fl, if good : bool then OK else IOERR).

Definition createfile (rnd : Z) (w : W) (p_id : Z) (name : list byte) (id : Z)
    : outcome (W * Z * Z) :=
  let! '(w, id, r) := lookup w p_id name id in
  if decide (r = OK) then Done (w, id, OK)
  else if decide (r = NOENT) then
    let! '(w, fl, r) := readdir w p_id [] in
    if decide (r = OK) then
      let id := new_inum rnd 1 in
      let! '(w, r) := ea_put ec w p_id (serialize (fl ++ [(id, name)])) in
      if decide (r ≠ OK) then Done (w, id, IOERR)
      else
        let! '(w, r) := ea_put ec w id [] in
        if decide (r ≠ OK) then Done (w, id, IOERR) else Done (w, id, OK)
    else Done (w, id, IOERR)
  else Done (w, id, IOERR).
End yfs.

(** ** Facts *)

(** a number that was printed is read back *)
Theorem n2i_filename inum : is_u64 inum → n2i (filename inum) = inum.
Proof.
  intros Hi. assert (2 ^ 64 < 10 ^ Z.of_nat 20) by (by vm_compute).
  destruct (scan_decimal 19 inum) as (c&s&E&Hm&Hp&L); [lia_ints|].
  unfold n2i, filename.
  rewrite E, (decide_False (P := c = "-"%byte)), (decide_False (P := c = "+"%byte)) by done. rewrite L.
  by rewrite decide_False by lia_ints.
Qed.

Lemma n2i_filename_witness : is_u64 (2 ^ 64 - 1) ∧ n2i (filename (2 ^ 64 - 1)) = 2 ^ 64 - 1.
Proof. assert (is_u64 (2 ^ 64 - 1)) as H by lia_ints. exact (conj H (n2i_filename _ H)). Defined.

Lemma new_inum_spec rnd :
  new_inum rnd 1 = Z.lor (u32 (Z.rem rnd 0x7FFFFFFF)) (2 ^ 31) ∧ is_u64 (new_inum rnd 1) ∧
  isfile (new_inum rnd 1) = true.
Proof.
  unfold new_inum. change (u32 (Z.shiftl 1 31)) with (2 ^ 31).
  set (x := u32 _). assert (is_u32 x) as Hx by apply u32_range.
  assert (u64 (Z.lor x (2 ^ 31)) = Z.lor x (2 ^ 31)) as E.
  { unfold u64, wrap. rewrite mod_pow2_lor by lia. rewrite Z.mod_small by lia_ints. done. }
  split; [done|]. split; [apply u64_range|].
  unfold isfile. apply bool_decide_eq_true_2. rewrite E. intros Hz.
  assert (Z.testbit (Z.land (Z.lor x (2 ^ 31)) 0x80000000) 31 = true) as Hb.
  { rewrite Z.land_spec, Z.lor_spec. rewrite (Z.pow2_bits_true 31) by lia. by rewrite orb_true_r. }
  rewrite Hz in Hb. by rewrite Z.bits_0 in Hb.
Qed.

Lemma find_name_app name l1 l2 :
  find_name name (l1 ++ l2) =
  match find_name name l1 with Some i => Some i | None => find_name name l2 end.
Proof. induction l1 as [|[i nm] l1 IH]; [done|]. simpl. by case_decide. Qed.

Lemma find_name_in name fl i : find_name name fl = Some i → (i, name) ∈ fl.
Proof.
  induction fl as [|[j nm] fl IH]; [done|]. simpl. case_decide as Hn; [intros [= ->]|].
  - subst. by left.
  - intros Hf. right. by apply IH.
Qed.

Lemma find_name_none name fl : find_name name fl = None ↔ name ∉ fl.*2.
Proof.
  induction fl as [|[j nm] fl IH]; simpl; [split; [intros _ ?%elem_of_nil; done|done]|].
  case_decide as Hn; [|rewrite IH; set_solver]. split; [done|]. intros Hni. destruct Hni.
  subst. by left.
Qed.

Section facts.
Context {W : Type} (ec : extent_api W) `{!ExtentLaws ec}.

(** extent [p] holds the directory [fl] *)
Definition is_dir (w : W) (p : Z) (fl : filelist) : Prop :=
  ∃ buf, view w !! p = Some buf ∧ deserialize buf [] = Done (fl, true).

Lemma is_dir_view w w' p fl : view w' = view w → is_dir w p fl → is_dir w' p fl.
Proof. intros E (buf&?&?). exists buf. by rewrite E. Qed.

Lemma is_dir_fun w p fl1 fl2 : is_dir w p fl1 → is_dir w p fl2 → fl1 = fl2.
Proof. intros (b1&H1&E1) (b2&H2&E2). congruence. Qed.

Lemma is_dir_ids w p fl : ext_ok w → is_dir w p fl → Forall (λ e, is_u64 e.1) fl.
Proof.
  intros Hw (buf&Hb&E). pose proof (fits_size _ (view_fits w p buf Hw Hb)) as Hs.
  by destruct (deserialize_accepts buf [] fl Hs E) as (l&rest&->&_&?).
Qed.

(** what was written as a directory is one *)
Lemma is_dir_put w p fl :
  view w !! p = Some (serialize fl) → Forall (λ e, is_u64 e.1) fl →
  fits (api := ec) (serialize fl) → last_named fl = true → is_dir w p fl.
Proof.
  intros Hp Hv Hf Hl. exists (serialize fl). split; [done|].
  destruct (deserialize_serialized fl [] Hv (fits_size _ Hf)) as (fl'&->&Hfl').
  by rewrite Hl, (Hfl' Hl).
Qed.

Lemma lookup_ok w p fl name id :
  ext_ok w → is_u64 p → is_dir w p fl →
  ∃ w', lookup ec w p name id =
      Done (w', default id (find_name name fl),
            match find_name name fl with Some _ => OK | None => NOENT end) ∧
    ext_ok w' ∧ view w' = view w.
Proof.
  intros Hw Hp (buf&Hb&E). unfold lookup.
  destruct (get_law w p Hw Hp) as (w'&b&->&Hw'&Hv&Hbuf). rewrite Hb. simpl.
  rewrite (Hbuf buf Hb), E. simpl. exists w'. by destruct (find_name name fl).
Qed.

Lemma readdir_ok w p fl :
  ext_ok w → is_u64 p → is_dir w p fl →
  ∃ w', readdir ec w p [] = Done (w', fl, OK) ∧ ext_ok w' ∧ view w' = view w.
Proof.
  intros Hw Hp (buf&Hb&E). unfold readdir.
  destruct (get_law w p Hw Hp) as (w'&b&->&Hw'&Hv&Hbuf). rewrite Hb. simpl.
  rewrite (Hbuf buf Hb), E. simpl. by exists w'.
Qed.

(** [lookup] and [readdir] leave the store as it is *)
Lemma lookup_view w p name id w' id' r :
  ext_ok w → is_u64 p → lookup ec w p name id = Done (w', id', r) → ext_ok w' ∧ view w' = view w.
Proof.
  intros Hw Hp. unfold lookup. destruct (get_law w p Hw Hp) as (w1&b&->&Hw1&Hv&_). cbn [obind].
  case_decide; [by intros [= <- _ _]|]. destruct (deserialize b []) as [[fl []]|]; [| |done];
    cbn [obind]; [destruct (find_name name fl)|]; by intros [= <- _ _].
Qed.


Lemma readdir_inv w p w' fl r :
  ext_ok w → is_u64 p → readdir ec w p [] = Done (w', fl, r) →
  ext_ok w' ∧ view w' = view w ∧ (r = OK → is_dir w p fl).
Proof.
  intros Hw Hp. unfold readdir. destruct (get_law w p Hw Hp) as (w1&b&->&Hw1&Hv&Hb). cbn [obind].
  destruct (view w !! p) as [b'|] eqn:Eb; cbn beta iota.
  - rewrite decide_False by auto. destruct (deserialize b []) as [[fl' good]|] eqn:E; [|done].
    cbn [obind]. intros [= <- <- <-]. split; [done|]. split; [done|]. destruct good; [|done].
    intros _. exists b'. split; [done|]. by rewrite <-(Hb b' eq_refl).
  - rewrite decide_True by done. intros [= <- _ <-]. done.
Qed.

(** [createfile] of a new name, before the new list of entries is read back *)
Lemma createfile_new rnd w p fl name id :
  let i := new_inum rnd 1 in
  ext_ok w → is_u64 p → isdir p = true → is_dir w p fl → find_name name fl = None →
  fits (api := ec) (serialize (fl ++ [(i, name)])) →
  ∃ w', createfile ec rnd w p name id = Done (w', i, OK) ∧ ext_ok w' ∧
    view w' = <[i := []]> (<[p := serialize (fl ++ [(i, name)])]> (view w)).
Proof.
  intros i Hw Hp Hpd Hd Hn Hf. unfold createfile.
  destruct (lookup_ok w p fl name id Hw Hp Hd) as (w1&->&Hw1&Hv1). rewrite Hn. simpl.
  destruct (readdir_ok w1 p fl Hw1 Hp) as (w2&->&Hw2&Hv2); [by eapply is_dir_view|]. simpl.
  fold i. destruct (put_law w2 p _ Hw2 Hp Hf) as (w3&->&Hw3&Hv3). simpl.
  destruct (put_law w3 i [] Hw3) as (w4&->&Hw4&Hv4); [apply new_inum_spec|apply fits_nil|].
  simpl. exists w4. split; [done|]. split; [done|]. by rewrite Hv4, Hv3, Hv2, Hv1.
Qed.

(** the new inode is not the directory *)
Lemma new_inum_not_dir rnd p : isdir p = true → new_inum rnd 1 ≠ p.
Proof.
  intros Hp <-. destruct (new_inum_spec rnd) as (_&_&Hi). unfold isdir in Hp. by rewrite Hi in Hp.
Qed.

Lemma last_named_snoc fl i name : name ≠ [] → last_named (fl ++ [(i, name)]) = true.
Proof. intros Hn. unfold last_named. rewrite last_snoc. by destruct name. Qed.

(** after a new file was made: the directory, the file, and all other extents *)
Lemma createfile_spec rnd w p fl name id :
  let i := new_inum rnd 1 in
  ext_ok w → is_u64 p → isdir p = true → is_dir w p fl → find_name name fl = None → name ≠ [] →
  fits (api := ec) (serialize (fl ++ [(i, name)])) →
  ∃ w', createfile ec rnd w p name id = Done (w', i, OK) ∧ ext_ok w' ∧
    is_dir w' p (fl ++ [(i, name)]) ∧ view w' !! i = Some [] ∧
    ∀ q, q ≠ p → q ≠ i → view w' !! q = view w !! q.
Proof.
  intros i Hw Hp Hpd Hd Hn Hne Hf.
  destruct (createfile_new rnd w p fl name id Hw Hp Hpd Hd Hn Hf) as (w'&E&Hw'&Hv).
  exists w'. split; [done|]. split; [done|]. pose proof (new_inum_not_dir rnd p Hpd) as Hip.
  rewrite Hv. fold i. split; [|split].
  - apply is_dir_put; [|apply Forall_app; split|done|by apply last_named_snoc].
    + rewrite Hv. rewrite lookup_insert_ne by done. apply lookup_insert_eq.
    + by apply (is_dir_ids w p).
    + constructor; [|done]. apply new_inum_spec.
  - apply lookup_insert_eq.
  - intros q Hq Hqi. by rewrite !lookup_insert_ne by done.
Qed.

(** The invariant of the file system: every directory can be read, its names are
    distinct, and each of its entries is a file that exists. *)
Definition fs_ok (w : W) : Prop :=
  ext_ok w ∧ ∀ p, isdir p = true → is_Some (view w !! p) →
    ∃ fl, is_dir w p fl ∧ NoDup fl.*2 ∧
      Forall (λ e, isfile e.1 = true ∧ is_Some (view w !! e.1)) fl.

(** [createfile] keeps the invariant, and the name leads to the inode it returns *)
Lemma createfile_fs_ok rnd w p fl name id :
  fs_ok w → is_u64 p → isdir p = true → is_dir w p fl → name ≠ [] →
  fits (api := ec) (serialize (fl ++ [(new_inum rnd 1, name)])) →
  ∃ w' i fl', createfile ec rnd w p name id = Done (w', i, OK) ∧ fs_ok w' ∧
    is_dir w' p fl' ∧ find_name name fl' = Some i.
Proof.
  intros [Hw Hfs] Hp Hpd Hd Hne Hf. destruct (find_name name fl) as [i|] eqn:Hn.
  { unfold createfile. destruct (lookup_ok w p fl name id Hw Hp Hd) as (w'&->&Hw'&Hv).
    rewrite Hn. simpl. exists w', i, fl. split; [done|].
    split; [|split; [by eapply is_dir_view|done]]. split; [done|]. intros q Hq Hs.
    rewrite Hv in Hs |- *. destruct (Hfs q Hq Hs) as (fl'&Hd'&?). exists fl'.
    split; [by eapply is_dir_view|done]. }
  destruct (createfile_spec rnd w p fl name id Hw Hp Hpd Hd Hn Hne Hf)
    as (w'&E&Hw'&Hd'&Hi&Hq). set (i := new_inum rnd 1) in *.
  exists w', i, (fl ++ [(i, name)]). split; [done|]. split.
  2: { split; [done|]. rewrite find_name_app, Hn. simpl. by rewrite decide_True. }
  split; [done|].
  assert (∀ q, is_Some (view w !! q) → is_Some (view w' !! q)) as Hkeep.
  { intros q Hs. destruct (decide (q = i)) as [->|Hqi]; [by rewrite Hi|].
    destruct (decide (q = p)) as [->|Hqp]; [|by rewrite Hq].
    destruct Hd' as (b&->&_). done. }
  intros q Hqd Hs. destruct (decide (q = p)) as [->|Hqp].
  - destruct (Hfs p Hpd) as (fl'&Hd2&Hnd&Hall); [destruct Hd as (b&->&_); done|].
    assert (fl' = fl) as -> by (by eapply is_dir_fun).
    exists (fl ++ [(i, name)]). split; [done|]. split.
    + rewrite fmap_app. apply NoDup_app. split; [done|]. split; [|apply NoDup_singleton].
      intros x Hx Hx2. apply list_elem_of_singleton in Hx2 as ->. by apply find_name_none in Hn.
    + apply Forall_app. split.
      * eapply Forall_impl; [exact Hall|]. intros e [? ?]. split; [done|]. by apply Hkeep.
      * constructor; [|done]. simpl. split; [apply new_inum_spec|by rewrite Hi].
  - assert (q ≠ i) as Hqi.
    { intros ->. by apply (new_inum_not_dir rnd i Hqd). }
    rewrite Hq in Hs by done. destruct (Hfs q Hqd Hs) as (fl'&(b&Hb&Eb)&Hnd&Hall).
    exists fl'. split; [exists b; by rewrite Hq|]. split; [done|].
    eapply Forall_impl; [exact Hall|]. intros e [? ?]. split; [done|]. by apply Hkeep.
Qed.
End facts.

(** ** Theorems *)

Section theorems.
Context {W : Type} (ec : extent_api W) `{!ExtentLaws ec}.

(** [lookup] returns the first entry with the name, NOENT when there is none, and
    IOERR when the directory does not exist. *)
Theorem lookup_correct w p fl name id :
  ext_ok w → is_u64 p →
  (is_dir ec w p fl → ∃ w', lookup ec w p name id =
      Done (w', default id (find_name name fl),
            match find_name name fl with Some _ => OK | None => NOENT end) ∧
    ext_ok w' ∧ view w' = view w) ∧
  (view w !! p = None → ∃ w', lookup ec w p name id = Done (w', id, IOERR) ∧
    ext_ok w' ∧ view w' = view w).
Proof.
  intros Hw Hp. split; [by apply lookup_ok|]. intros Hn. unfold lookup.
  destruct (get_law w p Hw Hp) as (w'&b&->&Hw'&Hv&_). rewrite Hn. simpl. by exists w'.
Qed.

(** C15. [createfile] and [lookup]: the new name leads to the new inode, every other
    name of the directory to where it led before, and every extent but the
    directory and the new file is as before. *)
Theorem createfile_lookup rnd w p fl name id :
  let i := new_inum rnd 1 in
  ext_ok w → is_u64 p → isdir p = true → is_dir ec w p fl → find_name name fl = None →
  name ≠ [] → fits (api := ec) (serialize (fl ++ [(i, name)])) →
  ∃ w', createfile ec rnd w p name id = Done (w', i, OK) ∧
    (∀ nm k, ∃ w'', lookup ec w' p nm k =
      Done (w'', if decide (nm = name) then i else default k (find_name nm fl),
            if decide (nm = name) then OK
            else match find_name nm fl with Some _ => OK | None => NOENT end)) ∧
    view w' !! i = Some [] ∧
    ∀ q, q ≠ p → q ≠ i → view w' !! q = view w !! q.
Proof.
  intros i Hw Hp Hpd Hd Hn Hne Hf.
  destruct (createfile_spec ec rnd w p fl name id Hw Hp Hpd Hd Hn Hne Hf)
    as (w'&E&Hw'&Hd'&Hi&Hq).
  exists w'. split; [done|]. split; [|by split]. intros nm k.
  destruct (lookup_ok ec w' p _ nm k Hw' Hp Hd') as (w''&E'&_). exists w''.
  rewrite E', find_name_app. simpl. fold i. destruct (decide (nm = name)) as [->|Hnm].
  - rewrite Hn. by rewrite decide_True.
  - rewrite (decide_False (P := name = nm)) by congruence. by destruct (find_name nm fl).
Qed.

(** A name that exists is not created again: [createfile] returns its inode and
    changes nothing. *)
Theorem createfile_existing rnd w p fl name id i :
  ext_ok w → is_u64 p → is_dir ec w p fl → find_name name fl = Some i →
  ∃ w', createfile ec rnd w p name id = Done (w', i, OK) ∧ view w' = view w.
Proof.
  intros Hw Hp Hd Hn. unfold createfile.
  destruct (lookup_ok ec w p fl name id Hw Hp Hd) as (w'&->&_&Hv). rewrite Hn. simpl. by exists w'.
Qed.

(** [createfile] keeps the invariant, whatever [rand()] returns and whether the name
    exists or not. *)
Theorem createfile_invariant rnd w p fl name id :
  fs_ok ec w → is_u64 p → isdir p = true → is_dir ec w p fl → name ≠ [] →
  fits (api := ec) (serialize (fl ++ [(new_inum rnd 1, name)])) →
  ∃ w' i, createfile ec rnd w p name id = Done (w', i, OK) ∧ fs_ok ec w'.
Proof.
  intros Hw Hp Hpd Hd Hne Hf.
  destruct (createfile_fs_ok ec rnd w p fl name id Hw Hp Hpd Hd Hne Hf) as (w'&i&_&E&Hw'&_).
  by exists w', i.
Qed.

(** Nothing checks that the new inode is unused: when it is the inode of a file of
    the directory, that file loses its contents and both names share it. *)
Theorem createfile_collision rnd w p fl name name2 id b :
  let i := new_inum rnd 1 in
  ext_ok w → is_u64 p → isdir p = true → is_dir ec w p fl → find_name name fl = None →
  name ≠ [] → fits (api := ec) (serialize (fl ++ [(i, name)])) →
  find_name name2 fl = Some i → view w !! i = Some b →
  ∃ w' w'', createfile ec rnd w p name id = Done (w', i, OK) ∧ view w' !! i = Some [] ∧
    lookup ec w' p name2 id = Done (w'', i, OK).
Proof.
  intros i Hw Hp Hpd Hd Hn Hne Hf Hn2 _.
  destruct (createfile_spec ec rnd w p fl name id Hw Hp Hpd Hd Hn Hne Hf)
    as (w'&E&Hw'&Hd'&Hi&_).
  destruct (lookup_ok ec w' p _ name2 id Hw' Hp Hd') as (w''&E'&_).
  rewrite find_name_app, Hn2 in E'. by exists w', w''.
Qed.

(** A file with an empty name is created, and the whole directory cannot be read
    any more. *)
Theorem createfile_unnamed rnd w p fl id :
  let i := new_inum rnd 1 in
  ext_ok w → is_u64 p → isdir p = true → is_dir ec w p fl → find_name [] fl = None →
  fits (api := ec) (serialize (fl ++ [(i, [])])) →
  ∃ w', createfile ec rnd w p [] id = Done (w', i, OK) ∧
    ∀ nm k, ∃ w'', lookup ec w' p nm k = Done (w'', k, IOERR).
Proof.
  intros i Hw Hp Hpd Hd Hn Hf.
  destruct (createfile_new ec rnd w p fl [] id Hw Hp Hpd Hd Hn Hf) as (w'&E&Hw'&Hv).
  exists w'. split; [done|]. intros nm k. unfold lookup.
  destruct (get_law w' p Hw' Hp) as (w''&b&->&_&_&Hb).
  assert (view w' !! p = Some (serialize (fl ++ [(i, [])]))) as Hvp.
  { rewrite Hv, lookup_insert_ne by (by apply new_inum_not_dir). apply lookup_insert_eq. }
  rewrite Hvp. simpl. rewrite (Hb _ Hvp).
  destruct (deserialize_serialized (fl ++ [(i, [])]) []) as (fl'&->&_).
  - apply Forall_app. split; [by apply (is_dir_ids ec w p)|]. constructor; [|done]. apply new_inum_spec.
  - by apply fits_size.
  - unfold last_named. rewrite last_snoc. simpl. by exists w''.
Qed.
End theorems.

(** ** Witnesses: on the extent server behind the RPC stubs *)

#[local] Existing Instance zero_heap.

(** the root directory with one file, and the file *)
Definition old_file : Z := 2147483651.
Definition sample_root : filelist := [(old_file, be32 7)].
Definition sample_store : extent_server :=
  {| es_data := {[ 1 := serialize sample_root; old_file := be32 9 ]};
     es_attr := {[ 1 := attr_zero; old_file := attr_zero ]} |}.

Lemma sample_store_ok : extent_ok sample_store.
Proof.
  split.
  - intros id b. simpl. rewrite lookup_insert. case_decide; [intros [= <-]; by vm_compute|].
    intros [<- <-]%lookup_singleton_Some. by vm_compute.
  - intros id. simpl. rewrite !lookup_insert. case_decide; [done|].
    destruct (decide (id = old_file)) as [->|]; [done|]. by rewrite !lookup_singleton_ne.
Qed.

(** the server's endpoint, and the interface it offers *)
Lemma sample_service :
  ∃ v, extent_smain 9 0 = Done v.
Proof. destruct (extent_smain_procs 9 0) as (v&Hv&_). by exists v. Qed.

Section sample.
Context (v : rpcs extent_server) (Hv : extent_smain 9 0 = Done v).

Definition sample_laws := extent_rpc_laws sample_header sample_header_ok v Hv.

Lemma sample_root_dir : @is_dir _ _ sample_laws sample_store 1 sample_root.
Proof. exists (serialize sample_root). split; [done|]. by vm_compute. Qed.

Lemma sample_fs_ok : @fs_ok _ _ sample_laws sample_store.
Proof.
  split; [apply sample_store_ok|]. intros p Hp Hs.
  assert (p = 1) as ->.
  { destruct Hs as [b Hb]. change (es_data sample_store !! p = Some b) in Hb. simpl in Hb.
    rewrite lookup_insert in Hb. case_decide as H1; [done|].
    apply lookup_singleton_Some in Hb as [<- _]. by vm_compute in Hp. }
  exists sample_root. split; [apply sample_root_dir|]. split; [apply NoDup_singleton|].
  constructor; [|done]. split; [by vm_compute|]. by exists (be32 9).
Qed.
End sample.

Lemma lookup_correct_witness :
  ∃ v (L : ExtentLaws (extent_rpc sample_header v)), extent_smain 9 0 = Done v ∧
    (@is_dir _ (extent_rpc sample_header v) L sample_store 1 sample_root →
     ∃ w', lookup (extent_rpc sample_header v) sample_store 1 (be32 7) 0 =
       Done (w', default 0 (find_name (be32 7) sample_root),
             match find_name (be32 7) sample_root with Some _ => OK | None => NOENT end) ∧
     @ext_ok _ _ L w' ∧ @view _ _ L w' = @view _ _ L sample_store).
Proof.
  destruct sample_service as [v Hv]. exists v, (sample_laws v Hv). split; [done|].
  apply (@lookup_correct _ _ (sample_laws v Hv)); [apply sample_store_ok|done].
Defined.

Lemma createfile_lookup_witness :
  ∃ v, extent_smain 9 0 = Done v ∧
  ∃ w', createfile (extent_rpc sample_header v) 4 sample_store 1 (be32 8) 0 =
      Done (w', 2147483652, OK) ∧
    ∀ nm k, ∃ w'', lookup (extent_rpc sample_header v) w' 1 nm k =
      Done (w'', if decide (nm = be32 8) then 2147483652 else default k (find_name nm sample_root),
            if decide (nm = be32 8) then OK
            else match find_name nm sample_root with Some _ => OK | None => NOENT end).
Proof.
  destruct sample_service as [v Hv]. exists v. split; [done|].
  destruct (@createfile_lookup _ _ (sample_laws v Hv) 4 sample_store 1 sample_root (be32 8) 0)
    as (w'&E&Hl&_);
    [apply sample_store_ok|by vm_compute|by vm_compute|apply sample_root_dir|by vm_compute
    |done|by vm_compute|].
  exists w'. split; [exact E|exact Hl].
Defined.

Lemma createfile_existing_witness :
  ∃ v (L : ExtentLaws (extent_rpc sample_header v)), extent_smain 9 0 = Done v ∧
  ∃ w', createfile (extent_rpc sample_header v) 4 sample_store 1 (be32 7) 0 =
      Done (w', old_file, OK) ∧ @view _ _ L w' = @view _ _ L sample_store.
Proof.
  destruct sample_service as [v Hv]. exists v, (sample_laws v Hv). split; [done|].
  apply (@createfile_existing _ _ (sample_laws v Hv) 4 sample_store 1 sample_root);
    [apply sample_store_ok|by vm_compute|apply sample_root_dir|by vm_compute].
Defined.

Lemma createfile_invariant_witness :
  ∃ v (L : ExtentLaws (extent_rpc sample_header v)), extent_smain 9 0 = Done v ∧
  ∃ w' i, createfile (extent_rpc sample_header v) 4 sample_store 1 (be32 8) 0 =
      Done (w', i, OK) ∧ @fs_ok _ _ L w'.
Proof.
  destruct sample_service as [v Hv]. exists v, (sample_laws v Hv). split; [done|].
  apply (@createfile_invariant _ _ (sample_laws v Hv) 4 sample_store 1 sample_root);
    [apply sample_fs_ok|by vm_compute|by vm_compute|apply sample_root_dir|done|by vm_compute].
Defined.

Lemma createfile_collision_witness :
  ∃ v (L : ExtentLaws (extent_rpc sample_header v)), extent_smain 9 0 = Done v ∧
  ∃ w' w'', createfile (extent_rpc sample_header v) 3 sample_store 1 (be32 8) 0 =
      Done (w', old_file, OK) ∧ @view _ _ L w' !! old_file = Some [] ∧
    lookup (extent_rpc sample_header v) w' 1 (be32 7) 0 = Done (w'', old_file, OK).
Proof.
  destruct sample_service as [v Hv]. exists v, (sample_laws v Hv). split; [done|].
  apply (@createfile_collision _ _ (sample_laws v Hv) 3 sample_store 1 sample_root (be32 8)
    (be32 7) 0 (be32 9));
    [apply sample_store_ok|by vm_compute|by vm_compute|apply sample_root_dir|by vm_compute
    |done|by vm_compute|by vm_compute|done].
Defined.

Lemma createfile_unnamed_witness :
  ∃ v, extent_smain 9 0 = Done v ∧
  ∃ w', createfile (extent_rpc sample_header v) 4 sample_store 1 [] 0 =
      Done (w', 2147483652, OK) ∧
    ∀ nm k, ∃ w'', lookup (extent_rpc sample_header v) w' 1 nm k = Done (w'', k, IOERR).
Proof.
  destruct sample_service as [v Hv]. exists v. split; [done|].
  apply (@createfile_unnamed _ _ (sample_laws v Hv) 4 sample_store 1 sample_root);
    [apply sample_store_ok|by vm_compute|by vm_compute|apply sample_root_dir|by vm_compute
    |by vm_compute].
Defined.
