(* ===== verification/Clients.v ===== *)
(** * Several clients of one file system

    Nothing in [yfs_client] takes a lock: [createfile] reads a directory with one
    call of the extent server and writes it back with another.  Here the calls of
    any number of clients are interleaved, one call of the extent client at a time
    ([create_step]), with the lookups of others.  A directory stays readable and
    keeps what it had; a client that is alone in its directory finds what it
    created; of two clients that create in the same directory one can lose its
    file. *)

From S2P Require Import Prelude Marshall Codec Stubs Connection Rpcs Extent Yfs.

(** ** The system *)

(** the arguments of a call of [createfile], with what [rand()] will return *)
Record create_req := CreateReq { cq_dir : Z; cq_name : list byte; cq_rnd : Z }.

(** where the call stands *)
Inductive create_pc :=
  | CLookup                  (**r before [lookup] *)
  | CReaddir                 (**r before [readdir]: the name was not there *)
  | CPutDir (fl : filelist)  (**r before the directory is written; [fl] was read *)
  | CPutFile                 (**r before the file is written *)
  | CReturned (r : Z).

(** [cs_id] is the reference argument *)
Record create_st := CreateSt { cs_id : Z; cs_pc : create_pc }.

Definition cq_entry (q : create_req) : Z * list byte := (new_inum (cq_rnd q) 1, cq_name q).

Section system.
Context {W : Type} (ec : extent_api W).

Definition create_step (q : create_req) (w : W) (st : create_st) : outcome (W * create_st) :=
  match cs_pc st with
  | CLookup =>
      let! '(w, id, r) := lookup ec w (cq_dir q) (cq_name q) (cs_id st) in
      Done (w, CreateSt id (if decide (r = OK) then CReturned OK
                            else if decide (r = NOENT) then CReaddir else CReturned IOERR))
  | CReaddir =>
      let! '(w, fl, r) := readdir ec w (cq_dir q) [] in
      Done (w, if decide (r = OK) then CreateSt (new_inum (cq_rnd q) 1) (CPutDir fl)
               else CreateSt (cs_id st) (CReturned IOERR))
  | CPutDir fl =>
      let! '(w, r) := ea_put ec w (cq_dir q) (serialize (fl ++ [(cs_id st, cq_name q)])) in
      Done (w, CreateSt (cs_id st) (if decide (r ≠ OK) then CReturned IOERR else CPutFile))
  | CPutFile =>
      let! '(w, r) := ea_put ec w (cs_id st) [] in
      Done (w, CreateSt (cs_id st) (CReturned (if decide (r ≠ OK) then IOERR else OK)))
  | CReturned _ => Done (w, st)
  end.

(** one client without interruption *)
Fixpoint create_steps (n : nat) (q : create_req) (w : W) (st : create_st)
    : outcome (W * create_st) :=
  match n with
  | O => Done (w, st)
  | S n => let! '(w, st) := create_step q w st in create_steps n q w st
  end.

(** the clients [qs], and lookups of any others, in every interleaving *)
Inductive client_step (qs : list create_req) : relation (W * list create_st) :=
  | step_create w sts k q st w' st' :
      qs !! k = Some q → sts !! k = Some st → create_step q w st = Done (w', st') →
      client_step qs (w, sts) (w', <[k := st']> sts)
  | step_lookup w sts p name id w' id' r :
      is_u64 p → lookup ec w p name id = Done (w', id', r) → client_step qs (w, sts) (w', sts).

(** the clients before their calls, with anything in their reference arguments *)
Definition starting (qs : list create_req) (sts : list create_st) : Prop :=
  length sts = length qs ∧ Forall (λ st, cs_pc st = CLookup) sts.

(** a schedule: which client makes its next call *)
Fixpoint run_schedule (qs : list create_req) (ks : list nat) (w : W) (sts : list create_st)
    : outcome (W * list create_st) :=
  match ks with
  | [] => Done (w, sts)
  | k :: ks =>
      match qs !! k, sts !! k with
      | Some q, Some st =>
          let! '(w, st) := create_step q w st in run_schedule qs ks w (<[k := st]> sts)
      | _, _ => Done (w, sts)
      end
  end.
End system.

Lemma run_schedule_rtc {W} (ec : extent_api W) qs ks w sts w' sts' :
  run_schedule ec qs ks w sts = Done (w', sts') → rtc (client_step ec qs) (w, sts) (w', sts').
Proof.
  revert w sts. induction ks as [|k ks IH]; intros w sts; simpl; [by intros [= -> ->]|].
  destruct (qs !! k) as [q|] eqn:Hq; [|by intros [= -> ->]].
  destruct (sts !! k) as [st|] eqn:Hst; [|by intros [= -> ->]].
  destruct (create_step ec q w st) as [[w1 st1]|] eqn:E; [|done]. cbn [obind]. intros Hr.
  eapply rtc_l; [by eapply step_create|by apply IH].
Qed.

(** a client that is not interrupted *)
Lemma run_schedule_alone {W} (ec : extent_api W) qs k q n w sts st w' st' :
  qs !! k = Some q → sts !! k = Some st → create_steps ec n q w st = Done (w', st') →
  run_schedule ec qs (replicate n k) w sts = Done (w', <[k := st']> sts).
Proof.
  intros Hq. revert w sts st. induction n as [|n IH]; intros w sts st Hst E; cbn [replicate] in *.
  { injection E as <- <-. simpl. by rewrite list_insert_id. }
  cbn [create_steps run_schedule] in *. rewrite Hq, Hst.
  destruct (create_step ec q w st) as [[w1 st1]|]; [|done]. cbn [obind] in *.
  rewrite (IH w1 _ st1); [by rewrite list_insert_insert_eq| |done].
  apply list_lookup_insert_eq. by eapply lookup_lt_Some.
Qed.

(** A call of [createfile] that is not interrupted is its four steps. *)
Theorem steps_are_createfile {W} (ec : extent_api W) rnd w p name id :
  create_steps ec 4 (CreateReq p name rnd) w (CreateSt id CLookup) =
  let! '(w, id, r) := createfile ec rnd w p name id in Done (w, CreateSt id (CReturned r)).
Proof.
  cbn [create_steps]. unfold create_step at 1, createfile. cbn [cs_pc cs_id cq_dir cq_name cq_rnd].
  destruct (lookup ec w p name id) as [[[w1 id1] r]|]; [|done]. cbn [obind].
  destruct (decide (r = OK)); [done|]. destruct (decide (r = NOENT)); [|done].
  unfold create_step at 1. cbn [cs_pc cs_id cq_dir cq_name cq_rnd].
  destruct (readdir ec w1 p []) as [[[w2 fl] r2]|]; [|done]. cbn [obind].
  destruct (decide (r2 = OK)); [|done]. cbn [obind].
  unfold create_step at 1. cbn [cs_pc cs_id cq_dir cq_name].
  destruct (ea_put ec w2 p _) as [[w3 r3]|]; [|done]. cbn [obind].
  destruct (decide (r3 ≠ OK)); [done|]. unfold create_step. cbn [cs_pc cs_id].
  destruct (ea_put ec w3 _ []) as [[w4 r4]|]; [|done]. cbn [obind].
  by destruct (decide (r4 ≠ OK)).
Qed.

(** ** Facts *)

Section facts.
Context {W : Type} (ec : extent_api W) `{!ExtentLaws ec}.

Lemma is_dir_lookup w w' p fl :
  view w' !! p = view w !! p → is_dir ec w p fl → is_dir ec w' p fl.
Proof. intros E (b&?&?). exists b. by rewrite E. Qed.

Lemma is_dir_some w p fl : is_dir ec w p fl → is_Some (view w !! p).
Proof. intros (b&->&_). done. Qed.

(** [lookup] and [readdir] leave the store as it is; a directory that does not
    exist is an error *)
Lemma lookup_absent w p name id :
  ext_ok w → is_u64 p → view w !! p = None →
  ∃ w', lookup ec w p name id = Done (w', id, IOERR) ∧ ext_ok w' ∧ view w' = view w.
Proof.
  intros Hw Hp Hn. unfold lookup. destruct (get_law w p Hw Hp) as (w'&b&->&Hw'&Hv&_).
  rewrite Hn. by exists w'.
Qed.

(** *** The four steps *)

(** a request that can be served: its argument and what will be written *)
Definition req_ok (q : create_req) : Prop :=
  is_u64 (cq_dir q) ∧ isdir (cq_dir q) = true ∧ cq_name q ≠ [].

Implicit Types (q : create_req) (w : W) (st : create_st).

(** what a call may write *)
Definition step_effect q st w w' : Prop :=
  match cs_pc st with
  | CPutDir fl => view w' = <[cq_dir q := serialize (fl ++ [(cs_id st, cq_name q)])]> (view w)
  | CPutFile => view w' = <[cs_id st := []]> (view w)
  | _ => view w' = view w
  end.

Lemma step_lookup_dir q w id fl :
  ext_ok w → req_ok q → is_dir ec w (cq_dir q) fl →
  ∃ w', create_step ec q w (CreateSt id CLookup) =
      Done (w', match find_name (cq_name q) fl with
                | Some i => CreateSt i (CReturned OK)
                | None => CreateSt id CReaddir
                end) ∧ ext_ok w' ∧ view w' = view w.
Proof.
  intros Hw (Hp&_) Hd. unfold create_step. cbn [cs_pc cs_id].
  destruct (lookup_ok ec w _ fl (cq_name q) id Hw Hp Hd) as (w'&->&Hw'&Hv). exists w'.
  split; [|done]. by destruct (find_name (cq_name q) fl).
Qed.

Lemma step_readdir_dir q w id fl :
  ext_ok w → req_ok q → is_dir ec w (cq_dir q) fl →
  ∃ w', create_step ec q w (CreateSt id CReaddir) =
      Done (w', CreateSt (new_inum (cq_rnd q) 1) (CPutDir fl)) ∧ ext_ok w' ∧ view w' = view w.
Proof.
  intros Hw (Hp&_) Hd. unfold create_step. cbn [cs_pc cs_id].
  destruct (readdir_ok ec w _ fl Hw Hp Hd) as (w'&->&Hw'&Hv). by exists w'.
Qed.

Lemma step_absent q w id :
  ext_ok w → req_ok q → view w !! cq_dir q = None →
  ∃ w', create_step ec q w (CreateSt id CLookup) = Done (w', CreateSt id (CReturned IOERR)) ∧
    ext_ok w' ∧ view w' = view w.
Proof.
  intros Hw (Hp&_) Hd. unfold create_step. cbn [cs_pc cs_id].
  destruct (lookup_absent w _ (cq_name q) id Hw Hp Hd) as (w'&->&Hw'&Hv). by exists w'.
Qed.

Lemma step_put_dir q w id fl :
  ext_ok w → req_ok q → fits (api := ec) (serialize (fl ++ [(id, cq_name q)])) →
  ∃ w', create_step ec q w (CreateSt id (CPutDir fl)) = Done (w', CreateSt id CPutFile) ∧
    ext_ok w' ∧ view w' = <[cq_dir q := serialize (fl ++ [(id, cq_name q)])]> (view w).
Proof.
  intros Hw (Hp&_) Hf. unfold create_step. cbn [cs_pc cs_id].
  destruct (put_law w _ _ Hw Hp Hf) as (w'&->&Hw'&Hv). by exists w'.
Qed.

Lemma step_put_file q w id :
  ext_ok w → is_u64 id →
  ∃ w', create_step ec q w (CreateSt id CPutFile) = Done (w', CreateSt id (CReturned OK)) ∧
    ext_ok w' ∧ view w' = <[id := []]> (view w).
Proof.
  intros Hw Hi. unfold create_step. cbn [cs_pc cs_id].
  destruct (put_law w id [] Hw Hi fits_nil) as (w'&->&Hw'&Hv). by exists w'.
Qed.

(** *** The invariant *)

Section invariant.
Context (qs : list create_req) (w0 : W).

(** the entries of the clients [ks] *)
Definition news (ks : list nat) : filelist := omap (λ k, cq_entry <$> qs !! k) ks.

(** the call has written its entry: the file may be missing as long as the call
    has not returned *)
Definition has_written w q st : Prop :=
  match cs_pc st with
  | CPutFile => True
  | CReturned _ => is_Some (view w !! new_inum (cq_rnd q) 1)
  | _ => False
  end.

Definition written w (sts : list create_st) (p : Z) (k : nat) : Prop :=
  ∃ q st, qs !! k = Some q ∧ sts !! k = Some st ∧ cq_dir q = p ∧ has_written w q st.

(** the extent of directory [p], with the entries that were added *)
Definition grown w sts (p : Z) (fl0 : filelist) (ks : list nat) : Prop :=
  is_dir ec w0 p fl0 ∧ NoDup ks ∧ ∀ k, k ∈ ks → written w sts p k.

Definition pc_ok w sts (k : nat) q st : Prop :=
  match cs_pc st with
  | CLookup => True
  | CReaddir => is_Some (view w0 !! cq_dir q)
  | CPutDir fl => cs_id st = new_inum (cq_rnd q) 1 ∧
      ∃ fl0 ks, grown w sts (cq_dir q) fl0 ks ∧ (k ∉ ks) ∧ fl = fl0 ++ news ks
  | CPutFile => cs_id st = new_inum (cq_rnd q) 1 ∧ is_Some (view w0 !! cq_dir q)
  | CReturned r => r = match view w0 !! cq_dir q with Some _ => OK | None => IOERR end
  end.

Record clients_ok w sts : Prop := ClientsOk {
  co_length : length sts = length qs;
  co_ext : ext_ok w;
  co_dir p fl0 : isdir p = true → is_dir ec w0 p fl0 →
    ∃ ks, grown w sts p fl0 ks ∧ is_dir ec w p (fl0 ++ news ks);
  co_absent p : isdir p = true → view w0 !! p = None → view w !! p = None;
  co_pc k q st : qs !! k = Some q → sts !! k = Some st → pc_ok w sts k q st;
  co_other p : p ∉ (cq_dir <$> qs) → p ∉ ((λ q, (cq_entry q).1) <$> qs) →
    view w !! p = view w0 !! p }.

(** every directory can be read before, and there is room for all new entries *)
Definition readable : Prop :=
  ext_ok w0 ∧ ∀ p, isdir p = true → is_Some (view w0 !! p) → ∃ fl0, is_dir ec w0 p fl0.

Definition room : Prop := ∀ p fl0 ks,
  isdir p = true → is_dir ec w0 p fl0 → NoDup ks → (∀ k, k ∈ ks → ∃ q, qs !! k = Some q ∧ cq_dir q = p) →
  fits (api := ec) (serialize (fl0 ++ news ks)).

Context (Hqs : Forall req_ok qs) (H0 : readable) (Hroom : room).

Lemma req_at k q : qs !! k = Some q → req_ok q.
Proof. intros Hq. by eapply (Forall_lookup_1 _ _ _ _ Hqs). Qed.

Lemma news_snoc ks k q : qs !! k = Some q → news (ks ++ [k]) = news ks ++ [cq_entry q].
Proof. intros Hq. unfold news. rewrite omap_app. simpl. by rewrite Hq. Qed.

Lemma news_ids ks : Forall (λ e, is_u64 e.1) (news ks).
Proof.
  apply Forall_forall. intros e (k&_&Hk)%list_elem_of_omap.
  destruct (qs !! k) as [q|]; [|done]. injection Hk as <-. apply new_inum_spec.
Qed.

Lemma news_file ks e : e ∈ news ks → isfile e.1 = true.
Proof.
  intros (k&_&Hk)%list_elem_of_omap. destruct (qs !! k) as [q|]; [|done].
  injection Hk as <-. apply new_inum_spec.
Qed.

(** only the contents of the store matter *)
Lemma has_written_view w w' q st : view w' = view w → has_written w q st → has_written w' q st.
Proof. intros Hv. unfold has_written. by rewrite Hv. Qed.

Lemma grown_view w w' sts p fl0 ks :
  view w' = view w → grown w sts p fl0 ks → grown w' sts p fl0 ks.
Proof.
  intros Hv (?&?&Hks). split; [done|]. split; [done|]. intros i Hi.
  destruct (Hks i Hi) as (q&st&?&?&?&Hw). exists q, st. split; [done|]. split; [done|].
  split; [done|]. by eapply has_written_view.
Qed.

Lemma pc_ok_view w w' sts k q st : view w' = view w → pc_ok w sts k q st → pc_ok w' sts k q st.
Proof.
  intros Hv. unfold pc_ok. destruct (cs_pc st); try done.
  intros (Hid&fl0&ks&Hg&?). split; [done|]. exists fl0, ks. split; [|done].
  by eapply grown_view.
Qed.

Lemma clients_ok_view w w' sts :
  ext_ok w' → view w' = view w → clients_ok w sts → clients_ok w' sts.
Proof.
  intros Hw' Hv [Hl _ Hd Ha Hpc Ho]. split; [done|done| |by rewrite Hv| |by rewrite Hv].
  - intros p fl0 Hp H1. destruct (Hd p fl0 Hp H1) as (ks&Hg&Hd'). exists ks.
    split; [by eapply grown_view|by eapply is_dir_view].
  - intros k q st Hq Hst. eapply pc_ok_view; [done|by apply Hpc].
Qed.

(** a list that was read, with one entry more, fits and can be read again *)
Lemma grown_snoc w sts p fl0 ks k q :
  grown w sts p fl0 ks → k ∉ ks → qs !! k = Some q → cq_dir q = p →
  let fl := (fl0 ++ news ks) ++ [cq_entry q] in
  NoDup (ks ++ [k]) ∧ fits (api := ec) (serialize fl) ∧
  ∀ w', view w' !! p = Some (serialize fl) → is_dir ec w' p fl.
Proof.
  intros (Hd&Hnd&Hwr) Hk Hq Hp fl.
  assert (NoDup (ks ++ [k])) as Hnd'.
  { apply NoDup_app. split; [done|]. split; [|apply NoDup_singleton].
    intros j Hj ->%list_elem_of_singleton. done. }
  assert (fl = fl0 ++ news (ks ++ [k])) as Efl.
  { unfold fl. by rewrite (news_snoc _ _ _ Hq), app_assoc. }
  assert (fits (api := ec) (serialize fl)) as Hf.
  { rewrite Efl. apply (Hroom p); [rewrite <-Hp; by apply (req_at k)|done|done|].
    intros j [Hj|Hj]%elem_of_app; [|apply list_elem_of_singleton in Hj as ->; by exists q].
    destruct (Hwr j Hj) as (q'&st'&?&_&?&_). by exists q'. }
  split; [done|]. split; [done|]. intros w' Hw'. apply is_dir_put; [done| |done|].
  - rewrite Efl. apply Forall_app. split; [|apply news_ids]. apply (is_dir_ids ec w0 p); [apply H0|done].
  - apply last_named_snoc. by apply (req_at k).
Qed.

(** *** Every step keeps it *)

Section step.
Context w sts k q st w' st' (Hok : clients_ok w sts) (Hq : qs !! k = Some q)
  (Hst : sts !! k = Some st).

Lemma written_step p j :
  (∀ i, is_Some (view w !! i) → is_Some (view w' !! i)) →
  (has_written w q st → has_written w' q st') →
  written w sts p j → written w' (<[k := st']> sts) p j.
Proof.
  intros Hkeep Hwr (q1&st1&Hq1&Hst1&Hp&H1). exists q1. destruct (decide (j = k)) as [->|Hj].
  - exists st'. rewrite list_lookup_insert_eq by (by eapply lookup_lt_Some). simplify_eq. auto.
  - exists st1. rewrite list_lookup_insert_ne by done. split; [done|]. split; [done|].
    split; [done|]. unfold has_written in *. destruct (cs_pc st1); auto.
Qed.

(** the generic step: what is left to show of the store and of client [k] *)
Lemma clients_ok_step :
  ext_ok w' → (∀ i, is_Some (view w !! i) → is_Some (view w' !! i)) →
  (has_written w q st → has_written w' q st') →
  (∀ p fl0, isdir p = true → is_dir ec w0 p fl0 →
    ∃ ks, grown w' (<[k := st']> sts) p fl0 ks ∧ is_dir ec w' p (fl0 ++ news ks)) →
  (∀ p, isdir p = true → view w0 !! p = None → view w' !! p = None) →
  pc_ok w' (<[k := st']> sts) k q st' →
  (∀ p, p ∉ (cq_dir <$> qs) → p ∉ ((λ q, (cq_entry q).1) <$> qs) → view w' !! p = view w !! p) →
  clients_ok w' (<[k := st']> sts).
Proof.
  intros Hw' Hkeep Hwr Hdir Habs Hpc Hoth. split; [|done|done|done| |].
  - rewrite length_insert. apply Hok.
  - intros j q1 st1 Hq1 Hst1. destruct (decide (j = k)) as [->|Hj].
    { rewrite list_lookup_insert_eq in Hst1 by (by eapply lookup_lt_Some). by simplify_eq. }
    rewrite list_lookup_insert_ne in Hst1 by done. pose proof (co_pc _ _ Hok j q1 st1 Hq1 Hst1) as H1.
    unfold pc_ok in *. destruct (cs_pc st1); try done.
    destruct H1 as (Hid&fl0&ks&(Hd&Hnd&Hks)&Hk&Hfl). split; [done|]. exists fl0, ks.
    split; [|done]. split; [done|]. split; [done|]. intros i Hi. apply written_step; auto.
  - intros p Hp1 Hp2. rewrite Hoth by done. by apply Hok.
Qed.

Lemma grown_step p fl0 ks :
  (∀ i, is_Some (view w !! i) → is_Some (view w' !! i)) →
  (has_written w q st → has_written w' q st') →
  grown w sts p fl0 ks → grown w' (<[k := st']> sts) p fl0 ks.
Proof.
  intros Hkeep Hwr (Hd&Hnd&Hks). split; [done|]. split; [done|]. intros i Hi.
  apply written_step; auto.
Qed.

End step.

(** a step that does not write *)
Lemma clients_ok_silent w sts k q st w' st' :
  clients_ok w sts → qs !! k = Some q → sts !! k = Some st →
  ext_ok w' → view w' = view w → (has_written w q st → has_written w q st') →
  pc_ok w (<[k := st']> sts) k q st' → clients_ok w' (<[k := st']> sts).
Proof.
  intros Hok Hq Hst Hw' Hv Hwr Hpc. apply (clients_ok_view w); [done|done|].
  apply (clients_ok_step w sts k q st w st' Hok Hq Hst); [apply Hok|done|done| |apply Hok|done|done].
  intros p fl0 Hp Hd. destruct (co_dir _ _ Hok p fl0 Hp Hd) as (ks&Hks&Hd'). exists ks.
  split; [|done]. by eapply grown_step.
Qed.

(** the write of the directory *)
Lemma clients_ok_put_dir w sts k q id fl :
  clients_ok w sts → qs !! k = Some q → sts !! k = Some (CreateSt id (CPutDir fl)) →
  ∃ w', create_step ec q w (CreateSt id (CPutDir fl)) = Done (w', CreateSt id CPutFile) ∧
    clients_ok w' (<[k := CreateSt id CPutFile]> sts) ∧
    step_effect q (CreateSt id (CPutDir fl)) w w'.
Proof.
  intros Hok Hq Hst. pose proof (req_at k q Hq) as Hr. pose proof Hr as (_&Hpd&Hne).
  destruct (co_pc _ _ Hok k q _ Hq Hst) as (Hid&fl0&ks&Hg&Hk&->). simpl in Hid. subst id.
  destruct (grown_snoc w sts _ fl0 ks k q Hg Hk Hq eq_refl) as (Hnd&Hf&Hdir).
  destruct (step_put_dir q w (new_inum (cq_rnd q) 1) _ (co_ext _ _ Hok) Hr Hf)
    as (w'&E&Hw'&Hv).
  exists w'. split; [done|]. split; [|done].
  assert (∀ i, is_Some (view w !! i) → is_Some (view w' !! i)) as Hkeep.
  { intros i Hi. rewrite Hv. destruct (decide (i = cq_dir q)) as [->|Hne'];
      [by rewrite lookup_insert_eq|by rewrite lookup_insert_ne]. }
  apply (clients_ok_step w sts k q _ w' _ Hok Hq Hst); [done|done|done| | | |].
  - intros p fl1 Hp Hd1. destruct (decide (p = cq_dir q)) as [->|Hne'].
    + assert (fl1 = fl0) as -> by (eapply is_dir_fun; [exact Hd1|apply Hg]).
      exists (ks ++ [k]). rewrite (news_snoc _ _ _ Hq), app_assoc.
      split; [|apply Hdir; rewrite Hv; apply lookup_insert_eq].
      split; [done|]. split; [done|]. intros i [Hi|Hi]%elem_of_app.
      * eapply written_step; [done|done|done|done|by apply Hg].
      * apply list_elem_of_singleton in Hi as ->. exists q. eexists.
        rewrite list_lookup_insert_eq by (by eapply lookup_lt_Some). done.
    + destruct (co_dir _ _ Hok p fl1 Hp Hd1) as (ks1&Hg1&Hd'). exists ks1.
      split; [by eapply grown_step|]. apply (is_dir_lookup w); [|done].
      by rewrite Hv, lookup_insert_ne.
  - intros p Hp Hn. rewrite Hv, lookup_insert_ne; [by apply Hok|]. intros <-.
    destruct (is_dir_some w0 _ fl0 (proj1 Hg)). congruence.
  - split; [done|]. apply (is_dir_some w0 _ fl0), Hg.
  - intros p Hp _. rewrite Hv, lookup_insert_ne; [done|]. intros <-. apply Hp.
    apply list_elem_of_fmap. exists q. split; [done|]. by eapply list_elem_of_lookup_2.
Qed.

(** the write of the file *)
Lemma clients_ok_put_file w sts k q id :
  clients_ok w sts → qs !! k = Some q → sts !! k = Some (CreateSt id CPutFile) →
  ∃ w', create_step ec q w (CreateSt id CPutFile) = Done (w', CreateSt id (CReturned OK)) ∧
    clients_ok w' (<[k := CreateSt id (CReturned OK)]> sts) ∧
    step_effect q (CreateSt id CPutFile) w w'.
Proof.
  intros Hok Hq Hst. destruct (co_pc _ _ Hok k q _ Hq Hst) as (Hid&Hs). simpl in Hid. subst id.
  set (i := new_inum (cq_rnd q) 1). destruct (new_inum_spec (cq_rnd q)) as (_&Hi&Hif).
  destruct (step_put_file q w i (co_ext _ _ Hok) Hi) as (w'&E&Hw'&Hv).
  exists w'. split; [done|]. split; [|done].
  assert (∀ j, is_Some (view w !! j) → is_Some (view w' !! j)) as Hkeep.
  { intros j Hj. rewrite Hv. destruct (decide (j = i)) as [->|Hne];
      [by rewrite lookup_insert_eq|by rewrite lookup_insert_ne]. }
  assert (∀ p, isdir p = true → view w' !! p = view w !! p) as Hdirs.
  { intros p Hp. rewrite Hv, lookup_insert_ne; [done|]. by apply new_inum_not_dir. }
  assert (has_written w' q (CreateSt i (CReturned OK))) as Hwr.
  { unfold has_written. cbn [cs_pc]. fold i. by rewrite Hv, lookup_insert_eq. }
  apply (clients_ok_step w sts k q _ w' _ Hok Hq Hst); [done|done|done| | | |].
  - intros p fl1 Hp Hd1. destruct (co_dir _ _ Hok p fl1 Hp Hd1) as (ks1&Hg1&Hd'). exists ks1.
    split; [by eapply grown_step|]. apply (is_dir_lookup w); [|done]. by apply Hdirs.
  - intros p Hp Hn. rewrite Hdirs by done. by apply Hok.
  - unfold pc_ok. simpl. by destruct Hs as [b ->].
  - intros p _ Hp. rewrite Hv, lookup_insert_ne; [done|]. intros <-. apply Hp.
    apply list_elem_of_fmap. exists q. split; [done|]. by eapply list_elem_of_lookup_2.
Qed.

(** the calls that read *)
Lemma clients_ok_lookup w sts k q id :
  clients_ok w sts → qs !! k = Some q → sts !! k = Some (CreateSt id CLookup) →
  ∃ w' st', create_step ec q w (CreateSt id CLookup) = Done (w', st') ∧
    clients_ok w' (<[k := st']> sts) ∧ view w' = view w.
Proof.
  intros Hok Hq Hst. pose proof (req_at k q Hq) as Hr. pose proof Hr as (_&Hpd&_).
  destruct (view w0 !! cq_dir q) as [b|] eqn:Hb.
  - destruct (proj2 H0 _ Hpd (ex_intro _ b Hb)) as (fl0&Hd0).
    destruct (co_dir _ _ Hok _ fl0 Hpd Hd0) as (ks&Hg&Hd).
    destruct (step_lookup_dir q w id _ (co_ext _ _ Hok) Hr Hd) as (w'&E&Hw'&Hv).
    eexists w', _. split; [exact E|]. split; [|done].
    apply (clients_ok_silent w sts k q _ w' _ Hok Hq Hst Hw' Hv); [done|].
    destruct (find_name _ _); unfold pc_ok; simpl; rewrite Hb; done.
  - destruct (step_absent q w id (co_ext _ _ Hok) Hr (co_absent _ _ Hok _ Hpd Hb)) as (w'&E&Hw'&Hv).
    eexists w', _. split; [exact E|]. split; [|done].
    apply (clients_ok_silent w sts k q _ w' _ Hok Hq Hst Hw' Hv); [done|].
    unfold pc_ok. simpl. by rewrite Hb.
Qed.

Lemma clients_ok_readdir w sts k q id :
  clients_ok w sts → qs !! k = Some q → sts !! k = Some (CreateSt id CReaddir) →
  ∃ w' st', create_step ec q w (CreateSt id CReaddir) = Done (w', st') ∧
    clients_ok w' (<[k := st']> sts) ∧ view w' = view w.
Proof.
  intros Hok Hq Hst. pose proof (req_at k q Hq) as Hr. pose proof Hr as (_&Hpd&_).
  destruct (proj2 H0 _ Hpd (co_pc _ _ Hok k q _ Hq Hst)) as (fl0&Hd0).
  destruct (co_dir _ _ Hok _ fl0 Hpd Hd0) as (ks&Hg&Hd).
  destruct (step_readdir_dir q w id _ (co_ext _ _ Hok) Hr Hd) as (w'&E&Hw'&Hv).
  eexists w', _. split; [exact E|]. split; [|done].
  apply (clients_ok_silent w sts k q _ w' _ Hok Hq Hst Hw' Hv); [done|].
  split; [done|]. exists fl0, ks. split; [by eapply grown_step|]. split; [|done].
  intros Hin. destruct Hg as (_&_&Hks). destruct (Hks k Hin) as (q1&st1&_&Hst1&_&Hwr).
  by simplify_eq.
Qed.

(** every client can make its next call, and the invariant is kept *)
Lemma create_step_ok w sts k q st :
  clients_ok w sts → qs !! k = Some q → sts !! k = Some st →
  ∃ w' st', create_step ec q w st = Done (w', st') ∧ clients_ok w' (<[k := st']> sts) ∧
    step_effect q st w w'.
Proof.
  intros Hok Hq Hst. destruct st as [id [| |fl| |r]].
  - by apply clients_ok_lookup.
  - by apply clients_ok_readdir.
  - destruct (clients_ok_put_dir w sts k q id fl Hok Hq Hst) as (w'&E&?). by eexists w', _.
  - destruct (clients_ok_put_file w sts k q id Hok Hq Hst) as (w'&E&?). by eexists w', _.
  - exists w, (CreateSt id (CReturned r)). split; [done|]. split; [|done]. by rewrite list_insert_id.
Qed.

Lemma clients_ok_step_rel x y :
  clients_ok x.1 x.2 → client_step ec qs x y → clients_ok y.1 y.2.
Proof.
  intros Hok Hs. inversion Hs as [w sts k q st w' st' Hq Hst E|w sts p name id w' id' r Hp E]; subst;
    cbn [fst snd] in *.
  - destruct (create_step_ok w sts k q st Hok Hq Hst) as (w1&st1&E1&Hok'&_).
    rewrite E in E1. by injection E1 as <- <-.
  - destruct (lookup_view ec w p name id w' id' r (co_ext _ _ Hok) Hp E) as [Hw' Hv].
    by eapply clients_ok_view.
Qed.

Lemma starting_ok sts : starting qs sts → clients_ok w0 sts.
Proof.
  intros [Hl Hall]. split; [done|apply H0| |done| |done].
  - intros p fl0 Hp Hd. exists []. rewrite app_nil_r. split; [|done]. split; [done|].
    split; [apply NoDup_nil_2|]. intros k Hk. by apply elem_of_nil in Hk.
  - intros k q st Hq Hst. unfold pc_ok. by rewrite (Forall_lookup_1 _ _ _ _ Hall Hst).
Qed.

Lemma reachable_ok sts0 w sts :
  starting qs sts0 → rtc (client_step ec qs) (w0, sts0) (w, sts) → clients_ok w sts.
Proof.
  intros Hs Hr. apply (rtc_invariant (client_step ec qs) (λ x, clients_ok x.1 x.2) (w0, sts0) (w, sts));
    [|done|by apply starting_ok]. intros x y. apply clients_ok_step_rel.
Qed.

(** *** A client that is alone in its directory *)

Definition alone (k : nat) (p : Z) : Prop :=
  ∀ j q, j ≠ k → qs !! j = Some q → cq_dir q ≠ p.

(** what the client read is still so, and what it wrote can be found *)
Definition undisturbed w q st : Prop :=
  match cs_pc st with
  | CLookup => True
  | CReaddir => ∃ fl, is_dir ec w (cq_dir q) fl ∧ find_name (cq_name q) fl = None
  | CPutDir fl => is_dir ec w (cq_dir q) fl ∧ find_name (cq_name q) fl = None
  | CPutFile => ∃ fl, is_dir ec w (cq_dir q) fl ∧ find_name (cq_name q) fl = Some (cs_id st)
  | CReturned r => r = OK →
      ∃ fl, is_dir ec w (cq_dir q) fl ∧ find_name (cq_name q) fl = Some (cs_id st)
  end.

Lemma undisturbed_lookup w w' q st :
  view w' !! cq_dir q = view w !! cq_dir q → undisturbed w q st → undisturbed w' q st.
Proof.
  intros Hv. pose proof (is_dir_lookup w w' (cq_dir q)) as Hd. unfold undisturbed.
  destruct (cs_pc st); [done|naive_solver..].
Qed.

(** steps of the others *)
Lemma step_effect_dir p q st w w' sts k :
  clients_ok w sts → qs !! k = Some q → sts !! k = Some st → step_effect q st w w' →
  isdir p = true → cq_dir q ≠ p → view w' !! p = view w !! p.
Proof.
  intros Hok Hq Hst He Hp Hne. pose proof (co_pc _ _ Hok k q st Hq Hst) as Hpc.
  unfold step_effect, pc_ok in *. destruct (cs_pc st); try by rewrite He.
  - rewrite He. by rewrite lookup_insert_ne.
  - rewrite He, (proj1 Hpc). rewrite lookup_insert_ne; [done|]. by apply new_inum_not_dir.
Qed.

(** its own steps *)
Lemma undisturbed_step w sts k q st w' st' :
  clients_ok w sts → qs !! k = Some q → sts !! k = Some st →
  create_step ec q w st = Done (w', st') → undisturbed w q st → undisturbed w' q st'.
Proof.
  intros Hok Hq Hst E Hu. pose proof (req_at k q Hq) as Hr. pose proof Hr as (_&Hpd&_).
  pose proof (co_ext _ _ Hok) as Hw. destruct st as [id [| |fl| |r]].
  - destruct (view w0 !! cq_dir q) as [b|] eqn:Hb.
    + destruct (proj2 H0 _ Hpd (ex_intro _ b Hb)) as (fl0&Hd0).
      destruct (co_dir _ _ Hok _ fl0 Hpd Hd0) as (ks&_&Hd).
      destruct (step_lookup_dir q w id _ Hw Hr Hd) as (w1&E1&_&Hv). rewrite E in E1.
      injection E1 as <- ->. pose proof (is_dir_view ec w w' _ _ Hv Hd) as Hd'.
      destruct (find_name (cq_name q) _) as [i|] eqn:Hf; unfold undisturbed; simpl; eauto.
    + destruct (step_absent q w id Hw Hr (co_absent _ _ Hok _ Hpd Hb)) as (w1&E1&_).
      rewrite E in E1. by injection E1 as <- ->.
  - destruct Hu as (fl&Hd&Hf). destruct (step_readdir_dir q w id _ Hw Hr Hd) as (w1&E1&_&Hv).
    rewrite E in E1. injection E1 as <- ->. split; [by eapply is_dir_view|done].
  - destruct Hu as [Hd Hf].
    destruct (co_pc _ _ Hok k q _ Hq Hst) as (Hid&fl0&ks&Hg&Hk&->). simpl in Hid. subst id.
    destruct (grown_snoc w sts _ fl0 ks k q Hg Hk Hq eq_refl) as (_&Hfit&Hdir).
    destruct (step_put_dir q w (new_inum (cq_rnd q) 1) _ Hw Hr Hfit) as (w1&E1&_&Hv).
    rewrite E in E1. injection E1 as <- ->. eexists. split.
    + apply Hdir. rewrite Hv. apply lookup_insert_eq.
    + rewrite find_name_app, Hf. simpl. by rewrite decide_True.
  - destruct (co_pc _ _ Hok k q _ Hq Hst) as (Hid&_). simpl in Hid. subst id.
    destruct (new_inum_spec (cq_rnd q)) as (_&Hi&_).
    destruct (step_put_file q w _ Hw Hi) as (w1&E1&_&Hv). rewrite E in E1. injection E1 as <- ->.
    intros _. destruct Hu as (fl&Hd&Hf). exists fl. split; [|done].
    apply (is_dir_lookup w); [|done]. rewrite Hv, lookup_insert_ne; [done|].
    by apply new_inum_not_dir.
  - by injection E as <- <-.
Qed.

Lemma undisturbed_rel k q x y :
  qs !! k = Some q → alone k (cq_dir q) →
  clients_ok x.1 x.2 ∧ (∀ st, x.2 !! k = Some st → undisturbed x.1 q st) →
  client_step ec qs x y → ∀ st, y.2 !! k = Some st → undisturbed y.1 q st.
Proof.
  intros Hq Hal [Hok Hu] Hs st Hst. pose proof (req_at k q Hq) as (_&Hpd&_).
  inversion Hs as [w sts j q1 st1 w' st' Hq1 Hst1 E|w sts p name id w' id' r Hp E]; subst;
    cbn [fst snd] in *.
  - destruct (decide (j = k)) as [->|Hj].
    + rewrite list_lookup_insert_eq in Hst by (by eapply lookup_lt_Some). simplify_eq.
      eapply undisturbed_step; eauto.
    + rewrite list_lookup_insert_ne in Hst by done.
      destruct (create_step_ok w sts j q1 st1 Hok Hq1 Hst1) as (w1&st2&E1&_&He).
      rewrite E in E1. injection E1 as <- <-. apply (undisturbed_lookup w); [|auto].
      eapply (step_effect_dir _ q1 st1); eauto.
  - destruct (lookup_view ec w p name id w' id' r (co_ext _ _ Hok) Hp E) as [_ Hv].
    apply (undisturbed_lookup w); [by rewrite Hv|auto].
Qed.
End invariant.
End facts.

(** ** Theorems *)

Section theorems.
Context {W : Type} (ec : extent_api W) `{!ExtentLaws ec}.



(** the first of two clients *)
Lemma schedule_0 qa qb ks w a b :
  run_schedule ec [qa; qb] (0%nat :: ks) w [a; b] =
  let! '(w, a) := create_step ec qa w a in run_schedule ec [qa; qb] ks w [a; b].
Proof. done. Qed.

Lemma schedule_1 qa qb ks w a b :
  run_schedule ec [qa; qb] (1%nat :: ks) w [a; b] =
  let! '(w, b) := create_step ec qb w b in run_schedule ec [qa; qb] ks w [a; b].
Proof. done. Qed.

Section two.
Context (w : W) (p : Z) (fl : filelist) (a b : list byte) (ra rb x y : Z).
Let qa := CreateReq p a ra.
Let qb := CreateReq p b rb.
Context (Hw : ext_ok w) (Hp : is_u64 p) (Hpd : isdir p = true) (Ha : a ≠ []) (Hb : b ≠ [])
  (Hd : is_dir ec w p fl) (Hfa : find_name a fl = None) (Hfb : find_name b fl = None).

Lemma two_dir w' l : view w' !! p = Some (serialize (fl ++ l)) →
  Forall (λ e, ∃ r nm, e = (new_inum r 1, nm) ∧ nm ≠ []) l → l ≠ [] →
  fits (api := ec) (serialize (fl ++ l)) → is_dir ec w' p (fl ++ l).
Proof.
  intros Hv Hl Hne Hf. apply is_dir_put; [done| |done|].
  - apply Forall_app. split; [by apply (is_dir_ids ec w p)|].
    eapply Forall_impl; [exact Hl|]. intros e (r&nm&->&_). apply new_inum_spec.
  - destruct l as [|e l _] using rev_ind; [done|].
    apply Forall_app in Hl as [_ He]. apply Forall_singleton in He as (r&nm&->&Hnm).
    rewrite app_assoc. by apply last_named_snoc.
Qed.

(** both calls of [lookup] *)
Lemma two_lookups ks :
  ∃ w', run_schedule ec [qa; qb] (0 :: 1 :: ks)%nat w [CreateSt x CLookup; CreateSt y CLookup] =
      run_schedule ec [qa; qb] ks w' [CreateSt x CReaddir; CreateSt y CReaddir] ∧
    ext_ok w' ∧ view w' = view w.
Proof.
  rewrite schedule_0. destruct (step_lookup_dir ec qa w x fl Hw) as (w1&->&Hw1&Hv1); [done|done|].
  cbn [cq_name qa obind]. rewrite Hfa. fold qa. rewrite schedule_1.
  pose proof (is_dir_view ec _ w1 _ _ Hv1 Hd) as Hd1.
  destruct (step_lookup_dir ec qb w1 y fl Hw1) as (w2&->&Hw2&Hv2); [done|done|].
  cbn [cq_name qb obind]. rewrite Hfb. exists w2. split; [done|]. split; [done|].
  by rewrite Hv2.
Qed.

(** the two writes of a client *)
Lemma two_puts q w1 l :
  ext_ok w1 → req_ok q → cq_dir q = p → fits (api := ec) (serialize (l ++ [cq_entry q])) →
  let i := new_inum (cq_rnd q) 1 in
  ∃ w2 w3, create_step ec q w1 (CreateSt i (CPutDir l)) = Done (w2, CreateSt i CPutFile) ∧
    create_step ec q w2 (CreateSt i CPutFile) = Done (w3, CreateSt i (CReturned OK)) ∧
    ext_ok w3 ∧ view w3 !! p = Some (serialize (l ++ [cq_entry q])) ∧
    view w3 !! i = Some [] ∧ ∀ r, is_Some (view w1 !! new_inum r 1) → is_Some (view w3 !! new_inum r 1).
Proof.
  intros Hw1 Hq Hqp Hf i. destruct (step_put_dir ec q w1 i l Hw1 Hq Hf) as (w2&E2&Hw2&Hv2).
  destruct (step_put_file ec q w2 i Hw2) as (w3&E3&Hw3&Hv3); [apply new_inum_spec|].
  rewrite Hqp in Hv2. exists w2, w3. split; [done|]. split; [done|]. split; [done|].
  split; [|split].
  - rewrite Hv3, lookup_insert_ne by (by apply new_inum_not_dir). by rewrite Hv2, lookup_insert_eq.
  - by rewrite Hv3, lookup_insert_eq.
  - intros r Hr. rewrite Hv3, lookup_insert. case_decide; [done|].
    by rewrite Hv2, lookup_insert_ne by (by apply not_eq_sym, new_inum_not_dir).
Qed.

(** Two clients create files with different names in one directory.  When both read
    the directory before one of them has written it, both calls return OK and the
    first client's file is not in the directory. *)
Theorem lost_update :
  a ≠ b → fits (api := ec) (serialize (fl ++ [cq_entry qa])) →
  fits (api := ec) (serialize (fl ++ [cq_entry qb])) →
  ∃ w', run_schedule ec [qa; qb] [0; 1; 0; 1; 0; 0; 1; 1]%nat w
      [CreateSt x CLookup; CreateSt y CLookup] =
      Done (w', [CreateSt (new_inum ra 1) (CReturned OK); CreateSt (new_inum rb 1) (CReturned OK)]) ∧
    (∀ id, ∃ w'', lookup ec w' p a id = Done (w'', id, NOENT)) ∧
    is_Some (view w' !! new_inum ra 1).
Proof.
  intros Hab Hf1 Hf2. destruct (two_lookups [0; 1; 0; 0; 1; 1]%nat) as (w2&->&Hw2&Hv2).
  rewrite schedule_0. pose proof (is_dir_view ec _ w2 _ _ Hv2 Hd) as Hd2.
  destruct (step_readdir_dir ec qa w2 x fl Hw2) as (w3&->&Hw3&Hv3); [done|done|].
  cbn [obind]. rewrite schedule_1. pose proof (is_dir_view ec _ w3 _ _ Hv3 Hd2) as Hd3.
  destruct (step_readdir_dir ec qb w3 y fl Hw3) as (w4&->&Hw4&Hv4); [done|done|].
  cbn [obind]. rewrite schedule_0.
  destruct (two_puts qa w4 fl Hw4) as (w5&w6&->&E6&Hw6&_&Hi&_); [done|done|done|].
  cbn [obind]. rewrite schedule_0, E6. cbn [obind]. rewrite schedule_1.
  destruct (two_puts qb w6 fl Hw6) as (w7&w8&->&E8&Hw8&Hp8&_&Hk); [done|done|done|].
  cbn [obind]. rewrite schedule_1, E8. exists w8. split; [done|]. split; [|apply (Hk ra); by exists []].
  assert (is_dir ec w8 p (fl ++ [cq_entry qb])) as Hd8.
  { apply two_dir; [done|constructor; [by exists rb, b|done]|done|done]. }
  intros id. destruct (lookup_ok ec w8 p _ a id Hw8 Hp Hd8) as (w''&->&_).
  rewrite find_name_app, Hfa. simpl. rewrite decide_False by congruence. by exists w''.
Qed.

(** Two clients create the same name.  When the first is through between the second's
    [lookup] and its [readdir], the name is in the directory twice: both calls return
    OK, and the name leads to the first client's inode only. *)
Theorem same_name_twice :
  a = b → fits (api := ec) (serialize (fl ++ [cq_entry qa])) →
  fits (api := ec) (serialize ((fl ++ [cq_entry qa]) ++ [cq_entry qb])) →
  ∃ w', run_schedule ec [qa; qb] [0; 1; 0; 0; 0; 1; 1; 1]%nat w
      [CreateSt x CLookup; CreateSt y CLookup] =
      Done (w', [CreateSt (new_inum ra 1) (CReturned OK); CreateSt (new_inum rb 1) (CReturned OK)]) ∧
    is_dir ec w' p (fl ++ [cq_entry qa; cq_entry qb]) ∧
    ∀ id, ∃ w'', lookup ec w' p b id = Done (w'', new_inum ra 1, OK).
Proof.
  intros Hab Hf1 Hf2. destruct (two_lookups [0; 0; 0; 1; 1; 1]%nat) as (w2&->&Hw2&Hv2).
  rewrite schedule_0. pose proof (is_dir_view ec _ w2 _ _ Hv2 Hd) as Hd2.
  destruct (step_readdir_dir ec qa w2 x fl Hw2) as (w3&->&Hw3&Hv3); [done|done|].
  cbn [obind]. rewrite schedule_0.
  destruct (two_puts qa w3 fl Hw3) as (w5&w6&->&E6&Hw6&Hp6&_); [done|done|done|].
  cbn [obind]. rewrite schedule_0, E6. cbn [obind]. rewrite schedule_1.
  assert (is_dir ec w6 p (fl ++ [cq_entry qa])) as Hd6.
  { apply two_dir; [done|constructor; [by exists ra, a|done]|done|done]. }
  destruct (step_readdir_dir ec qb w6 y _ Hw6 ltac:(done) Hd6) as (w7&->&Hw7&Hv7).
  cbn [obind]. rewrite schedule_1.
  destruct (two_puts qb w7 (fl ++ [cq_entry qa]) Hw7) as (w8&w9&->&E9&Hw9&Hp9&_); [done|done|done|].
  cbn [obind]. rewrite schedule_1, E9. exists w9. split; [done|]. rewrite <-app_assoc in Hf2, Hp9.
  assert (is_dir ec w9 p (fl ++ [cq_entry qa; cq_entry qb])) as Hd9.
  { apply two_dir; [done| |done|done]. constructor; [by exists ra, a|].
    constructor; [by exists rb, b|done]. }
  split; [done|]. intros id. destruct (lookup_ok ec w9 p _ b id Hw9 Hp Hd9) as (w''&->&_).
  rewrite find_name_app, Hfb. simpl. rewrite decide_True by done. by exists w''.
Qed.
End two.
End theorems.

(** ** Witnesses: two clients in the root directory, one in another *)

#[local] Existing Instance zero_heap.

Definition sample_reqs : list create_req :=
  [CreateReq 1 (be32 8) 4; CreateReq 1 (be32 9) 5; CreateReq 2 (be32 8) 6].
Definition sample_creates : list create_st :=
  [CreateSt 0 CLookup; CreateSt 0 CLookup; CreateSt 0 CLookup].

(** a second directory, which is empty *)
Definition two_dirs : extent_server :=
  {| es_data := <[2 := serialize []]> (es_data sample_store);
     es_attr := <[2 := attr_zero]> (es_attr sample_store) |}.

Lemma two_dirs_ok : extent_ok two_dirs.
Proof.
  destruct sample_store_ok as [Hf Ha]. split.
  - intros id b. simpl. rewrite lookup_insert. case_decide; [intros [= <-]; by vm_compute|].
    apply Hf.
  - intros id. simpl. rewrite (lookup_insert _ 2 id), (lookup_insert _ 2 id (serialize [])).
    case_decide; [done|]. apply Ha.
Qed.

Lemma news_cons qs k ks :
  news qs (k :: ks) = option_list (cq_entry <$> qs !! k) ++ news qs ks.
Proof. unfold news. simpl. by destruct (qs !! k). Qed.

Lemma news_size qs ks :
  Forall (λ q, Zlength (cq_name q) ≤ 4) qs → Zlength (entries (news qs ks)) ≤ 16 * Zlength ks.
Proof.
  intros Hqs. induction ks as [|k ks IH]; [done|].
  rewrite news_cons. cbn [length]. destruct (qs !! k) as [q|] eqn:Hq; [|simpl; lia].
  change (option_list (cq_entry <$> Some q) ++ news qs ks) with (cq_entry q :: news qs ks).
  rewrite entries_cons, length_app, Nat2Z.inj_add, serialize_entry_length.
  pose proof (Forall_lookup_1 _ _ _ _ Hqs Hq) as Hn. cbn in Hn |- *. lia.
Qed.

Lemma ks_short (qs : list create_req) ks :
  NoDup ks → (∀ k, k ∈ ks → is_Some (qs !! k)) → (length ks ≤ length qs)%nat.
Proof.
  intros Hnd Hks. rewrite <-(length_seq (length qs) 0). apply submseteq_length, NoDup_submseteq.
  - done.
  - intros k Hk. apply elem_of_seq. pose proof (lookup_lt_is_Some_1 _ _ (Hks k Hk)). lia.
Qed.

Section sample.
Context (v : rpcs extent_server) (Hv : extent_smain 9 0 = Done v).

#[local] Instance two_laws : ExtentLaws (extent_rpc sample_header v) := sample_laws v Hv.

Lemma two_dirs_is_dir p fl :
  isdir p = true → is_dir (extent_rpc sample_header v) two_dirs p fl →
  (p = 1 ∧ fl = sample_root) ∨ (p = 2 ∧ fl = []).
Proof.
  intros Hp (b&Hb&E). change (es_data two_dirs !! p = Some b) in Hb. simpl in Hb.
  rewrite !lookup_insert in Hb. case_decide as H2; [|case_decide as H1].
  - injection Hb as <-. subst p. right. split; [reflexivity|]. vm_compute in E. congruence.
  - injection Hb as <-. subst p. left. split; [reflexivity|]. vm_compute in E.
    injection E as <-. reflexivity.
  - apply lookup_singleton_Some in Hb as [<- _]. by vm_compute in Hp.
Qed.

Lemma two_dirs_readable : readable (extent_rpc sample_header v) two_dirs.
Proof.
  split; [apply two_dirs_ok|]. intros p Hp [b Hb]. change (es_data two_dirs !! p = Some b) in Hb.
  simpl in Hb. rewrite !lookup_insert in Hb. case_decide as H2; [|case_decide as H1].
  - subst p. exists [], (serialize []). split; reflexivity.
  - subst p. exists sample_root, (serialize sample_root). split; reflexivity.
  - apply lookup_singleton_Some in Hb as [<- _]. by vm_compute in Hp.
Qed.

Lemma two_dirs_room : room (extent_rpc sample_header v) sample_reqs two_dirs.
Proof.
  intros p fl ks Hp Hd Hnd Hks.
  assert (Zlength ks ≤ 3) as Hl.
  { pose proof (ks_short sample_reqs ks Hnd) as Hs. cbn [length sample_reqs] in Hs.
    assert (length ks ≤ 3)%nat; [|lia]. apply Hs. intros k Hk.
    destruct (Hks k Hk) as (q&->&_). done. }
  pose proof (news_size sample_reqs ks ltac:(by repeat apply Forall_cons_2)) as Hn.
  change (extent_fits (serialize (fl ++ news sample_reqs ks))). unfold extent_fits, serialize.
  rewrite length_app, le_bytes_length, fmap_app, join_app, length_app.
  fold (entries fl) (entries (news sample_reqs ks)).
  change RPC_HEADER_SZ with 24. unfold MARSHALL_MAX.
  assert (Zlength (entries fl) ≤ 16); [|lia].
  by destruct (two_dirs_is_dir p fl Hp Hd) as [[_ ->]|[_ ->]].
Qed.

Lemma sample_reqs_ok : Forall req_ok sample_reqs.
Proof.
  repeat apply Forall_cons_2; [split; [split|split]; done..|apply Forall_nil_2].
Qed.

Lemma sample_starting : starting sample_reqs sample_creates.
Proof. split; [done|]. repeat constructor. Qed.
End sample.


(** client 2 runs through while the others have not started *)
Lemma sample_create_run (v : rpcs extent_server) (Hv : extent_smain 9 0 = Done v) :
  ∃ w, run_schedule (extent_rpc sample_header v) sample_reqs [2; 2; 2; 2]%nat two_dirs sample_creates =
    Done (w, [CreateSt 0 CLookup; CreateSt 0 CLookup; CreateSt (new_inum 6 1) (CReturned OK)]).
Proof.
  pose proof (two_laws v Hv) as L. set (ec := extent_rpc sample_header v) in *.
  pose proof (steps_are_createfile ec 6 two_dirs 2 (be32 8) 0) as E.
  destruct (@createfile_new _ ec (two_laws v Hv) 6 two_dirs 2 [] (be32 8) 0) as (w&Ec&_);
    [apply two_dirs_ok|split; [discriminate|reflexivity]|reflexivity| |reflexivity
    |vm_compute; discriminate|].
  { exists (serialize []). split; [reflexivity|by vm_compute]. }
  rewrite Ec in E. exists w.
  exact (run_schedule_alone ec sample_reqs 2 _ 4 two_dirs sample_creates _ w _ eq_refl eq_refl E).
Qed.


Lemma lost_update_witness :
  ∃ v, extent_smain 9 0 = Done v ∧
  ∃ w', run_schedule (extent_rpc sample_header v) [CreateReq 1 (be32 8) 4; CreateReq 1 (be32 9) 5]
      [0; 1; 0; 1; 0; 0; 1; 1]%nat sample_store [CreateSt 0 CLookup; CreateSt 0 CLookup] =
      Done (w', [CreateSt 2147483652 (CReturned OK); CreateSt 2147483653 (CReturned OK)]) ∧
    ∀ id, ∃ w'', lookup (extent_rpc sample_header v) w' 1 (be32 8) id = Done (w'', id, NOENT).
Proof.
  destruct sample_service as [v Hv]. exists v. split; [done|].
  destruct (@lost_update _ _ (sample_laws v Hv) sample_store 1 sample_root (be32 8) (be32 9) 4 5 0 0
    sample_store_ok ltac:(by vm_compute) eq_refl ltac:(done) ltac:(done) (sample_root_dir v Hv)
    eq_refl eq_refl) as (w'&E&Hl&_); [done|by vm_compute|by vm_compute|].
  exists w'. split; [exact E|exact Hl].
Defined.

Lemma same_name_twice_witness :
  ∃ v, extent_smain 9 0 = Done v ∧
  ∃ w', run_schedule (extent_rpc sample_header v) [CreateReq 1 (be32 8) 4; CreateReq 1 (be32 8) 5]
      [0; 1; 0; 0; 0; 1; 1; 1]%nat sample_store [CreateSt 0 CLookup; CreateSt 0 CLookup] =
      Done (w', [CreateSt 2147483652 (CReturned OK); CreateSt 2147483653 (CReturned OK)]) ∧
    ∀ id, ∃ w'', lookup (extent_rpc sample_header v) w' 1 (be32 8) id = Done (w'', 2147483652, OK).
Proof.
  destruct sample_service as [v Hv]. exists v. split; [done|].
  destruct (@same_name_twice _ _ (sample_laws v Hv) sample_store 1 sample_root (be32 8) (be32 8) 4 5 0 0
    sample_store_ok ltac:(by vm_compute) eq_refl ltac:(done) ltac:(done) (sample_root_dir v Hv)
    eq_refl eq_refl) as (w'&E&_&Hl); [done|by vm_compute|by vm_compute|].
  exists w'. split; [exact E|exact Hl].
Defined.
