(* ===== verification/Fuse.v ===== *)
(** * The FUSE handlers: [fuse.cc]

    Each handler takes a request of the kernel and makes one reply.  The kernel
    and libfuse are outside: the layout of a directory entry in a reply
    ([fuse_dirent_size], [fuse_add_dirent]) is a parameter. *)

From S2P Require Import Prelude Marshall Codec Stubs Connection Rpcs Extent Yfs.

(** ** Data *)

Definition ENOENT : Z := 2.
Definition ENOTDIR : Z := 20.
Definition ENOSYS : Z := 38.
Definition S_IFREG : Z := 0x8000.
Definition S_IFDIR : Z := 0x4000.
Definition FUSE_SET_ATTR_SIZE : Z := Z.shiftl 1 3.

(** the fields of [struct stat] that the handlers set; [bzero] clears the others *)
Record stat_t := Stat {
  st_ino : Z; st_mode : Z; st_nlink : Z; st_atime : Z; st_mtime : Z; st_ctime : Z; st_size : Z }.

Record fuse_entry_param := FuseEntryParam {
  ep_ino : Z; ep_generation : Z; ep_attr : stat_t; ep_attr_timeout : Z; ep_entry_timeout : Z }.

Inductive fuse_reply :=
  | ReplyErr (errno : Z)
  | ReplyAttr (st : stat_t) (timeout : Z)
  | ReplyEntry (e : fuse_entry_param)
  | ReplyCreate (e : fuse_entry_param)
  | ReplyOpen
  | ReplyBuf (b : list byte)
  | ReplyStatfs (namemax bsize : Z).

Inductive fuse_req :=
  | ReqGetattr (ino : Z)
  | ReqSetattr (ino to_set : Z)
  | ReqRead (ino size off : Z)
  | ReqWrite (ino : Z) (buf : list byte) (off : Z)
  | ReqCreate (parent : Z) (name : list byte)
  | ReqMknod (parent : Z) (name : list byte)
  | ReqLookup (parent : Z) (name : list byte)
  | ReqReaddir (ino size off : Z)
  | ReqOpen (ino : Z)
  | ReqMkdir (parent : Z) (name : list byte)
  | ReqUnlink (parent : Z) (name : list byte)
  | ReqStatfs.

(** [struct dirbuf]; [p] is null at first *)
Record dirbuf := Dirbuf { db_p : option (list byte); db_size : Z }.

(** ** Handlers *)

(** libfuse: the size of an entry for a name of [namelen] bytes, and its bytes,
    from the name, the inode and the offset of the next entry *)
Class DirentFormat := {
  fuse_dirent_size : Z → Z;
  fuse_dirent : list byte → Z → Z → list byte }.

Section fuse.
Context `{Heap, DirentFormat} {W : Type} (ec : extent_api W).

(** uninitialised variables *)
Definition stat_stale : stat_t :=
  {| st_ino := u64 stale; st_mode := u32 stale; st_nlink := u64 stale; st_atime := stale;
     st_mtime := stale; st_ctime := stale; st_size := stale |}.
Definition entry_stale : fuse_entry_param :=
  {| ep_ino := u64 stale; ep_generation := u64 stale; ep_attr := stat_stale;
     ep_attr_timeout := stale; ep_entry_timeout := stale |}.
Definition fileinfo_stale : fileinfo :=
  {| fi_size := u64 stale; fi_atime := u64 stale; fi_mtime := u64 stale; fi_ctime := u64 stale |}.
Definition dirinfo_stale : dirinfo :=
  {| di_atime := u64 stale; di_mtime := u64 stale; di_ctime := u64 stale |}.

(** [bzero(&st); st.st_ino = inum] *)
Definition stat_ino (inum : Z) : stat_t :=
  {| st_ino := inum; st_mode := 0; st_nlink := 0; st_atime := 0; st_mtime := 0; st_ctime := 0;
     st_size := 0 |}.

Definition getattr (w : W) (inum : Z) : outcome (W * stat_t * Z) :=
  if isfile inum then
    let! '(w, info, ret) := getfile ec w inum fileinfo_stale in
    if decide (ret ≠ OK) then Done (w, stat_ino inum, ret)
    else Done (w, {| st_ino := inum; st_mode := Z.lor S_IFREG 0x1b6; st_nlink := 1;
                     st_atime := fi_atime info; st_mtime := fi_mtime info;
                     st_ctime := fi_ctime info; st_size := fi_size info |}, OK)
  else
    let! '(w, info, ret) := getdir ec w inum dirinfo_stale in
    if decide (ret ≠ OK) then Done (w, stat_ino inum, ret)
    else Done (w, {| st_ino := inum; st_mode := Z.lor S_IFDIR 0x1ff; st_nlink := 2;
                     st_atime := di_atime info; st_mtime := di_mtime info;
                     st_ctime := di_ctime info; st_size := 0 |}, OK).

Definition fuseserver_getattr (w : W) (ino : Z) : outcome (W * fuse_reply) :=
  let! '(w, st, ret) := getattr w ino in
  if decide (ret ≠ OK) then Done (w, ReplyErr ENOENT) else Done (w, ReplyAttr st 0).

Definition fuseserver_setattr (w : W) (ino to_set : Z) : outcome (W * fuse_reply) :=
  if decide (Z.land FUSE_SET_ATTR_SIZE to_set ≠ 0) then Done (w, ReplyErr ENOSYS)
  else Done (w, ReplyErr ENOSYS).

Definition fuseserver_read (w : W) (ino size off : Z) : outcome (W * fuse_reply) :=
  Done (w, ReplyErr ENOSYS).
Definition fuseserver_write (w : W) (ino : Z) (buf : list byte) (off : Z)
    : outcome (W * fuse_reply) := Done (w, ReplyErr ENOSYS).

Definition fuseserver_createhelper (rnd : Z) (w : W) (parent : Z) (name : list byte)
    (e : fuse_entry_param) : outcome (W * fuse_entry_param * Z) :=
  let e := {| ep_ino := ep_ino e; ep_generation := 0; ep_attr := ep_attr e;
              ep_attr_timeout := 0; ep_entry_timeout := 0 |} in
  let! '(w, id, r) := createfile ec rnd w parent name (u64 stale) in
  if decide (r = OK) then
    let! '(w, st, r) := getattr w id in
    if decide (r = OK) then
      Done (w, {| ep_ino := id; ep_generation := ep_generation e; ep_attr := st;
                  ep_attr_timeout := ep_attr_timeout e;
                  ep_entry_timeout := ep_entry_timeout e |}, OK)
    else Done (w, e, r)
  else Done (w, e, r).

Definition fuseserver_create (rnd : Z) (w : W) (parent : Z) (name : list byte)
    : outcome (W * fuse_reply) :=
  let! '(w, e, r) := fuseserver_createhelper rnd w parent name entry_stale in
  if decide (r = OK) then Done (w, ReplyCreate e) else Done (w, ReplyErr ENOENT).

Definition fuseserver_mknod (rnd : Z) (w : W) (parent : Z) (name : list byte)
    : outcome (W * fuse_reply) :=
  let! '(w, e, r) := fuseserver_createhelper rnd w parent name entry_stale in
  if decide (r = OK) then Done (w, ReplyEntry e) else Done (w, ReplyErr ENOENT).

Definition fuseserver_lookup (w : W) (parent : Z) (name : list byte) : outcome (W * fuse_reply) :=
  let e := entry_stale in
  let! '(w, id, ret) := lookup ec w parent name (u64 stale) in
  if decide (ret = OK) then
    let! '(w, st, ret) := getattr w id in
    if decide (ret = OK) then
      Done (w, ReplyEntry {| ep_ino := id; ep_generation := ep_generation e; ep_attr := st;
                             ep_attr_timeout := 0; ep_entry_timeout := 0 |})
    else Done (w, ReplyErr ENOENT)
  else Done (w, ReplyErr ENOENT).

(** the bytes of a name up to the first NUL, [c_str()] as a C string *)
Fixpoint c_name (name : list byte) : list byte :=
  match name with
  | [] => []
  | b :: name => if decide (Z_of_byte b = 0) then [] else b :: c_name name
  end.

Definition dirbuf_add (b : dirbuf) (name : list byte) (ino : Z) : outcome dirbuf :=
  let name := c_name name in
  let size := u64 (db_size b + fuse_dirent_size (Zlength name)) in
  let p := realloc (default [] (db_p b)) size in
  let! p := mem_write p (db_size b) (fuse_dirent name ino size) in
  Done {| db_p := Some p; db_size := size |}.

Fixpoint dirbuf_add_all (b : dirbuf) (fl : filelist) : outcome dirbuf :=
  match fl with
  | [] => Done b
  | (i, name) :: fl => let! b := dirbuf_add b name i in dirbuf_add_all b fl
  end.

(** [off] is signed, [bufsize] unsigned: they are compared as unsigned *)
Definition reply_buf_limited (buf : option (list byte)) (bufsize off maxsize : Z)
    : outcome fuse_reply :=
  if decide (u64 off < bufsize) then
    let size := u64 (bufsize - u64 off) in
    let! b := mem_slice (default [] buf) off (if decide (size < maxsize) then size else maxsize) in
    Done (ReplyBuf b)
  else Done (ReplyBuf []).

Definition fuseserver_readdir (w : W) (ino size off : Z) : outcome (W * fuse_reply) :=
  if negb (isdir ino) then Done (w, ReplyErr ENOTDIR)
  else
    let b := {| db_p := None; db_size := 0 |} in
    let! '(w, fl, r) := readdir ec w ino [] in
    let! b := (if decide (r = OK) then dirbuf_add_all b fl else Done b) in
    let! rep := reply_buf_limited (db_p b) (db_size b) off size in
    Done (w, rep).

Definition fuseserver_open (w : W) (ino : Z) : outcome (W * fuse_reply) := Done (w, ReplyOpen).
Definition fuseserver_mkdir (w : W) (parent : Z) (name : list byte) : outcome (W * fuse_reply) :=
  Done (w, ReplyErr ENOSYS).
Definition fuseserver_unlink (w : W) (parent : Z) (name : list byte) : outcome (W * fuse_reply) :=
  Done (w, ReplyErr ENOSYS).
Definition fuseserver_statfs (w : W) : outcome (W * fuse_reply) := Done (w, ReplyStatfs 255 512).

(** the table of handlers; [rnd] is what [rand()] returns to this request *)
Definition fuseserver_oper (rnd : Z) (w : W) (q : fuse_req) : outcome (W * fuse_reply) :=
  match q with
  | ReqGetattr ino => fuseserver_getattr w ino
  | ReqStatfs => fuseserver_statfs w
  | ReqReaddir ino size off => fuseserver_readdir w ino size off
  | ReqLookup parent name => fuseserver_lookup w parent name
  | ReqCreate parent name => fuseserver_create rnd w parent name
  | ReqMknod parent name => fuseserver_mknod rnd w parent name
  | ReqOpen ino => fuseserver_open w ino
  | ReqRead ino size off => fuseserver_read w ino size off
  | ReqWrite ino buf off => fuseserver_write w ino buf off
  | ReqSetattr ino to_set => fuseserver_setattr w ino to_set
  | ReqUnlink parent name => fuseserver_unlink w parent name
  | ReqMkdir parent name => fuseserver_mkdir w parent name
  end.
End fuse.

(** ** Facts *)

(** libfuse: the bytes of an entry are as many as [fuse_dirent_size] says *)
Class DirentLaws `{DirentFormat} := {
  dirent_size_pos n : 0 ≤ n → 0 ≤ fuse_dirent_size n;
  dirent_length name ino off :
    Zlength (fuse_dirent name ino off) = fuse_dirent_size (Zlength name) }.

(** what the handlers answer for inode [i] *)
Definition the_stat (i : Z) : stat_t :=
  if isfile i
  then {| st_ino := i; st_mode := Z.lor S_IFREG 0x1b6; st_nlink := 1; st_atime := 0;
          st_mtime := 0; st_ctime := 0; st_size := 0 |}
  else {| st_ino := i; st_mode := Z.lor S_IFDIR 0x1ff; st_nlink := 2; st_atime := 0;
          st_mtime := 0; st_ctime := 0; st_size := 0 |}.

(** the entries of a directory as they lie in a reply, from the offset [o] *)
Fixpoint dirents `{DirentFormat} (o : Z) (fl : filelist) : list byte :=
  match fl with
  | [] => []
  | (i, name) :: fl =>
      let next := o + fuse_dirent_size (Zlength (c_name name)) in
      fuse_dirent (c_name name) i next ++ dirents next fl
  end.

Section listing.
Context `{Heap, DirentLaws}.

Lemma dirents_app o l1 l2 :
  dirents o (l1 ++ l2) = dirents o l1 ++ dirents (o + Zlength (dirents o l1)) l2.
Proof.
  revert o. induction l1 as [|[i name] l1 IH]; intros o; simpl.
  { by rewrite Z.add_0_r. }
  rewrite IH, <-app_assoc, length_app, Nat2Z.inj_add, dirent_length. by rewrite Z.add_assoc.
Qed.

(** the buffer holds exactly [l] *)
Definition dirbuf_holds (b : dirbuf) (l : list byte) : Prop :=
  db_size b = Zlength l ∧ default [] (db_p b) = l.

Lemma dirbuf_add_ok b l name i :
  dirbuf_holds b l → Zlength l + fuse_dirent_size (Zlength (c_name name)) < 2 ^ 64 →
  ∃ b', dirbuf_add b name i = Done b' ∧ dirbuf_holds b' (l ++ dirents (Zlength l) [(i, name)]).
Proof.
  intros [Hs Hp] Hmax. unfold dirbuf_add. rewrite Hs, Hp. set (nm := c_name name) in *.
  set (k := fuse_dirent_size (Zlength nm)) in *.
  assert (0 ≤ k) as Hk by (apply dirent_size_pos; lia).
  rewrite u64_small by lia_ints.
  pose proof (dirent_length nm i (Zlength l + k)) as Hd. fold k in Hd.
  destruct (mem_write (realloc l (Zlength l + k)) (Zlength l)
    (fuse_dirent nm i (Zlength l + k))) as [p|] eqn:E.
  - cbn [obind]. eexists. split; [done|]. pose proof (mem_write_length _ _ _ _ E) as Hl.
    pose proof (realloc_length l (Zlength l + k)) as Hr.
    pose proof (take_mem_write _ _ _ _ E) as Ht. rewrite Hd, Nat2Z.id in Ht.
    rewrite (take_realloc l) in Ht by lia. rewrite firstn_all in Ht.
    rewrite firstn_all2 in Ht by lia.
    assert (l ++ dirents (Zlength l) [(i, name)] = p) as ->.
    { rewrite Ht. simpl. by rewrite app_nil_r. }
    split; [cbn [db_size]; lia|done].
  - exfalso. rewrite mem_write_Done in E; [done|lia|]. rewrite realloc_length. lia.
Qed.

Lemma dirbuf_add_all_ok b l fl :
  dirbuf_holds b l → Zlength (l ++ dirents (Zlength l) fl) < 2 ^ 64 →
  ∃ b', dirbuf_add_all b fl = Done b' ∧ dirbuf_holds b' (l ++ dirents (Zlength l) fl).
Proof.
  revert b l. induction fl as [|[i name] fl IH]; intros b l Hb Hmax.
  { exists b. simpl. by rewrite app_nil_r. }
  change ((i, name) :: fl) with ([(i, name)] ++ fl) in *.
  rewrite dirents_app, app_assoc in Hmax |- *. cbn [app dirbuf_add_all].
  assert (Zlength (dirents (Zlength l) [(i, name)]) = fuse_dirent_size (Zlength (c_name name))) as Hd.
  { simpl. by rewrite app_nil_r, dirent_length. }
  destruct (dirbuf_add_ok b l name i Hb) as (b1&->&Hb1).
  { rewrite !length_app in Hmax. lia. }
  cbn [obind]. assert (Zlength (l ++ dirents (Zlength l) [(i, name)]) =
    Zlength l + Zlength (dirents (Zlength l) [(i, name)])) as E by (rewrite length_app; lia).
  rewrite <-E in Hmax |- *. by apply IH.
Qed.

Lemma listing_ok fl :
  Zlength (dirents 0 fl) < 2 ^ 63 →
  ∃ b, dirbuf_add_all {| db_p := None; db_size := 0 |} fl = Done b ∧ dirbuf_holds b (dirents 0 fl).
Proof.
  intros Hl. apply (dirbuf_add_all_ok _ [] fl); [done|]. 
  change (Zlength (dirents 0 fl) < 2 ^ 64). lia_ints.
Qed.

(** What is replied, for any offset and size: a piece of the listing. *)
Lemma reply_buf_limited_ok b l off maxsize :
  dirbuf_holds b l → Zlength l < 2 ^ 63 → - 2 ^ 63 ≤ off < 2 ^ 63 → 0 ≤ maxsize →
  reply_buf_limited (db_p b) (db_size b) off maxsize =
    Done (ReplyBuf (if decide (0 ≤ off) then take (Z.to_nat maxsize) (drop (Z.to_nat off) l) else [])).
Proof.
  intros [Hs Hp] Hl Hoff Hm. unfold reply_buf_limited. rewrite Hs, Hp. destruct (decide (0 ≤ off)) as [H0'|H0'].
  - rewrite (u64_small off) by lia_ints. case_decide as Hlt.
    + rewrite (u64_small (Zlength l - off)) by lia_ints.
      case_decide as Hmin; rewrite mem_slice_Done by lia; simpl; [|done].
      do 2 f_equal. rewrite !firstn_all2; [done|rewrite length_drop; lia..].
    + rewrite drop_ge by lia. by rewrite take_nil.
  - rewrite decide_False; [done|]. lia_ints.
Qed.
End listing.

Section facts.
Context `{Heap, DirentLaws} {W : Type} (ec : extent_api W) `{!ExtentLaws ec}.

Lemma getattr_ok w i :
  ext_ok w → is_u64 i →
  ∃ w' st, getattr ec w i =
      Done (w', st, match view w !! i with Some _ => OK | None => IOERR end) ∧
    ext_ok w' ∧ view w' = view w ∧ (is_Some (view w !! i) → st = the_stat i).
Proof.
  intros Hw Hi. destruct (getattr_law w i Hw Hi) as (w'&a&E&Hw'&Hv&Ha).
  exists w'. unfold getattr, getfile, getdir, the_stat. rewrite E.
  destruct (view w !! i) as [b|]; [rewrite (Ha ltac:(done))|]; destruct (isfile i); simpl;
    eexists; (split; [done|]); split_and!; try done; by intros [? ?].
Qed.

Lemma lookup_missing w p name id :
  ext_ok w → is_u64 p → view w !! p = None →
  ∃ w', lookup ec w p name id = Done (w', id, IOERR) ∧ ext_ok w' ∧ view w' = view w.
Proof.
  intros Hw Hp Hn. unfold lookup. destruct (get_law w p Hw Hp) as (w'&b&->&Hw'&Hv&_).
  rewrite Hn. simpl. by exists w'.
Qed.

Lemma fs_ok_view w w' : fs_ok ec w → ext_ok w' → view w' = view w → fs_ok ec w'.
Proof.
  intros [_ Hfs] Hw' Hv. split; [done|]. intros p Hp. rewrite Hv. intros Hs.
  destruct (Hfs p Hp Hs) as (fl&Hd&?&?). exists fl. split; [by eapply is_dir_view|done].
Qed.

(** the directory at [p], when there is one *)
Lemma fs_ok_dir w p : fs_ok ec w → isdir p = true →
  view w !! p = None ∨ ∃ fl, is_dir ec w p fl ∧
    Forall (λ e, is_u64 e.1 ∧ isfile e.1 = true ∧ is_Some (view w !! e.1)) fl.
Proof.
  intros [Hw Hfs] Hp. destruct (view w !! p) as [b|] eqn:Hb; [right|by left].
  destruct (Hfs p Hp) as (fl&Hd&_&Hall); [by rewrite Hb|]. exists fl. split; [done|].
  apply Forall_and. split; [by apply (is_dir_ids ec w p)|done].
Qed.

(** the entry for inode [i] in a reply, with a generation [g] *)
Definition the_entry (g i : Z) : fuse_entry_param :=
  {| ep_ino := i; ep_generation := g; ep_attr := the_stat i; ep_attr_timeout := 0;
     ep_entry_timeout := 0 |}.

(** [fuseserver_lookup] on a directory *)
Lemma lookup_reply w p fl name :
  ext_ok w → is_u64 p → is_dir ec w p fl →
  Forall (λ e, is_u64 e.1 ∧ is_Some (view w !! e.1)) fl →
  ∃ w', fuseserver_lookup ec w p name =
      Done (w', match find_name name fl with
                | Some i => ReplyEntry (the_entry (u64 stale) i)
                | None => ReplyErr ENOENT
                end) ∧ ext_ok w' ∧ view w' = view w.
Proof.
  intros Hw Hp Hd Hall. unfold fuseserver_lookup.
  destruct (lookup_ok ec w p fl name (u64 stale) Hw Hp Hd) as (w1&->&Hw1&Hv1). simpl.
  destruct (find_name name fl) as [i|] eqn:Hf; simpl; [|by exists w1].
  apply find_name_in in Hf. eapply Forall_forall in Hall as [Hi Hs]; [|exact Hf]. simpl in Hi, Hs.
  destruct (getattr_ok w1 i Hw1 Hi) as (w2&st&->&Hw2&Hv2&Hst). rewrite Hv1 in Hst, Hv2 |- *.
  rewrite (Hst Hs). destruct Hs as [b ->]. simpl. by exists w2.
Qed.

(** [fuseserver_createhelper]: what creating a file means for the store and the reply *)
Lemma createhelper_ok rnd w p fl name e :
  fs_ok ec w → is_u64 p → isdir p = true → is_dir ec w p fl → name ≠ [] →
  fits (api := ec) (serialize (fl ++ [(new_inum rnd 1, name)])) →
  ∃ w' i fl', fuseserver_createhelper ec rnd w p name e = Done (w', the_entry 0 i, OK) ∧
    fs_ok ec w' ∧ is_dir ec w' p fl' ∧ find_name name fl' = Some i.
Proof.
  intros Hfs Hp Hpd Hd Hne Hf. pose proof Hfs as [Hw _]. unfold fuseserver_createhelper.
  destruct (createfile_fs_ok ec rnd w p fl name (u64 stale) Hfs Hp Hpd Hd Hne Hf)
    as (w1&i&fl'&->&Hfs1&Hd1&Hn1). simpl.
  pose proof Hfs1 as [Hw1 _].
  destruct (fs_ok_dir w1 p Hfs1 Hpd) as [Hno|(fl2&Hd2&Hall)].
  { destruct Hd1 as (b&Hb&_). by rewrite Hno in Hb. }
  assert (fl2 = fl') as -> by (by eapply is_dir_fun).
  pose proof (find_name_in _ _ _ Hn1) as Hin. eapply Forall_forall in Hall as (Hi&_&Hs); [|exact Hin].
  simpl in Hi, Hs. destruct (getattr_ok w1 i Hw1 Hi) as (w2&st&->&Hw2&Hv2&Hst).
  rewrite (Hst Hs). destruct Hs as [b ->]. simpl. exists w2, i, fl'. split; [done|].
  split; [by eapply fs_ok_view|]. split; [by eapply is_dir_view|done].
Qed.
End facts.

(** ** Theorems *)

Section theorems.
Context `{Heap, DirentLaws} {W : Type} (ec : extent_api W) `{!ExtentLaws ec}.

(** what the kernel sends: inodes of 64 bits, directories as parents, names that
    are not empty, and offsets that fit; and there is room for what it asks *)
Definition req_sane (rnd : Z) (w : W) (q : fuse_req) : Prop :=
  match q with
  | ReqGetattr ino => is_u64 ino
  | ReqCreate p name | ReqMknod p name => is_u64 p ∧ isdir p = true ∧ name ≠ [] ∧
      ∀ fl, is_dir ec w p fl → fits (api := ec) (serialize (fl ++ [(new_inum rnd 1, name)]))
  | ReqLookup p _ => is_u64 p ∧ isdir p = true
  | ReqReaddir p size off => is_u64 p ∧ 0 ≤ size ∧ - 2 ^ 63 ≤ off < 2 ^ 63 ∧
      ∀ fl, is_dir ec w p fl → Zlength (dirents 0 fl) < 2 ^ 63
  | _ => True
  end.

(** creating, also where there is no directory *)
Lemma createhelper_total rnd w p name e :
  fs_ok ec w → is_u64 p → isdir p = true → name ≠ [] →
  (∀ fl, is_dir ec w p fl → fits (api := ec) (serialize (fl ++ [(new_inum rnd 1, name)]))) →
  ∃ w' e' r, fuseserver_createhelper ec rnd w p name e = Done (w', e', r) ∧ fs_ok ec w'.
Proof.
  intros Hfs Hp Hpd Hne Hf. pose proof Hfs as [Hw _].
  destruct (fs_ok_dir ec w p Hfs Hpd) as [Hno|(fl&Hd&_)].
  - unfold fuseserver_createhelper, createfile.
    destruct (lookup_missing ec w p name (u64 stale) Hw Hp Hno) as (w1&->&Hw1&Hv1). simpl.
    eexists w1, _, _. split; [done|]. by eapply fs_ok_view.
  - destruct (createhelper_ok ec rnd w p fl name e Hfs Hp Hpd Hd Hne (Hf fl Hd))
      as (w1&i&fl'&->&Hfs1&_). by eexists w1, _, _.
Qed.

(** every handler keeps the file system well formed *)
Lemma oper_ok rnd w q :
  fs_ok ec w → req_sane rnd w q →
  ∃ w' rep, fuseserver_oper ec rnd w q = Done (w', rep) ∧ fs_ok ec w'.
Proof.
  intros Hfs Hq. pose proof Hfs as [Hw _].
  destruct q; simpl in Hq; simpl; try by eexists w, _.
  - unfold fuseserver_getattr. destruct (getattr_ok ec w ino Hw Hq) as (w1&st&->&Hw1&Hv1&_). simpl.
    exists w1. destruct (view w !! ino); simpl; eexists; (split; [done|]); by eapply fs_ok_view.
  - unfold fuseserver_setattr. case_decide; by eexists w, _.
  - destruct Hq as (?&?&?&?). unfold fuseserver_create.
    destruct (createhelper_total rnd w parent name entry_stale Hfs) as (w1&e&r&->&Hfs1); try done. simpl.
    case_decide; by eexists w1, _.
  - destruct Hq as (?&?&?&?). unfold fuseserver_mknod.
    destruct (createhelper_total rnd w parent name entry_stale Hfs) as (w1&e&r&->&Hfs1); try done. simpl.
    case_decide; by eexists w1, _.
  - destruct Hq as (Hp&Hpd). destruct (fs_ok_dir ec w parent Hfs Hpd) as [Hno|(fl&Hd&Hall)].
    + unfold fuseserver_lookup.
      destruct (lookup_missing ec w parent name (u64 stale) Hw Hp Hno) as (w1&->&Hw1&Hv1). simpl.
      eexists w1, _. split; [done|]. by eapply fs_ok_view.
    + destruct (lookup_reply ec w parent fl name Hw Hp Hd) as (w1&->&Hw1&Hv1).
      { eapply Forall_impl; [exact Hall|]. intros e (?&_&?). by split. }
      eexists w1, _. split; [done|]. by eapply fs_ok_view.
  - destruct Hq as (Hp&Hsize&Hoff&Hmax). unfold fuseserver_readdir.
    destruct (isdir ino) eqn:Hd; simpl; [|by eexists w, _].
    destruct (fs_ok_dir ec w ino Hfs Hd) as [Hno|(fl&Hdir&_)].
    + unfold readdir. destruct (get_law w ino Hw Hp) as (w1&b&->&Hw1&Hv1&_). rewrite Hno. simpl.
      rewrite (reply_buf_limited_ok {| db_p := None; db_size := 0 |} []) by done. simpl.
      eexists w1, _. split; [done|]. by eapply fs_ok_view.
    + destruct (readdir_ok ec w ino fl Hw Hp Hdir) as (w1&->&Hw1&Hv1). simpl.
      specialize (Hmax fl Hdir).
      destruct (listing_ok fl Hmax) as (b&->&Hb). cbn [obind].
      rewrite (reply_buf_limited_ok b _ off size Hb) by done. simpl.
      eexists w1, _. split; [done|]. by eapply fs_ok_view.
Qed.

(** C19. Every request of the kernel gets one reply, without a fault, and leaves the
    file system consistent: all directories readable, names distinct, entries
    existing. *)
Theorem oper_safe rnd w q :
  fs_ok ec w → req_sane rnd w q →
  ∃ w' rep, fuseserver_oper ec rnd w q = Done (w', rep) ∧ fs_ok ec w'.
Proof. apply oper_ok. Qed.

(** A file that was created is found: the reply to [create] and the reply to a later
    [lookup] name the same inode, with the same attributes (an empty regular file
    that everyone may read and write).  They differ in the generation: [lookup] does
    not set it, and sends what the memory held. *)
Theorem create_then_lookup rnd w p fl name :
  fs_ok ec w → is_u64 p → isdir p = true → is_dir ec w p fl → name ≠ [] →
  fits (api := ec) (serialize (fl ++ [(new_inum rnd 1, name)])) →
  ∃ w' i w'', fuseserver_create ec rnd w p name = Done (w', ReplyCreate (the_entry 0 i)) ∧
    fuseserver_lookup ec w' p name = Done (w'', ReplyEntry (the_entry (u64 stale) i)) ∧
    st_mode (the_stat i) = Z.lor S_IFREG 0x1b6 ∧ st_size (the_stat i) = 0.
Proof.
  intros Hfs Hp Hpd Hd Hne Hf. unfold fuseserver_create.
  destruct (createhelper_ok ec rnd w p fl name entry_stale Hfs Hp Hpd Hd Hne Hf)
    as (w1&i&fl'&->&Hfs1&Hd1&Hn1). simpl.
  destruct (fs_ok_dir ec w1 p Hfs1 Hpd) as [Hno|(fl2&Hd2&Hall)].
  { destruct Hd1 as (b&Hb&_). by rewrite Hno in Hb. }
  assert (fl2 = fl') as -> by (by eapply is_dir_fun).
  destruct (lookup_reply ec w1 p fl' name (proj1 Hfs1) Hp Hd1) as (w2&E&_).
  { eapply Forall_impl; [exact Hall|]. intros e (?&_&?). by split. }
  rewrite Hn1 in E. exists w1, i, w2. split; [done|]. split; [done|].
  pose proof (find_name_in _ _ _ Hn1) as Hin.
  eapply Forall_forall in Hall as (_&Hfile&_); [|exact Hin]. simpl in Hfile.
  unfold the_stat. by rewrite Hfile.
Qed.

(** C33. Reading a directory in pieces: each entry carries the offset of the next one,
    and a request at the offset that the last entry of [l1] carries is answered with
    the entries after [l1], as many bytes as asked for. *)
Theorem readdir_resumes w p l1 l2 size :
  ext_ok w → is_u64 p → isdir p = true → is_dir ec w p (l1 ++ l2) → 0 ≤ size →
  Zlength (dirents 0 (l1 ++ l2)) < 2 ^ 63 →
  ∃ w', fuseserver_readdir ec w p size (Zlength (dirents 0 l1)) =
    Done (w', ReplyBuf (take (Z.to_nat size) (dirents (Zlength (dirents 0 l1)) l2))).
Proof.
  intros Hw Hp Hpd Hd Hsize Hmax. unfold fuseserver_readdir. rewrite Hpd. simpl.
  destruct (readdir_ok ec w p _ Hw Hp Hd) as (w1&->&_). simpl.
  destruct (listing_ok (l1 ++ l2) Hmax) as (b&->&Hb). cbn [obind].
  rewrite dirents_app, Z.add_0_l in Hb, Hmax. rewrite length_app in Hmax.
  rewrite (reply_buf_limited_ok b _ _ size Hb); [|rewrite length_app; lia|lia|done].
  rewrite decide_True by lia. simpl. exists w1. by rewrite Nat2Z.id, drop_app_length.
Qed.

(** A directory that cannot be read is shown as an empty one: the error of the file
    system is not passed on. *)
Theorem readdir_hides_errors w p size off fl' b :
  ext_ok w → is_u64 p → isdir p = true → view w !! p = Some b →
  deserialize b [] = Done (fl', false) → - 2 ^ 63 ≤ off < 2 ^ 63 → 0 ≤ size →
  ∃ w', fuseserver_readdir ec w p size off = Done (w', ReplyBuf []).
Proof.
  intros Hw Hp Hpd Hb E Hoff Hsize. unfold fuseserver_readdir. rewrite Hpd. simpl.
  unfold readdir. destruct (get_law w p Hw Hp) as (w1&b'&->&_&_&Hbuf). rewrite Hb. simpl.
  rewrite (Hbuf b Hb), E. simpl.
  rewrite (reply_buf_limited_ok {| db_p := None; db_size := 0 |} []) by done. simpl.
  exists w1. case_decide; [|done]. rewrite drop_nil. by rewrite take_nil.
Qed.
End theorems.

(** ** Witnesses: on the extent server behind the RPC stubs *)

#[local] Existing Instance zero_heap.

(** the layout of [struct fuse_dirent], padded to a multiple of 8 *)
Definition padded (n : Z) : Z := (24 + n + 7) / 8 * 8.

Definition linux_dirent : DirentFormat :=
  {| fuse_dirent_size := padded;
     fuse_dirent name ino off :=
       le_bytes 8 ino ++ le_bytes 8 off ++ le_bytes 4 (Zlength name) ++ le_bytes 4 0 ++ name ++
       replicate (Z.to_nat (padded (Zlength name) - 24 - Zlength name)) (byte_of_Z 0) |}.
#[local] Existing Instance linux_dirent.

#[local] Program Instance linux_dirent_laws : DirentLaws.
Next Obligation. intros n Hn. unfold fuse_dirent_size, linux_dirent, padded. lia_ints. Qed.
Next Obligation.
  intros name ino off. unfold fuse_dirent, fuse_dirent_size, linux_dirent.
  rewrite !length_app, !le_bytes_length, length_replicate. unfold padded. lia_ints.
Qed.

Lemma oper_safe_witness :
  ∃ v (L : ExtentLaws (extent_rpc sample_header v)) w' rep, extent_smain 9 0 = Done v ∧
    fuseserver_oper (extent_rpc sample_header v) 4 sample_store (ReqReaddir 1 4096 0) =
      Done (w', rep) ∧ fs_ok (extent_rpc sample_header v) w'.
Proof.
  destruct sample_service as [v Hv]. exists v, (sample_laws v Hv).
  destruct (@oper_safe _ _ _ _ _ (sample_laws v Hv) 4 sample_store (ReqReaddir 1 4096 0))
    as (w'&rep&E&Hfs).
  - apply sample_fs_ok.
  - split; [by vm_compute|]. split; [done|]. split; [done|]. intros fl Hd.
    rewrite (is_dir_fun _ _ _ _ _ Hd (sample_root_dir v Hv)). by vm_compute.
  - exists w', rep. split; [done|]. split; [exact E|exact Hfs].
Defined.

Lemma create_then_lookup_witness :
  ∃ v, extent_smain 9 0 = Done v ∧
  ∃ w' i w'', fuseserver_create (extent_rpc sample_header v) 4 sample_store 1 (be32 8) =
      Done (w', ReplyCreate (the_entry 0 i)) ∧
    fuseserver_lookup (extent_rpc sample_header v) w' 1 (be32 8) =
      Done (w'', ReplyEntry (the_entry (u64 stale) i)) ∧
    st_mode (the_stat i) = Z.lor S_IFREG 0x1b6 ∧ st_size (the_stat i) = 0.
Proof.
  destruct sample_service as [v Hv]. exists v. split; [done|].
  apply (@create_then_lookup _ _ _ (sample_laws v Hv) 4 sample_store 1 sample_root (be32 8));
    [apply sample_fs_ok|by vm_compute|by vm_compute|apply sample_root_dir|done|by vm_compute].
Defined.

Lemma readdir_resumes_witness :
  ∃ v, extent_smain 9 0 = Done v ∧
  ∃ w', fuseserver_readdir (extent_rpc sample_header v) sample_store 1 20 (Zlength (dirents 0 [])) =
    Done (w', ReplyBuf (take 20 (dirents 0 sample_root))).
Proof.
  destruct sample_service as [v Hv]. exists v. split; [done|].
  apply (@readdir_resumes _ _ _ _ _ (sample_laws v Hv) sample_store 1 [] sample_root 20);
    [apply sample_store_ok|by vm_compute|by vm_compute|apply sample_root_dir|done|by vm_compute].
Defined.

(** the same store, the root directory being replaced by something else *)
Definition broken_store : extent_server :=
  {| es_data := {[ 1 := serialize [(5, [])] ]}; es_attr := {[ 1 := attr_zero ]} |}.

Lemma broken_store_ok : extent_ok broken_store.
Proof.
  split.
  - intros id b. simpl. intros [<- <-]%lookup_singleton_Some. by vm_compute.
  - intros id. simpl. destruct (decide (id = 1)) as [->|]; [done|]. by rewrite !lookup_singleton_ne.
Qed.

Lemma readdir_hides_errors_witness :
  ∃ v, extent_smain 9 0 = Done v ∧
  ∃ w', fuseserver_readdir (extent_rpc sample_header v) broken_store 1 4096 0 =
    Done (w', ReplyBuf []).
Proof.
  destruct sample_service as [v Hv]. exists v. split; [done|].
  apply (@readdir_hides_errors _ _ _ _ (sample_laws v Hv) broken_store 1 4096 0 []
    (serialize [(5, [])]));
    [apply broken_store_ok|by vm_compute|by vm_compute|by vm_compute|by vm_compute
    |split; vm_compute; done|done].
Defined.
