(* ===== verification/LockServer.v ===== *)
(** * The lock service: [lock_server.cc], [lock_client.cc], [lock_smain.cc]

    A handler is the sequence of its accesses to shared memory, one instruction
    per mutex operation, map access, load or store.  [serve] runs a handler
    without interruption, as the RPC stubs see it; [lact] interleaves the
    handlers on the thread pool of the server. *)

From S2P Require Import Prelude Marshall Codec Stubs Connection Rpcs.

(** ** The protocol *)

Definition OK : Z := 0.

Definition rpc_acquire : Z := 0x7001.
Definition rpc_release : Z := 0x7002.
Definition rpc_stat : Z := 0x7004.

Inductive request :=
  | RAcquire (lid : Z)
  | RRelease (lid : Z)
  | RStat (lid : Z).

#[export] Instance request_eq_dec : EqDecision request.
Proof. solve_decision. Defined.

(** ** The server *)

(** A mutex knows the thread that locked it.  [_locks_m] is a [std::map]:
    [locks_writer] is the thread that is inserting into it. *)
Record lock_server := LockServer {
  nacquire : Z;
  _m : option nat;
  _locks_m : gmap Z (option nat);
  locks_writer : option nat }.

Definition lock_server_new : lock_server :=
  {| nacquire := 0; _m := None; _locks_m := ∅; locks_writer := None |}.

(** [~lock_server]: a locked mutex cannot be destroyed *)
Definition lock_server_delete (s : lock_server) : outcome unit :=
  check! forallb (λ m, bool_decide (m.2 = None)) (map_to_list (_locks_m s)) in
  check! bool_decide (_m s = None) in
  Done tt.

(** ** The handlers, access by access *)

Inductive instr :=
  | LockM              (**r [pthread_mutex_lock(&_m)] *)
  | UnlockM            (**r [pthread_mutex_unlock(&_m)] *)
  | Find (lid : Z)     (**r [_locks_m.find(lid) == end()]; then [&_locks_m[lid]] inserts *)
  | Index (lid : Z)    (**r [_locks_m[lid]]; inserts when [lid] is absent *)
  | Insert (lid : Z)   (**r the end of the insertion, with the new mutex initialised *)
  | LockLid (lid : Z)  (**r [pthread_mutex_lock] of the mutex of [lid] *)
  | UnlockLid (lid : Z)
  | LoadN              (**r reads [nacquire] *)
  | StoreN (d : Z).    (**r [nacquire = (what was read) + d] *)

#[export] Instance instr_eq_dec : EqDecision instr.
Proof. solve_decision. Defined.

Definition acquire (lid : Z) : list instr :=
  [LockM; Find lid; UnlockM; Index lid; LockLid lid; LockM; LoadN; StoreN 1; UnlockM].
Definition release (lid : Z) : list instr :=
  [Index lid; UnlockLid lid; LockM; LoadN; StoreN (-1); UnlockM].
Definition stat (lid : Z) : list instr := [LoadN].

Definition handler_of (r : request) : list instr :=
  match r with RAcquire lid => acquire lid | RRelease lid => release lid | RStat lid => stat lid end.

Definition set_nacquire (s : lock_server) n : lock_server :=
  {| nacquire := n; _m := _m s; _locks_m := _locks_m s; locks_writer := locks_writer s |}.
Definition set_m (s : lock_server) m : lock_server :=
  {| nacquire := nacquire s; _m := m; _locks_m := _locks_m s; locks_writer := locks_writer s |}.
Definition set_locks (s : lock_server) l : lock_server :=
  {| nacquire := nacquire s; _m := _m s; _locks_m := l; locks_writer := locks_writer s |}.
Definition set_writer (s : lock_server) w : lock_server :=
  {| nacquire := nacquire s; _m := _m s; _locks_m := _locks_m s; locks_writer := w |}.

(** an access of thread [i] to the map: it must not meet an insertion; when
    [lid] is absent an insertion begins *)
Definition map_access (s : lock_server) (i : nat) (lid : Z) (rest : list instr) :
    outcome (lock_server * list instr) :=
  match locks_writer s with
  | Some _ => Fault DataRace
  | None => match _locks_m s !! lid with
            | Some _ => Done (s, rest)
            | None => Done (set_writer s (Some i), Insert lid :: rest)
            end
  end.

(** thread [i], with [reg] in its register, executes an instruction; [None]:
    the thread blocks *)
Definition exec (s : lock_server) (i : nat) (c : instr) (rest : list instr) (reg : Z) :
    option (outcome (lock_server * list instr * Z)) :=
  match c with
  | LockM => if bool_decide (_m s = None) then Some (Done (set_m s (Some i), rest, reg)) else None
  | UnlockM => Some (Done (set_m s None, rest, reg))
  | Find lid | Index lid =>
      Some (let! '(s, rest) := map_access s i lid rest in Done (s, rest, reg))
  | Insert lid =>
      Some (Done (set_writer (set_locks s (<[lid := None]> (_locks_m s))) None, rest, reg))
  | LockLid lid =>
      match _locks_m s !! lid with
      | Some None => Some (Done (set_locks s (<[lid := Some i]> (_locks_m s)), rest, reg))
      | Some (Some _) => None
      | None => Some (Fault NullDeref)
      end
  | UnlockLid lid =>
      match _locks_m s !! lid with
      | Some _ => Some (Done (set_locks s (<[lid := None]> (_locks_m s)), rest, reg))
      | None => Some (Fault NullDeref)
      end
  | LoadN => Some (Done (s, rest, nacquire s))
  | StoreN d => Some (let! n := int_result (reg + d) in Done (set_nacquire s n, rest, reg))
  end.

(** ** A handler that runs alone, on thread [i] *)

Fixpoint run_alone (fuel : nat) (s : lock_server) (i : nat) (code : list instr) (reg : Z) :
    outcome (lock_server * Z) :=
  match fuel, code with
  | _, [] => Done (s, reg)
  | S fuel, c :: rest =>
      match exec s i c rest reg with
      | Some o => let! '(s, rest, reg) := o in run_alone fuel s i rest reg
      | None => Fault Deadlocked
      end
  | O, _ => Fault Deadlocked
  end.

(** at most 9 instructions and two insertions *)
Definition serve (s : lock_server) (r : request) : outcome (lock_server * Z) :=
  run_alone 11 s 0 (handler_of r) 0.

(** the handlers as the RPC library calls them; only [stat] sets its result *)
Definition ls_acquire : method lock_server (Z * (Z * unit)) Z :=
  λ s '(clt, (lid, _)) r, let! '(s, _) := serve s (RAcquire lid) in Done (s, r, OK).
Definition ls_release : method lock_server (Z * (Z * unit)) Z :=
  λ s '(clt, (lid, _)) r, let! '(s, _) := serve s (RRelease lid) in Done (s, r, OK).
Definition ls_stat : method lock_server (Z * (Z * unit)) Z :=
  λ s '(clt, (lid, _)) r, let! '(s, n) := serve s (RStat lid) in Done (s, n, OK).

Section service.
Context `{Heap}.

Definition lock_params := PCons c_int (PCons c_ull PNil).

(** [main] of the server *)
Definition lock_smain (rnd count : Z) : outcome (rpcs lock_server) :=
  let! v := rpcs_new rnd count in
  let! v := reg v rpc_stat lock_params c_int ls_stat in
  let! v := reg v rpc_acquire lock_params c_int ls_acquire in
  reg v rpc_release lock_params c_int ls_release.

(** *** The client; [id] is the nonce of its endpoint, [call1] takes the
    procedure number, and the local [r] is not initialised *)

Section client.
Context {W : Type} (id : Z) (call1 : Z → transport W).

Definition client_params := PCons c_uint (PCons c_ull PNil).

Definition lock_client_call (proc : Z) (w : W) (lid : Z) : outcome (W * Z) :=
  let! '(w, r, ret) := call client_params c_int (call1 proc) w (id, (lid, tt)) (s32 stale) in
  check! bool_decide (ret = OK) in
  Done (w, r).

Definition lock_client_stat := lock_client_call rpc_stat.
Definition lock_client_acquire := lock_client_call rpc_acquire.
Definition lock_client_release := lock_client_call rpc_release.
End client.
End service.

(** ** The server under load

    The pool runs the requests of its queue in order.  [granted] holds the locks
    that clients were granted and have not given back. *)

Inductive lthread :=
  | LIdle
  | LRun (r : request) (code : list instr) (reg : Z).

Record lsys := LSys {
  server : lock_server;
  pool_threads : list lthread;
  pool_queue : list request;
  granted : list Z }.

Definition lsys_new (threads : nat) : lsys :=
  {| server := lock_server_new; pool_threads := replicate threads LIdle;
     pool_queue := []; granted := [] |}.

Definition set_thread (y : lsys) i t : lsys :=
  {| server := server y; pool_threads := <[i := t]> (pool_threads y);
     pool_queue := pool_queue y; granted := granted y |}.
Definition set_server (y : lsys) s : lsys :=
  {| server := s; pool_threads := pool_threads y; pool_queue := pool_queue y;
     granted := granted y |}.
Definition set_requests (y : lsys) q : lsys :=
  {| server := server y; pool_threads := pool_threads y; pool_queue := q; granted := granted y |}.
Definition set_granted (y : lsys) g : lsys :=
  {| server := server y; pool_threads := pool_threads y; pool_queue := pool_queue y;
     granted := g |}.

(** the handler returns: the reply of [acquire] is the grant *)
Definition reply (y : lsys) (r : request) : lsys :=
  match r with RAcquire lid => set_granted y (granted y ++ [lid]) | _ => y end.

Fixpoint remove_one (lid : Z) (l : list Z) : list Z :=
  match l with [] => [] | x :: l => if decide (x = lid) then l else x :: remove_one lid l end.

Inductive laction :=
  | Ask (r : request)     (**r a client sends a request *)
  | Rogue (lid : Z)       (**r a client releases a lock that it does not hold *)
  | Take (i : nat)        (**r thread [i] takes a request from the queue *)
  | Step (i : nat).       (**r thread [i] executes an instruction or returns *)

Definition lact (y : lsys) (a : laction) : option (outcome lsys) :=
  match a with
  | Ask r =>
      let y' := set_requests y (pool_queue y ++ [r]) in
      match r with
      | RRelease lid => if decide (lid ∈ granted y)
                        then Some (Done (set_granted y' (remove_one lid (granted y)))) else None
      | _ => Some (Done y')
      end
  | Rogue lid => Some (Done (set_requests y (pool_queue y ++ [RRelease lid])))
  | Take i => match pool_threads y !! i, pool_queue y with
              | Some LIdle, r :: q =>
                  Some (Done (set_thread (set_requests y q) i (LRun r (handler_of r) 0)))
              | _, _ => None
              end
  | Step i => match pool_threads y !! i with
              | Some (LRun r [] reg) => Some (Done (set_thread (reply y r) i LIdle))
              | Some (LRun r (c :: rest) reg) =>
                  o ← exec (server y) i c rest reg;
                  Some (let! '(s, rest, reg) := o in
                        Done (set_thread (set_server y s) i (LRun r rest reg)))
              | _ => None
              end
  end.

(** a run stops at the first fault *)
Fixpoint lacts (y : lsys) (l : list laction) : option (outcome lsys) :=
  match l with
  | [] => Some (Done y)
  | a :: l => match lact y a with
              | Some (Done y) => lacts y l
              | o => o
              end
  end.

(** the clients release only what they were granted *)
Definition wellbehaved (a : laction) : bool := match a with Rogue _ => false | _ => true end.

(** ** The invariant *)

(** what is left of a handler at each of its points *)
Definition points (r : request) : list (list instr) :=
  (λ k, drop k (handler_of r)) <$> seq 0 10.
Definition insert_points (r : request) : list (list instr) :=
  match r with
  | RAcquire lid => [Insert lid :: drop 2 (acquire lid); Insert lid :: drop 4 (acquire lid)]
  | RRelease lid => [Insert lid :: drop 1 (release lid)]
  | RStat _ => []
  end.
Definition legal (r : request) (code : list instr) : Prop := code ∈ points r ++ insert_points r.

Fixpoint in_crit (code : list instr) : bool :=
  match code with
  | [] | LockM :: _ => false
  | UnlockM :: _ => true
  | _ :: code => in_crit code
  end.
Definition critical (t : lthread) : bool :=
  match t with LIdle => false | LRun _ code _ => in_crit code end.

(** does the thread hold the lock [lid], or is it about to give it back? *)
Definition holds (lid : Z) (t : lthread) : nat :=
  match t with
  | LRun (RAcquire l) code _ =>
      if decide (l = lid) then if decide (LockLid l ∈ code) then 0 else 1 else 0
  | LRun (RRelease l) code _ =>
      if decide (l = lid) then if decide (UnlockLid l ∈ code) then 1 else 0 else 0
  | _ => 0
  end.
Definition asks_release (lid : Z) (r : request) : nat :=
  match r with RRelease l => if decide (l = lid) then 1 else 0 | _ => 0 end.
Definition is_lid (lid x : Z) : nat := if decide (x = lid) then 1 else 0.

(** everyone who may count on the lock [lid]: the clients that were granted it,
    the requests that will release it, the threads that hold it *)
Definition claims (lid : Z) (y : lsys) : nat :=
  sum_list_with (is_lid lid) (granted y) + sum_list_with (asks_release lid) (pool_queue y) +
  sum_list_with (holds lid) (pool_threads y).
Definition locked (lid : Z) (s : lock_server) : nat :=
  match _locks_m s !! lid with Some (Some _) => 1 | _ => 0 end.

(** is the request of the thread in [nacquire]? *)
Definition counted (t : lthread) : nat :=
  match t with
  | LRun (RAcquire _) code _ => if decide (StoreN 1 ∈ code) then 0 else 1
  | LRun (RRelease _) code _ => if decide (StoreN (-1) ∈ code) then 1 else 0
  | _ => 0
  end.
Definition is_release (r : request) : nat := match r with RRelease _ => 1 | _ => 0 end.
Definition count (y : lsys) : nat :=
  length (granted y) + sum_list_with is_release (pool_queue y) +
  sum_list_with counted (pool_threads y).

Record lock_inv (y : lsys) : Prop := {
  li_legal : ∀ i r code reg,
    pool_threads y !! i = Some (LRun r code reg) → legal r code;
  li_insert : ∀ i r lid code reg,
    pool_threads y !! i = Some (LRun r (Insert lid :: code) reg) →
    locks_writer (server y) = Some i ∧ _locks_m (server y) !! lid = None;
  li_critical : ∀ i t, pool_threads y !! i = Some t → critical t = true →
    _m (server y) = Some i;
  li_m : ∀ i, _m (server y) = Some i →
    ∃ t, pool_threads y !! i = Some t ∧ critical t = true;
  li_reg : ∀ i r d code reg,
    pool_threads y !! i = Some (LRun r (StoreN d :: code) reg) → reg = nacquire (server y);
  li_claims : ∀ lid, claims lid y = locked lid (server y);
  li_count : nacquire (server y) = Z.of_nat (count y) }.

(** the points of the handlers, one by one *)
Ltac legal_cases H :=
  unfold legal, points in H; simpl in H;
  repeat (apply elem_of_cons in H as [H|H]; [try discriminate H|]);
  try (by apply elem_of_nil in H).

Lemma legal_start r : legal r (handler_of r).
Proof. apply elem_of_app. left. unfold points. simpl. left. Qed.

Lemma legal_next r c rest : legal r (c :: rest) → legal r rest.
Proof.
  intros H. destruct r as [lid|lid|lid]; legal_cases H; injection H as -> ->;
    unfold legal, points; simpl; repeat (first [left; done|right]).
Qed.

(** an insertion begins at a map access, and [nacquire] is stored after a load *)
Lemma legal_insert r c lid rest :
  c = Find lid ∨ c = Index lid → legal r (c :: rest) → legal r (Insert lid :: rest).
Proof.
  intros Hc H. destruct r as [l|l|l]; legal_cases H; injection H as -> ->;
    destruct Hc as [[= ->]|[= ->]]; unfold legal, points; simpl; repeat (first [left; done|right]).
Qed.
Lemma legal_no_insert r c lid code : ¬ legal r (c :: Insert lid :: code).
Proof. intros H. destruct r as [l|l|l]; legal_cases H. Qed.
Lemma legal_store r c d code : legal r (c :: StoreN d :: code) → c = LoadN.
Proof. intros H. destruct r as [l|l|l]; legal_cases H; by injection H as ->. Qed.

(** what is left after an instruction *)
Definition head_fact (r : request) (c : instr) (rest : list instr) : Prop :=
  match c with
  | LockM => in_crit rest = true
  | UnlockM => in_crit rest = false
  | Find _ | Index _ | Insert _ => True
  | LockLid lid => r = RAcquire lid ∧ (LockLid lid ∉ rest) ∧ in_crit rest = false
  | UnlockLid lid => r = RRelease lid ∧ (UnlockLid lid ∉ rest) ∧ in_crit rest = false
  | LoadN => rest = [] ∨ ∃ d code, rest = StoreN d :: code ∧ in_crit rest = true
  | StoreN d => in_crit rest = true ∧
      (∃ lid, (r = RAcquire lid ∧ d = 1 ∧ (StoreN 1 ∉ rest)) ∨
              (r = RRelease lid ∧ d = -1 ∧ (StoreN (-1) ∉ rest)))
  end.

Lemma legal_head r c rest : legal r (c :: rest) → head_fact r c rest.
Proof.
  intros H. destruct r as [lid|lid|lid]; legal_cases H; injection H as -> ->; simpl;
    rewrite ?not_elem_of_cons, ?elem_of_nil; try done; try naive_solver.
  - split; [done|]. exists lid. left. split_and!; [done|done|].
    by intros [?|?%elem_of_nil]%elem_of_cons.
  - split; [done|]. exists lid. right. split_and!; [done|done|].
    by intros [?|?%elem_of_nil]%elem_of_cons.
Qed.

Lemma holds_other lid r c rest reg reg' :
  (∀ l, c ≠ LockLid l) → (∀ l, c ≠ UnlockLid l) →
  holds lid (LRun r (c :: rest) reg) = holds lid (LRun r rest reg').
Proof.
  intros H1 H2. destruct r as [l|l|l]; [..|done]; simpl.
  - rewrite (decide_ext (LockLid l ∈ c :: rest) (LockLid l ∈ rest)); [done|].
    rewrite elem_of_cons. specialize (H1 l). naive_solver.
  - rewrite (decide_ext (UnlockLid l ∈ c :: rest) (UnlockLid l ∈ rest)); [done|].
    rewrite elem_of_cons. specialize (H2 l). naive_solver.
Qed.

Lemma counted_other r c rest reg reg' :
  (∀ d, c ≠ StoreN d) → counted (LRun r (c :: rest) reg) = counted (LRun r rest reg').
Proof.
  intros H. destruct r as [l|l|l]; [..|done]; simpl.
  - rewrite (decide_ext (StoreN 1 ∈ c :: rest) (StoreN 1 ∈ rest)); [done|].
    rewrite elem_of_cons. specialize (H 1). naive_solver.
  - rewrite (decide_ext (StoreN (-1) ∈ c :: rest) (StoreN (-1) ∈ rest)); [done|].
    rewrite elem_of_cons. specialize (H (-1)). naive_solver.
Qed.

Lemma set_thread_claims lid y i t u :
  pool_threads y !! i = Some t →
  (claims lid (set_thread y i u) + holds lid t = claims lid y + holds lid u)%nat.
Proof.
  intros E. unfold claims. simpl. pose proof (sum_list_with_insert (holds lid) _ _ _ u E). lia.
Qed.

Lemma set_thread_count y i t u :
  pool_threads y !! i = Some t →
  (count (set_thread y i u) + counted t = count y + counted u)%nat.
Proof.
  intros E. unfold count. simpl. pose proof (sum_list_with_insert counted _ _ _ u E). lia.
Qed.

Lemma lsys_new_inv n : lock_inv (lsys_new n).
Proof.
  assert (∀ f : lthread → nat, f LIdle = 0%nat → sum_list_with f (replicate n LIdle) = 0%nat)
    as Hz.
  { intros f Hf. apply sum_list_with_zero. by apply Forall_replicate. }
  split; simpl; try (intros i *; rewrite ?lookup_replicate; intros H; destruct_and?; done).
  - intros i t [-> _]%lookup_replicate. done.
  - intros lid. unfold claims, locked. simpl. rewrite Hz by done. by rewrite lookup_empty.
  - unfold count. simpl. by rewrite Hz.
Qed.

(** what an instruction of thread [i] must respect to keep the invariant *)
Lemma inv_update y i r c rest reg s rest' reg' :
  lock_inv y → pool_threads y !! i = Some (LRun r (c :: rest) reg) →
  legal r rest' →
  (∀ lid code, rest' = Insert lid :: code → locks_writer s = Some i ∧ _locks_m s !! lid = None) →
  (∀ j lid, j ≠ i → locks_writer (server y) = Some j → _locks_m (server y) !! lid = None →
    locks_writer s = Some j ∧ _locks_m s !! lid = None) →
  (in_crit rest' = true → _m s = Some i) →
  (∀ j, j ≠ i → _m (server y) = Some j → _m s = Some j) →
  (∀ j, _m s = Some j → j = i ∧ in_crit rest' = true ∨ j ≠ i ∧ _m (server y) = Some j) →
  (∀ d code, rest' = StoreN d :: code → reg' = nacquire s) →
  nacquire s = nacquire (server y) ∨ _m (server y) = Some i →
  (∀ lid, holds lid (LRun r rest' reg') + locked lid (server y) =
          holds lid (LRun r (c :: rest) reg) + locked lid s)%nat →
  nacquire s + Z.of_nat (counted (LRun r (c :: rest) reg)) =
  nacquire (server y) + Z.of_nat (counted (LRun r rest' reg')) →
  lock_inv (set_thread (set_server y s) i (LRun r rest' reg')).
Proof.
  intros HI E Hl Hi Hi' Hc Hc' Hm Hr Hn Hcl Hct.
  pose proof (lookup_lt_Some _ _ _ E) as Hlt.
  split; simpl.
  - intros j r0 code reg0 [(<-&[= -> -> ->]&_)|(?&Ej)]%list_lookup_insert_Some; [done|].
    by eapply li_legal.
  - intros j r0 lid code reg0 [(<-&[= -> -> ->]&_)|(Hne&Ej)]%list_lookup_insert_Some.
    + by eapply Hi.
    + destruct (li_insert _ HI _ _ _ _ _ Ej). eapply Hi'; eauto.
  - intros j t [(<-&<-&_)|(Hne&Ej)]%list_lookup_insert_Some Ht; [by apply Hc|].
    apply Hc'; [done|]. by eapply li_critical.
  - intros j [(->&Hcr)|(Hne&Hj)]%Hm.
    + eexists. split; [by apply list_lookup_insert_eq|]. exact Hcr.
    + destruct (li_m _ HI j Hj) as (t&Et&Ht). exists t. by rewrite list_lookup_insert_ne.
  - intros j r0 d code reg0 [(<-&[= -> -> ->]&_)|(Hne&Ej)]%list_lookup_insert_Some.
    + by eapply Hr.
    + destruct Hn as [->|Hn]; [by eapply li_reg|].
      destruct (legal_head _ _ _ (li_legal _ HI _ _ _ _ Ej)) as [Hcr _].
      pose proof (li_critical _ HI _ _ Ej Hcr) as Hj. congruence.
  - intros lid. pose proof (set_thread_claims lid (set_server y s) i _ (LRun r rest' reg') E) as H.
    pose proof (li_claims _ HI lid) as H0. specialize (Hcl lid).
    change (claims lid (set_server y s)) with (claims lid y) in H. lia.
  - pose proof (set_thread_count (set_server y s) i _ (LRun r rest' reg') E) as H.
    pose proof (li_count _ HI) as H0.
    change (count (set_server y s)) with (count y) in H. lia.
Qed.

Lemma locked_insert lid lid' s o :
  locked lid (set_locks s (<[lid' := o]> (_locks_m s))) =
  if decide (lid = lid') then match o with Some _ => 1%nat | None => 0%nat end else locked lid s.
Proof.
  unfold locked. simpl. destruct (decide (lid = lid')) as [->|Hne].
  - rewrite lookup_insert_eq. by destruct o.
  - by rewrite lookup_insert_ne.
Qed.

Lemma claim_is_locked y i lid t :
  lock_inv y → pool_threads y !! i = Some t → holds lid t = 1%nat →
  locked lid (server y) = 1%nat.
Proof.
  intros HI E Hh. pose proof (li_claims _ HI lid) as H. unfold claims in H.
  pose proof (sum_list_with_lookup (holds lid) _ _ _ E).
  assert (locked lid (server y) ≤ 1)%nat
    by (unfold locked; destruct (_locks_m _ !! lid) as [[|]|]; lia).
  lia.
Qed.

(** the thread that executes, and what its handler says about the next point *)
Section exec_ok.
Context (y : lsys) (i : nat) (r : request) (rest : list instr) (reg : Z).
Context (s : lock_server) (rest' : list instr) (reg' : Z).
Context (HI : lock_inv y).

Abbreviation at_instr c := (pool_threads y !! i = Some (LRun r (c :: rest) reg)).
Abbreviation executes c := (exec (server y) i c rest reg = Some (Done (s, rest', reg'))).
Abbreviation keeps_inv := (lock_inv (set_thread (set_server y s) i (LRun r rest' reg'))).

Lemma rest_facts c :
  at_instr c → legal r rest ∧ (∀ lid code, rest ≠ Insert lid :: code) ∧
  (c ≠ LoadN → ∀ d code, rest ≠ StoreN d :: code) ∧ head_fact r c rest ∧
  (in_crit (c :: rest) = true ↔ _m (server y) = Some i).
Proof.
  intros E. pose proof (li_legal _ HI _ _ _ _ E) as Hl. split_and!.
  - by eapply legal_next.
  - intros lid code ->. by apply legal_no_insert in Hl.
  - intros Hc d code ->. by apply legal_store in Hl.
  - by apply legal_head.
  - split; [exact (li_critical _ HI _ _ E)|]. intros Hm.
    destruct (li_m _ HI i Hm) as (t&Et&Ht). rewrite E in Et. by injection Et as <-.
Qed.

(** what instructions that are not about [lid] or [nacquire] leave alone *)
Lemma claims_kept c l :
  (∀ l, c ≠ LockLid l) → (∀ l, c ≠ UnlockLid l) → _locks_m s = _locks_m (server y) →
  (holds l (LRun r rest reg') + locked l (server y) =
   holds l (LRun r (c :: rest) reg) + locked l s)%nat.
Proof.
  intros. rewrite (holds_other l r c rest reg reg') by done. unfold locked. by rewrite H1.
Qed.
Lemma count_kept c :
  (∀ d, c ≠ StoreN d) → nacquire s = nacquire (server y) →
  nacquire s + Z.of_nat (counted (LRun r (c :: rest) reg)) =
  nacquire (server y) + Z.of_nat (counted (LRun r rest reg')).
Proof. intros ? ->. by rewrite (counted_other r c rest reg reg'). Qed.
End exec_ok.

Lemma exec_mutex_ok y i r c rest reg s rest' reg' :
  lock_inv y → c = LockM ∨ c = UnlockM → pool_threads y !! i = Some (LRun r (c :: rest) reg) →
  exec (server y) i c rest reg = Some (Done (s, rest', reg')) →
  lock_inv (set_thread (set_server y s) i (LRun r rest' reg')).
Proof.
  intros HI Hc E Hx. destruct (rest_facts y i r rest reg HI c E) as (Hl&Hni&Hns&Hh&Hcr).
  destruct Hc as [->| ->]; simpl in Hx, Hh, Hcr.
  - case_bool_decide as Hm; [|done]. injection Hx as <- <- <-.
    eapply inv_update; eauto.
    + by intros ? ? ?%Hni.
    + intros j. by rewrite Hm.
    + intros j [= <-]. by left.
    + by intros ? ? ?%(Hns ltac:(done)).
    + intros l. by apply claims_kept.
    + by apply count_kept.
  - injection Hx as <- <- <-. apply proj1 in Hcr. specialize (Hcr eq_refl).
    eapply inv_update; eauto.
    + by intros ? ? ?%Hni.
    + by rewrite Hh.
    + intros j Hj. rewrite Hcr. congruence.
    + done.
    + by intros ? ? ?%(Hns ltac:(done)).
    + intros l. by apply claims_kept.
    + by apply count_kept.
Qed.

Lemma exec_lid_ok y i r c lid rest reg s rest' reg' :
  lock_inv y → c = LockLid lid ∨ c = UnlockLid lid →
  pool_threads y !! i = Some (LRun r (c :: rest) reg) →
  exec (server y) i c rest reg = Some (Done (s, rest', reg')) →
  lock_inv (set_thread (set_server y s) i (LRun r rest' reg')).
Proof.
  intros HI Hc E Hx. destruct (rest_facts y i r rest reg HI c E) as (Hl&Hni&Hns&Hh&Hcr).
  assert (∃ o o', _locks_m (server y) !! lid = Some o ∧
    s = set_locks (server y) (<[lid := o']> (_locks_m (server y))) ∧ rest' = rest ∧ reg' = reg ∧
    in_crit rest = false ∧ in_crit (c :: rest) = false ∧
    (∀ l, holds l (LRun r rest reg) + locked l (server y) =
      holds l (LRun r (c :: rest) reg) + locked l s)%nat)
    as (o&o'&El&->&->&->&Hcr1&Hcr2&Hcl).
  { destruct Hc as [->| ->]; simpl in Hx, Hh;
      destruct (_locks_m (server y) !! lid) as [o|] eqn:El; try done.
    - destruct o; [done|]. injection Hx as <- <- <-. destruct Hh as (->&Hin&Hcr').
      eexists None, (Some i). split_and!; try done. intros l. rewrite locked_insert.
      unfold locked. simpl.
      rewrite (decide_True (P := LockLid lid ∈ LockLid lid :: rest)) by left.
      rewrite (decide_False (P := LockLid lid ∈ rest)) by done.
      destruct (decide (lid = l)) as [->|Hne]; [rewrite El, decide_True by done; lia|].
      rewrite decide_False by congruence. done.
    - injection Hx as <- <- <-. destruct Hh as (->&Hin&Hcr').
      assert (locked lid (server y) = 1%nat) as Hlk.
      { eapply claim_is_locked; [done..|]. simpl. rewrite decide_True by done.
        rewrite decide_True; [done|left]. }
      eexists o, None. split_and!; try done. intros l. rewrite locked_insert. simpl.
      rewrite (decide_True (P := UnlockLid lid ∈ UnlockLid lid :: rest)) by left.
      rewrite (decide_False (P := UnlockLid lid ∈ rest)) by done.
      destruct (decide (lid = l)) as [->|Hne]; [rewrite decide_True by done; lia|].
      rewrite decide_False by congruence. done. }
  eapply inv_update; eauto.
  - by intros ? ? ?%Hni.
  - intros j l _ Hj Hno. split; [done|]. simpl. rewrite lookup_insert_ne; [done|congruence].
  - by rewrite Hcr1.
  - intros j Hj. right. split; [|done]. intros ->. apply Hcr in Hj. congruence.
  - intros ? ? ?%Hns; [done|]. by destruct Hc as [->| ->].
  - apply count_kept; [|done]. by destruct Hc as [->| ->].
Qed.

Lemma exec_access_ok y i r c lid rest reg s rest' reg' :
  lock_inv y → c = Find lid ∨ c = Index lid →
  pool_threads y !! i = Some (LRun r (c :: rest) reg) →
  exec (server y) i c rest reg = Some (Done (s, rest', reg')) →
  lock_inv (set_thread (set_server y s) i (LRun r rest' reg')).
Proof.
  intros HI Hc E Hx. destruct (rest_facts y i r rest reg HI c E) as (Hl&Hni&Hns&Hh&Hcr).
  assert ((let! '(s, rest) := map_access (server y) i lid rest in Done (s, rest, reg)) =
    Done (s, rest', reg')) as Hm by (destruct Hc as [->| ->]; simpl in Hx; congruence).
  assert (in_crit (c :: rest) = in_crit rest) as Hce by (by destruct Hc as [->| ->]).
  rewrite Hce in Hcr. clear Hx. unfold map_access in Hm.
  destruct (locks_writer (server y)) eqn:Ew; [done|].
  destruct (_locks_m (server y) !! lid) eqn:El; injection Hm as <- <- <-.
  - eapply inv_update; eauto.
    + by intros ? ? ?%Hni.
    + by apply Hcr.
    + intros j Hj. destruct (decide (j = i)) as [->|]; [left; by rewrite Hcr|by right].
    + intros ? ? ?%Hns; [done|]. by destruct Hc as [->| ->].
    + intros l. apply claims_kept; by destruct Hc as [->| ->].
    + apply count_kept; by destruct Hc as [->| ->].
  - eapply inv_update; eauto.
    + by eapply legal_insert, (li_legal _ HI).
    + by intros l code [= -> ->].
    + intros j l _. by rewrite Ew.
    + by apply Hcr.
    + intros j Hj. destruct (decide (j = i)) as [->|]; [left; simpl; by rewrite Hcr|by right].
    + done.
    + intros l. rewrite (holds_other l r (Insert lid) rest reg reg) by done.
      apply claims_kept; by destruct Hc as [->| ->].
    + rewrite (counted_other r (Insert lid) rest reg reg) by done.
      apply count_kept; by destruct Hc as [->| ->].
Qed.

Lemma exec_insert_ok y i r lid rest reg s rest' reg' :
  lock_inv y → pool_threads y !! i = Some (LRun r (Insert lid :: rest) reg) →
  exec (server y) i (Insert lid) rest reg = Some (Done (s, rest', reg')) →
  lock_inv (set_thread (set_server y s) i (LRun r rest' reg')).
Proof.
  intros HI E Hx. destruct (rest_facts y i r rest reg HI _ E) as (Hl&Hni&Hns&Hh&Hcr).
  destruct (li_insert _ HI _ _ _ _ _ E) as [Hw Hno]. simpl in Hx, Hcr. injection Hx as <- <- <-.
  eapply inv_update; eauto.
  - by intros ? ? ?%Hni.
  - intros j l Hne Hj _. congruence.
  - by apply Hcr.
  - intros j Hj. destruct (decide (j = i)) as [->|]; [left; by rewrite Hcr|by right].
  - by intros ? ? ?%(Hns ltac:(done)).
  - intros l. rewrite (holds_other l r (Insert lid) rest reg reg) by done.
    change (locked l (set_writer ?s _)) with (locked l s). rewrite locked_insert.
    destruct (decide (l = lid)) as [->|]; [|done]. unfold locked. by rewrite Hno.
  - by apply count_kept.
Qed.

Lemma exec_n_ok y i r c rest reg s rest' reg' :
  lock_inv y → c = LoadN ∨ (∃ d, c = StoreN d) →
  pool_threads y !! i = Some (LRun r (c :: rest) reg) →
  exec (server y) i c rest reg = Some (Done (s, rest', reg')) →
  lock_inv (set_thread (set_server y s) i (LRun r rest' reg')).
Proof.
  intros HI Hc E Hx. destruct (rest_facts y i r rest reg HI c E) as (Hl&Hni&Hns&Hh&Hcr).
  destruct Hc as [->|[d ->]]; simpl in Hx, Hh, Hcr.
  - injection Hx as <- <- <-. eapply inv_update; eauto.
    + by intros ? ? ?%Hni.
    + by apply Hcr.
    + intros j Hj. destruct (decide (j = i)) as [->|]; [left; by rewrite Hcr|by right].
    + intros l. by apply claims_kept.
    + by apply count_kept.
  - unfold int_result in Hx. case_bool_decide; simpl in Hx; [|done]. injection Hx as <- <- <-.
    destruct Hh as [Hcr' Hd]. rewrite (li_reg _ HI _ _ _ _ _ E). eapply inv_update; eauto.
    + by intros ? ? ?%Hni.
    + by apply Hcr.
    + intros j Hj. destruct (decide (j = i)) as [->|]; [left; by rewrite Hcr|by right].
    + by intros ? ? ?%(Hns ltac:(done)).
    + right. by apply Hcr.
    + intros l. by apply claims_kept.
    + destruct Hd as (lid&[(->&->&Hin)|(->&->&Hin)]); cbn [counted nacquire set_nacquire].
      * rewrite (decide_True (P := StoreN 1 ∈ StoreN 1 :: rest)) by left.
        rewrite (decide_False (P := StoreN 1 ∈ rest)) by done. lia.
      * rewrite (decide_True (P := StoreN (-1) ∈ StoreN (-1) :: rest)) by left.
        rewrite (decide_False (P := StoreN (-1) ∈ rest)) by done. lia.
Qed.

Lemma exec_ok y i r c rest reg s rest' reg' :
  lock_inv y → pool_threads y !! i = Some (LRun r (c :: rest) reg) →
  exec (server y) i c rest reg = Some (Done (s, rest', reg')) →
  lock_inv (set_thread (set_server y s) i (LRun r rest' reg')).
Proof.
  intros HI E. destruct c.
  - eapply exec_mutex_ok; eauto.
  - eapply exec_mutex_ok; eauto.
  - eapply exec_access_ok; eauto.
  - eapply exec_access_ok; eauto.
  - by eapply exec_insert_ok.
  - eapply exec_lid_ok; eauto.
  - eapply exec_lid_ok; eauto.
  - eapply exec_n_ok; eauto.
  - eapply exec_n_ok; eauto.
Qed.

(** *** Every action of well-behaved clients and of the server keeps the invariant *)

Lemma remove_one_sum (f : Z → nat) lid l :
  lid ∈ l → (sum_list_with f (remove_one lid l) + f lid = sum_list_with f l)%nat.
Proof.
  induction l as [|x l IH]; [by intros ?%elem_of_nil|]. intros H. simpl.
  case_decide as Hx; [subst; lia|]. simpl.
  apply elem_of_cons in H as [->|H]; [done|]. specialize (IH H). lia.
Qed.

Lemma remove_one_length lid l : lid ∈ l → (S (length (remove_one lid l)) = length l)%nat.
Proof.
  induction l as [|x l IH]; [by intros ?%elem_of_nil|]. intros H. simpl.
  case_decide as Hx; [done|]. simpl.
  apply elem_of_cons in H as [->|H]; [done|]. by rewrite IH.
Qed.

(** requests and grants may be exchanged as long as the counts agree *)
Lemma inv_requests y q g :
  lock_inv y →
  (∀ lid, claims lid (set_granted (set_requests y q) g) = claims lid y) →
  count (set_granted (set_requests y q) g) = count y →
  lock_inv (set_granted (set_requests y q) g).
Proof.
  intros [] Hcl Hct. split; simpl; try done.
  - intros lid. by rewrite Hcl.
  - by rewrite Hct.
Qed.

(** a thread takes a request or returns from its handler *)
Lemma inv_switch y i t t' q g :
  lock_inv y → pool_threads y !! i = Some t → critical t = false → critical t' = false →
  (∀ r code reg, t' = LRun r code reg → legal r code ∧ (∀ lid c, code ≠ Insert lid :: c) ∧
    (∀ d c, code ≠ StoreN d :: c)) →
  (∀ lid, sum_list_with (is_lid lid) g + sum_list_with (asks_release lid) q + holds lid t' =
    sum_list_with (is_lid lid) (granted y) + sum_list_with (asks_release lid) (pool_queue y) +
    holds lid t)%nat →
  (length g + sum_list_with is_release q + counted t' =
   length (granted y) + sum_list_with is_release (pool_queue y) + counted t)%nat →
  lock_inv (set_thread (set_granted (set_requests y q) g) i t').
Proof.
  intros HI E Hc Hc' Hl Hcl Hct. pose proof (lookup_lt_Some _ _ _ E) as Hlt. split; simpl.
  - intros j r code reg [(<-&->&_)|(?&Ej)]%list_lookup_insert_Some.
    + by eapply Hl.
    + by eapply li_legal.
  - intros j r lid code reg [(<-&->&_)|(?&Ej)]%list_lookup_insert_Some.
    + destruct (Hl _ _ _ eq_refl) as (_&Hni&_). by destruct (Hni lid code).
    + by eapply li_insert.
  - intros j u [(<-&<-&_)|(?&Ej)]%list_lookup_insert_Some Hu; [congruence|].
    by eapply li_critical.
  - intros j Hj. destruct (li_m _ HI j Hj) as (u&Eu&Hu). exists u. split; [|done].
    rewrite list_lookup_insert_ne; [done|]. intros ->. congruence.
  - intros j r d code reg [(<-&->&_)|(?&Ej)]%list_lookup_insert_Some.
    + destruct (Hl _ _ _ eq_refl) as (_&_&Hns). by destruct (Hns d code).
    + by eapply li_reg.
  - intros lid. rewrite <-(li_claims _ HI lid). unfold claims. simpl.
    pose proof (sum_list_with_insert (holds lid) _ _ _ t' E). specialize (Hcl lid). lia.
  - rewrite (li_count _ HI). unfold count. simpl.
    pose proof (sum_list_with_insert counted _ _ _ t' E). lia.
Qed.

Lemma lact_ok y a y' :
  lock_inv y → wellbehaved a = true → lact y a = Some (Done y') → lock_inv y'.
Proof.
  intros HI Ha. destruct a as [r|lid|i|i]; [|done|..]; simpl.
  - assert (∀ r, is_release r = 0%nat → (∀ lid, asks_release lid r = 0%nat) →
      lock_inv (set_requests y (pool_queue y ++ [r]))) as Hq.
    { intros r' H1 H2. apply (inv_requests y (pool_queue y ++ [r']) (granted y)); [done|..].
      - intros lid. unfold claims. cbn [granted pool_queue pool_threads set_granted set_requests].
        rewrite sum_list_with_app. simpl. rewrite H2. lia.
      - unfold count. cbn [granted pool_queue pool_threads set_granted set_requests].
        rewrite sum_list_with_app. simpl. lia. }
    destruct r as [lid|lid|lid]; [intros [= <-]; by apply Hq| |intros [= <-]; by apply Hq].
    case_decide as Hin; [|done]. intros [= <-].
    apply (inv_requests y (pool_queue y ++ [RRelease lid]) (remove_one lid (granted y))); [done|..].
    + intros l. unfold claims. cbn [granted pool_queue pool_threads set_granted set_requests].
        rewrite sum_list_with_app. simpl.
      pose proof (remove_one_sum (is_lid l) _ _ Hin) as H. unfold is_lid at 2 in H. lia.
    + unfold count. cbn [granted pool_queue pool_threads set_granted set_requests].
        rewrite sum_list_with_app. simpl.
      pose proof (remove_one_length _ _ Hin). lia.
  - destruct (pool_threads y !! i) as [[]|] eqn:E; try done.
    destruct (pool_queue y) as [|r q] eqn:Eq; [done|]. intros [= <-].
    apply (inv_switch y i LIdle _ q (granted y)); try done.
    + by destruct r.
    + intros r' code reg [= <- <- <-]. split_and!; [apply legal_start|by destruct r..].
    + intros lid. rewrite Eq. destruct r; simpl; try done.
      * destruct (decide (lid0 = lid)); [|done]. rewrite decide_True by set_solver. done.
      * destruct (decide (lid0 = lid)); [|lia]. rewrite decide_True by set_solver. lia.
    + rewrite Eq. destruct r; simpl; rewrite ?decide_True by set_solver; lia.
  - destruct (pool_threads y !! i) as [[|r [|c rest] reg]|] eqn:E; try done.
    + intros [= <-]. assert (reply y r = set_granted (set_requests y (pool_queue y))
        (match r with RAcquire lid => granted y ++ [lid] | _ => granted y end)) as ->
        by (destruct y, r; done).
      apply (inv_switch y i _ _ _ _ HI E); try done.
      * intros lid. destruct r; simpl; rewrite ?sum_list_with_app; simpl;
          rewrite ?(decide_False (P := _ ∈ [])) by (by intros ?%elem_of_nil);
          unfold is_lid; try destruct (decide _); lia.
      * destruct r; simpl; rewrite ?length_app; simpl;
          rewrite ?(decide_False (P := _ ∈ [])) by (by intros ?%elem_of_nil); lia.
    + destruct (exec _ _ _ _ _) as [[[[s rest'] reg']|]|] eqn:Ex; try done.
      intros [= <-]. by eapply exec_ok.
Qed.

Lemma lacts_ok y l y' :
  lock_inv y → forallb wellbehaved l = true → lacts y l = Some (Done y') → lock_inv y'.
Proof.
  revert y. induction l as [|a l IH]; simpl; intros y HI Hl; [by intros [= <-]|].
  apply andb_prop in Hl as [Ha Hl].
  destruct (lact y a) as [[y1|]|] eqn:E; try done. apply IH; [|done]. by eapply lact_ok.
Qed.

(** ** The server comes to rest *)

Definition server_step (a : laction) : bool :=
  match a with Take _ | Step _ => true | _ => false end.

Definition instr_weight (c : instr) : nat := match c with Find _ | Index _ => 2 | _ => 1 end.
Definition lthread_weight (t : lthread) : nat :=
  match t with LIdle => 0 | LRun _ code _ => S (sum_list_with instr_weight code) end.
(** a bound of the steps that the server can make by itself *)
Definition lsys_weight (y : lsys) : nat :=
  13 * length (pool_queue y) + sum_list_with lthread_weight (pool_threads y).

Lemma exec_weight s i c rest reg s' rest' reg' :
  exec s i c rest reg = Some (Done (s', rest', reg')) →
  (sum_list_with instr_weight rest' < sum_list_with instr_weight (c :: rest))%nat.
Proof.
  destruct c; simpl; try (repeat case_match; intros [= <- <- <-]; lia); intros [= H]; inv_done;
    repeat case_match; simplify_eq; inv_done; simpl; try lia.
  all: unfold map_access in *; repeat case_match; simplify_eq; simpl; lia.
Qed.

Lemma server_step_weight y a y' :
  server_step a = true → lact y a = Some (Done y') → (lsys_weight y' < lsys_weight y)%nat.
Proof.
  destruct a as [| |i|i]; try done; intros _; simpl.
  - destruct (pool_threads y !! i) as [[]|] eqn:E; try done.
    destruct (pool_queue y) as [|r q] eqn:Eq; [done|]. intros [= <-]. unfold lsys_weight. simpl.
    pose proof (sum_list_with_insert lthread_weight _ _ _ (LRun r (handler_of r) 0) E) as H.
    rewrite Eq. destruct r; simpl in *; lia.
  - destruct (pool_threads y !! i) as [[|r [|c rest] reg]|] eqn:E; try done.
    + intros [= <-]. pose proof (sum_list_with_insert lthread_weight _ _ _ LIdle E) as H.
      unfold lsys_weight. destruct r; simpl in *; lia.
    + destruct (exec _ _ _ _ _) as [[[[s rest'] reg']|]|] eqn:Ex; try done.
      intros [= <-]. apply exec_weight in Ex.
      pose proof (sum_list_with_insert lthread_weight _ _ _ (LRun r rest' reg') E) as H.
      unfold lsys_weight. simpl in *. lia.
Qed.

Lemma server_steps_bounded y l y' :
  forallb server_step l = true → lacts y l = Some (Done y') →
  (length l + lsys_weight y' ≤ lsys_weight y)%nat.
Proof.
  revert y. induction l as [|a l IH]; simpl; intros y Hl; [intros [= <-]; lia|].
  apply andb_prop in Hl as [Ha Hl].
  destruct (lact y a) as [[y1|]|] eqn:E; try done. intros H%IH; [|done].
  apply server_step_weight in E; [lia|done].
Qed.

Definition server_at_rest (y : lsys) : Prop := ∀ a, server_step a = true → lact y a = None.

(** the lock that a thread is blocked on *)
Definition waits_for (t : lthread) : option Z :=
  match t with LRun _ (LockLid lid :: _) _ => Some lid | _ => None end.

Lemma exec_blocks s i c rest reg :
  exec s i c rest reg = None →
  c = LockM ∧ _m s ≠ None ∨ ∃ lid, c = LockLid lid ∧ locked lid s = 1%nat.
Proof.
  destruct c; simpl; try done.
  - case_bool_decide; [done|]. by left.
  - unfold locked. destruct (_locks_m s !! lid) as [[]|] eqn:E; try done. right. exists lid.
    by rewrite E.
  - by destruct (_locks_m s !! lid).
Qed.

(** the threads of a server at rest *)
Lemma rest_thread y i t :
  lock_inv y → server_at_rest y → pool_threads y !! i = Some t →
  t = LIdle ∧ pool_queue y = [] ∨
  ∃ lid, waits_for t = Some lid ∧ locked lid (server y) = 1%nat.
Proof.
  intros HI HR E.
  assert (∀ j u, pool_threads y !! j = Some u → u = LIdle ∨ ∃ r c rest reg,
    u = LRun r (c :: rest) reg ∧ exec (server y) j c rest reg = None) as Hall.
  { intros j [|r [|c rest] reg] Ej; [by left| |].
    - pose proof (HR (Step j) eq_refl) as H. simpl in H. by rewrite Ej in H.
    - pose proof (HR (Step j) eq_refl) as H. simpl in H. rewrite Ej in H. simpl in H.
      right. eexists _, _, _, _. split; [done|]. by destruct (exec _ _ _ _ _). }
  destruct (Hall i t E) as [->|(r&c&rest&reg&->&Hb)].
  - left. split; [done|]. pose proof (HR (Take i) eq_refl) as H. simpl in H.
    rewrite E in H. by destruct (pool_queue y).
  - right. destruct (exec_blocks _ _ _ _ _ Hb) as [[-> Hm]|(lid&->&Hlk)]; [|by exists lid].
    exfalso. destruct (_m (server y)) as [j|] eqn:Em; [|done].
    destruct (li_m _ HI j Em) as (u&Eu&Hu).
    destruct (Hall j u Eu) as [->|(r'&c'&rest'&reg'&->&Hb')]; [done|].
    destruct (exec_blocks _ _ _ _ _ Hb') as [[-> _]|(lid&->&_)]; [done|].
    destruct (legal_head _ _ _ (li_legal _ HI _ _ _ _ Eu)) as (_&_&Hcr). simpl in Hu. congruence.
Qed.

Lemma waiting_holds_nothing y i t lid l :
  lock_inv y → pool_threads y !! i = Some t → waits_for t = Some lid → holds l t = 0%nat.
Proof.
  intros HI E Hw. destruct t as [|r [|[]] reg]; try done.
  destruct (legal_head _ _ _ (li_legal _ HI _ _ _ _ E)) as (->&_&_). simpl.
  destruct (decide (lid0 = l)); [|done]. by rewrite decide_True by left.
Qed.

Lemma sum_is_lid_pos lid l : (0 < sum_list_with (is_lid lid) l)%nat ↔ lid ∈ l.
Proof.
  induction l as [|x l IH]; simpl; [split; [lia|by intros ?%elem_of_nil]|].
  rewrite elem_of_cons, <-IH. unfold is_lid at 1. destruct (decide (x = lid)) as [->|]; [|naive_solver lia].
  split; [by left|lia].
Qed.

Lemma sum_is_lid_nodup l : (∀ lid, sum_list_with (is_lid lid) l ≤ 1)%nat → NoDup l.
Proof.
  induction l as [|x l IH]; intros H; [constructor|]. constructor.
  - intros Hx%sum_is_lid_pos. specialize (H x). simpl in H. unfold is_lid at 1 in H.
    rewrite decide_True in H by done. lia.
  - apply IH. intros lid. specialize (H lid). simpl in H. lia.
Qed.

Lemma locked_le lid s : (locked lid s ≤ 1)%nat.
Proof. unfold locked. destruct (_locks_m s !! lid) as [[|]|]; lia. Qed.

(** ** The theorems *)

(** C6. Mutual exclusion, for clients that release only what they were granted, in every
    interleaving of any number of server threads: no lock is granted twice, a granted lock
    is locked in the server, and no thread of the server holds it for somebody else. *)
Theorem mutual_exclusion n l y :
  forallb wellbehaved l = true → lacts (lsys_new n) l = Some (Done y) →
  NoDup (granted y) ∧
  ∀ lid, lid ∈ granted y →
    (∃ i, _locks_m (server y) !! lid = Some (Some i)) ∧
    ∀ i t, pool_threads y !! i = Some t → holds lid t = 0%nat.
Proof.
  intros Hl H. apply lacts_ok in H as HI; [|apply lsys_new_inv|done].
  assert (∀ lid, claims lid y ≤ 1)%nat as Hc
    by (intros lid; rewrite (li_claims _ HI); apply locked_le).
  unfold claims in Hc. split.
  - apply sum_is_lid_nodup. intros lid. specialize (Hc lid). lia.
  - intros lid Hg%sum_is_lid_pos. specialize (Hc lid). split.
    + pose proof (li_claims _ HI lid) as Hk. unfold claims, locked in Hk.
      destruct (_locks_m _ !! lid) as [[i|]|]; [by exists i|lia..].
    + intros i t E. pose proof (sum_list_with_lookup (holds lid) _ _ _ E). lia.
Qed.

(** [nacquire], which [stat] returns, counts the locks that are held: the granted ones, and
    those whose release was asked for and not carried out or whose grant was not sent. *)
Theorem nacquire_exact n l y :
  forallb wellbehaved l = true → lacts (lsys_new n) l = Some (Done y) →
  nacquire (server y) = Z.of_nat (count y) ∧
  (pool_queue y = [] → Forall (λ t, t = LIdle) (pool_threads y) →
    nacquire (server y) = Zlength (granted y)).
Proof.
  intros Hl H. apply lacts_ok in H as HI; [|apply lsys_new_inv|done].
  split; [by apply li_count|]. intros Hq Ht. rewrite (li_count _ HI). unfold count.
  rewrite Hq. simpl. assert (sum_list_with counted (pool_threads y) = 0%nat) as ->; [|lia].
  apply sum_list_with_zero. eapply Forall_impl; [exact Ht|]. by intros t ->.
Qed.

(** C31. The server does all it can in boundedly many steps, and what it cannot do then has one
    of two causes: every thread of the pool is blocked in [acquire], or the queue is empty
    and each blocked [acquire] waits for a lock that a client was granted. *)
Theorem lock_server_comes_to_rest n l y :
  forallb wellbehaved l = true → lacts (lsys_new n) l = Some (Done y) →
  (∀ l' y', forallb server_step l' = true → lacts y l' = Some (Done y') →
    (length l' ≤ lsys_weight y)%nat) ∧
  (server_at_rest y →
    (∀ i t, pool_threads y !! i = Some t → is_Some (waits_for t)) ∨
    pool_queue y = [] ∧
    ∀ i t, pool_threads y !! i = Some t →
      t = LIdle ∨ ∃ lid, waits_for t = Some lid ∧ lid ∈ granted y).
Proof.
  intros Hl H. apply lacts_ok in H as HI; [|apply lsys_new_inv|done]. split.
  { intros l' y' Hl' H'. apply server_steps_bounded in H'; [lia|done]. }
  intros HR. pose proof (λ i t, rest_thread y i t HI HR) as Ht.
  destruct (decide (pool_queue y = [])) as [Hq|Hq].
  - right. split; [done|]. intros i t E. destruct (Ht i t E) as [[-> _]|(lid&Hw&Hk)]; [by left|].
    right. exists lid. split; [done|]. apply sum_is_lid_pos.
    rewrite <-(li_claims _ HI lid) in Hk. unfold claims in Hk. rewrite Hq in Hk. simpl in Hk.
    assert (sum_list_with (holds lid) (pool_threads y) = 0%nat); [|lia].
    apply sum_list_with_zero, Forall_lookup. intros j u Ej.
    destruct (Ht j u Ej) as [[-> _]|(lid'&Hw'&_)]; [done|]. by eapply waiting_holds_nothing.
  - left. intros i t E. destruct (Ht i t E) as [[_ ?]|(lid&Hw&_)]; [done|]. by rewrite Hw.
Qed.

(** a pool all of whose threads are blocked stays so, whatever clients send *)
Lemma blocked_forever y l y' :
  (∀ i t, pool_threads y !! i = Some t →
    ∃ lid, waits_for t = Some lid ∧ locked lid (server y) = 1%nat) →
  lacts y l = Some (Done y') →
  server y' = server y ∧ pool_threads y' = pool_threads y ∧
  ∃ q, pool_queue y' = pool_queue y ++ q.
Proof.
  revert y. induction l as [|a l IH]; simpl; intros y Hb.
  { intros [= <-]. split_and!; [done..|]. exists []. by rewrite app_nil_r. }
  destruct (lact y a) as [[y1|]|] eqn:E; try done. intros H.
  assert (server y1 = server y ∧ pool_threads y1 = pool_threads y ∧
    ∃ q, pool_queue y1 = pool_queue y ++ q) as (Es&Et&q&Eq).
  { destruct a as [r|lid|i|i]; simpl in E.
    - destruct r; repeat case_match; simplify_eq; simpl; eauto.
    - simplify_eq. simpl. eauto.
    - destruct (pool_threads y !! i) as [t|] eqn:Ei; [|done].
      destruct (Hb i t Ei) as (lid&Hw&_). by destruct t.
    - destruct (pool_threads y !! i) as [t|] eqn:Ei; [|done].
      destruct (Hb i t Ei) as (lid&Hw&Hk). destruct t as [|r [|[]] reg]; try done.
      injection Hw as ->. simpl in E. unfold locked in Hk.
      destruct (_locks_m (server y) !! lid) as [[|]|]; try done. }
  apply IH in H as (Hs&Ht&q'&Hq); [|by rewrite Es, Et].
  rewrite Hs, Ht, Hq, Es, Et, Eq. split_and!; [done..|]. exists (q ++ q'). by rewrite app_assoc.
Qed.

(** *** Runs of ten threads, the size of the pool of [rpcs] *)

Definition steps (i n : nat) : list laction := replicate n (Step i).

(** lock 7 is granted, by thread 0 *)
Definition grant_7 : list laction := Ask (RAcquire 7) :: Take 0 :: steps 0 11.

(** then ten clients ask for it, and its owner gives it back *)
Definition starve : list laction :=
  grant_7 ++ mjoin ((λ i, [Ask (RAcquire 7); Take i] ++ steps i 4) <$> seq 0 10) ++
  [Ask (RRelease 7)].

(** the state after a run that succeeds *)
Definition after (l : list laction) : lsys :=
  match lacts (lsys_new 10) l with Some (Done y) => y | _ => lsys_new 10 end.

(** Ten clients that wait for a lock exhaust the pool: the request that would release it
    stays in the queue for ever, although every client behaves well. *)
Theorem release_starves :
  ∃ l y, forallb wellbehaved l = true ∧ lacts (lsys_new 10) l = Some (Done y) ∧
    ∀ l' y', lacts y l' = Some (Done y') →
      ∃ q, pool_queue y' = RRelease 7 :: q ∧ pool_threads y' = pool_threads y ∧
           _locks_m (server y') !! 7 = Some (Some 0%nat).
Proof.
  exists starve, (after starve). split; [done|].
  split; [vm_compute; reflexivity|]. intros l' y' H.
  apply blocked_forever in H as (Hs&Ht&q&Hq).
  - exists q. rewrite Hs, Hq, Ht.
    assert (pool_queue (after starve) = [RRelease 7] ∧
      _locks_m (server (after starve)) !! 7 = Some (Some 0%nat)) as [-> ->]
      by (split; vm_compute; reflexivity).
    by split_and!.
  - assert (Forall (λ t, waits_for t = Some 7) (pool_threads (after starve))) as Hw
      by (by vm_compute; repeat constructor).
    rewrite Forall_lookup in Hw. intros i t E. exists 7. split; [by eapply Hw|by vm_compute].
Qed.

(** [acquire] looks [_locks_m] up outside the mutex [_m]: while another thread inserts a new
    lock, the lookup is a data race, with nothing but two first [acquire]s. *)
Theorem lookup_races_with_insertion :
  lacts (lsys_new 10)
    ([Ask (RAcquire 1); Ask (RAcquire 2); Take 0; Take 1] ++ steps 0 4 ++ steps 1 2 ++ steps 0 1) =
  Some (Fault DataRace).
Proof. by vm_compute. Qed.

(** [release] checks neither the client nor the lock: after the release of a client that does
    not hold it, a lock is granted twice; and the mutex of a lock is unlocked by whatever
    thread runs the handler, not by the thread that locked it. *)
Theorem release_is_not_checked :
  granted (after (grant_7 ++ [Rogue 7; Take 1] ++ steps 1 7 ++
                  [Ask (RAcquire 7); Take 2] ++ steps 2 10)) = [7; 7] ∧
  ∃ code reg,
    pool_threads (after (grant_7 ++ [Ask (RRelease 7); Take 1] ++ steps 1 1)) !! 1%nat =
      Some (LRun (RRelease 7) (UnlockLid 7 :: code) reg) ∧
    _locks_m (server (after (grant_7 ++ [Ask (RRelease 7); Take 1] ++ steps 1 1))) !! 7 =
      Some (Some 0%nat).
Proof. split; [by vm_compute|]. eexists _, _. split; by vm_compute. Qed.

(** *** Witnesses *)

Definition two_clients : list laction := grant_7 ++ [Ask (RAcquire 7); Take 1] ++ steps 1 4.
Definition two_clients_state : lsys :=
  match lacts (lsys_new 2) two_clients with Some (Done y) => y | _ => lsys_new 2 end.

Lemma mutual_exclusion_witness :
  granted two_clients_state = [7] ∧ NoDup (granted two_clients_state).
Proof.
  assert (H : lacts (lsys_new 2) two_clients = Some (Done two_clients_state))
    by (vm_compute; reflexivity).
  split; [vm_compute; reflexivity|].
  exact (proj1 (mutual_exclusion 2 two_clients two_clients_state eq_refl H)).
Defined.

Lemma nacquire_exact_witness :
  nacquire (server (after grant_7)) = 1 ∧
  nacquire (server (after grant_7)) = Zlength (granted (after grant_7)).
Proof.
  assert (H : lacts (lsys_new 10) grant_7 = Some (Done (after grant_7)))
    by (vm_compute; reflexivity).
  split; [vm_compute; reflexivity|].
  apply (proj2 (nacquire_exact 10 grant_7 (after grant_7) eq_refl H)).
  - vm_compute; reflexivity.
  - vm_compute. repeat constructor.
Defined.

Lemma lock_server_comes_to_rest_witness :
  server_at_rest two_clients_state ∧
  ((∀ i t, pool_threads two_clients_state !! i = Some t → is_Some (waits_for t)) ∨
   pool_queue two_clients_state = [] ∧
   ∀ i t, pool_threads two_clients_state !! i = Some t →
     t = LIdle ∨ ∃ lid, waits_for t = Some lid ∧ lid ∈ granted two_clients_state).
Proof.
  assert (H : lacts (lsys_new 2) two_clients = Some (Done two_clients_state))
    by (vm_compute; reflexivity).
  assert (HR : server_at_rest two_clients_state).
  { assert (HT : pool_threads two_clients_state =
      [LIdle; LRun (RAcquire 7) (drop 4 (acquire 7)) 0]) by (vm_compute; reflexivity).
    assert (HQ : pool_queue two_clients_state = []) by (vm_compute; reflexivity).
    assert (HL : _locks_m (server two_clients_state) !! 7 = Some (Some 0%nat))
      by (vm_compute; reflexivity).
    intros [r|lid|i|i] Hs; [discriminate Hs|discriminate Hs|clear Hs..];
      unfold lact; rewrite HT, ?HQ;
      destruct i as [|[|i]]; cbn [lookup list_lookup drop acquire mbind option_bind exec];
      [reflexivity..| |reflexivity]. rewrite HL. reflexivity. }
  split; [exact HR|].
  exact (proj2 (lock_server_comes_to_rest 2 two_clients two_clients_state eq_refl H) HR).
Defined.

(** ** The handlers without interruption, and the client behind the RPC stubs *)

(** nobody is in a critical section or inserts into the map *)
Definition quiet (s : lock_server) : Prop := _m s = None ∧ locks_writer s = None.

Lemma serve_acquire s lid :
  quiet s → INT_MIN ≤ nacquire s + 1 ≤ INT_MAX →
  serve s (RAcquire lid) =
  match _locks_m s !! lid with
  | Some (Some _) => Fault Deadlocked
  | _ => Done (set_nacquire (set_locks s (<[lid := Some 0%nat]> (_locks_m s))) (nacquire s + 1),
               nacquire s)
  end.
Proof.
  destruct s as [n m l w]. intros [Hm Hw] Hn. simpl in Hm, Hw, Hn. subst m w.
  unfold serve. cbn. unfold map_access. simpl. destruct (l !! lid) as [[o|]|] eqn:E; simpl.
  - unfold map_access. simpl. rewrite E. simpl. by rewrite E.
  - unfold map_access. simpl. rewrite E. simpl. rewrite E. simpl.
    rewrite int_result_Done by (unfold is_s32; lia). done.
  - unfold map_access. simpl. rewrite lookup_insert_eq. simpl. rewrite lookup_insert_eq. simpl.
    rewrite int_result_Done by (unfold is_s32; lia). simpl. by rewrite insert_insert_eq.
Qed.

Lemma serve_release s lid :
  quiet s → is_Some (_locks_m s !! lid) → INT_MIN ≤ nacquire s - 1 ≤ INT_MAX →
  serve s (RRelease lid) =
  Done (set_nacquire (set_locks s (<[lid := None]> (_locks_m s))) (nacquire s - 1), nacquire s).
Proof.
  destruct s as [n m l w]. intros [Hm Hw] [o E] Hn. simpl in Hm, Hw, Hn, E. subst m w.
  unfold serve. cbn. unfold map_access. simpl. rewrite E. simpl. rewrite E. simpl.
  rewrite int_result_Done by (unfold is_s32; lia). done.
Qed.

Lemma serve_stat s lid : serve s (RStat lid) = Done (s, nacquire s).
Proof. done. Qed.

Section rpc.
Context `{Heap} (hd : Z → req_header) (Hhd : ∀ proc, req_header_ok (hd proc)).
Context {rnd count : Z} (v : rpcs lock_server) (Hv : lock_smain rnd count = Done v).

Lemma lock_smain_procs :
  procs_ v !! rpc_acquire = Some (h1_fn lock_params c_int ls_acquire) ∧
  procs_ v !! rpc_release = Some (h1_fn lock_params c_int ls_release) ∧
  procs_ v !! rpc_stat = Some (h1_fn lock_params c_int ls_stat).
Proof.
  revert Hv. unfold lock_smain, rpcs_new.
  register.
  intros [= <-]. simpl.
  split_and!; find_proc.
Qed.

(** the client marshals its nonce as [unsigned], the server reads an [int] *)
Lemma client_params_agree {W} (call1 : transport W) w id lid r :
  0 ≤ id ≤ INT_MAX →
  call client_params c_int call1 w (id, (lid, tt)) r =
  call lock_params c_int call1 w (id, (lid, tt)) r.
Proof.
  intros Hid. unfold call, client_params, lock_params. cbn [put_args c_put c_uint c_int fst snd].
  unfold put_int. by rewrite u32_small by lia_ints.
Qed.

Lemma lock_call_spec proc (meth : method lock_server (Z * (Z * unit)) Z) id s lid s' r :
  procs_ v !! proc = Some (h1_fn lock_params c_int meth) →
  0 ≤ id ≤ INT_MAX → is_u64 lid → meth s (id, (lid, tt)) (s32 stale) = Done (s', r, OK) →
  is_s32 r → lock_client_call id (registered_call1 hd v) proc s lid = Done (s', r).
Proof.
  intros Hp Hid Hlid Hm Hr. unfold lock_client_call.
  rewrite (registered_call1_spec hd v _ _ Hp), client_params_agree by done.
  change (s32 stale) with (c_init c_int).
  rewrite (call_loopback lock_params _ c_int meth (hd proc) s (id, (lid, tt)) s' r OK);
    [done| |by vm_compute|apply Hhd|exact Hm|exact Hr|by vm_compute|by vm_compute].
  split; [|by split]. simpl. lia_ints.
Qed.

Context (id lid : Z) (Hid : 0 ≤ id ≤ INT_MAX) (Hlid : is_u64 lid).

(** A session through the RPC stubs: [acquire] of a free lock locks it, [stat] counts it,
    [release] frees it again.  What [acquire] and [release] return is not their status but
    the uninitialised result that the server marshals. *)
Theorem lock_session s :
  quiet s → _locks_m s !! lid = None ∨ _locks_m s !! lid = Some None →
  0 ≤ nacquire s < INT_MAX →
  let s1 := set_nacquire (set_locks s (<[lid := Some 0%nat]> (_locks_m s))) (nacquire s + 1) in
  let s2 := set_locks s (<[lid := None]> (_locks_m s)) in
  lock_client_acquire id (registered_call1 hd v) s lid = Done (s1, s32 stale) ∧
  lock_client_stat id (registered_call1 hd v) s1 lid = Done (s1, nacquire s + 1) ∧
  lock_client_release id (registered_call1 hd v) s1 lid = Done (s2, s32 stale).
Proof.
  intros Hq Hf Hn s1 s2. destruct lock_smain_procs as (Ha&Hr&Hs). split_and!.
  - apply lock_call_spec with (meth := ls_acquire); [done..| |apply s32_range].
    cbn [ls_acquire]. rewrite serve_acquire by (done || lia_ints). by destruct Hf as [->| ->].
  - apply lock_call_spec with (meth := ls_stat); [done..|]. simpl. lia_ints.
  - apply lock_call_spec with (meth := ls_release); [done..| |apply s32_range].
    cbn [ls_release]. rewrite serve_release; [|done|by eexists; apply lookup_insert_eq|
      simpl; lia_ints]. simpl. rewrite insert_insert_eq. unfold s2, set_nacquire, set_locks. simpl.
    do 4 f_equal. lia.
Qed.
End rpc.

#[local] Existing Instance zero_heap.

Definition lock_header (proc : Z) : req_header :=
  {| rq_xid := 1; rq_proc := s32 proc; rq_clt_nonce := 77; rq_srv_nonce := 9; rq_xid_rep := 0 |}.

Lemma lock_header_ok proc : req_header_ok (lock_header proc).
Proof. pose proof (s32_range proc). split; simpl; lia_ints. Qed.

Lemma lock_service : ∃ v, lock_smain 9 0 = Done v.
Proof.
  unfold lock_smain, rpcs_new.
  register.
  by eexists.
Qed.

Lemma lock_session_witness :
  ∃ v s1, lock_smain 9 0 = Done v ∧
    lock_client_acquire 77 (registered_call1 lock_header v) lock_server_new 5 = Done (s1, 0) ∧
    lock_client_stat 77 (registered_call1 lock_header v) s1 5 = Done (s1, 1).
Proof.
  destruct lock_service as [v Hv].
  destruct (lock_session lock_header lock_header_ok v Hv 77 5 ltac:(by vm_compute)
    ltac:(by vm_compute) lock_server_new ltac:(by split) ltac:(by left) ltac:(by vm_compute))
    as (Ha&Hs&_).
  exists v. eexists. split; [exact Hv|]. split; [exact Ha|exact Hs].
Defined.
