(* ===== verification/LockFaults.v ===== *)
(** * When the lock server is free of faults

    The handlers of [lock_server.cc] fault when they meet an insertion into
    [_locks_m], when the mutex of a lock does not exist, or when [nacquire]
    overflows.  None of this happens while every lock that is asked for is
    already in the map, nor while one request is served at a time. *)

From S2P Require Import Prelude Marshall Codec Stubs Connection Rpcs LockServer.

(** ** Facts *)

Definition lid_of (r : request) : option Z :=
  match r with RAcquire lid | RRelease lid => Some lid | RStat _ => None end.
Definition running (t : lthread) : nat := match t with LIdle => 0 | LRun _ _ _ => 1 end.
Definition known (y : lsys) (lid : Z) : Prop := is_Some (_locks_m (server y) !! lid).

Lemma legal_lid r lid code : legal r (Insert lid :: code) → lid_of r = Some lid.
Proof. intros H. by destruct r as [l|l|l]; legal_cases H; injection H as -> _. Qed.

(** the accesses of a handler that insert its lock into the map *)
Definition looks_up (r : request) (lid : Z) (a : instr) : Prop :=
  match r with
  | RAcquire l => l = lid ∧ (a = Find lid ∨ a = Index lid)
  | RRelease l => l = lid ∧ a = Index lid
  | RStat _ => False
  end.

Lemma looks_up_cases r lid a : looks_up r lid a → a = Find lid ∨ a = Index lid.
Proof. destruct r; simpl; naive_solver. Qed.

(** An insertion is under way exactly while its thread is at the [Insert]; a
    thread that is past its last look-up has found its lock or inserts it. *)
Record map_inv (y : lsys) : Prop := {
  mi_writer : ∀ j, locks_writer (server y) = Some j → ∃ r lid code reg,
    pool_threads y !! j = Some (LRun r (Insert lid :: code) reg);
  mi_past : ∀ i r code reg lid a, pool_threads y !! i = Some (LRun r code reg) →
    looks_up r lid a → (a ∉ code) → (∃ rest, code = Insert lid :: rest) ∨ known y lid;
  mi_crit : ∀ i r lid code reg, pool_threads y !! i = Some (LRun r (Insert lid :: code) reg) →
    in_crit code = true }.

Lemma lsys_new_map n : map_inv (lsys_new n).
Proof.
  split; [done|..]; simpl; intros i *; rewrite lookup_replicate; by intros [? _].
Qed.

Lemma exec_known s i c rest reg s' rest' reg' lid :
  exec s i c rest reg = Some (Done (s', rest', reg')) →
  is_Some (_locks_m s !! lid) → is_Some (_locks_m s' !! lid).
Proof.
  assert (∀ l o, is_Some (_locks_m s !! lid) → is_Some (<[l := o]> (_locks_m s) !! lid)) as Hins.
  { intros l o Hk. rewrite lookup_insert. case_decide; [by eexists|done]. }
  destruct c; simpl; intros E Hk.
  - case_bool_decide; [|done]. by simplify_eq/=.
  - by simplify_eq/=.
  - unfold map_access in E. destruct (locks_writer s); [done|].
    destruct (_locks_m s !! lid0); by simplify_eq/=.
  - unfold map_access in E. destruct (locks_writer s); [done|].
    destruct (_locks_m s !! lid0); by simplify_eq/=.
  - simplify_eq/=. by apply Hins.
  - destruct (_locks_m s !! lid0) as [[]|]; try done. simplify_eq/=. by apply Hins.
  - destruct (_locks_m s !! lid0) as [|]; try done. simplify_eq/=. by apply Hins.
  - by simplify_eq/=.
  - destruct (int_result _); [|done]. by simplify_eq/=.
Qed.

(** what an instruction of a handler does to the writer *)
Lemma exec_writer s i c rest reg s' rest' reg' :
  exec s i c rest reg = Some (Done (s', rest', reg')) →
  locks_writer s' = locks_writer s ∧ rest' = rest ∧ (∀ lid, c ≠ Insert lid) ∨
  (∃ lid, (c = Find lid ∨ c = Index lid) ∧ locks_writer s = None ∧
     locks_writer s' = Some i ∧ rest' = Insert lid :: rest) ∨
  (∃ lid, c = Insert lid ∧ locks_writer s' = None ∧ rest' = rest ∧
     is_Some (_locks_m s' !! lid)).
Proof.
  destruct c; simpl; intros E.
  - case_bool_decide; [|done]. simplify_eq/=. by left.
  - simplify_eq/=. by left.
  - unfold map_access in E. destruct (locks_writer s) eqn:Ew; [done|].
    destruct (_locks_m s !! lid); simplify_eq/=; [by left|right; left]. eauto 10.
  - unfold map_access in E. destruct (locks_writer s) eqn:Ew; [done|].
    destruct (_locks_m s !! lid); simplify_eq/=; [by left|right; left]. eauto 10.
  - simplify_eq/=. right. right. exists lid. split_and!; try done. simpl. by rewrite lookup_insert_eq.
  - destruct (_locks_m s !! lid) as [[]|]; try done. simplify_eq/=. by left.
  - destruct (_locks_m s !! lid) as [|]; try done. simplify_eq/=. by left.
  - simplify_eq/=. by left.
  - destruct (int_result _); [|done]. simplify_eq/=. by left.
Qed.

(** past the look-up: the map access found the lock *)
Lemma exec_access s i a lid rest reg s' rest' reg' :
  a = Find lid ∨ a = Index lid → exec s i a rest reg = Some (Done (s', rest', reg')) →
  is_Some (_locks_m s' !! lid) ∨ rest' = Insert lid :: rest.
Proof.
  intros [->| ->]; simpl; unfold map_access; (destruct (locks_writer s); [done|]);
    destruct (_locks_m s !! lid) as [o|] eqn:E; intros; simplify_eq/=; [left|by right|left|by right];
    by rewrite E.
Qed.

(** a handler that is at its second look-up, or past it, finds its lock *)
Lemma index_known y i r lid rest reg :
  lock_inv y → map_inv y → pool_threads y !! i = Some (LRun r (Index lid :: rest) reg) →
  known y lid.
Proof.
  intros HI HM E. pose proof (li_legal _ HI _ _ _ _ E) as Hl. destruct r as [l|l|l].
  - destruct (mi_past _ HM i _ _ _ l (Find l) E) as [[? ?]|Hk]; [by split; [|left]| |done|].
    + intros Hin. legal_cases Hl. injection Hl as _ ->. set_solver.
    + legal_cases Hl. by injection Hl as ->.
  - assert (l = lid) as ->.
    { legal_cases Hl. by injection Hl as ->. }
    assert (holds lid (LRun (RRelease lid) (Index lid :: rest) reg) = 1%nat) as Hh.
    { legal_cases Hl. injection Hl as ->. unfold holds. rewrite !decide_True; [done|set_solver|done]. }
    pose proof (claim_is_locked y i lid _ HI E Hh) as Hk. unfold locked in Hk. unfold known.
    by destruct (_locks_m (server y) !! lid).
  - legal_cases Hl.
Qed.

Lemma exec_map y i r c rest reg s rest' reg' :
  lock_inv y → map_inv y → pool_threads y !! i = Some (LRun r (c :: rest) reg) →
  exec (server y) i c rest reg = Some (Done (s, rest', reg')) →
  map_inv (set_thread (set_server y s) i (LRun r rest' reg')).
Proof.
  intros HI HM E Ex. assert (i < length (pool_threads y))%nat as Hi by (by eapply lookup_lt_Some).
  pose proof (exec_writer _ _ _ _ _ _ _ _ Ex) as Hw. split; simpl.
  - intros j Hj. destruct (decide (i = j)) as [<-|Hij].
    + rewrite list_lookup_insert_eq by done.
      destruct Hw as [(Hs&->&Hc)|[(lid&_&_&_&->)|(lid&_&?&_)]]; [|by eauto|congruence].
      rewrite Hs in Hj. destruct (mi_writer _ HM i Hj) as (r'&lid&code&reg''&E').
      rewrite E in E'. injection E' as _ -> _ _. by destruct (Hc lid).
    + rewrite list_lookup_insert_ne by done. apply (mi_writer _ HM).
      destruct Hw as [(Hs&_)|[(lid&_&_&?&_)|(lid&_&?&_)]]; congruence.
  - intros j r' code reg'' lid a Ej Hr Hcode. unfold known. simpl.
    destruct (decide (i = j)) as [<-|Hij].
    + rewrite list_lookup_insert_eq in Ej by done. injection Ej as <- <- <-.
      destruct (decide (a ∈ c :: rest)) as [Hin|Hn].
      * assert (c = a) as ->.
        { apply elem_of_cons in Hin as [?|Hin]; [done|].
          destruct Hw as [(_&->&_)|[(?&_&_&_&->)|(?&_&_&->&_)]]; [done| |done].
          destruct Hcode. by right. }
        destruct (exec_access _ _ _ lid _ _ _ _ _ (looks_up_cases _ _ _ Hr) Ex) as [?| ->]; eauto.
      * apply not_elem_of_cons in Hn as Hn'. destruct Hn' as [_ Hn'].
        destruct (mi_past _ HM i r _ reg lid a E Hr Hn) as [[rest'' [= -> ->]]|Hk].
        -- right. destruct Hw as [(_&_&Hc)|[(?&[?|?]&_)|(l&[= ->]&_&_&?)]]; try done.
           by destruct (Hc lid).
        -- right. by eapply exec_known.
    + rewrite list_lookup_insert_ne in Ej by done.
      destruct (mi_past _ HM j r' code reg'' lid a Ej Hr Hcode); [by left|].
      right. by eapply exec_known.
  - intros j r' lid code reg'' Ej. destruct (decide (i = j)) as [<-|Hij];
      [|rewrite list_lookup_insert_ne in Ej by done; by eapply (mi_crit _ HM)].
    rewrite list_lookup_insert_eq in Ej by done. injection Ej as <- -> <-.
    pose proof (li_legal _ HI _ _ _ _ E) as Hl.
    destruct Hw as [(_&<-&_)|[(l&Hc&_&_&[= <- <-])|(l&->&_&<-&_)]];
      [by apply legal_no_insert in Hl| |by apply legal_no_insert in Hl].
    destruct Hc as [->| ->]; [destruct r; legal_cases Hl; by injection Hl as -> ->|].
    destruct (index_known y i r lid code reg HI HM E) as [o Ho]. simpl in Ex.
    unfold map_access in Ex. destruct (locks_writer (server y)); [done|]. rewrite Ho in Ex.
    injection Ex as _ Hx _. apply (f_equal length) in Hx. simpl in Hx. lia.
Qed.

Lemma access_in_handler r lid a : looks_up r lid a → a ∈ handler_of r.
Proof. destruct r; simpl; intros H; destruct_and?; subst; unfold handler_of, acquire, release; set_solver. Qed.

Lemma lact_map y a y' :
  lock_inv y → map_inv y → lact y a = Some (Done y') → map_inv y'.
Proof.
  intros HI HM H. destruct a as [r|lid|i|i].
  - assert (∀ q g, map_inv (set_granted (set_requests y q) g)) as Hq by (intros; by destruct HM).
    simpl in H. destruct r; [|case_decide; [|done]|]; injection H as <-;
      [apply (Hq _ (granted y))|apply Hq|apply (Hq _ (granted y))].
  - injection H as <-. by destruct HM.
  - simpl in H. destruct (pool_threads y !! i) as [[]|] eqn:E; try done.
    destruct (pool_queue y) as [|r q]; [done|]. injection H as <-.
    assert (i < length (pool_threads y))%nat as Hi by (by eapply lookup_lt_Some).
    split; simpl.
    + intros j Hj. destruct (mi_writer _ HM j Hj) as (r'&lid&code&reg&Ej).
      rewrite list_lookup_insert_ne by congruence. eauto.
    + intros j r' code reg lid a Ej Hr Hc. destruct (decide (i = j)) as [<-|].
      * rewrite list_lookup_insert_eq in Ej by done. injection Ej as <- <- <-.
        destruct Hc. by eapply access_in_handler.
      * rewrite list_lookup_insert_ne in Ej by done. exact (mi_past _ HM j r' code reg lid a Ej Hr Hc).
    + intros j r' lid code reg [(_&[= <- Hh _]&_)|[_ Ej]]%list_lookup_insert_Some;
        [by destruct r|by eapply (mi_crit _ HM)].
  - simpl in H. destruct (pool_threads y !! i) as [[|r [|c rest] reg]|] eqn:E; try done.
    + injection H as <-. assert (i < length (pool_threads y))%nat as Hi by (by eapply lookup_lt_Some).
      assert (server (reply y r) = server y) as Es by (by destruct r).
      assert (pool_threads (reply y r) = pool_threads y) as Et by (by destruct r).
      split; simpl; rewrite ?Es, ?Et.
      * intros j Hj. destruct (mi_writer _ HM j Hj) as (r'&lid&code&reg'&Ej).
        rewrite list_lookup_insert_ne by congruence. eauto.
      * intros j r' code reg' lid a Ej. unfold known. simpl. rewrite Es.
        apply list_lookup_insert_Some in Ej as [(_&?&_)|[_ Ej]]; [done|]. intros Hr Hc.
        exact (mi_past _ HM j r' code reg' lid a Ej Hr Hc).
      * intros j r' lid code reg' [(_&?&_)|[_ Ej]]%list_lookup_insert_Some;
          [done|by eapply (mi_crit _ HM)].
    + destruct (exec _ _ _ _ _) as [[[[s rest'] reg']|]|] eqn:Ex; try done.
      injection H as <-. by eapply exec_map.
Qed.

(** no insertion is in the way of thread [i]: all locks are known, or there is no
    other thread, or all threads work for one lock *)
Definition undisturbed (y : lsys) (i : nat) : Prop :=
  (∀ j r code reg lid, pool_threads y !! j = Some (LRun r code reg) → lid_of r = Some lid →
     known y lid) ∨
  (∀ j t, pool_threads y !! j = Some t → running t = 1%nat → j = i) ∨
  ∃ l, ∀ j r code reg, pool_threads y !! j = Some (LRun r code reg) → lid_of r = Some l.

Lemma undisturbed_writer y i r c rest reg :
  lock_inv y → map_inv y → undisturbed y i →
  pool_threads y !! i = Some (LRun r (c :: rest) reg) →
  (∃ lid, c = Find lid ∨ c = Index lid) → locks_writer (server y) = None.
Proof.
  intros HI HM Hu E [l Hc]. destruct (locks_writer (server y)) as [j|] eqn:Ew; [|done]. exfalso.
  destruct (mi_writer _ HM j Ew) as (r'&lid&code&reg'&Ej).
  destruct (li_insert _ HI _ _ _ _ _ Ej) as [_ Hn].
  pose proof (legal_lid _ _ _ (li_legal _ HI _ _ _ _ Ej)) as Hr'.
  destruct Hu as [Hk|[Ho|[l0 Hone]]].
  - destruct (Hk j r' _ reg' lid Ej Hr') as [o ?]; congruence.
  - assert (j = i) as -> by (by eapply Ho). rewrite E in Ej. injection Ej as _ -> _ _.
    by destruct Hc.
  - assert (l0 = lid) as -> by (specialize (Hone j _ _ _ Ej); congruence).
    pose proof (Hone i _ _ _ E) as Hr. pose proof (li_legal _ HI _ _ _ _ E) as Hl.
    destruct Hc as [->| ->].
    + assert (_m (server y) = Some i) as Hi.
      { apply (li_critical _ HI _ _ E). destruct r; legal_cases Hl; by injection Hl as -> ->. }
      assert (_m (server y) = Some j) as Hj
        by (apply (li_critical _ HI _ _ Ej); simpl; by eapply mi_crit).
      assert (j = i) as -> by congruence. by rewrite E in Ej.
    + assert (l = lid) as ->.
      { destruct r; legal_cases Hl; injection Hl as -> ->; by injection Hr. }
      destruct (index_known y i r lid rest reg HI HM E); congruence.
Qed.

Lemma exec_no_fault y i r c rest reg f :
  lock_inv y → map_inv y → undisturbed y i → Z.of_nat (count y) < INT_MAX →
  pool_threads y !! i = Some (LRun r (c :: rest) reg) →
  exec (server y) i c rest reg ≠ Some (Fault f).
Proof.
  intros HI HM Hu Hcnt E. pose proof (li_legal _ HI _ _ _ _ E) as Hl.
  pose proof (legal_head _ _ _ Hl) as Hh.
  assert (∀ lid, c = LockLid lid ∨ c = UnlockLid lid → is_Some (_locks_m (server y) !! lid)) as Hlid.
  { intros lid Hc. assert (lid_of r = Some lid) as Hr.
    { destruct Hc as [->| ->]; destruct Hh as [-> _]; done. }
    destruct (mi_past _ HM i r _ reg lid (Index lid) E) as [[rest' [= -> _]]|?]; [| |by destruct Hc|done].
    { destruct r; simpl in Hr; try done; injection Hr as ->; simpl; tauto. }
    clear -Hl Hc. intros Hin.
    destruct r as [l|l|l]; legal_cases Hl; injection Hl as -> ->; destruct Hc as [[=]|[=]];
      rewrite !elem_of_cons, elem_of_nil in Hin; naive_solver. }
  pose proof (undisturbed_writer y i r c rest reg HI HM Hu E) as Hw.
  destruct c; simpl; try done.
  - by case_bool_decide.
  - unfold map_access. rewrite Hw by (exists lid; tauto). by destruct (_locks_m (server y) !! lid).
  - unfold map_access. rewrite Hw by (exists lid; tauto). by destruct (_locks_m (server y) !! lid).
  - destruct (Hlid lid) as [[] ->]; [by left|done..].
  - destruct (Hlid lid) as [? ->]; [by right|done].
  - pose proof (li_reg _ HI _ _ _ _ _ E) as ->. rewrite (li_count _ HI).
    destruct Hh as (_&l&Hd). rewrite int_result_Done; [done|].
    assert (INT_MAX = 2147483647 ∧ INT_MIN = -2147483648) as [HM1 HM2] by done.
    unfold is_s32. destruct Hd as [(_&->&_)|(_&->&_)]; lia.
Qed.

Lemma lact_no_fault y a f :
  lock_inv y → map_inv y → (∀ i, a = Step i → undisturbed y i) → Z.of_nat (count y) < INT_MAX →
  lact y a ≠ Some (Fault f).
Proof.
  intros HI HM Hu Hc. destruct a as [[]| |i|i]; simpl; try done.
  - by case_decide.
  - destruct (pool_threads y !! i) as [[]|]; try done. by destruct (pool_queue y).
  - destruct (pool_threads y !! i) as [[|r [|c rest] reg]|] eqn:E; try done.
    pose proof (λ f, exec_no_fault y i r c rest reg f HI HM (Hu i eq_refl) Hc E) as Hn.
    destruct (exec _ _ _ _ _) as [[[[s' rest'] reg']|f']|]; try done.
    intros [= ->]. by destruct (Hn f).
Qed.

Lemma lact_known y a y' lid :
  lact y a = Some (Done y') → known y lid → known y' lid.
Proof.
  unfold known. destruct a as [[]| |i|i]; simpl; intros H Hk.
  - by injection H as <-.
  - case_decide; [|done]. by injection H as <-.
  - by injection H as <-.
  - by injection H as <-.
  - destruct (pool_threads y !! i) as [[]|]; try done. destruct (pool_queue y); [done|].
    by injection H as <-.
  - destruct (pool_threads y !! i) as [[|r [|c rest] reg]|] eqn:E; try done.
    + injection H as <-. by destruct r.
    + destruct (exec _ _ _ _ _) as [[[[s rest'] reg']|]|] eqn:Ex; try done.
      injection H as <-. simpl. by eapply exec_known.
Qed.

Lemma lact_count y a y' :
  lock_inv y → wellbehaved a = true → lact y a = Some (Done y') → (count y' ≤ S (count y))%nat.
Proof.
  intros HI Ha H. pose proof (lact_ok y a y' HI Ha H) as HI'.
  enough (nacquire (server y') ≤ nacquire (server y) + 1) as Hn.
  { rewrite (li_count _ HI), (li_count _ HI') in Hn. lia. }
  destruct a as [[]| |i|i]; simpl in H; try (injection H as <-; simpl; lia).
  - case_decide; [|done]. injection H as <-. simpl. lia.
  - destruct (pool_threads y !! i) as [[]|]; try done. destruct (pool_queue y); [done|].
    injection H as <-. simpl. lia.
  - destruct (pool_threads y !! i) as [[|r [|c rest] reg]|] eqn:E; try done.
    + injection H as <-. destruct r; simpl; lia.
    + pose proof (legal_head _ _ _ (li_legal _ HI _ _ _ _ E)) as Hh.
      destruct (exec _ _ _ _ _) as [[[[s rest'] reg']|]|] eqn:Ex; try done.
      injection H as <-. simpl.
      destruct c; simpl in Ex; unfold map_access in Ex; repeat case_match; simplify_eq/=; try lia.
      unfold int_result in Ex. case_bool_decide; [|done]. simplify_eq/=.
      pose proof (li_reg _ HI _ _ _ _ _ E) as ->. destruct Hh as (_&l&[(_&->&_)|(_&->&_)]); lia.
Qed.

(** ** Theorems *)

(** every request, of the queue and of the threads, is for a lock in the map *)
Definition all_known (y : lsys) : Prop :=
  (∀ r lid, r ∈ pool_queue y → lid_of r = Some lid → known y lid) ∧
  (∀ i r code reg lid, pool_threads y !! i = Some (LRun r code reg) → lid_of r = Some lid →
     known y lid).

Definition asks_known (y : lsys) (a : laction) : Prop :=
  match a with Ask r => ∀ lid, lid_of r = Some lid → known y lid | _ => True end.

Lemma lact_all_known y a y' :
  all_known y → asks_known y a → wellbehaved a = true → lact y a = Some (Done y') → all_known y'.
Proof.
  intros [Hq Ht] Ha Hw H. pose proof (λ lid, lact_known y a y' lid H) as Hk. split.
  - intros r lid Hin Hr. apply Hk. destruct a as [r'| |i|i]; [|done|..]; simpl in H.
    + assert (pool_queue y' = pool_queue y ++ [r']) as E.
      { destruct r'; [|case_decide; [|done]|]; by injection H as <-. }
      rewrite E in Hin. apply elem_of_app in Hin as [?| ->%list_elem_of_singleton]; eauto.
    + destruct (pool_threads y !! i) as [[]|]; try done. destruct (pool_queue y) eqn:E; [done|].
      injection H as <-. simpl in Hin. apply (Hq r lid); [by right|done].
    + destruct (pool_threads y !! i) as [[|r' [|c rest] reg]|]; try done.
      * injection H as <-. apply (Hq r lid); [by destruct r'|done].
      * destruct (exec _ _ _ _ _) as [[[[s rest'] reg']|]|]; try done.
        injection H as <-. by apply (Hq r lid).
  - intros j r code reg lid Ej Hr. apply Hk. destruct a as [r'| |i|i]; [|done|..]; simpl in H.
    + assert (pool_threads y' = pool_threads y) as E.
      { destruct r'; [|case_decide; [|done]|]; by injection H as <-. }
      rewrite E in Ej. by apply (Ht j r code reg).
    + destruct (pool_threads y !! i) as [[]|] eqn:E; try done.
      destruct (pool_queue y) as [|r' q] eqn:Eq; [done|]. injection H as <-. simpl in Ej.
      apply list_lookup_insert_Some in Ej as [(_&[= <- <- <-]&_)|[_ Ej]];
        [apply (Hq r'); [by left|done]|by apply (Ht j r code reg)].
    + destruct (pool_threads y !! i) as [[|r' [|c rest] reg'']|] eqn:E; try done.
      * injection H as <-. assert (pool_threads (reply y r') = pool_threads y) as Er by (by destruct r').
        simpl in Ej. rewrite Er in Ej. apply list_lookup_insert_Some in Ej as [(_&?&_)|[_ Ej]];
          [done|by apply (Ht j r code reg)].
      * destruct (exec _ _ _ _ _) as [[[[s rest'] reg']|]|]; try done. injection H as <-. simpl in Ej.
        apply list_lookup_insert_Some in Ej as [(_&[= <- <- <-]&_)|[_ Ej]];
          [by apply (Ht i r' (c :: rest) reg'')|by apply (Ht j r code reg)].
Qed.

Lemma lacts_map y l y' :
  lock_inv y → map_inv y → forallb wellbehaved l = true → lacts y l = Some (Done y') → map_inv y'.
Proof.
  revert y. induction l as [|a l IH]; simpl; intros y HI HM Hl H; [by injection H as <-|].
  apply andb_prop in Hl as [Ha Hl]. destruct (lact y a) as [[y1|]|] eqn:E; try done.
  apply (IH y1); [by eapply lact_ok|by eapply lact_map|done|done].
Qed.


(** ** Witnesses *)

Lemma after_grant_7_known : all_known (after grant_7).
Proof.
  assert (pool_queue (after grant_7) = []) as Eq by (vm_compute; reflexivity).
  assert (pool_threads (after grant_7) = replicate 10 LIdle) as Et by (vm_compute; reflexivity).
  split.
  - intros r lid Hr. rewrite Eq in Hr. by apply elem_of_nil in Hr.
  - intros i r code reg lid Hi. rewrite Et in Hi. by apply lookup_replicate in Hi as [? _].
Qed.

Lemma known_7 : known (after grant_7) 7.
Proof. exists (Some 0%nat). vm_compute. reflexivity. Qed.

Definition known_run : list laction :=
  [Ask (RAcquire 7); Ask (RRelease 7); Take 0; Take 1] ++ steps 1 3.

