(* ===== verification/LockTester.v ===== *)
(** * The lock tester: [lock_tester.cc] against the lock server

    Every thread of the tester runs a list of calls; a call is a request to the
    system of [LockServer.v], and the thread goes on when the reply to its own
    request comes back.  The system is the composition of the two programs, with
    the instructions of the server's threads as steps. *)

From S2P Require Import Prelude Marshall Codec Stubs Connection Rpcs LockServer LockFaults.

(** ** Definitions *)

Definition nt : nat := 10.
Definition lock_a : Z := 1.
Definition lock_b : Z := 2.

Inductive tinstr :=
  | TAcquire (lid : Z)     (**r [lc[i]->acquire(lid)] *)
  | TRelease (lid : Z)     (**r [lc[i]->release(lid)] *)
  | TGrant (lid : Z)       (**r [check_grant(lid)] *)
  | TChecked (lid : Z).    (**r [check_release(lid)] *)

Definition test1 : list tinstr :=
  [TAcquire lock_a; TGrant lock_a; TRelease lock_a; TChecked lock_a;
   TAcquire lock_a; TGrant lock_a; TRelease lock_a; TChecked lock_a;
   TAcquire lock_a; TGrant lock_a; TAcquire lock_b; TGrant lock_b;
   TRelease lock_b; TChecked lock_b; TRelease lock_a; TChecked lock_a].
Definition test2 : list tinstr :=
  [TAcquire lock_a; TGrant lock_a; TChecked lock_a; TRelease lock_a].
(** ten rounds; [test4] and [test5] differ from [test3] in the client objects
    that the threads share *)
Definition test3 : list tinstr := mjoin (replicate 10 test2).
Definition test4 : list tinstr := test3.
Definition test5 : list tinstr := test3.

(** what [main] runs, one set of threads after the other; [test = 0]: no argument *)
Definition tester_main (test : Z) : list (list (list tinstr)) :=
  (if decide (test = 0 ∨ test = 1) then [[test1]] else []) ++
  (if decide (test = 0 ∨ test = 2) then [replicate nt test2] else []) ++
  (if decide (test = 0 ∨ test = 3) then [replicate nt test3] else []) ++
  (if decide (test = 0 ∨ test = 4) then [replicate 2 test4] else []) ++
  (if decide (test = 0 ∨ test = 5) then [replicate nt test5] else []).

(** *** [ct[256]]; [None]: the process exits with status 1 *)

Definition ct_get (ct : list Z) (x : Z) : Z := default 0 (ct !! Z.to_nat x).
Definition ct_set (ct : list Z) (x n : Z) : list Z := <[Z.to_nat x := n]> ct.

Definition check_grant (ct : list Z) (lid : Z) : option (list Z) :=
  let x := Z.land lid 0xff in
  if decide (ct_get ct x ≠ 0) then None else Some (ct_set ct x (ct_get ct x + 1)).
Definition check_release (ct : list Z) (lid : Z) : option (list Z) :=
  let x := Z.land lid 0xff in
  if decide (ct_get ct x ≠ 1) then None else Some (ct_set ct x (ct_get ct x - 1)).

(** *** The system *)

(** a thread: what is left of its code, and whether the call at its head was sent *)
Record tthread := TThread { tt_code : list tinstr; tt_waiting : bool }.

Record tsys := TSys {
  tlock : lsys;
  tthreads : list tthread;
  tphases : list (list (list tinstr));   (**r what [main] has yet to start *)
  tct : list Z;
  tqueue : list nat;                     (**r who sent the requests in the server's queue *)
  tserving : list (option nat);          (**r for whom each thread of the server works *)
  tfailed : option Z }.                  (**r the tester has exited over this lock *)

Definition tester_new (n : nat) (phases : list (list (list tinstr))) : tsys :=
  {| tlock := lsys_new n; tthreads := []; tphases := phases; tct := replicate 256 0;
     tqueue := []; tserving := replicate n None; tfailed := None |}.

Definition with_lock (y : tsys) s q v : tsys :=
  {| tlock := s; tthreads := tthreads y; tphases := tphases y; tct := tct y;
     tqueue := q; tserving := v; tfailed := tfailed y |}.
Definition with_threads (y : tsys) l : tsys :=
  {| tlock := tlock y; tthreads := l; tphases := tphases y; tct := tct y;
     tqueue := tqueue y; tserving := tserving y; tfailed := tfailed y |}.
Definition with_ct (y : tsys) c : tsys :=
  {| tlock := tlock y; tthreads := tthreads y; tphases := tphases y; tct := c;
     tqueue := tqueue y; tserving := tserving y; tfailed := tfailed y |}.
Definition with_phases (y : tsys) ps l : tsys :=
  {| tlock := tlock y; tthreads := l; tphases := ps; tct := tct y;
     tqueue := tqueue y; tserving := tserving y; tfailed := tfailed y |}.
Definition with_failed (y : tsys) lid : tsys :=
  {| tlock := tlock y; tthreads := tthreads y; tphases := tphases y; tct := tct y;
     tqueue := tqueue y; tserving := tserving y; tfailed := Some lid |}.

Definition set_tthread (y : tsys) (k : nat) t : tsys := with_threads y (<[k := t]> (tthreads y)).

(** thread [k] sends its request, and will go on with [c :: code] *)
Definition send_request (y : tsys) (k : nat) (a : laction) (c : tinstr) (code : list tinstr) :
    option (outcome tsys) :=
  o ← lact (tlock y) a;
  Some (let! s := o in
        Done (set_tthread (with_lock y s (tqueue y ++ [k]) (tserving y)) k
                {| tt_code := c :: code; tt_waiting := true |})).

(** thread [k] after a check *)
Definition checked (y : tsys) (k : nat) (lid : Z) (o : option (list Z)) (code : list tinstr) : tsys :=
  match o with
  | Some c => set_tthread (with_ct y c) k {| tt_code := code; tt_waiting := false |}
  | None => with_failed y lid
  end.

(** the reply reaches thread [k] *)
Definition answered (y : tsys) (k : nat) : tsys :=
  match tthreads y !! k with
  | Some t => set_tthread y k {| tt_code := tail (tt_code t); tt_waiting := false |}
  | None => y
  end.

Inductive taction :=
  | TRun (k : nat)          (**r thread [k] of the tester *)
  | TNext                   (**r [main] has joined all threads and starts the next ones *)
  | TServe (i : nat)        (**r thread [i] of the server takes a request *)
  | TStep (i : nat).        (**r thread [i] of the server executes an instruction *)

Definition tact (y : tsys) (a : taction) : option (outcome tsys) :=
  match tfailed y with
  | Some _ => None
  | None =>
  match a with
  | TRun k =>
      match tthreads y !! k with
      | Some {| tt_code := c :: code; tt_waiting := false |} =>
          match c with
          | TAcquire lid => send_request y k (Ask (RAcquire lid)) c code
          | TRelease lid =>
              send_request y k (if decide (lid ∈ granted (tlock y)) then Ask (RRelease lid)
                                else Rogue lid) c code
          | TGrant lid => Some (Done (checked y k lid (check_grant (tct y) lid) code))
          | TChecked lid => Some (Done (checked y k lid (check_release (tct y) lid) code))
          end
      | _ => None
      end
  | TNext =>
      match tphases y with
      | p :: ps =>
          if decide (Forall (λ t, tt_code t = []) (tthreads y)) then
            Some (Done (with_phases y ps ((λ code, TThread code false) <$> p)))
          else None
      | [] => None
      end
  | TServe i =>
      match tqueue y with
      | k :: q =>
          o ← lact (tlock y) (Take i);
          Some (let! s := o in Done (with_lock y s q (<[i := Some k]> (tserving y))))
      | [] => None
      end
  | TStep i =>
      o ← lact (tlock y) (Step i);
      Some (let! s := o in
            match pool_threads (tlock y) !! i, tserving y !! i with
            | Some (LRun _ [] _), Some (Some k) =>
                Done (answered (with_lock y s (tqueue y) (<[i := None]> (tserving y))) k)
            | _, _ => Done (with_lock y s (tqueue y) (tserving y))
            end)
  end
  end.

Fixpoint tacts (y : tsys) (l : list taction) : option (outcome tsys) :=
  match l with
  | [] => Some (Done y)
  | a :: l => match tact y a with Some (Done y) => tacts y l | o => o end
  end.

(** all threads of all tests have returned *)
Definition passed (y : tsys) : Prop :=
  tfailed y = None ∧ tphases y = [] ∧ Forall (λ t, tt_code t = []) (tthreads y).

(** ** What the code of a thread says about its locks and counters *)

(** does a thread with this code ahead of it hold [lid]? *)
Fixpoint hl (lid : Z) (code : list tinstr) : nat :=
  match code with
  | [] => 0
  | TAcquire l :: code => if decide (l = lid) then 0 else hl lid code
  | TRelease l :: code => if decide (l = lid) then 1 else hl lid code
  | _ :: code => hl lid code
  end.
(** has it counted [lid]? *)
Fixpoint cl (lid : Z) (code : list tinstr) : nat :=
  match code with
  | [] => 0
  | TGrant l :: code => if decide (l = lid) then 0 else cl lid code
  | TChecked l :: code => if decide (l = lid) then 1 else cl lid code
  | _ :: code => cl lid code
  end.

Definition lock_of (c : tinstr) : option Z :=
  match c with TAcquire lid | TRelease lid => Some lid | _ => None end.
Definition check_of (c : tinstr) : option Z :=
  match c with TGrant lid | TChecked lid => Some lid | _ => None end.
Definition lids (code : list tinstr) : list Z := omap lock_of code.

(** the lock of an instruction fits in a byte; calls alternate, checks alternate;
    and, unless the thread is alone, it counts a lock only while it holds it and
    holds nothing when it asks for a lock *)
Definition wf_head (single : bool) (c : tinstr) (rest : list tinstr) : bool :=
  match c with
  | TAcquire l => bool_decide (0 ≤ l < 256) && (hl l rest =? 1)%nat &&
      (single || ((cl l rest =? 0)%nat && forallb (λ l', bool_decide (l' = l) || (hl l' rest =? 0)%nat) (lids rest)))
  | TRelease l => bool_decide (0 ≤ l < 256) && (hl l rest =? 0)%nat
  | TGrant l => bool_decide (0 ≤ l < 256) && (cl l rest =? 1)%nat && (single || (hl l rest =? 1)%nat)
  | TChecked l => bool_decide (0 ≤ l < 256) && (cl l rest =? 0)%nat && (single || (hl l rest =? 1)%nat)
  end.
Fixpoint wf (single : bool) (code : list tinstr) : bool :=
  match code with [] => true | c :: rest => wf_head single c rest && wf single rest end.

(** a thread begins without locks *)
Definition starts (code : list tinstr) : bool :=
  forallb (λ l, hl l code =? 0)%nat (lids code) &&
  forallb (λ l, cl l code =? 0)%nat (omap check_of code).

Definition alone {A} (p : list A) : bool := (length p <=? 1)%nat.
Definition wf_phase (n : nat) (p : list (list tinstr)) : bool :=
  (length p <=? n)%nat && forallb (λ code, wf (alone p) code && starts code) p.
(** all of [l] are the same lock *)
Definition one_lock (l : list Z) : bool :=
  match l with [] => true | x :: l => forallb (λ z, bool_decide (z = x)) l end.
(** threads that run together use one lock only, or the locks of earlier phases *)
Fixpoint fresh_ok (seen : list Z) (ps : list (list (list tinstr))) : bool :=
  match ps with
  | [] => true
  | p :: ps => (alone p || one_lock (mjoin (lids <$> p)) ||
                forallb (λ l, bool_decide (l ∈ seen)) (mjoin (lids <$> p))) &&
               fresh_ok (mjoin (lids <$> p) ++ seen) ps
  end.

Lemma hl_le lid code : (hl lid code ≤ 1)%nat.
Proof. induction code as [|[] code IH]; simpl; repeat case_decide; lia. Qed.
Lemma cl_le lid code : (cl lid code ≤ 1)%nat.
Proof. induction code as [|[] code IH]; simpl; repeat case_decide; lia. Qed.

Lemma hl_lids lid code : hl lid code = 1%nat → lid ∈ lids code.
Proof.
  induction code as [|c code IH]; [done|]. unfold lids. destruct c as [l|l|l|l]; simpl.
  - case_decide; [done|]. intros. right. by apply IH.
  - case_decide; [intros; subst; by left|]. intros. right. by apply IH.
  - exact IH.
  - exact IH.
Qed.

Lemma cl_checks lid code : cl lid code = 1%nat → lid ∈ omap check_of code.
Proof.
  induction code as [|c code IH]; [done|]. destruct c as [l|l|l|l]; simpl.
  - exact IH.
  - exact IH.
  - case_decide; [done|]. intros. right. by apply IH.
  - case_decide; [intros; subst; by left|]. intros. right. by apply IH.
Qed.

Lemma starts_none code lid : starts code = true → hl lid code = 0%nat ∧ cl lid code = 0%nat.
Proof.
  unfold starts. rewrite andb_true_iff, !forallb_forall. intros [H1 H2]. split.
  - pose proof (hl_le lid code). destruct (hl lid code) as [|[|]] eqn:E; [done| |lia].
    pose proof (hl_lids _ _ E) as Hin. apply list_elem_of_In in Hin. specialize (H1 _ Hin).
    apply Nat.eqb_eq in H1. lia.
  - pose proof (cl_le lid code). destruct (cl lid code) as [|[|]] eqn:E; [done| |lia].
    pose proof (cl_checks _ _ E) as Hin. apply list_elem_of_In in Hin. specialize (H2 _ Hin).
    apply Nat.eqb_eq in H2. lia.
Qed.

Lemma wf_cl_hl lid code : wf false code = true → (cl lid code ≤ hl lid code)%nat.
Proof.
  induction code as [|c code IH]; [done|]. simpl. intros [Hc Hw]%andb_prop.
  specialize (IH Hw). destruct c as [l|l|l|l]; simpl in *;
    rewrite ?andb_true_iff, ?bool_decide_eq_true, ?Nat.eqb_eq in Hc;
    destruct_and?; destruct (decide (l = lid)) as [->|]; try lia.
Qed.

Lemma wf_acquire_free l rest lid :
  wf_head false (TAcquire l) rest = true → hl lid (TAcquire l :: rest) = 0%nat.
Proof.
  simpl. rewrite !andb_true_iff, forallb_forall. intros (_&_&Hf). case_decide as Hl; [done|].
  pose proof (hl_le lid rest). destruct (hl lid rest) as [|[|]] eqn:E; [done| |lia].
  pose proof (hl_lids _ _ E) as Hin. apply list_elem_of_In in Hin. specialize (Hf _ Hin).
  rewrite bool_decide_eq_false_2, E in Hf by congruence. done.
Qed.

(** ** The invariant *)

(** what the thread still has to call: a release counts from when it is sent *)
Definition effective (t : tthread) : list tinstr :=
  if tt_waiting t then match tt_code t with TRelease _ :: rest => rest | code => code end
  else tt_code t.
Definition held (lid : Z) (t : tthread) : nat := hl lid (effective t).
Definition checks (lid : Z) (t : tthread) : nat := cl lid (tt_code t).

(** thread [k] waits for the reply to the request [r] *)
Definition call_of (r : request) : option tinstr :=
  match r with
  | RAcquire lid => Some (TAcquire lid)
  | RRelease lid => Some (TRelease lid)
  | RStat _ => None
  end.
Definition asked (l : list tthread) (k : nat) (r : request) : Prop :=
  ∃ c code, call_of r = Some c ∧ l !! k = Some {| tt_code := c :: code; tt_waiting := true |}.

Definition callers (y : tsys) : list nat := tqueue y ++ omap id (tserving y).

(** every request has its sender, every waiting thread its request *)
Record routed (y : tsys) : Prop := {
  rt_len : length (tserving y) = length (pool_threads (tlock y));
  rt_queue : Forall2 (asked (tthreads y)) (tqueue y) (pool_queue (tlock y));
  rt_idle : ∀ i, pool_threads (tlock y) !! i = Some LIdle → tserving y !! i = Some None;
  rt_run : ∀ i r code reg, pool_threads (tlock y) !! i = Some (LRun r code reg) →
    ∃ k, tserving y !! i = Some (Some k) ∧ asked (tthreads y) k r;
  rt_nodup : NoDup (callers y);
  rt_waiting : ∀ k code, tthreads y !! k = Some {| tt_code := code; tt_waiting := true |} →
    k ∈ callers y }.

Record tinv (y : tsys) : Prop := {
  ti_lock : lock_inv (tlock y);
  ti_map : map_inv (tlock y);
  ti_routed : routed y;
  ti_wf : ∀ k t, tthreads y !! k = Some t → wf (alone (tthreads y)) (tt_code t) = true;
  ti_held : ∀ lid, sum_list_with (held lid) (tthreads y) =
                   sum_list_with (is_lid lid) (granted (tlock y));
  ti_ct : length (tct y) = 256%nat ∧ ∀ x, 0 ≤ x < 256 →
    ct_get (tct y) x = Z.of_nat (sum_list_with (checks x) (tthreads y));
  ti_phases : Forall (λ p, wf_phase (length (pool_threads (tlock y))) p = true) (tphases y);
  ti_size : (length (tthreads y) ≤ length (pool_threads (tlock y)))%nat;
  ti_known : alone (tthreads y) = false →
    (∃ l, ∀ k t lid, tthreads y !! k = Some t → lid ∈ lids (tt_code t) → lid = l) ∨
    ∀ k t lid, tthreads y !! k = Some t → lid ∈ lids (tt_code t) → known (tlock y) lid;
  ti_seen : ∃ seen, fresh_ok seen (tphases y) = true ∧ ∀ lid, lid ∈ seen →
    known (tlock y) lid ∨ ∃ k t, tthreads y !! k = Some t ∧ lid ∈ lids (tt_code t);
  ti_passes : tfailed y = None }.

Lemma asked_same l l' k r : l' !! k = l !! k → asked l k r → asked l' k r.
Proof. intros E (c&code&?&Hk). exists c, code. by rewrite E. Qed.

Lemma caller_asked y k : routed y → k ∈ callers y → ∃ r, asked (tthreads y) k r.
Proof.
  intros HR [Hq|Hs]%elem_of_app.
  - apply list_elem_of_lookup in Hq as [i Hi].
    destruct (Forall2_lookup_l _ _ _ _ _ (rt_queue _ HR) Hi) as (r&_&?). by exists r.
  - apply list_elem_of_omap in Hs as (o&Ho&Hk). simpl in Hk. subst o.
    apply list_elem_of_lookup in Ho as [i Hi].
    assert (i < length (pool_threads (tlock y)))%nat as [t Ht]%lookup_lt_is_Some
      by (rewrite <-(rt_len _ HR); by eapply lookup_lt_Some).
    destruct t as [|r code reg].
    + rewrite (rt_idle _ HR i Ht) in Hi. done.
    + destruct (rt_run _ HR _ _ _ _ Ht) as (k'&E&?). rewrite Hi in E. injection E as ->.
      by exists r.
Qed.

Lemma awake_not_caller y k code :
  routed y → tthreads y !! k = Some {| tt_code := code; tt_waiting := false |} → k ∉ callers y.
Proof.
  intros HR E Hk. destruct (caller_asked y k HR Hk) as (r&c&code'&_&E'). congruence.
Qed.

(** the one element that counts *)
Lemma sum_list_with_only {A} (f : A → nat) (l : list A) k x :
  l !! k = Some x → (∀ j y, j ≠ k → l !! j = Some y → f y = 0%nat) → sum_list_with f l = f x.
Proof.
  revert k. induction l as [|z l IH]; intros k Hk Ho; [done|]. destruct k as [|k]; simpl in *.
  - injection Hk as ->. assert (sum_list_with f l = 0%nat) as ->; [|lia].
    apply sum_list_with_zero, Forall_lookup. intros j y Hj. by apply (Ho (S j)).
  - rewrite (IH k Hk), (Ho 0%nat z); [lia|done|done|].
    intros j y Hj. apply (Ho (S j)). congruence.
Qed.

Lemma alone_only {A} (l : list A) j k x y :
  alone l = true → l !! j = Some x → l !! k = Some y → j = k.
Proof.
  unfold alone. rewrite Nat.leb_le. intros H Hj%lookup_lt_Some Hk%lookup_lt_Some. lia.
Qed.

Lemma alone_insert {A} (l : list A) k x : alone (<[k := x]> l) = alone l.
Proof. unfold alone. by rewrite length_insert. Qed.

(** a thread that holds a lock is the only one *)
Lemma held_alone y k t lid j u :
  tinv y → tthreads y !! k = Some t → held lid t = 1%nat → j ≠ k → tthreads y !! j = Some u →
  held lid u = 0%nat.
Proof.
  intros HI Ek Hk Hj Ej.
  assert (sum_list_with (held lid) (tthreads y) ≤ 1)%nat as Hs.
  { rewrite (ti_held _ HI). pose proof (li_claims _ (ti_lock _ HI) lid) as Hc.
    unfold claims in Hc. pose proof (locked_le lid (server (tlock y))). lia. }
  pose proof (sum_list_with_insert (held lid) _ _ _ {| tt_code := []; tt_waiting := false |} Ek) as E.
  rewrite Hk in E. simpl in E.
  pose proof (sum_list_with_lookup (held lid) (<[k := {| tt_code := []; tt_waiting := false |}]> (tthreads y)) j u) as H.
  rewrite list_lookup_insert_ne in H by done. specialize (H Ej).
  change (held lid {| tt_code := []; tt_waiting := false |}) with 0%nat in E. lia.
Qed.

Lemma effective_cl lid t : (checks lid t ≤ cl lid (effective t))%nat.
Proof. unfold checks, effective. destruct t as [[|[] code] []]; simpl; lia. Qed.

Lemma effective_wf s t : wf s (tt_code t) = true → wf s (effective t) = true.
Proof.
  unfold effective. destruct t as [[|[] code] []]; simpl; try done. by intros [_ ?]%andb_prop.
Qed.

(** ... and the only one that has counted it *)
Lemma checks_alone y k t lid :
  tinv y → tthreads y !! k = Some t → (alone (tthreads y) = false → held lid t = 1%nat) →
  sum_list_with (checks lid) (tthreads y) = checks lid t.
Proof.
  intros HI Ek Hh. apply (sum_list_with_only _ _ k); [done|]. intros j u Hj Ej.
  destruct (alone (tthreads y)) eqn:Ea; [by destruct Hj; eapply alone_only|].
  pose proof (held_alone y k t lid j u HI Ek (Hh eq_refl) Hj Ej) as H0.
  pose proof (ti_wf _ HI j u Ej) as Hw. rewrite Ea in Hw.
  apply effective_wf in Hw. apply (wf_cl_hl lid) in Hw. pose proof (effective_cl lid u).
  unfold held in H0. lia.
Qed.

(** *** A thread of the tester moves *)

Lemma ask_effect s r s' :
  lact s (Ask r) = Some (Done s') →
  server s' = server s ∧ pool_threads s' = pool_threads s ∧ pool_queue s' = pool_queue s ++ [r].
Proof. simpl. destruct r; [|case_decide; [|done]|]; by intros [= <-]. Qed.

(** thread [k] was awake: nobody else is touched *)
Lemma routed_awake y k code t ct :
  routed y → tthreads y !! k = Some {| tt_code := code; tt_waiting := false |} →
  tt_waiting t = false → routed (set_tthread (with_ct y ct) k t).
Proof.
  intros HR Ek Ht. pose proof (awake_not_caller y k code HR Ek) as Hk.
  assert (∀ j r, asked (tthreads y) j r → asked (<[k := t]> (tthreads y)) j r) as Has.
  { intros j r (c&code'&Hc&Ej). exists c, code'. split; [done|].
    rewrite list_lookup_insert_ne; [done|]. intros ->. congruence. }
  destruct HR as [H1 H2 H3 H4 H5 H6]. split; simpl; try done.
  - eapply Forall2_impl; [exact H2|]. intros; by apply Has.
  - intros i r code' reg Hi. destruct (H4 i r code' reg Hi) as (j&?&?). exists j. auto.
  - intros j code' [(_&Hx&_)|[_ Hj]]%list_lookup_insert_Some; [subst; done|by eapply H6].
Qed.

Lemma routed_send y k c code r s :
  routed y → tthreads y !! k = Some {| tt_code := c :: code; tt_waiting := false |} →
  call_of r = Some c → lact (tlock y) (Ask r) = Some (Done s) →
  routed (set_tthread (with_lock y s (tqueue y ++ [k]) (tserving y)) k
            {| tt_code := c :: code; tt_waiting := true |}).
Proof.
  intros HR Ek Hc Ha. destruct (ask_effect _ _ _ Ha) as (_&Ep&Eq).
  pose proof (awake_not_caller y k _ HR Ek) as Hk.
  set (t := {| tt_code := c :: code; tt_waiting := true |}).
  assert (k < length (tthreads y))%nat as Hlt by (by eapply lookup_lt_Some).
  assert (∀ j r, asked (tthreads y) j r → asked (<[k := t]> (tthreads y)) j r) as Has.
  { intros j r' (c'&code'&Hc'&Ej). exists c', code'. split; [done|].
    rewrite list_lookup_insert_ne; [done|]. intros ->. congruence. }
  assert (callers (set_tthread (with_lock y s (tqueue y ++ [k]) (tserving y)) k t) ≡ₚ
    k :: callers y) as Hcal.
  { unfold callers. cbn [tqueue tserving set_tthread with_threads with_lock].
    rewrite <-app_assoc. symmetry. apply Permutation_middle. }
  destruct HR as [H1 H2 H3 H4 H5 H6].
  split; cbn [tlock tserving tqueue tthreads set_tthread with_threads with_lock]; rewrite ?Ep, ?Eq;
    try done.
  - apply Forall2_app; [eapply Forall2_impl; [exact H2|]; intros; by apply Has|].
    constructor; [|constructor]. exists c, code. split; [done|]. by rewrite list_lookup_insert_eq.
  - intros i r' code' reg Hi. destruct (H4 i r' code' reg Hi) as (j&?&?). exists j. auto.
  - rewrite Hcal. by apply NoDup_cons.
  - intros j code' Hj. rewrite Hcal, elem_of_cons.
    apply list_lookup_insert_Some in Hj as [(<-&_)|[_ Hj]]; [by left|right; by eapply H6].
Qed.

Lemma lids_cons c code lid : lid ∈ lids code → lid ∈ lids (c :: code).
Proof. unfold lids. intros H. simpl. destruct (lock_of c); [by right|done]. Qed.

(** thread [k] gets a part of its code, with the same locks and one count changed *)
Lemma tinv_thread y k t t' s q v ct :
  tinv y → tthreads y !! k = Some t →
  lock_inv s → map_inv s → (∀ lid, known (tlock y) lid → known s lid) →
  length (pool_threads s) = length (pool_threads (tlock y)) →
  routed (set_tthread (with_ct (with_lock y s q v) ct) k t') →
  wf (alone (tthreads y)) (tt_code t') = true →
  (∀ lid, sum_list_with (is_lid lid) (granted (tlock y)) + held lid t' =
          sum_list_with (is_lid lid) (granted s) + held lid t)%nat →
  length ct = 256%nat →
  (∀ x, 0 ≤ x < 256 → ct_get ct x + Z.of_nat (checks x t) =
                      ct_get (tct y) x + Z.of_nat (checks x t')) →
  (∀ lid, lid ∈ lids (tt_code t') → lid ∈ lids (tt_code t)) →
  (∀ lid, lid ∈ lids (tt_code t) → (lid ∈ lids (tt_code t')) ∨ known s lid) →
  tinv (set_tthread (with_ct (with_lock y s q v) ct) k t').
Proof.
  intros HI Ek HL HM Hk Hn HR Hw Hh Hct Hc Hsub Hsup.
  assert (k < length (tthreads y))%nat as Hlt by (by eapply lookup_lt_Some).
  destruct HI as [_ _ _ Iw Ih [_ Ict] Ip Iz Ik (seen&Is&Ise) If].
  split; cbn [tlock tserving tqueue tthreads tphases tct tfailed set_tthread with_threads with_lock with_ct];
    rewrite ?alone_insert, ?length_insert, ?Hn; try done.
  - intros j u [(<-&<-&_)|[_ Hj]]%list_lookup_insert_Some; [done|by eapply Iw].
  - intros lid. pose proof (sum_list_with_insert (held lid) _ _ _ t' Ek) as E.
    rewrite (Ih lid) in E. specialize (Hh lid). lia.
  - split; [done|]. intros x Hx. specialize (Hc x Hx). rewrite (Ict x Hx) in Hc.
    pose proof (sum_list_with_insert (checks x) _ _ _ t' Ek). lia.
  - intros Ha. destruct (Ik Ha) as [[l Hl]|Hl]; [left; exists l|right];
      intros j u lid [(<-&<-&_)|[_ Hj]]%list_lookup_insert_Some Hin; try apply Hk; eauto.
  - exists seen. split; [done|]. intros lid Hin. destruct (Ise lid Hin) as [?|(j&u&Ej&Hu)]; [by left; apply Hk|].
    destruct (decide (j = k)) as [->|Hjk].
    + rewrite Ek in Ej. injection Ej as <-. destruct (Hsup lid Hu); [right|by left].
      exists k, t'. by rewrite list_lookup_insert_eq.
    + right. exists j, u. by rewrite list_lookup_insert_ne.
Qed.

Lemma with_ct_self y s q v : with_ct (with_lock y s q v) (tct y) = with_lock y s q v.
Proof. done. Qed.
Lemma with_lock_self y : with_lock y (tlock y) (tqueue y) (tserving y) = y.
Proof. by destruct y. Qed.

Lemma tinv_send y k c code r s :
  tinv y → tthreads y !! k = Some {| tt_code := c :: code; tt_waiting := false |} →
  call_of r = Some c → lact (tlock y) (Ask r) = Some (Done s) →
  (∀ lid, sum_list_with (is_lid lid) (granted (tlock y)) +
      held lid {| tt_code := c :: code; tt_waiting := true |} =
    sum_list_with (is_lid lid) (granted s) +
      held lid {| tt_code := c :: code; tt_waiting := false |})%nat →
  tinv (set_tthread (with_lock y s (tqueue y ++ [k]) (tserving y)) k
          {| tt_code := c :: code; tt_waiting := true |}).
Proof.
  intros HI Ek Hc Ha Hh. destruct (ask_effect _ _ _ Ha) as (_&Ep&_). rewrite <-with_ct_self.
  eapply (tinv_thread y k _ _ s); try done.
  - by eapply lact_ok; [apply HI| |exact Ha].
  - by eapply lact_map; [apply HI|apply HI|exact Ha].
  - intros lid. by eapply lact_known.
  - by rewrite Ep.
  - rewrite with_ct_self. eapply routed_send; try done. apply HI.
  - apply (ti_wf _ HI _ _ Ek).
  - apply HI.
  - intros lid Hin. by left.
Qed.

Lemma land_byte lid : 0 ≤ lid < 256 → Z.land lid 0xff = lid.
Proof. intros H. change 0xff with (Z.ones 8). rewrite Z.land_ones by lia. apply Z.mod_small. lia. Qed.

Lemma ct_get_set ct x n z :
  length ct = 256%nat → 0 ≤ x < 256 → 0 ≤ z < 256 →
  ct_get (ct_set ct x n) z = if decide (x = z) then n else ct_get ct z.
Proof.
  intros Hl Hx Hz. unfold ct_get, ct_set. case_decide as E.
  - subst z. by rewrite list_lookup_insert_eq by lia.
  - by rewrite list_lookup_insert_ne by lia.
Qed.

(** what the next check of the thread says *)
Definition check_head (c : tinstr) (lid : Z) (n : Z) : Prop :=
  c = TGrant lid ∧ n = 1 ∨ c = TChecked lid ∧ n = 0.

Lemma tinv_check y k c lid n code :
  tinv y → tthreads y !! k = Some {| tt_code := c :: code; tt_waiting := false |} →
  check_head c lid n →
  ct_get (tct y) (Z.land lid 0xff) = 1 - n ∧
  tinv (set_tthread (with_ct y (ct_set (tct y) (Z.land lid 0xff) n)) k
          {| tt_code := code; tt_waiting := false |}).
Proof.
  intros HI Ek Hc. pose proof (ti_wf _ HI _ _ Ek) as Hw. cbn [tt_code wf] in Hw.
  apply andb_prop in Hw as [Hhd Hw].
  assert (0 ≤ lid < 256 ∧ Z.of_nat (cl lid (c :: code)) = 1 - n ∧ Z.of_nat (cl lid code) = n ∧
    (∀ l, hl l (c :: code) = hl l code) ∧ lids (c :: code) = lids code ∧
    (∀ x, x ≠ lid → cl x (c :: code) = cl x code) ∧
    (alone (tthreads y) = false → hl lid code = 1%nat)) as (Hb&Hc1&Hc2&Hh&Hli&Hco&Hal).
  { destruct Hc as [[-> ->]|[-> ->]]; simpl in Hhd;
      rewrite !andb_true_iff, bool_decide_eq_true, orb_true_iff, !Nat.eqb_eq in Hhd;
      destruct Hhd as [[Hb Hcl] Hs]; split_and!; try done; cbn [cl];
      rewrite ?decide_True by done; try lia; try (intros x Hx; by rewrite decide_False);
      intros Ha; rewrite Ha in Hs; by destruct Hs. }
  rewrite land_byte by done. destruct (ti_ct _ HI) as [Hlen Hct].
  assert (ct_get (tct y) lid = 1 - n) as Hg.
  { rewrite Hct by done. rewrite (checks_alone y k _ lid HI Ek); [exact Hc1|].
    intros Ha. unfold held, effective. cbn [tt_waiting tt_code]. rewrite Hh. auto. }
  split; [done|].
  replace (with_ct y (ct_set (tct y) lid n)) with
    (with_ct (with_lock y (tlock y) (tqueue y) (tserving y)) (ct_set (tct y) lid n)) by done.
  eapply (tinv_thread y k _ _ (tlock y)); try done; try apply HI.
  - eapply routed_awake; [rewrite with_lock_self; apply HI|done|done].
  - intros l. unfold held, effective. cbn [tt_waiting tt_code]. by rewrite Hh.
  - unfold ct_set. by rewrite length_insert.
  - intros x Hx. rewrite ct_get_set by done. unfold checks. cbn [tt_code].
    case_decide as E; [subst x; lia|]. by rewrite Hco by congruence.
  - intros l. cbn [tt_code]. by rewrite Hli.
  - intros l. cbn [tt_code]. rewrite Hli. by left.
Qed.

Lemma release_granted y k lid code :
  tinv y → tthreads y !! k = Some {| tt_code := TRelease lid :: code; tt_waiting := false |} →
  lid ∈ granted (tlock y).
Proof.
  intros HI Ek. apply sum_is_lid_pos. rewrite <-(ti_held _ HI).
  pose proof (sum_list_with_lookup (held lid) _ _ _ Ek) as H.
  unfold held at 1 in H. simpl in H. rewrite decide_True in H by done. lia.
Qed.

Lemma tinv_run y k y' :
  tinv y → tact y (TRun k) = Some (Done y') → tinv y'.
Proof.
  intros HI. unfold tact. rewrite (ti_passes _ HI).
  destruct (tthreads y !! k) as [[[|c code] []]|] eqn:Ek; try done.
  pose proof (ti_wf _ HI _ _ Ek) as Hw. cbn [tt_code wf] in Hw. apply andb_prop in Hw as [Hhd _].
  destruct c as [lid|lid|lid|lid].
  - unfold send_request. destruct (lact _ _) as [[s|]|] eqn:Ea; try done. cbn. intros [= <-].
    eapply (tinv_send y k _ _ (RAcquire lid)); try done. intros l. simpl in Ea. by injection Ea as <-.
  - unfold send_request. pose proof (release_granted y k lid code HI Ek) as Hin.
    rewrite (decide_True (P := lid ∈ granted (tlock y))) by done.
    destruct (lact _ _) as [[s|]|] eqn:Ea; try done. cbn. intros [= <-].
    eapply (tinv_send y k _ _ (RRelease lid)); try done. intros l. simpl in Ea. rewrite decide_True in Ea by done.
    injection Ea as <-. simpl. unfold held. simpl.
    pose proof (remove_one_sum (is_lid l) _ _ Hin) as H. unfold is_lid in H at 2.
    simpl in Hhd. rewrite andb_true_iff, Nat.eqb_eq in Hhd. destruct Hhd as [_ Hhd].
    destruct (decide (lid = l)) as [<-|]; cbn [effective tt_waiting tt_code]; lia.
  - destruct (tinv_check y k _ lid 1 code HI Ek) as [Hg HI']; [by left|].
    unfold check_grant. rewrite Hg. simpl. intros [= <-]. exact HI'.
  - destruct (tinv_check y k _ lid 0 code HI Ek) as [Hg HI']; [by right|].
    unfold check_release. rewrite Hg. simpl. intros [= <-]. exact HI'.
Qed.

(** *** A thread of the server moves *)

(** the server changed, no thread of the tester did *)
Lemma tinv_server y s q v :
  tinv y → lock_inv s → map_inv s → (∀ lid, known (tlock y) lid → known s lid) →
  length (pool_threads s) = length (pool_threads (tlock y)) → granted s = granted (tlock y) →
  routed (with_lock y s q v) → tinv (with_lock y s q v).
Proof.
  intros [_ _ _ Iw Ih Ict Ip Iz Ik (seen&Is&Ise) If] HL HM Hk Hn Hg HR.
  split; cbn [tlock tthreads tphases tct tfailed with_lock]; rewrite ?Hg, ?Hn; try done.
  - intros Ha. destruct (Ik Ha) as [?|Hl]; [by left|right].
    intros k t lid Ek Hin. apply Hk. by eapply Hl.
  - exists seen. split; [done|]. intros lid Hin. destruct (Ise lid Hin); [left; by apply Hk|by right].
Qed.

Lemma take_effect s i s' :
  lact s (Take i) = Some (Done s') → ∃ r q, pool_threads s !! i = Some LIdle ∧
    pool_queue s = r :: q ∧ pool_queue s' = q ∧ granted s' = granted s ∧
    pool_threads s' = <[i := LRun r (handler_of r) 0]> (pool_threads s).
Proof.
  simpl. destruct (pool_threads s !! i) as [[]|]; try done. destruct (pool_queue s) as [|r q]; [done|].
  intros [= <-]. by exists r, q.
Qed.

Lemma omap_id_insert {A} (l : list (option A)) i x :
  l !! i = Some None → omap id (<[i := Some x]> l) ≡ₚ x :: omap id l.
Proof.
  revert i. induction l as [|o l IH]; intros i Hi; [done|]. destruct i as [|i]; simpl in *.
  - by injection Hi as ->.
  - destruct o; simpl; rewrite (IH i Hi); [apply perm_swap|done].
Qed.

Lemma omap_id_delete {A} (l : list (option A)) i x :
  l !! i = Some (Some x) → omap id l ≡ₚ x :: omap id (<[i := None]> l).
Proof.
  revert i. induction l as [|o l IH]; intros i Hi; [done|]. destruct i as [|i]; simpl in *.
  - by injection Hi as ->.
  - destruct o; simpl; rewrite (IH i Hi) at 1; [apply perm_swap|done].
Qed.

Lemma tinv_serve y i y' :
  tinv y → tact y (TServe i) = Some (Done y') → tinv y'.
Proof.
  intros HI. unfold tact. rewrite (ti_passes _ HI).
  destruct (tqueue y) as [|k q] eqn:Eq; [done|].
  destruct (lact _ _) as [[s|]|] eqn:Ea; try done. cbn. intros [= <-].
  destruct (take_effect _ _ _ Ea) as (r&q'&Ei&Erq&Esq&Eg&Et).
  pose proof (ti_routed _ HI) as [H1 H2 H3 H4 H5 H6].
  pose proof (H3 i Ei) as Evi.
  assert (i < length (tserving y))%nat as Hlt by (by eapply lookup_lt_Some).
  rewrite Eq, Erq in H2. apply Forall2_cons in H2 as [Hk H2].
  assert (∀ v, callers (with_lock y s q v) = q ++ omap id v) as Hcal by done.
  assert (callers y ≡ₚ q ++ omap id (<[i := Some k]> (tserving y))) as Hp.
  { unfold callers. rewrite Eq, (omap_id_insert _ _ _ Evi). simpl. apply Permutation_middle. }
  apply tinv_server; try done.
  - by eapply lact_ok; [apply HI| |exact Ea].
  - by eapply lact_map; [apply HI|apply HI|exact Ea].
  - intros lid. by eapply lact_known.
  - by rewrite Et, length_insert.
  - split; cbn [tlock tserving tqueue tthreads with_lock]; rewrite ?Et, ?Esq, ?length_insert; try done.
    + intros j [(_&?&_)|[Hj Ej]]%list_lookup_insert_Some; [done|].
      rewrite list_lookup_insert_ne by done. auto.
    + intros j r' code reg [(<-&[= <- <- <-]&_)|[Hj Ej]]%list_lookup_insert_Some.
      * exists k. by rewrite list_lookup_insert_eq.
      * rewrite list_lookup_insert_ne by done. eauto.
    + rewrite Hcal, <-Hp. done.
    + intros j code Hj. rewrite Hcal, <-Hp. eauto.
Qed.

Lemma step_effect s i s' :
  lact s (Step i) = Some (Done s') →
  (∃ r reg, pool_threads s !! i = Some (LRun r [] reg) ∧ server s' = server s ∧
     pool_queue s' = pool_queue s ∧ pool_threads s' = <[i := LIdle]> (pool_threads s) ∧
     granted s' = match r with RAcquire lid => granted s ++ [lid] | _ => granted s end) ∨
  (∃ r c code reg code' reg', pool_threads s !! i = Some (LRun r (c :: code) reg) ∧
     pool_queue s' = pool_queue s ∧ granted s' = granted s ∧
     pool_threads s' = <[i := LRun r code' reg']> (pool_threads s)).
Proof.
  simpl. destruct (pool_threads s !! i) as [[|r [|c code] reg]|] eqn:E; try done.
  - intros [= <-]. left. exists r, reg. by destruct r.
  - destruct (exec _ _ _ _ _) as [[[[s1 code'] reg']|]|]; try done. intros [= <-].
    right. by exists r, c, code, reg, code', reg'.
Qed.

(** the reply of thread [i] of the server goes to thread [k] *)
Lemma routed_reply y i r reg k c code s :
  routed y → pool_threads (tlock y) !! i = Some (LRun r [] reg) →
  tserving y !! i = Some (Some k) →
  tthreads y !! k = Some {| tt_code := c :: code; tt_waiting := true |} →
  pool_threads s = <[i := LIdle]> (pool_threads (tlock y)) → pool_queue s = pool_queue (tlock y) →
  routed (set_tthread (with_lock y s (tqueue y) (<[i := None]> (tserving y))) k
            {| tt_code := code; tt_waiting := false |}).
Proof.
  intros [H1 H2 H3 H4 H5 H6] Ei Evi Ek Et Eq. set (t := {| tt_code := code; tt_waiting := false |}).
  assert (i < length (tserving y))%nat as Hlt by (by eapply lookup_lt_Some).
  assert (callers y ≡ₚ k :: (tqueue y ++ omap id (<[i := None]> (tserving y)))) as Hp.
  { unfold callers. rewrite (omap_id_delete _ _ _ Evi). symmetry. apply Permutation_middle. }
  rewrite Hp in H5. apply NoDup_cons in H5 as [Hk H5].
  assert (∀ j r', j ∈ tqueue y ++ omap id (<[i := None]> (tserving y)) →
    asked (tthreads y) j r' → asked (<[k := t]> (tthreads y)) j r') as Has.
  { intros j r' Hj. apply asked_same. apply list_lookup_insert_ne. intros ->. done. }
  split; cbn [tlock tserving tqueue tthreads with_lock set_tthread with_threads];
    rewrite ?Et, ?Eq, ?length_insert; try done.
  - apply Forall2_same_length_lookup_2; [by eapply Forall2_length|].
    intros j k' r' Ej Er. apply Has; [apply elem_of_app; left; by eapply list_elem_of_lookup_2|].
    by eapply (Forall2_lookup_lr _ _ _ j).
  - intros j [(<-&_)|[Hj Ej]]%list_lookup_insert_Some; [by rewrite list_lookup_insert_eq|].
    rewrite list_lookup_insert_ne by done. auto.
  - intros j r' code' reg' [(_&?&_)|[Hj Ej]]%list_lookup_insert_Some; [done|].
    rewrite list_lookup_insert_ne by done. destruct (H4 j r' code' reg' Ej) as (k'&Ek'&Ha).
    exists k'. split; [done|]. apply Has; [|done]. apply elem_of_app. right.
    apply list_elem_of_omap. exists (Some k'). split; [|done].
    apply list_elem_of_lookup. exists j. by rewrite list_lookup_insert_ne.
  - intros j code' [(_&?&_)|[Hj Ej]]%list_lookup_insert_Some; [done|].
    pose proof (H6 j code' Ej) as Hin. rewrite Hp in Hin.
    apply elem_of_cons in Hin as [->|Hin]; [done|exact Hin].
Qed.

Lemma call_of_facts r c lid :
  call_of r = Some c → lid_of r = Some lid ↔ lock_of c = Some lid.
Proof. by destruct r; intros [= <-]. Qed.

Lemma tinv_reply y i r reg k c code s :
  tinv y → lact (tlock y) (Step i) = Some (Done s) →
  pool_threads (tlock y) !! i = Some (LRun r [] reg) → tserving y !! i = Some (Some k) →
  call_of r = Some c → tthreads y !! k = Some {| tt_code := c :: code; tt_waiting := true |} →
  pool_threads s = <[i := LIdle]> (pool_threads (tlock y)) → pool_queue s = pool_queue (tlock y) →
  granted s = (match r with RAcquire lid => granted (tlock y) ++ [lid] | _ => granted (tlock y) end) →
  tinv (set_tthread (with_lock y s (tqueue y) (<[i := None]> (tserving y))) k
          {| tt_code := code; tt_waiting := false |}).
Proof.
  intros HI Ea Ei Evi Hc Ek Et Eq Eg. rewrite <-with_ct_self.
  pose proof (ti_wf _ HI _ _ Ek) as Hw. cbn [tt_code wf] in Hw. apply andb_prop in Hw as [Hhd Hw].
  assert (∀ lid, known (tlock y) lid → known s lid) as Hks by (intros lid; by eapply lact_known).
  eapply (tinv_thread y k _ _ s); try done.
  - by eapply lact_ok; [apply HI| |exact Ea].
  - by eapply lact_map; [apply HI|apply HI|exact Ea].
  - by rewrite Et, length_insert.
  - rewrite with_ct_self. eapply routed_reply; try done. apply HI.
  - intros l. rewrite Eg. unfold held, effective. cbn [tt_waiting tt_code].
    destruct r as [lid|lid|lid]; simpl in Hc; try done; injection Hc as <-.
    + rewrite sum_list_with_app. simpl. unfold is_lid at 3. simpl in Hhd.
      rewrite !andb_true_iff, Nat.eqb_eq in Hhd. destruct Hhd as [[_ Hh] _].
      destruct (decide (lid = l)) as [<-|]; lia.
    + done.
  - apply HI.
  - intros x _. unfold checks. cbn [tt_code].
    by destruct r as [lid|lid|lid]; simpl in Hc; try done; injection Hc as <-.
  - intros l. apply lids_cons.
  - intros l Hl. unfold lids in Hl. cbn [tt_code omap list_omap] in Hl.
    destruct (lock_of c) as [l'|] eqn:El; [|by left].
    apply elem_of_cons in Hl as [->|Hl]; [right|by left]. apply Hks.
    destruct (mi_past _ (ti_map _ HI) i r [] reg l' (Index l') Ei) as [[rest ?]|?]; try done.
    + apply (call_of_facts r c) in El; [|done]. destruct r; simpl in El; try done;
        injection El as ->; simpl; tauto.
    + apply not_elem_of_nil.
Qed.

Lemma tinv_step y i y' :
  tinv y → tact y (TStep i) = Some (Done y') → tinv y'.
Proof.
  intros HI. unfold tact. rewrite (ti_passes _ HI).
  destruct (lact _ _) as [[s|]|] eqn:Ea; try done. cbn [mbind option_bind obind].
  destruct (step_effect _ _ _ Ea)
    as [(r&reg&Ei&Es&Eq&Et&Eg)|(r&c&code&reg&code'&reg'&Ei&Eq&Eg&Et)]; rewrite Ei.
  - destruct (rt_run _ (ti_routed _ HI) _ _ _ _ Ei) as (k&Evi&c&code&Hc&Ek). rewrite Evi.
    intros [= <-]. unfold answered. cbn [tthreads with_lock]. rewrite Ek. cbn [tt_code tail].
    by eapply tinv_reply.
  - intros [= <-]. pose proof (ti_routed _ HI) as [H1 H2 H3 H4 H5 H6]. apply tinv_server; try done.
    + by eapply lact_ok; [apply HI| |exact Ea].
    + by eapply lact_map; [apply HI|apply HI|exact Ea].
    + intros lid. by eapply lact_known.
    + by rewrite Et, length_insert.
    + split; cbn [tlock tserving tqueue tthreads with_lock]; rewrite ?Et, ?Eq, ?length_insert; try done.
      * intros j [(_&?&_)|[Hj Ej]]%list_lookup_insert_Some; [done|auto].
      * intros j r' code1 reg1 [(<-&[= <- <- <-]&_)|[Hj Ej]]%list_lookup_insert_Some; eauto.
Qed.

(** *** [main] starts the next threads *)

Lemma joined_quiet y :
  routed y → Forall (λ t, tt_code t = []) (tthreads y) →
  tqueue y = [] ∧ pool_queue (tlock y) = [] ∧
  (∀ i t, pool_threads (tlock y) !! i = Some t → t = LIdle) ∧ callers y = [].
Proof.
  intros HR Hall. assert (∀ k r, ¬ asked (tthreads y) k r) as Hno.
  { intros k r (c&code&_&Ek). rewrite Forall_lookup in Hall. by specialize (Hall k _ Ek). }
  assert (callers y = []) as Hc.
  { destruct (callers y) as [|k l] eqn:E; [done|]. exfalso.
    destruct (caller_asked y k HR) as [r Hr]; [rewrite E; by left|]. by apply Hno in Hr. }
  assert (tqueue y = []) as Hq by (by apply app_eq_nil in Hc as [? _]).
  pose proof (rt_queue _ HR) as H2. rewrite Hq in H2. apply Forall2_nil_inv_l in H2.
  split_and!; try done. intros i [|r code reg] Ei; [done|].
  destruct (rt_run _ HR _ _ _ _ Ei) as (k&_&Hr). by apply Hno in Hr.
Qed.

Lemma sum_list_with_all_zero {A} (f : A → nat) (l : list A) :
  (∀ k x, l !! k = Some x → f x = 0%nat) → sum_list_with f l = 0%nat.
Proof. intros H. apply sum_list_with_zero, Forall_lookup. eauto. Qed.

Lemma lookup_threads (p : list (list tinstr)) k t :
  ((λ code, TThread code false) <$> p) !! k = Some t → ∃ code, t = TThread code false ∧ code ∈ p.
Proof.
  rewrite list_lookup_fmap. destruct (p !! k) as [code|] eqn:E; [|done]. intros [= <-].
  exists code. split; [done|by eapply list_elem_of_lookup_2].
Qed.

Lemma elem_of_phase_lids (p : list (list tinstr)) code lid :
  code ∈ p → lid ∈ lids code → lid ∈ mjoin (lids <$> p).
Proof. intros Hc Hl. apply list_elem_of_join. exists (lids code). split; [done|]. by apply list_elem_of_fmap_2. Qed.

Lemma tinv_next y y' : tinv y → tact y TNext = Some (Done y') → tinv y'.
Proof.
  intros HI. unfold tact. rewrite (ti_passes _ HI).
  destruct (tphases y) as [|p ps] eqn:Ep; [done|].
  case_decide as Hall; [|done]. intros [= <-].
  destruct (joined_quiet y (ti_routed _ HI) Hall) as (Hq&Hpq&Hidle&Hcal).
  destruct HI as [HL HM HR Iw Ih [Il Ict] Ip Iz Ik (seen&Is&Ise) If].
  rewrite Ep in Ip, Is. apply Forall_cons in Ip as [Hp Hps]. simpl in Is.
  apply andb_prop in Is as [Hs Is]. apply andb_prop in Hp as [Hn Hp]. apply Nat.leb_le in Hn.
  set (ths := (λ code, TThread code false) <$> p).
  assert (length ths = length p) as Elen by apply length_fmap.
  assert (∀ code, code ∈ p → wf (alone p) code = true ∧ starts code = true) as Hcode.
  { intros code Hc. rewrite forallb_forall in Hp. apply andb_prop, Hp. by apply list_elem_of_In. }
  assert (∀ k t, tthreads y !! k = Some t → tt_code t = []) as Hnil
    by (intros k t Ek; rewrite Forall_lookup in Hall; by apply (Hall k)).
  assert (∀ lid, lid ∈ seen → known (tlock y) lid) as Hseen.
  { intros lid Hl. destruct (Ise lid Hl) as [?|(k&t&Ek&Ht)]; [done|].
    rewrite (Hnil k t Ek) in Ht. by apply elem_of_nil in Ht. }
  split; cbn [tlock tserving tqueue tthreads tphases tct tfailed with_phases]; fold ths; try done.
  - destruct HR as [H1 H2 H3 H4 H5 H6]. split; cbn [tlock tserving tqueue tthreads with_phases]; try done.
    + rewrite Hq, Hpq. constructor.
    + intros i r code reg Ei. by apply Hidle in Ei.
    + intros k code Ek. by apply lookup_threads in Ek as (?&?&_).
  - intros k t (code&->&Hc)%lookup_threads. unfold alone. rewrite Elen. by apply Hcode.
  - intros lid. rewrite <-Ih. rewrite !sum_list_with_all_zero; [done|..].
    + intros k t Ek. unfold held, effective. rewrite (Hnil k t Ek). by destruct (tt_waiting t).
    + intros k t (code&->&Hc)%lookup_threads. by apply starts_none, Hcode.
  - split; [done|]. intros x Hx. rewrite (Ict x Hx). rewrite !sum_list_with_all_zero; [done|..].
    + intros k t (code&->&Hc)%lookup_threads. by apply starts_none, Hcode.
    + intros k t Ek. unfold checks. by rewrite (Hnil k t Ek).
  - rewrite Elen. exact Hn.
  - intros Ha. unfold alone in Ha, Hs. rewrite Elen in Ha. rewrite Ha in Hs.
    assert (∀ k t lid, ths !! k = Some t → lid ∈ lids (tt_code t) → lid ∈ mjoin (lids <$> p)) as Hin.
    { intros k t lid (code&->&Hc)%lookup_threads Hl. by eapply elem_of_phase_lids. }
    apply orb_prop in Hs as [Hs|Hs]; [left|right].
    + simpl in Hs. destruct (mjoin (lids <$> p)) as [|l ls]; [exists 0|exists l]; intros k t lid Ek Hl.
      * by apply (Hin k t lid Ek), elem_of_nil in Hl.
      * apply (Hin k t lid Ek), elem_of_cons in Hl as [->|Hl]; [done|].
        simpl in Hs. rewrite forallb_forall in Hs. by eapply bool_decide_eq_true, Hs, list_elem_of_In.
    + rewrite forallb_forall in Hs. intros k t lid Ek Hl. apply Hseen.
      eapply bool_decide_eq_true, Hs, list_elem_of_In, Hin; done.
  - exists (mjoin (lids <$> p) ++ seen). split; [done|].
    intros lid [Hl|Hl]%elem_of_app; [right|left; by apply Hseen].
    apply list_elem_of_join in Hl as (l&Hl&Hlp). apply list_elem_of_fmap in Hlp as (code&->&Hc).
    apply list_elem_of_lookup in Hc as [k Hk]. exists k, (TThread code false). split; [|done].
    unfold ths. by rewrite list_lookup_fmap, Hk.
Qed.

Lemma tact_ok y a y' : tinv y → tact y a = Some (Done y') → tinv y'.
Proof.
  intros HI. destruct a; [by apply tinv_run|by apply tinv_next|by apply tinv_serve|by apply tinv_step].
Qed.

(** ** No fault *)

Lemma omap_id_nodup {A} (l : list (option A)) i j x :
  NoDup (omap id l) → l !! i = Some (Some x) → l !! j = Some (Some x) → i = j.
Proof.
  intros Hn Hi Hj. destruct (decide (i = j)) as [|Hij]; [done|]. exfalso.
  rewrite (omap_id_delete l i x Hi) in Hn. apply NoDup_cons in Hn as [Hx _]. apply Hx.
  apply list_elem_of_omap. exists (Some x). split; [|done]. apply list_elem_of_lookup.
  exists j. by rewrite list_lookup_insert_ne.
Qed.

Lemma tinv_undisturbed y i r code reg :
  tinv y → pool_threads (tlock y) !! i = Some (LRun r code reg) → undisturbed (tlock y) i.
Proof.
  intros HI Ei. pose proof (ti_routed _ HI) as HR. destruct (alone (tthreads y)) eqn:Ha.
  - right. left. intros j [|r' code' reg'] Ej Hr; [done|].
    destruct (rt_run _ HR _ _ _ _ Ei) as (k&Ek&c&?&_&Hk).
    destruct (rt_run _ HR _ _ _ _ Ej) as (k'&Ek'&c'&?&_&Hk').
    assert (k' = k) as -> by (by eapply alone_only).
    eapply omap_id_nodup; [|exact Ek'|exact Ek]. pose proof (rt_nodup _ HR) as Hn.
    by apply NoDup_app in Hn as (_&_&?).
  - assert (∀ j r' code' reg', pool_threads (tlock y) !! j = Some (LRun r' code' reg') →
      ∃ k t lid, tthreads y !! k = Some t ∧ lid_of r' = Some lid ∧ lid ∈ lids (tt_code t)) as Hrun.
    { intros j r' code' reg' Ej. destruct (rt_run _ HR _ _ _ _ Ej) as (k&_&c&rest&Hc&Hk).
      destruct (lid_of r') as [lid|] eqn:El; [|by destruct r'].
      exists k, {| tt_code := c :: rest; tt_waiting := true |}, lid. split_and!; [done|done|].
      unfold lids. cbn [tt_code omap list_omap].
      apply (call_of_facts _ _ lid Hc) in El. rewrite El. by left. }
    destruct (ti_known _ HI Ha) as [[l Hone]|Hk]; [right; right; exists l|left].
    + intros j r' code' reg' Ej. destruct (Hrun _ _ _ _ Ej) as (k&t&lid&Ek&El&Hin).
      by rewrite El, (Hone k t lid Ek Hin).
    + intros j r' code' reg' lid Ej Hl. destruct (Hrun _ _ _ _ Ej) as (k&t&lid'&Ek&El&Hin).
      assert (lid' = lid) as -> by congruence. by eapply Hk.
Qed.

Lemma tact_no_fault y a f :
  tinv y → Z.of_nat (count (tlock y)) < INT_MAX → tact y a ≠ Some (Fault f).
Proof.
  intros HI Hc. unfold tact. rewrite (ti_passes _ HI).
  assert (∀ b, (∀ i, b ≠ Step i) → ∀ f, lact (tlock y) b ≠ Some (Fault f)) as Hcl.
  { intros b Hb f'. apply lact_no_fault; [apply HI|apply HI| |done]. intros i ->. by destruct (Hb i). }
  assert (∀ k b c code, (∀ i, b ≠ Step i) → send_request y k b c code ≠ Some (Fault f)) as Hsend.
  { intros k b c code Hb. unfold send_request. pose proof (Hcl b Hb) as Hf.
    destruct (lact _ b) as [[s|f']|]; cbn; try done. by destruct (Hf f'). }
  destruct a as [k| |i|i].
  - destruct (tthreads y !! k) as [[[|[lid|lid|lid|lid] code] []]|]; try done;
      apply Hsend; intros ?; first [done|by case_decide].
  - destruct (tphases y); [done|]. by case_decide.
  - destruct (tqueue y); [done|]. pose proof (Hcl (Take i) ltac:(done)) as Hf.
    destruct (lact _ _) as [[s|f']|]; cbn; try done. by destruct (Hf f').
  - assert (∀ f, lact (tlock y) (Step i) ≠ Some (Fault f)) as Hf.
    { intros f'. destruct (pool_threads (tlock y) !! i) as [[|r code reg]|] eqn:Ei;
        [simpl; by rewrite Ei| |simpl; by rewrite Ei].
      apply lact_no_fault; [apply HI|apply HI| |done]. intros j [= <-]. by eapply tinv_undisturbed. }
    destruct (lact _ _) as [[s|f']|]; cbn; try done; [|by destruct (Hf f')].
    destruct (pool_threads _ !! i) as [[|r [|c code] reg]|]; try done.
    by destruct (tserving y !! i) as [[]|].
Qed.

(** ** Termination *)

Definition tthread_weight (t : tthread) : nat :=
  15 * length (tt_code t) - (if tt_waiting t then 14 else 0).
Definition phase_weight (p : list (list tinstr)) : nat :=
  S (sum_list_with (λ code, 15 * length code)%nat p).
Definition tester_weight (y : tsys) : nat :=
  lsys_weight (tlock y) + sum_list_with tthread_weight (tthreads y) +
  sum_list_with phase_weight (tphases y).

Ltac tester_parts :=
  cbn [tlock tthreads tphases set_tthread with_threads with_lock with_ct with_phases].

Lemma ask_weight s r s' :
  lact s (Ask r) = Some (Done s') → (lsys_weight s' = lsys_weight s + 13)%nat.
Proof.
  intros H. destruct (ask_effect _ _ _ H) as (_&Ep&Eq). unfold lsys_weight.
  rewrite Ep, Eq, length_app. simpl. lia.
Qed.

Lemma set_tthread_weight y k t u :
  tthreads y !! k = Some t →
  (sum_list_with tthread_weight (<[k := u]> (tthreads y)) + tthread_weight t =
   sum_list_with tthread_weight (tthreads y) + tthread_weight u)%nat.
Proof. apply sum_list_with_insert. Qed.

Lemma tact_weight y a y' :
  tinv y → tact y a = Some (Done y') → (tester_weight y' < tester_weight y)%nat.
Proof.
  intros HI. unfold tact. rewrite (ti_passes _ HI). destruct a as [k| |i|i].
  - destruct (tthreads y !! k) as [[[|c code] []]|] eqn:Ek; try done.
    assert (∀ r, lact (tlock y) (Ask r) = None ∨ ∃ s, lact (tlock y) (Ask r) = Some (Done s)) as Hask.
    { intros [l|l|l]; simpl; [by right; eexists|case_decide; [right; by eexists|by left]|
        right; by eexists]. }
    assert (∀ r, send_request y k (Ask r) c code = Some (Done y') →
      (tester_weight y' < tester_weight y)%nat) as Hsend.
    { intros r. unfold send_request. destruct (Hask r) as [->|[s Es]]; [done|]. rewrite Es. cbn [mbind option_bind obind].
      intros [= <-]. unfold tester_weight. tester_parts. rewrite (ask_weight _ _ _ Es).
      pose proof (set_tthread_weight y k _ {| tt_code := c :: code; tt_waiting := true |} Ek) as H.
      unfold tthread_weight in H at 2 4. cbn [tt_code tt_waiting length] in H. lia. }
    assert (∀ ct, (tester_weight (set_tthread (with_ct y ct) k
      {| tt_code := code; tt_waiting := false |}) < tester_weight y)%nat) as Hchk.
    { intros ct. unfold tester_weight. tester_parts.
      pose proof (set_tthread_weight y k _ {| tt_code := code; tt_waiting := false |} Ek) as H.
      unfold tthread_weight in H at 2 4. cbn [tt_code tt_waiting length] in H. lia. }
    destruct c as [lid|lid|lid|lid].
    + apply Hsend.
    + pose proof (release_granted y k lid code HI Ek) as Hin.
      rewrite (decide_True (P := lid ∈ _)) by done. apply Hsend.
    + destruct (tinv_check y k _ lid 1 code HI Ek) as [Hg _]; [by left|].
      unfold check_grant. rewrite Hg. cbn [negb]. intros [= <-]. apply Hchk.
    + destruct (tinv_check y k _ lid 0 code HI Ek) as [Hg _]; [by right|].
      unfold check_release. rewrite Hg. cbn [negb]. intros [= <-]. apply Hchk.
  - destruct (tphases y) as [|p ps] eqn:Ep; [done|]. case_decide; [|done]. intros [= <-].
    unfold tester_weight. tester_parts. rewrite Ep. cbn [sum_list_with]. unfold phase_weight at 2.
    rewrite (sum_list_with_fmap _ _ (λ code, 15 * length code)%nat); [lia|].
    intros code. unfold tthread_weight. simpl. lia.
  - destruct (tqueue y); [done|]. destruct (lact _ _) as [[s|]|] eqn:Ea; try done. cbn [mbind option_bind obind].
    intros [= <-]. apply server_step_weight in Ea; [|done]. unfold tester_weight. tester_parts. lia.
  - destruct (lact _ _) as [[s|]|] eqn:Ea; try done. cbn [mbind option_bind obind].
    pose proof (server_step_weight _ (Step i) _ eq_refl Ea) as Hw.
    destruct (step_effect _ _ _ Ea)
      as [(r&reg&Ei&Es&Eq&Et&Eg)|(r&c&code&reg&code'&reg'&Ei&Eq&Eg&Et)]; rewrite Ei.
    + destruct (rt_run _ (ti_routed _ HI) _ _ _ _ Ei) as (k&Evi&c&code&Hc&Ek). rewrite Evi.
      intros [= <-]. unfold answered. cbn [tthreads with_lock]. rewrite Ek. cbn [tt_code tail].
      unfold tester_weight. tester_parts.
      pose proof (set_tthread_weight y k _ {| tt_code := code; tt_waiting := false |} Ek) as H.
      unfold tthread_weight in H at 2 4. cbn [tt_code tt_waiting length] in H. lia.
    + intros [= <-]. unfold tester_weight. tester_parts. lia.
Qed.

(** the server sees a run of well-behaved clients *)
Lemma tact_lact y a y' :
  tinv y → tact y a = Some (Done y') →
  tlock y' = tlock y ∨ ∃ b, wellbehaved b = true ∧ lact (tlock y) b = Some (Done (tlock y')).
Proof.
  intros HI. unfold tact. rewrite (ti_passes _ HI).
  assert (∀ k b c code, wellbehaved b = true → send_request y k b c code = Some (Done y') →
    ∃ b, wellbehaved b = true ∧ lact (tlock y) b = Some (Done (tlock y'))) as Hsend.
  { intros k b c code Hb. unfold send_request. destruct (lact _ b) as [[s|]|] eqn:E; try done. cbn.
    intros [= <-]. by exists b. }
  assert (∀ k lid o code, tlock (checked y k lid o code) = tlock y) as Hchk by (by intros ? ? []).
  destruct a as [k| |i|i].
  - destruct (tthreads y !! k) as [[[|c code] []]|] eqn:Ek; try done. destruct c as [lid|lid|lid|lid].
    + intros H. right. exact (Hsend k (Ask (RAcquire lid)) _ _ eq_refl H).
    + pose proof (release_granted y k lid code HI Ek) as Hin.
      rewrite (decide_True (P := lid ∈ _)) by done. intros H. right.
      exact (Hsend k (Ask (RRelease lid)) _ _ eq_refl H).
    + intros [= <-]. left. apply Hchk.
    + intros [= <-]. left. apply Hchk.
  - destruct (tphases y); [done|]. case_decide; [|done]. intros [= <-]. by left.
  - destruct (tqueue y); [done|]. destruct (lact _ _) as [[s|]|] eqn:Ea; try done. cbn.
    intros [= <-]. right. by exists (Take i).
  - destruct (lact _ _) as [[s|]|] eqn:Ea; try done. cbn [mbind option_bind obind]. intros H.
    assert (tlock y' = s) as ->; [|right; by exists (Step i)].
    assert (∀ z k, tlock (answered z k) = tlock z) as Han.
    { intros z k. unfold answered. by destruct (tthreads z !! k). }
    repeat case_match; injection H as <-; by rewrite ?Han.
Qed.

Lemma tact_count y a y' :
  tinv y → tact y a = Some (Done y') → (count (tlock y') ≤ S (count (tlock y)))%nat.
Proof.
  intros HI H. destruct (tact_lact _ _ _ HI H) as [->|(b&Hb&E)]; [lia|].
  by eapply lact_count; [apply HI|..].
Qed.

Lemma tacts_ok y l o :
  tinv y → Z.of_nat (count (tlock y) + tester_weight y) < INT_MAX → tacts y l = Some o →
  ∃ y', o = Done y' ∧ tinv y' ∧ (length l + tester_weight y' ≤ tester_weight y)%nat.
Proof.
  revert y. induction l as [|a l IH]; intros y HI Hc; cbn [tacts].
  { intros [= <-]. exists y. split_and!; [done|done|simpl; lia]. }
  destruct (tact y a) as [[y1|f]|] eqn:E; [|by apply tact_no_fault in E; [|done|lia]|done].
  pose proof (tact_weight _ _ _ HI E) as Hw. pose proof (tact_count _ _ _ HI E) as Hn.
  intros H. destruct (IH y1) as (y'&->&HI'&Hl); [by eapply tact_ok|lia|done|].
  exists y'. split_and!; [done|done|simpl; lia].
Qed.

(** ** Nothing is left waiting *)

Lemma rest_server y : tinv y → (∀ a, tact y a = None) → server_at_rest (tlock y).
Proof.
  intros HI HR [r|l|i|i] Ha; try done.
  - pose proof (HR (TServe i)) as H. unfold tact in H. rewrite (ti_passes _ HI) in H.
    destruct (tqueue y) eqn:Eq.
    + pose proof (rt_queue _ (ti_routed _ HI)) as H2. rewrite Eq in H2.
      apply Forall2_nil_inv_l in H2. simpl. rewrite H2.
      by destruct (pool_threads (tlock y) !! i) as [[]|].
    + by destruct (lact _ _).
  - pose proof (HR (TStep i)) as H. unfold tact in H. rewrite (ti_passes _ HI) in H.
    by destruct (lact _ _).
Qed.

Lemma rest_waiting y k t :
  tinv y → (∀ a, tact y a = None) → tthreads y !! k = Some t → tt_code t ≠ [] → tt_waiting t = true.
Proof.
  intros HI HR Ek Hc. destruct t as [[|c code] []]; try done. exfalso.
  pose proof (HR (TRun k)) as H. unfold tact in H. rewrite (ti_passes _ HI), Ek in H.
  destruct c as [lid|lid|lid|lid]; try done.
  unfold send_request in H. case_decide as Hin; simpl in H; [|done].
  by rewrite decide_True in H.
Qed.

Lemma omap_id_all {A} (l : list (option A)) :
  (∀ i o, l !! i = Some o → is_Some o) → length (omap id l) = length l.
Proof.
  induction l as [|o l IH]; intros H; [done|].
  destruct (H 0%nat o eq_refl) as [x ->]. simpl. f_equal. apply IH. intros i. apply (H (S i)).
Qed.

(** when nothing moves, no request is in the queue *)
Lemma rest_queue y : tinv y → (∀ a, tact y a = None) → pool_queue (tlock y) = [].
Proof.
  intros HI HR. pose proof (rest_server y HI HR) as Hs. pose proof (ti_routed _ HI) as Hr.
  destruct (pool_queue (tlock y)) as [|r q] eqn:Eq; [done|]. exfalso.
  assert (∀ i o, tserving y !! i = Some o → is_Some o) as Hall.
  { intros i o Hi. assert (i < length (pool_threads (tlock y)))%nat as [t Ht]%lookup_lt_is_Some
      by (rewrite <-(rt_len _ Hr); by eapply lookup_lt_Some).
    destruct (rest_thread _ _ _ (ti_lock _ HI) Hs Ht) as [[_ ?]|(lid&Hw&_)]; [congruence|].
    destruct t as [|r' code reg]; [done|].
    destruct (rt_run _ Hr _ _ _ _ Ht) as (k&Ek&_). rewrite Hi in Ek. injection Ek as ->. done. }
  pose proof (Forall2_length _ _ _ (rt_queue _ Hr)) as Hl. rewrite Eq in Hl.
  assert (length (callers y) ≤ length (tthreads y))%nat as Hle.
  { rewrite <-(length_seq (length (tthreads y)) 0). apply submseteq_length, NoDup_submseteq;
      [apply Hr|]. intros k Hk. destruct (caller_asked y k Hr Hk) as (r'&c&code&_&E).
    apply elem_of_seq. apply lookup_lt_Some in E. lia. }
  unfold callers in Hle. rewrite length_app, (omap_id_all _ Hall), (rt_len _ Hr) in Hle.
  pose proof (ti_size _ HI). simpl in Hl. lia.
Qed.

(** ... and every waiting thread is in an [acquire] that blocks *)
Lemma rest_blocked y k t :
  tinv y → (∀ a, tact y a = None) → tthreads y !! k = Some t → tt_waiting t = true →
  ∃ lid rest, tt_code t = TAcquire lid :: rest ∧ locked lid (server (tlock y)) = 1%nat.
Proof.
  intros HI HR Ek Hw. pose proof (rest_server y HI HR) as Hs. pose proof (rest_queue y HI HR) as Hq.
  pose proof (ti_routed _ HI) as Hr. pose proof (ti_lock _ HI) as HL.
  destruct t as [code w]. simpl in Hw. subst w.
  pose proof (rt_waiting _ Hr _ _ Ek) as Hin. apply elem_of_app in Hin as [Hin|Hin].
  { pose proof (Forall2_length _ _ _ (rt_queue _ Hr)) as Hl. rewrite Hq in Hl.
    destruct (tqueue y); [by apply elem_of_nil in Hin|done]. }
  apply list_elem_of_omap in Hin as (o&Ho&Eo). simpl in Eo. subst o.
  apply list_elem_of_lookup in Ho as [i Hi].
  assert (i < length (pool_threads (tlock y)))%nat as [u Hu]%lookup_lt_is_Some
    by (rewrite <-(rt_len _ Hr); by eapply lookup_lt_Some).
  destruct (rest_thread _ _ _ HL Hs Hu) as [[-> _]|(lid&Hwf&Hlk)].
  { rewrite (rt_idle _ Hr i Hu) in Hi. done. }
  destruct u as [|r code' reg]; [done|].
  destruct (rt_run _ Hr _ _ _ _ Hu) as (k'&Ek'&c&rest&Hc&Ek2).
  rewrite Hi in Ek'. injection Ek' as <-. rewrite Ek in Ek2. injection Ek2 as ->.
  destruct code' as [|[] code']; try done. simpl in Hwf. injection Hwf as ->.
  destruct (legal_head _ _ _ (li_legal _ HL _ _ _ _ Hu)) as (->&_). injection Hc as <-.
  by exists lid, rest.
Qed.

Lemma rest_no_waiting y k t :
  tinv y → (∀ a, tact y a = None) → tthreads y !! k = Some t → tt_waiting t = false.
Proof.
  intros HI HR Ek. destruct (tt_waiting t) eqn:Hw; [|done]. exfalso.
  pose proof (rest_server y HI HR) as Hs. pose proof (rest_queue y HI HR) as Hq.
  pose proof (ti_lock _ HI) as HL. pose proof (λ k t, rest_blocked y k t HI HR) as Hblk.
  destruct (Hblk k t Ek Hw) as (lid&rest&Et&Hlk).
  assert (lid ∈ granted (tlock y)) as Hg.
  { apply sum_is_lid_pos. pose proof (li_claims _ HL lid) as Hc. unfold claims in Hc.
    rewrite Hq, Hlk in Hc. simpl in Hc.
    assert (sum_list_with (holds lid) (pool_threads (tlock y)) = 0%nat); [|lia].
    apply sum_list_with_all_zero. intros i u Hu.
    destruct (rest_thread _ _ _ HL Hs Hu) as [[-> _]|(l&Hwl&_)]; [done|].
    by eapply waiting_holds_nothing. }
  apply sum_is_lid_pos in Hg. rewrite <-(ti_held _ HI) in Hg.
  apply sum_list_with_pos in Hg as (j&u&Ej&Hj).
  assert (tt_waiting u = true) as Hwu.
  { eapply (rest_waiting y j); [done..|]. intros Hn. unfold held, effective in Hj. rewrite Hn in Hj.
    destruct (tt_waiting u); simpl in Hj; lia. }
  destruct (Hblk j u Ej Hwu) as (l&rest'&Eu&_).
  pose proof (ti_wf _ HI j u Ej) as Hwf. rewrite Eu in Hwf. apply andb_prop in Hwf as [Hwf _].
  unfold held, effective in Hj. rewrite Hwu, Eu in Hj. destruct (alone (tthreads y)) eqn:Ha.
  - assert (j = k) as -> by (by eapply alone_only). rewrite Ek in Ej. injection Ej as <-.
    rewrite Et in Eu. injection Eu as <- <-. simpl in Hj. rewrite decide_True in Hj by done. lia.
  - rewrite (wf_acquire_free _ _ lid Hwf) in Hj. lia.
Qed.

Lemma rest_passed y : tinv y → (∀ a, tact y a = None) → passed y.
Proof.
  intros HI HR. assert (Forall (λ t, tt_code t = []) (tthreads y)) as Hall.
  { apply Forall_lookup. intros k t Ek. destruct (decide (tt_code t = [])) as [|Hn]; [done|].
    pose proof (rest_waiting y k t HI HR Ek Hn). by rewrite (rest_no_waiting y k t) in *. }
  split_and!; [apply HI| |done].
  pose proof (HR TNext) as H. unfold tact in H. rewrite (ti_passes _ HI) in H.
  destruct (tphases y); [done|]. by rewrite decide_True in H.
Qed.

(** ** The start *)

Definition wf_main (n : nat) (ps : list (list (list tinstr))) : bool :=
  forallb (wf_phase n) ps && fresh_ok [] ps.

Lemma ct_get_zero x : ct_get (replicate 256 0) x = 0.
Proof.
  unfold ct_get. destruct (replicate 256 0 !! Z.to_nat x) as [z|] eqn:E; [|done].
  by apply lookup_replicate in E as [-> _].
Qed.

Lemma omap_id_none {A} (n : nat) : omap id (replicate n (None : option A)) = [].
Proof. by induction n. Qed.

Lemma tester_new_inv n ps : wf_main n ps = true → tinv (tester_new n ps).
Proof.
  unfold wf_main. rewrite andb_true_iff. intros [Hp Hf].
  split; cbn [tester_new tlock tthreads tphases tct tqueue tserving tfailed]; try done.
  - apply lsys_new_inv.
  - apply lsys_new_map.
  - split; cbn [tester_new tlock tthreads tqueue tserving lsys_new pool_threads pool_queue]; try done.
    + by rewrite !length_replicate.
    + intros i [_ Hi]%lookup_replicate. by apply lookup_replicate.
    + intros i r code reg [? _]%lookup_replicate. done.
    + unfold callers. cbn [tester_new tqueue tserving]. simpl.
      rewrite omap_id_none. constructor.
  - split; [done|]. intros x _. apply ct_get_zero.
  - cbn [lsys_new pool_threads]. rewrite length_replicate. apply Forall_forall.
    rewrite forallb_forall in Hp. intros p Hin. apply Hp. by apply list_elem_of_In.
  - simpl. lia.
  - exists []. split; [done|]. intros lid Hl. by apply elem_of_nil in Hl.
Qed.

Lemma wf_main_le n m ps : (n ≤ m)%nat → wf_main n ps = true → wf_main m ps = true.
Proof.
  intros Hnm. unfold wf_main. rewrite !andb_true_iff, !forallb_forall. intros [Hp Hf].
  split; [|done]. intros p Hin. specialize (Hp p Hin). unfold wf_phase in *.
  rewrite andb_true_iff, Nat.leb_le in *. destruct Hp. split; [lia|done].
Qed.

Lemma lsys_new_weight n : lsys_weight (lsys_new n) = 0%nat.
Proof.
  unfold lsys_weight. cbn [lsys_new pool_queue pool_threads]. simpl.
  apply sum_list_with_zero. by apply Forall_replicate.
Qed.

Lemma lsys_new_count n : count (lsys_new n) = 0%nat.
Proof.
  unfold count. cbn [lsys_new pool_queue pool_threads granted]. simpl.
  apply sum_list_with_zero. by apply Forall_replicate.
Qed.

Lemma main_wf test : 0 ≤ test ≤ 5 → wf_main nt (tester_main test) = true.
Proof.
  intros H. assert (test = 0 ∨ test = 1 ∨ test = 2 ∨ test = 3 ∨ test = 4 ∨ test = 5) as Ht by lia.
  destruct_or! Ht; subst test; vm_compute; reflexivity.
Qed.

Definition main_steps (test : Z) : nat := sum_list_with phase_weight (tester_main test).

Lemma main_steps_le test : 0 ≤ test ≤ 5 → Z.of_nat (main_steps test) ≤ 14045.
Proof.
  intros H. assert (test = 0 ∨ test = 1 ∨ test = 2 ∨ test = 3 ∨ test = 4 ∨ test = 5) as Ht by lia.
  apply Z.leb_le. destruct_or! Ht; subst test; vm_compute; reflexivity.
Qed.

(** ** Theorems *)

(** C7. The lock tester passes, run with any of its tests or with all: whatever the
    interleaving of its threads with the at least ten threads of the server, no
    access faults, no check fails (so the server never grants a lock twice, and
    each release is of a held lock), the run ends after a bounded number of
    steps, and when nothing can move any more all tests have returned. *)
Theorem lock_tester_passes n test l o :
  (nt ≤ n)%nat → 0 ≤ test ≤ 5 → tacts (tester_new n (tester_main test)) l = Some o →
  ∃ y, o = Done y ∧ tfailed y = None ∧ Zlength l ≤ 14045 ∧
    ((∀ a, tact y a = None) → passed y).
Proof.
  intros Hn Ht H. pose proof (main_steps_le test Ht) as Hm.
  assert (tester_weight (tester_new n (tester_main test)) = main_steps test) as Hw.
  { unfold tester_weight. cbn [tester_new tlock tthreads tphases]. by rewrite lsys_new_weight. }
  apply tacts_ok in H as (y&->&HI&Hl).
  - exists y. split_and!; [done|apply HI|lia|by apply rest_passed].
  - apply tester_new_inv. eapply wf_main_le; [exact Hn|by apply main_wf].
  - rewrite Hw. cbn [tester_new tlock]. rewrite lsys_new_count.
    assert (INT_MAX = 2147483647) by done. lia.
Qed.

(** *** Eleven clients

    "Since rpcs uses a thread pool of 10 threads, we cannot test more than 10
    blocking rpc": what happens then. *)

Definition round (k i : nat) : list taction := [TRun k; TServe i] ++ replicate 12 (TStep i).

(** the actions of a list that are possible, one after the other *)
Fixpoint drive (y : tsys) (l : list taction) : list taction :=
  match l with
  | [] => []
  | a :: l => match tact y a with Some (Done y') => a :: drive y' l | _ => drive y l end
  end.

Definition eleven : list (list (list tinstr)) := [[test1]; replicate 11 test2].
Definition eleven_run : list taction :=
  drive (tester_new 10 eleven)
    ([TNext] ++ mjoin (replicate 16 (round 0 0)) ++ [TNext] ++ (TRun <$> seq 0 11) ++ round 0 0 ++
     mjoin ((λ i, TServe i :: replicate 6 (TStep i)) <$> seq 0 10) ++ [TRun 0; TRun 0; TRun 0]).
Definition eleven_stuck : tsys :=
  match tacts (tester_new 10 eleven) eleven_run with
  | Some (Done y) => y
  | _ => tester_new 10 eleven
  end.

(** With eleven clients the tester can come to a state in which nothing moves and
    the tests have not returned: ten threads of the server wait for the lock, and
    the request to release it is in the queue. *)
Theorem eleven_clients_hang :
  tacts (tester_new 10 eleven) eleven_run = Some (Done eleven_stuck) ∧
  (∀ a, tact eleven_stuck a = None) ∧ ¬ passed eleven_stuck ∧
  pool_queue (tlock eleven_stuck) = [RRelease lock_a].
Proof.
  split; [vm_compute; reflexivity|]. split; [|split; [|vm_compute; reflexivity]].
  - intros [k| |i|i].
    + do 11 (destruct k as [|k]; [vm_compute; reflexivity|]). vm_compute. reflexivity.
    + vm_compute. reflexivity.
    + do 10 (destruct i as [|i]; [vm_compute; reflexivity|]). vm_compute. reflexivity.
    + do 10 (destruct i as [|i]; [vm_compute; reflexivity|]). vm_compute. reflexivity.
  - intros (_&_&H). assert (tt_code <$> tthreads eleven_stuck = replicate 1 [TRelease lock_a] ++ replicate 10 test2)
      as E by (vm_compute; reflexivity).
    revert H E. generalize (tthreads eleven_stuck). intros ths H E. destruct ths as [|t ths]; [done|].
    apply Forall_cons in H as [Ht _]. simpl in E. injection E as E _. congruence.
Qed.

(** ** Witnesses *)

(** the first rounds of the first test *)
Definition first_rounds : list taction :=
  drive (tester_new 10 (tester_main 0)) ([TNext] ++ mjoin (replicate 4 (round 0 0))).

Lemma lock_tester_passes_witness :
  ∃ o y, tacts (tester_new 10 (tester_main 0)) first_rounds = Some o ∧ o = Done y ∧
    tfailed y = None ∧ Zlength first_rounds ≤ 14045 ∧ ((∀ a, tact y a = None) → passed y).
Proof.
  destruct (tacts (tester_new 10 (tester_main 0)) first_rounds) as [o|] eqn:E.
  - destruct (lock_tester_passes 10 0 first_rounds o (le_n nt) ltac:(lia) E) as (y&H1&H2&H3&H4).
    exists o, y. split_and!; [reflexivity|exact H1|exact H2|exact H3|exact H4].
  - exfalso. vm_compute in E. discriminate E.
Defined.

(** a run of all tests from beginning to end: each thread in turn *)
Definition whole_run (n : nat) (ps : list (list (list tinstr))) : list taction :=
  mjoin ((λ p : list (list tinstr), TNext :: mjoin ((λ k, mjoin (replicate (length (default [] (p !! k))) (round k 0)))
    <$> seq 0 (length p))) <$> ps).

Example all_tests_run :
  match tacts (tester_new 10 (tester_main 0))
          (drive (tester_new 10 (tester_main 0)) (whole_run 10 (tester_main 0))) with
  | Some (Done y) => tphases y = [] ∧ forallb (λ t, bool_decide (length (tt_code t) = 0%nat)) (tthreads y) = true
  | _ => False
  end.
Proof. vm_compute. split; reflexivity. Qed.
