(* ===== verification/Network.v ===== *)
(** * Client and server over a network that loses nothing

    [Stubs.v] runs the stubs over [loopback].  Here a call is what the two
    endpoints do: [rpcc::call1] with its deadline loop at the client, and, while
    it waits, [rpcs::got_pdu] and [dispatch] at the server and [rpcc::got_pdu]
    with the reply.  The two ends, linked by [bind], carry calls in the sense of
    [Stubs.Carries]; so a client that makes any number of calls sees the object
    behind the server as if it called its methods.  (What happens when PDUs are
    lost, delayed or repeated is the subject of [AtMostOnce.v]; that the bytes
    arrive as they were sent, of [Connection.v] and [Sender.v].) *)

From S2P Require Import Prelude Marshall Codec Timespec Connection Stubs Rpcc Rpcs.

(** ** The two ends *)

Record net (S : Type) := Net {
  nt_cl : rpcc; nt_clconns : conn_store;
  nt_srv : rpcs S; nt_srvconns : conn_store; nt_app : S }.
Arguments Net {S} _ _ _ _ _.
Arguments nt_cl {S} _.
Arguments nt_clconns {S} _.
Arguments nt_srv {S} _.
Arguments nt_srvconns {S} _.
Arguments nt_app {S} _.

(** what one call meets: the answer to [connect], the server's connection on
    which the request arrives, and the clock before and during the wait *)
Record link := Link {
  lk_answer : connector; lk_conn : Z; lk_start : timespec; lk_now : timespec }.

Section network.
Context `{Heap, Allocator} {S : Type}.

(** the PDUs for the client, one upcall each *)
Fixpoint deliver_replies (out : list sent) (c : rpcc) : outcome rpcc :=
  match out with
  | [] => Done c
  | p :: out =>
      let! '(c, _) := rpcc_got_pdu c (sn_bytes p) (Zlength (sn_bytes p)) in
      deliver_replies out c
  end.

(** the upcall of the server and the job it starts *)
Definition serve_pdu (w : net S) (conn : Z) (b : list byte)
    : outcome (rpcs S * conn_store * S * list sent) :=
  let! '(cs, _) := rpcs_got_pdu (nt_srvconns w) conn true in
  dispatch (nt_srv w) cs (nt_app w) conn b (Zlength b).

(** while the caller waits its request is served and the replies are delivered *)
Definition reply_tick (k : link) (out : list sent) : tick :=
  {| tk_answer := lk_answer k; tk_now := lk_now k;
     tk_world := λ w, (match deliver_replies out w.1 with Done c => c | Fault _ => w.1 end, w.2) |}.

Definition net_call1 (k : link) (proc to : Z) : transport (net S) := λ w req un,
  let! '(_, r) := call1_enter (nt_cl w) proc req in
  match r with
  | inl e => Done (w, un, e)
  | inr (_, pdu) =>
      let! '(v, cs, s, out) := serve_pdu w (lk_conn k) (marshall_str pdu) in
      let! '(r, _) :=
        call1 (nt_cl w, nt_clconns w) proc req to (lk_start k) [reply_tick k out] in
      match r with
      | Some ((c, st), un, ret) => Done (Net c st v cs s, un, ret)
      | None => Fault Deadlocked
      end
  end.

(** [bind] over the network *)
Definition with_cl (w : net S) (c : rpcc) : net S :=
  Net c (nt_clconns w) (nt_srv w) (nt_srvconns w) (nt_app w).

Definition bind_transport (k : link) (to : Z) : transport (rpcc * net S) := λ p req un,
  let! '(w, un, ret) := net_call1 k rpc_bind to (with_cl p.2 p.1) req un in
  Done ((nt_cl w, w), un, ret).

Definition net_bind (k : link) (to : Z) (w : net S) : outcome (net S * Z) :=
  let! '(p, ret) := rpcc_bind_to (bind_transport k to) (nt_cl w, w) in
  Done (with_cl p.2 p.1, ret).

(** the listener of the server has accepted a connection, and made its object (what it
    collects meanwhile: [Listener.v]) *)
Definition accepted (w : net S) (p fd : Z) : net S :=
  Net (nt_cl w) (nt_clconns w) (nt_srv w) (<[p := connection_new fd 0]> (nt_srvconns w)) (nt_app w).

End network.

(** ** Facts: the bytes in both directions *)

Section bytes.
Context `{Heap}.

Lemma request_bytes m l hd :
  appends marshall_new m l → mind m ≤ MARSHALL_MAX → req_header_ok hd →
  ∃ req u, pack_req_header m hd = Done req ∧ Zlength (marshall_str req) ≤ INT_MAX ∧
    unpack_req_header (unmarshall_new (marshall_str req) (Zlength (marshall_str req))) =
      Done (u, hd) ∧ reads u l.
Proof.
  intros Hm Hmax Hh. destruct (payload_new m l Hm) as [Hs Hi].
  destruct (pack_req_header_spec m hd (proj1 Hm) Hi) as (req&Hp&Hwf&Hi'&Hstr).
  pose proof (marshall_str_length m (proj1 Hm)) as Hlen.
  pose proof (marshall_str_length req Hwf) as Hlen'. change RPC_HEADER_SZ with 24 in *.
  assert (drop 24 (marshall_str m) = l) as Hd.
  { rewrite Hs. rewrite drop_app_length'; [done|]. rewrite length_take. lia. }
  rewrite Hd in Hstr. exists req. eexists. split; [done|]. rewrite Hstr in Hlen' |- *.
  unfold MARSHALL_MAX in *. split; [lia_ints|].
  apply unpack_req_header_reads; [rewrite length_take; lia|done|lia_ints].
Qed.

Lemma reply_bytes rep l h rep' :
  appends marshall_new rep l → mind rep ≤ MARSHALL_MAX → reply_header_ok h →
  pack_reply_header rep h = Done rep' →
  ∃ u, Zlength (marshall_str rep') ≤ INT_MAX ∧
    unpack_reply_header (unmarshall_new (marshall_str rep') (Zlength (marshall_str rep'))) =
      Done (u, h) ∧ uind u = RPC_HEADER_SZ ∧ reads u l.
Proof.
  intros Hm Hmax Hh Hp. destruct (payload_new rep l Hm) as [Hs Hi].
  destruct (pack_reply_header_spec rep h (proj1 Hm) Hi) as (rep1&Hp1&Hwf&Hi'&Hstr).
  rewrite Hp in Hp1. injection Hp1 as <-.
  pose proof (marshall_str_length rep (proj1 Hm)) as Hlen.
  pose proof (marshall_str_length rep' Hwf) as Hlen'. change RPC_HEADER_SZ with 24 in *.
  assert (drop 12 (marshall_str rep) = drop 12 (take 24 (marshall_str rep)) ++ l) as Hd.
  { rewrite Hs at 1. rewrite drop_app_le; [done|]. rewrite length_take. lia. }
  rewrite Hd in Hstr. eexists. rewrite Hstr in Hlen' |- *.
  unfold MARSHALL_MAX in *. split; [lia_ints|].
  destruct (unpack_reply_header_reads (take 4 (marshall_str rep)) h
    (drop 12 (take 24 (marshall_str rep))) l) as [E Hr];
    [rewrite length_take; lia|rewrite length_drop, length_take; lia|done|lia_ints|].
  split; [exact E|]. by split.
Qed.
End bytes.

(** ** The client's half *)

Section client_half.
Context `{Heap}.

(** the client with the call [x] answered *)
Definition answered_call (c : rpcc) (w : list Z) (x : Z) (ca : caller) (u : unmarshall) (ret : Z)
    : rpcc :=
  set_calls (Rpcc.set_window c w)
    (<[x := {| ca_un := (take_in (ca_un ca) u).1; ca_intret := ret; ca_done := true |}]> (calls c)).

(** the reply to a waiting call completes it *)
Lemma got_pdu_completes c R x ca b u ret :
  calls c !! x = Some ca → ca_done ca = false → window_of R (xid_rep_window c) →
  unpack_reply_header (unmarshall_new b (Zlength b)) = Done (u, {| rp_xid := x; rp_ret := ret |}) →
  uok u = true →
  ∃ w, rpcc_got_pdu c b (Zlength b) = Done (answered_call c w x ca u ret, true) ∧
    window_of ({[u32 x]} ∪ R) w.
Proof.
  intros Hca Hd Hw Hu Hok. unfold rpcc_got_pdu. rewrite Hu. cbn [obind]. rewrite Hok.
  cbn [negb]. unfold update_xid_rep. cbn [rp_xid rp_ret].
  destruct (update_window_spec R _ (u32 x) Hw (u32_range x)) as (w&Hup&Hw').
  exists w. split; [|done]. rewrite Hup. cbn [obind]. simpl. rewrite Hca, Hd. done.
Qed.

(** [call1] when the answer comes during the first wait *)
Lemma call1_answered c s R o proc req to k p u lr ret :
  call1_ready c R proc req → conns_ok s (option_list (chan c) ++ o) o →
  fresh_answer (lk_answer k) → 0 < to → 0 < tv_sec (lk_start k) →
  normal (lk_start k) → normal (lk_now k) → nanos (lk_start k) ≤ nanos (lk_now k) →
  unpack_reply_header (unmarshall_new (sn_bytes p) (Zlength (sn_bytes p))) =
    Done (u, {| rp_xid := s32 (xid_ c); rp_ret := ret |}) →
  uind u = RPC_HEADER_SZ → reads u lr →
  ∃ c' s' w ch o' un sent,
    call1 (c, s) proc req to (lk_start k) [reply_tick k [p]] =
      Done (Some ((c', s'), un, ret), sent) ∧ reads un lr ∧
    c' = set_calls (Rpcc.set_window (set_chan (set_xid c (u32 (xid_ c + 1))) ch) w)
           (delete (s32 (xid_ c)) (calls c)) ∧
    (∃ R', window_of R' w) ∧ conns_ok s' (option_list ch ++ o') o'.
Proof.
  intros Hc Hs Hf Hto Hsec Hst Hnow Hle Hu Hiu Hr.
  destruct (call1_starts c s R proc req to (lk_start k) [reply_tick k [p]] Hc Hst)
    as (final&_&Hns&Hfin&->); [lia|].
  assert (tv_sec final ≠ 0) as Hz by (unfold nanos, normal in *; lia).
  cbn [call1_loop reply_tick tk_answer tk_now tk_world]. unfold call1_transmit. cbn [loop_start lp_transmit lp_ch].
  cbn [fst snd].
  assert (world_ok (xid_ c) None (entered c, s)) as Hw.
  { split; [simpl; by rewrite lookup_insert_eq|]. split; [exists R; apply Hc|]. by exists o. }
  destruct (get_refconn_ok (xid_ c) (entered c) s None (lk_answer k) Hw Hf)
    as (c2&s2&ch2&->&(_&_&o2&Hs2)&Hc2&_). cbn [obind].
  cbn [loop_start lp_final lp_to lp_ch lp_transmit]. rewrite decide_False by done.
  destruct (next_deadline_spec final to_min (nanos (lk_start k)) (lk_now k))
    as (next&final'&->&_); [done|done|by vm_compute|done|]. cbn [obind].
  destruct (got_pdu_completes c2 R (s32 (xid_ c)) {| ca_un := unmarshall_empty;
    ca_intret := s32 stale; ca_done := false |} (sn_bytes p) u ret) as (w&Eg&Hw'); try done.
  { rewrite Hc2. simpl. apply lookup_insert_eq. }
  { rewrite Hc2. apply Hc. }
  { by destruct Hr. }
  cbn [deliver_replies fst snd]. rewrite Eg. cbn [obind]. unfold call_done, answered_call. cbn [fst].
  simpl. rewrite lookup_insert_eq. cbn [ca_done obind]. unfold call1_end, call1_leave. cbn [fst snd].
  simpl. rewrite lookup_insert_eq. cbn [ca_done obind].
  unfold update_xid_rep. simpl.
  destruct (update_window_spec _ w (xid_ c) Hw' ltac:(apply Hc)) as (w3&->&Hw3). cbn [obind].
  assert (∃ s3, match ch2 with Some p => decref s2 p | None => Done s2 end = Done s3 ∧
    conns_ok s3 (option_list (chan c2) ++ o2) o2) as (s3&->&Hs3).
  { destruct ch2 as [q|]; [|by exists s2]. apply conns_ok_decref; [done|set_solver]. }
  cbn [obind]. eexists _, s3, w3, (chan c2), o2, _, _. split; [done|]. split.
  { exact (take_in_reads unmarshall_empty u lr Hiu Hr). }
  split; [|split; [by eexists|done]]. rewrite Hc2. unfold set_calls. simpl.
  by rewrite insert_insert_eq, delete_insert_eq.
Qed.
End client_half.

(** ** The server's half *)

Section server_half.
Context `{Heap, Allocator} {S : Type}.
Implicit Types (w : net S).

(** the client [c] and the server [v] of a link: what each knows of the other,
    before [bind] and after it *)
Record acquainted (c : rpcc) (v : rpcs S) : Prop := Acquainted {
  bd_nonce : 0 < clt_nonce c < 2 ^ 32;
  bd_srv : srv_nonce c = if bind_done c then nonce_ v else 0;
  bd_srv_u32 : is_u32 (nonce_ v);
  bd_window : ∃ R, window_of R (xid_rep_window c);
  bd_xid : 1 ≤ xid_ c ≤ INT_MAX;
  bd_new : ∀ x, x ∈ xids (default [] (reply_window_ v !! clt_nonce c)) → x < xid_ c }.

(** the server, able to take a request on connection [p] *)
Definition serving (v : rpcs S) (cs : conn_store) (p : Z) : Prop :=
  counting_ v = 0 ∧ counts_ok v ∧ ∃ o ps, p ∈ o ∧ rpcs_ok v cs [] o ps.

(** a server that was just made takes requests on a connection that its listener accepts *)
Lemma started_serving (v : rpcs S) cs p fd refs :
  reply_window_ v = ∅ → heap v = ∅ → conns_ v = ∅ → counting_ v = 0 → curr_counts_ v = 0 →
  counts_ v = ∅ → conns_ok cs refs refs → cs !! p = None →
  serving v (<[p := connection_new fd 0]> cs) p.
Proof.
  intros Hw Hh Hc Hct Hcu Hcs Hok Hp. split; [done|]. split.
  { split; [rewrite Hcu; by vm_compute|]. intros q. rewrite Hcs, lookup_empty. by vm_compute. }
  exists (p :: refs), []. split; [by left|]. split; [|split].
  - rewrite Hw, Hh. split; [by split; [constructor|set_solver]|]. intros n l. by rewrite lookup_empty.
  - intros n o. by rewrite Hc, lookup_empty.
  - rewrite Hc. change (crefs ∅) with (@nil Z). simpl.
    eapply conns_ok_senders; [|by apply conns_ok_new]. intros q Hq. by right.
Qed.

(** the header of a call, as both sides read it *)
Lemma link_header c proc front :
  1 ≤ xid_ c ≤ INT_MAX → 0 < clt_nonce c < 2 ^ 32 → is_s32 proc → is_u32 (srv_nonce c) →
  let hd := make_req_header (xid_ c) proc (clt_nonce c) (srv_nonce c) front in
  req_header_ok hd ∧ rq_xid hd = xid_ c ∧ rq_proc hd = proc ∧ rq_clt_nonce hd = clt_nonce c ∧
  rq_srv_nonce hd = srv_nonce c.
Proof.
  intros Hx Hn Hp Hs hd. unfold hd, make_req_header. cbn [rq_xid rq_proc rq_clt_nonce rq_srv_nonce].
  rewrite !u32_s32, !u32_small, !s32_small by lia_ints. split; [|done].
  split; [simpl; lia_ints|]. split; [done|]. split; [simpl; lia_ints|]. split; [done|].
  simpl. apply s32_range.
Qed.

Lemma serve_pdu_new w p c proc f req l front s' rep ret :
  acquainted c (nt_srv w) → serving (nt_srv w) (nt_srvconns w) p →
  procs_ (nt_srv w) !! proc = Some f → is_s32 proc →
  appends marshall_new req l → mind req ≤ MARSHALL_MAX →
  (∀ u, reads u l → ∃ u', f (nt_app w) u marshall_new = Done (s', u', rep, ret)) →
  marshall_wf rep → RPC_HEADER_SZ ≤ mind rep → (0 ≤ ret ∨ ret = unmarshal_args_failure) →
  ∃ pdu v' cs' rep',
    pack_req_header req (make_req_header (xid_ c) proc (clt_nonce c) (srv_nonce c) front) =
      Done pdu ∧
    serve_pdu w p (marshall_str pdu) =
      Done (v', cs', s', [{| sn_conn := p; sn_bytes := marshall_str rep' |}]) ∧
    pack_reply_header rep {| rp_xid := s32 (xid_ c); rp_ret := ret |} = Done rep' ∧
    serving v' cs' p ∧ nonce_ v' = nonce_ (nt_srv w) ∧ procs_ v' = procs_ (nt_srv w) ∧
    ∀ x, x ∈ xids (default [] (reply_window_ v' !! clt_nonce c)) → x < xid_ c + 1.
Proof.
  intros [Hn Hsrv Hsu _ Hx Hnew] (Hct&Hcnt&o&ps&Hp&Hok) Hproc Hps Hreq Hmax Hf Hwf Hi Hret.
  set (v := nt_srv w) in *. set (hd := make_req_header (xid_ c) proc (clt_nonce c) (srv_nonce c) front).
  destruct (link_header c proc front Hx Hn Hps ltac:(by rewrite Hsrv; destruct (bind_done c)))
    as (Hh&Ex&Ep&Ec&Es). fold hd in Hh, Ex, Ep, Ec, Es. rewrite Hsrv in Es.
  destruct (request_bytes req l hd Hreq Hmax Hh) as (pdu&u&Hpk&Hlen&Hu&Hr).
  destruct Hok as (Hw&Hnn&Hc).
  destruct (conns_ok_incref (nt_srvconns w) p _ _ Hc) as (cs1&Hinc&Hc1); [set_solver|].
  destruct (Hf u Hr) as [u' Hfu].
  assert (dispatch_header v cs1 p (marshall_str pdu) (Zlength (marshall_str pdu)) =
    Done (cs1, Go ({| jb_conn := p; jb_hdr := hd; jb_req := u |}, f))) as Hhd.
  { unfold dispatch_header. rewrite Hu. cbn [obind]. destruct Hr as [-> _]. cbn [negb].
    rewrite Es, Ep, Hproc. destruct (bind_done c); [|done].
    by rewrite (bool_decide_eq_false_2 (nonce_ v ≠ nonce_ v)), andb_false_r by auto. }
  destruct (dispatch_new v cs1 (nt_app w) p (marshall_str pdu) (Zlength (marshall_str pdu)) o ps
    {| jb_conn := p; jb_hdr := hd; jb_req := u |} f s' u' rep ret)
    as (wd&h&m&k&n&cs'&rep'&l'&b&Ed&Hpr&Hl'&_&Hxs&Hok'&Hk); try done; [lia|..].
  { cbn [jb_hdr]. rewrite Ec. lia. }
  { cbn [jb_hdr]. rewrite Ec, Ex, u32_small by lia_ints. intros Hin%Hnew. lia. }
  cbn [jb_hdr] in *. rewrite Ec in *. rewrite Ex, (u32_small (xid_ c)) in Hxs by lia_ints.
  exists pdu. eexists _, cs', rep'. split; [done|]. split.
  { unfold serve_pdu, rpcs_got_pdu. rewrite Hinc. cbn [obind]. exact Ed. }
  split; [by rewrite Ex in Hpr; rewrite s32_small by lia_ints|].
  destruct (Hk Hct) as [-> ->]. split; [|split; [done|split; [done|]]].
  - split; [done|]. split; [done|]. by exists o, (b :: ps).
  - simpl. rewrite Hl'. simpl. intros x Hin. destruct (Hxs x Hin) as [->|Hold]; [lia|].
    apply Hnew in Hold. lia.
Qed.
End server_half.

(** ** The link carries calls *)

Section linked.
Context `{Heap, Allocator} {S : Type}.
Implicit Types (w : net S).

(** the two ends between two calls; requests arrive on the server's connection [p] *)
Definition linked (p : Z) w : Prop :=
  acquainted (nt_cl w) (nt_srv w) ∧ serving (nt_srv w) (nt_srvconns w) p ∧
  ∃ o, conns_ok (nt_clconns w) (option_list (chan (nt_cl w)) ++ o) o.

(** [connect] answers with new objects, and the clock does not go back *)
Definition timely (k : link) : Prop :=
  fresh_answer (lk_answer k) ∧ 0 < tv_sec (lk_start k) ∧ normal (lk_start k) ∧
  normal (lk_now k) ∧ nanos (lk_start k) ≤ nanos (lk_now k).

(** the client can make another call, of procedure [proc] with handler [f]; the
    first one is [bind] *)
Definition can_call (p proc : Z) (f : handler S) w : Prop :=
  linked p w ∧ xid_ (nt_cl w) < INT_MAX ∧ procs_ (nt_srv w) !! proc = Some f ∧
  bool_decide (proc = rpc_bind) = negb (bind_done (nt_cl w)).

Definition called (p : Z) w w' : Prop :=
  linked p w' ∧ xid_ (nt_cl w') = xid_ (nt_cl w) + 1 ∧
  bind_done (nt_cl w') = bind_done (nt_cl w) ∧
  (nonce_ (nt_srv w') = nonce_ (nt_srv w) ∧ clt_nonce (nt_cl w') = clt_nonce (nt_cl w)) ∧
  procs_ (nt_srv w') = procs_ (nt_srv w).

(** what [dispatch] lets a handler return *)
Definition admissible (ret : Z) : Prop := 0 ≤ ret ≤ INT_MAX ∨ ret = unmarshal_args_failure.

#[export] Instance net_call1_carries k proc to (f : handler S) :
  timely k → 0 < to → is_s32 proc →
  Carries (net_call1 k proc to) nt_app (can_call (lk_conn k) proc f) (called (lk_conn k))
    admissible f.
Proof.
  intros (Hfr&Hsec&Hst&Hnow&Hle) Hto Hps w req l un s' rep ret lr
    ((Hb&Hsv&o&Ho)&Hlt&Hp&Hpb) Hreq Hmax Hf Hrep Hrmax Hret.
  pose proof Hb as [Hn Hsrv Hsu [R HR] Hx Hnew].
  destruct (payload_new rep lr Hrep) as [_ Hri].
  assert (0 ≤ ret ∨ ret = unmarshal_args_failure) as Hret' by (destruct Hret as [?|?]; auto; lia).
  assert (call1_ready (nt_cl w) R proc req) as Hready.
  { split; [done|]. split; [lia_ints|]. split; [done|].
    split; [apply Hreq|by apply (payload_new req l)]. }
  destruct (call1_enter_ready _ _ _ _ Hready) as (pdu&front&_&Hpk&Henter).
  destruct (serve_pdu_new w (lk_conn k) (nt_cl w) proc f req l front s' rep ret Hb Hsv Hp Hps
    Hreq Hmax Hf (proj1 Hrep) Hri Hret')
    as (pdu1&v'&cs'&rep'&Hpk1&Hserve&Hpr&Hsv'&Hnon&Hprocs&Hnew').
  rewrite Hpk in Hpk1. injection Hpk1 as <-.
  assert (reply_header_ok {| rp_xid := s32 (xid_ (nt_cl w)); rp_ret := ret |}) as Hrh.
  { split; simpl; [apply s32_range|]. destruct Hret as [?| ->]; [lia_ints|by vm_compute]. }
  destruct (reply_bytes rep lr _ rep' Hrep Hrmax Hrh Hpr) as (u&Hlen&Hu&Hiu&Hr).
  destruct (call1_answered (nt_cl w) (nt_clconns w) R o proc req to k
    {| sn_conn := lk_conn k; sn_bytes := marshall_str rep' |} u lr ret Hready Ho Hfr Hto Hsec Hst
    Hnow Hle Hu Hiu Hr) as (c'&st'&wd&ch&o'&un'&sent&Ecall&Hun&Hc'&[R' HR']&Ho').
  exists (Net c' st' v' cs' s'), un'. split.
  { unfold net_call1. rewrite Henter. cbn [obind]. rewrite Hserve. cbn [obind]. by rewrite Ecall. }
  split; [done|]. split; [done|].
  assert (u32 (xid_ (nt_cl w) + 1) = xid_ (nt_cl w) + 1) as Hnx by (apply u32_small; lia_ints).
  split; [|by rewrite Hc'; simpl].
  split; [|split; [done|exists o'; by rewrite Hc']].
  rewrite Hc'. split; simpl; [done|by rewrite Hnon|by rewrite Hnon|by exists R'|lia|].
  rewrite Hnx. exact Hnew'.
Qed.
(** [bind] gets the server's nonce, and from then on the client can call *)
Lemma net_bind_ok k to w :
  timely k → 0 < to → linked (lk_conn k) w → bind_done (nt_cl w) = false →
  xid_ (nt_cl w) < INT_MAX →
  procs_ (nt_srv w) !! rpc_bind =
    Some (h1_fn (PCons c_int PNil) c_int (rpcbind (nonce_ (nt_srv w)))) →
  ∃ w', net_bind k to w = Done (w', 0) ∧ linked (lk_conn k) w' ∧ bind_done (nt_cl w') = true ∧
    nt_app w' = nt_app w ∧ procs_ (nt_srv w') = procs_ (nt_srv w) ∧
    xid_ (nt_cl w') = xid_ (nt_cl w) + 1 ∧ clt_nonce (nt_cl w') = clt_nonce (nt_cl w).
Proof.
  intros Ht Hto Hl Hbd Hx Hp. set (f := h1_fn (PCons c_int PNil) c_int (rpcbind (nonce_ (nt_srv w)))) in *.
  assert (Carries (bind_transport k to) (λ p, nt_app p.2)
    (λ p, p.1 = nt_cl p.2 ∧ can_call (lk_conn k) rpc_bind f p.2)
    (λ p p', p'.1 = nt_cl p'.2 ∧ called (lk_conn k) p.2 p'.2) admissible f) as Hcar.
  { intros [c w0] req un l s' rep ret lr [Hc Hok] ??????. simpl in Hc. subst c.
    destruct (net_call1_carries k rpc_bind to f Ht Hto ltac:(by vm_compute) w0 req un l s' rep ret lr)
      as (w'&un'&E&Hr&Ha&Haft); try done.
    exists (nt_cl w', w'), un'. split; [|done]. unfold bind_transport. cbn [fst snd].
    assert (with_cl w0 (nt_cl w0) = w0) as -> by (by destruct w0). by rewrite E. }
  destruct (call_carried _ _ _ _ _ (PCons c_int PNil) _ c_int (rpcbind (nonce_ (nt_srv w)))
    (nt_cl w, w) (0, tt) (nt_app w) (s32 (nonce_ (nt_srv w))) 0 (s32 stale))
    as ([c w1]&E&Ha&Hc&(Hcl&Hv&o&Ho)&Hx1&Hb1&(Hn1&Hcn1)&Hp1); try done.
  { split; [done|]. split; [done|]. split; [done|]. split; [done|]. simpl. by rewrite Hbd. }
  { apply s32_range. }
  { by left. }
  { intros u Hu. by eapply get_enc; [apply s32_range|]. }
  simpl in Hc, Ha, Hx1, Hb1, Hn1, Hcn1, Hp1. subst c.
  unfold net_bind, rpcc_bind_to. rewrite E. cbn [obind fst snd]. rewrite decide_True by done.
  eexists. split; [done|]. cbn [obind fst snd decide]. 
  destruct Hcl as [C1 C2 C3 C4 C5 C6].
  split; [|by split_and!]. split; [|split; [done|by exists o]]. split; simpl; try done.
  rewrite u32_s32, u32_small, Hn1 by apply Hl. done.
Qed.

(** *** A server that was started again

    The client still has the nonce of the old instance. *)

Definition outdated (p : Z) w : Prop :=
  bind_done (nt_cl w) = true ∧ 0 < clt_nonce (nt_cl w) < 2 ^ 32 ∧
  0 < srv_nonce (nt_cl w) < 2 ^ 32 ∧ srv_nonce (nt_cl w) ≠ nonce_ (nt_srv w) ∧
  1 ≤ xid_ (nt_cl w) ≤ INT_MAX ∧ (∃ R, window_of R (xid_rep_window (nt_cl w))) ∧
  (∃ o, conns_ok (nt_clconns w) (option_list (chan (nt_cl w)) ++ o) o) ∧
  ∃ refs m, p ∈ refs ∧ conns_ok (nt_srvconns w) refs m.

(** its requests are answered, whatever the procedure, without a look at the tables *)
Lemma serve_pdu_outdated p w proc front req l :
  outdated p w → is_s32 proc → appends marshall_new req l → mind req ≤ MARSHALL_MAX →
  let c := nt_cl w in
  ∃ pdu cs' rep,
    pack_req_header req (make_req_header (xid_ c) proc (clt_nonce c) (srv_nonce c) front) =
      Done pdu ∧
    pack_reply_header marshall_new {| rp_xid := s32 (xid_ c); rp_ret := oldsrv_failure |} =
      Done rep ∧
    serve_pdu w p (marshall_str pdu) =
      Done (nt_srv w, cs', nt_app w, [{| sn_conn := p; sn_bytes := marshall_str rep |}]) ∧
    (∀ refs m, p ∈ refs → conns_ok (nt_srvconns w) refs m → conns_ok cs' (p :: refs) m) ∧
    ∀ q, nt_srvconns w !! q = None → cs' !! q = None.
Proof.
  intros (_&Hn&Hs&Hne&Hx&_&_&refs&m&Hp&Hc) Hps Hreq Hmax c.
  assert (is_u32 (srv_nonce c)) as Hsu by (unfold c; lia_ints).
  destruct (link_header c proc front Hx Hn Hps Hsu) as (Hh&Ex&_&_&Es).
  set (hd := make_req_header _ _ _ _ _) in *.
  destruct (request_bytes req l hd Hreq Hmax Hh) as (pdu&u&Hpk&_&Hu&[Hok _]).
  destruct (conns_ok_incref (nt_srvconns w) p _ _ Hc) as (cs1&Hinc&_); [done|].
  destruct (pack_reply_header_spec marshall_new {| rp_xid := xid_ c; rp_ret := oldsrv_failure |})
    as (rep&Hr&_); [apply marshall_new_wf|done|].
  exists pdu, cs1, rep. split; [done|]. split; [unfold c; by rewrite s32_small by lia_ints|].
  split; [|split].
  2: { intros refs1 m1 Hp1 Hc1. destruct (conns_ok_incref (nt_srvconns w) p _ _ Hc1) as (cs2&E&?); [done|].
       rewrite E in Hinc. by injection Hinc as <-. }
  2: { intros q Hq. by apply (incref_absent (nt_srvconns w) p cs1). }
  unfold serve_pdu, rpcs_got_pdu, dispatch. rewrite Hinc. cbn [obind]. unfold dispatch_header.
  rewrite Hu. cbn [obind]. rewrite Hok, Es, Ex. cbn [negb].
  rewrite (bool_decide_eq_true_2 (srv_nonce c ≠ 0)) by (unfold c; lia).
  rewrite (bool_decide_eq_true_2 (srv_nonce c ≠ nonce_ (nt_srv w))) by exact Hne. cbn [andb].
  unfold error_reply. by rewrite Hr.
Qed.

(** the call, and what it leaves of the endpoints *)
Lemma net_call_outdated {As R} k proc to (ps : params As) (L : args_ok ps)
    (cr : codec R) w a (r : R) :
  timely k → 0 < to → outdated (lk_conn k) w → proc ≠ rpc_bind → is_s32 proc →
  valid_args ps L a → RPC_HEADER_SZ + Zlength (enc_args ps L a) ≤ MARSHALL_MAX →
  ∃ w', call ps cr (net_call1 k proc to) w a r = Done (w', r, oldsrv_failure) ∧
    nt_app w' = nt_app w ∧ nt_srv w' = nt_srv w ∧
    calls (nt_cl w') = delete (s32 (xid_ (nt_cl w))) (calls (nt_cl w)) ∧
    (∃ o, conns_ok (nt_clconns w') (option_list (chan (nt_cl w')) ++ o) o) ∧
    (∀ refs m, lk_conn k ∈ refs → conns_ok (nt_srvconns w) refs m →
      conns_ok (nt_srvconns w') (lk_conn k :: refs) m) ∧
    ∀ q, nt_srvconns w !! q = None → nt_srvconns w' !! q = None.
Proof.
  intros (Hfr&Hsec&Hst&Hnow&Hle) Hto Hout Hpb Hps Ha Hmax.
  destruct (put_request ps L a Ha Hmax) as (req&Hput&Hreq&Hmm).
  pose proof Hout as (Hbd&_&_&_&Hx&(R0&HR)&(o&Ho)&_).
  assert (call1_ready (nt_cl w) R0 proc req) as Hready.
  { split; [done|]. split; [lia_ints|]. split; [rewrite Hbd; by apply bool_decide_eq_false_2|].
    split; [apply Hreq|by apply (payload_new req (enc_args ps L a))]. }
  destruct (call1_enter_ready _ _ _ _ Hready) as (pdu&front&_&Hpk&Henter).
  destruct (serve_pdu_outdated (lk_conn k) w proc front req _ Hout Hps Hreq Hmm)
    as (pdu1&cs'&rep&Hpk1&Hrep&Hserve&Hcs').
  rewrite Hpk in Hpk1. injection Hpk1 as <-.
  destruct (reply_bytes marshall_new [] {| rp_xid := s32 (xid_ (nt_cl w)); rp_ret := oldsrv_failure |}
    rep) as (u&_&Hu&Hiu&Hr); [apply appends_nil, marshall_new_wf|done| |done|].
  { split; simpl; [apply s32_range|by vm_compute]. }
  destruct (call1_answered (nt_cl w) (nt_clconns w) R0 o proc req to k
    {| sn_conn := lk_conn k; sn_bytes := marshall_str rep |} u [] oldsrv_failure Hready Ho Hfr Hto
    Hsec Hst Hnow Hle Hu Hiu Hr) as (c'&st'&wd&ch&o'&un'&sent&Ecall&_&Hc'&_&Ho').
  exists (Net c' st' (nt_srv w) cs' (nt_app w)). split.
  - unfold call, call_m. rewrite Hput. cbn [obind]. unfold net_call1. rewrite Henter. cbn [obind].
    rewrite Hserve. cbn [obind]. by rewrite Ecall.
  - split; [done|]. split; [done|]. subst c'. split; [done|]. split; [by exists o'|done].
Qed.


(** a call of a client that is bound *)
Lemma net_call_ok {As R} k proc to (ps : params As) (L : args_ok ps) (cr : codec R)
    `{!CodecLaws cr} (meth : method S As R) w a s1 r b r0 :
  timely k → 0 < to → linked (lk_conn k) w → bind_done (nt_cl w) = true →
  xid_ (nt_cl w) < INT_MAX → procs_ (nt_srv w) !! proc = Some (h1_fn ps cr meth) →
  proc ≠ rpc_bind → is_s32 proc → valid_args ps L a →
  RPC_HEADER_SZ + Zlength (enc_args ps L a) ≤ MARSHALL_MAX →
  meth (nt_app w) a (c_init cr) = Done (s1, r, b) → 0 ≤ b ≤ INT_MAX →
  c_valid cr r → RPC_HEADER_SZ + Zlength (enc cr r) ≤ MARSHALL_MAX →
  (∀ u, reads u (enc cr r ++ []) → c_get cr u r0 = Done (advance u (Zlength (enc cr r)), r)) →
  ∃ w', call ps cr (net_call1 k proc to) w a r0 = Done (w', r, b) ∧ nt_app w' = s1 ∧
    called (lk_conn k) w w'.
Proof.
  intros Hk Hto Hl Hbd Hx Hp Hpb Hps Ha Hmax Hm Hb Hv Hrmax Hget.
  pose proof (net_call1_carries k proc to (h1_fn ps cr meth) Hk Hto Hps) as Hcar.
  destruct (call_carried _ nt_app _ _ _ ps L cr meth w a s1 r b r0) as (w1&E&Hw1&Haft);
    try done; [|by left|].
  { split; [done|]. split; [lia|]. split; [done|]. rewrite Hbd. by apply bool_decide_eq_false_2. }
  rewrite decide_False in E by lia. by exists w1.
Qed.

(** a second [bind] is refused at the client *)
Lemma net_bind_again k to w :
  bind_done (nt_cl w) = true → net_bind k to w = Done (w, bind_failure).
Proof.
  intros Hbd. unfold net_bind, rpcc_bind_to, call. cbn [put_args].
  destruct (put_args_spec (PCons c_int PNil) _ marshall_new (0, tt)) as (m&E&_);
    [by split|apply marshall_new_wf|by vm_compute|]. cbn [put_args] in E. rewrite E. cbn [obind].
  unfold call_m, bind_transport, net_call1, call1_enter. cbn [fst snd]. unfold with_cl. simpl.
  rewrite Hbd. simpl. by destruct w.
Qed.
End linked.

(** ** Client programs

    A program of the client that calls methods of the server's object and goes on
    with what they return: the same program runs against the object itself and
    against the network. *)

Inductive prog (S A : Type) : Type :=
  | PRet (x : A)
  | PCall {As R} (proc : Z) (ps : params As) (cr : codec R) (to : Z) (meth : method S As R)
      (a : As) (next : R → Z → prog S A).
Arguments PRet {S A} _.
Arguments PCall {S A As R} _ _ _ _ _ _ _.

Section programs.
Context `{Heap, Allocator} {S A : Type}.
Implicit Types (w : net S) (g : prog S A).

(** the [i]-th call meets [ks i] *)
Fixpoint net_run (ks : nat → link) (i : nat) g w : outcome (net S * A) :=
  match g with
  | PRet x => Done (w, x)
  | PCall proc ps cr to meth a next =>
      let! '(w, r, b) := call ps cr (net_call1 (ks i) proc to) w a (c_init cr) in
      net_run ks (Datatypes.S i) (next r b) w
  end.

(** [runs v g s n s' x]: on the object in state [s] the program makes [n] calls
    of procedures that [v] has registered, all of which return a value that is
    not negative and have arguments and results that fit into a PDU; it ends in
    state [s'] with result [x] *)
Inductive runs (procs : gmap Z (handler S)) : prog S A → S → nat → S → A → Prop :=
  | runs_ret s x : runs procs (PRet x) s 0 s x
  | runs_call {As R} proc (ps : params As) (L : args_ok ps) (cr : codec R) (Lc : CodecLaws cr)
      to meth a next s s1 r b n s' x :
      procs !! proc = Some (h1_fn ps cr meth) → proc ≠ rpc_bind → is_s32 proc → 0 < to →
      valid_args ps L a → RPC_HEADER_SZ + Zlength (enc_args ps L a) ≤ MARSHALL_MAX →
      meth s a (c_init cr) = Done (s1, r, b) → 0 ≤ b ≤ INT_MAX →
      c_valid cr r → RPC_HEADER_SZ + Zlength (enc cr r) ≤ MARSHALL_MAX →
      runs procs (next r b) s1 n s' x →
      runs procs (PCall proc ps cr to meth a next) s (Datatypes.S n) s' x.

(** a client that is bound *)
Lemma net_run_ok p ks g w i n s' x :
  linked p w → bind_done (nt_cl w) = true → runs (procs_ (nt_srv w)) g (nt_app w) n s' x →
  (∀ j, timely (ks j) ∧ lk_conn (ks j) = p) → xid_ (nt_cl w) + Z.of_nat n ≤ INT_MAX →
  ∃ w', net_run ks i g w = Done (w', x) ∧ nt_app w' = s' ∧ linked p w' ∧
    xid_ (nt_cl w') = xid_ (nt_cl w) + Z.of_nat n.
Proof.
  intros Hl Hbd Hr Hks Hn. remember (procs_ (nt_srv w)) as procs eqn:Hprocs.
  remember (nt_app w) as s eqn:Hs. revert w i Hl Hbd Hprocs Hs Hn.
  induction Hr as [s x|As R proc ps L cr Lc to meth a next s s1 r b n s' x Hp Hpb Hps Hto Ha Hmax
    Hm Hb Hv Hrmax Hr IH]; intros w i Hl Hbd Hprocs Hs Hn.
  { exists w. cbn [net_run]. split; [done|]. split; [done|]. split; [done|lia]. }
  destruct (Hks i) as [Ht Hk]. subst s procs p.
  destruct (net_call_ok (ks i) proc to ps L cr meth w a s1 r b (c_init cr)) as (w1&E&Hw1&Haft);
    try done; [lia|intros u Hu; by eapply get_enc|].
    destruct Haft as (Hl1&Hx1&Hb1&_&Hp1).
  destruct (IH w1 (Datatypes.S i)) as (w'&E'&Hw'&Hl'&Hx'); [done|by rewrite Hb1|by rewrite Hp1|done|lia|].
  exists w'. cbn [net_run]. rewrite E. cbn [obind]. split; [done|]. split; [done|]. split; [done|lia].
Qed.
(** a client that was just made, and a server that has not met it *)
Definition fresh_link (p rnd loss : Z) w : Prop :=
  nt_cl w = rpcc_new true rnd loss ∧ nt_clconns w = ∅ ∧ 0 < rnd < 2 ^ 32 ∧
  reply_window_ (nt_srv w) !! rnd = None ∧ is_u32 (nonce_ (nt_srv w)) ∧
  procs_ (nt_srv w) !! rpc_bind =
    Some (h1_fn (PCons c_int PNil) c_int (rpcbind (nonce_ (nt_srv w)))) ∧
  serving (nt_srv w) (nt_srvconns w) p.

Lemma new_client_linked p rnd loss w o :
  nt_cl w = rpcc_new true rnd loss → 0 < rnd < 2 ^ 32 → conns_ok (nt_clconns w) o o →
  reply_window_ (nt_srv w) !! rnd = None → is_u32 (nonce_ (nt_srv w)) →
  serving (nt_srv w) (nt_srvconns w) p → linked p w.
Proof.
  intros Hc Hr Hcs Hw Hn Hs. split; [|split; [done|]].
  - rewrite Hc. simpl. split; simpl.
    + rewrite u32_small by lia_ints. lia.
    + done.
    + done.
    + exists {[0]}. apply window_of_new.
    + by vm_compute.
    + rewrite u32_small, Hw by lia_ints. intros y Hy. by apply elem_of_nil in Hy.
  - rewrite Hc. by exists o.
Qed.

Lemma fresh_link_linked p rnd loss w : fresh_link p rnd loss w → linked p w.
Proof.
  intros (Hc&Hcs&Hr&Hw&Hn&_&Hs). apply (new_client_linked p rnd loss w []); try done.
  rewrite Hcs. split; [split|]; [intros ? Hin; by apply elem_of_nil in Hin|done..].
Qed.

End programs.

(** ** Witnesses *)

#[local] Existing Instance zero_heap.
#[local] Existing Instance fresh_allocator.

Definition sample_net : net Z :=
  {| nt_cl := rpcc_new true 77 0; nt_clconns := ∅;
     nt_srv := {| nonce_ := 9; reply_window_ := ∅; heap := ∅; conns_ := ∅; counting_ := 0;
                  curr_counts_ := 0; counts_ := ∅;
                  procs_ := {[ 22 := h1_fn sample_params c_string sample_method;
                               1 := h1_fn (PCons c_int PNil) c_int (rpcbind 9) ]} |};
     nt_srvconns := sample_conns false; nt_app := 6 |}.

Definition sample_link : link :=
  {| lk_answer := λ s, if decide (s !! 1 = None) then Some (1, 3) else None; lk_conn := 1;
     lk_start := Timespec 100 0; lk_now := Timespec 100 7 |}.

Lemma sample_link_timely : timely sample_link.
Proof.
  split; [|by vm_compute]. intros s p fd. simpl. case_decide; [|done]. by intros [= <- _].
Qed.

Lemma sample_net_fresh : fresh_link 1 77 0 sample_net.
Proof.
  split; [reflexivity|]. split; [reflexivity|]. split; [lia|]. split; [reflexivity|].
  split; [by vm_compute|]. split; [reflexivity|]. split; [reflexivity|].
  split; [apply sample_counts|]. exists [1], []. split; [by left|].
  destruct (sample_server_ok false) as (Hw&Hnn&Hc&_). split; [exact Hw|]. split; [exact Hnn|].
  split; [exact Hc|]. intros q c' Hq _.
  destruct (proj1 (lookup_singleton_Some 1 q (connection_new 5 0) c') Hq) as [<- _]. by left.
Qed.

(** two concatenations, the second of the first's result with itself *)
Definition sample_program : prog Z (list byte) :=
  PCall 22 sample_params c_string 3000 sample_method (be32 65, (be32 7, tt)) (λ r _,
    PCall 22 sample_params c_string 3000 sample_method (r, (r, tt)) (λ r' _, PRet r')).

Lemma sample_program_runs :
  runs (procs_ (nt_srv sample_net)) sample_program 6 2 8
    (be32 65 ++ be32 7 ++ be32 65 ++ be32 7).
Proof.
  eapply (runs_call _ 22 sample_params _ c_string _ 3000 sample_method _ _ 6 7
    (be32 65 ++ be32 7) 0); [reflexivity|discriminate|by vm_compute|by vm_compute|by vm_compute|
    by vm_compute|reflexivity|by vm_compute|by vm_compute|by vm_compute|].
  eapply (runs_call _ 22 sample_params _ c_string _ 3000 sample_method _ _ 7 8
    (be32 65 ++ be32 7 ++ be32 65 ++ be32 7) 0); [reflexivity|discriminate|by vm_compute|
    by vm_compute|by vm_compute|by vm_compute|reflexivity|by vm_compute|by vm_compute|
    by vm_compute|].
  apply runs_ret.
Qed.


(** the server of [sample_net] started again, with nonce 10 *)
Definition restarted_net : net Z :=
  {| nt_cl := set_bound (rpcc_new true 77 0) 9; nt_clconns := ∅;
     nt_srv := {| nonce_ := 10; reply_window_ := ∅; heap := ∅; conns_ := ∅; counting_ := 0;
                  curr_counts_ := 0; counts_ := ∅;
                  procs_ := {[ 22 := h1_fn sample_params c_string sample_method ]} |};
     nt_srvconns := sample_conns false; nt_app := 0 |}.

