(* ===== verification/Stack.v ===== *)
(** * The whole stack: FUSE handlers, file system, RPC library, extent server

    [Yfs.v] and [Fuse.v] are written against [extent_api].  [extent_local] offers
    it by calling the methods of the extent server; [extent_net] by the stubs of
    the extent client over the endpoints of [Network.v].  The second simulates
    the first ([Simulates]); therefore the file system mounted over the network
    gives the kernel the replies that it would give on the server itself.  The
    simulation counts the calls that are left until the client's xids run out. *)

From S2P Require Import Prelude Marshall Codec Timespec Address Connection Stubs Rpcc Rpcs.
From S2P Require Import Extent Yfs Fuse Network.

(** ** Simulation between two extent services *)

(** whatever the second computation returns, the first returns in a related state *)
Definition follows {X1 X2} (Q : X1 → X2 → Prop) (o1 : outcome X1) (o2 : outcome X2) : Prop :=
  ∀ x2, o2 = Done x2 → ∃ x1, o1 = Done x1 ∧ Q x1 x2.

Definition same1 {W1 W2 A} (R : W1 → W2 → Prop) (x1 : W1 * A) (x2 : W2 * A) : Prop :=
  R x1.1 x2.1 ∧ x1.2 = x2.2.
Definition same2 {W1 W2 A B} (R : W1 → W2 → Prop) (x1 : W1 * A * B) (x2 : W2 * A * B) : Prop :=
  same1 R x1.1 x2.1 ∧ x1.2 = x2.2.

Lemma follows_done {X1 X2} (Q : X1 → X2 → Prop) x1 x2 : Q x1 x2 → follows Q (Done x1) (Done x2).
Proof. intros H y [= <-]. by exists x1. Qed.

Lemma follows_bind {X1 X2 Y1 Y2} (Q : X1 → X2 → Prop) (Q' : Y1 → Y2 → Prop) o1 o2 k1 k2 :
  follows Q o1 o2 → (∀ x1 x2, o2 = Done x2 → Q x1 x2 → follows Q' (k1 x1) (k2 x2)) →
  follows Q' (obind o1 k1) (obind o2 k2).
Proof.
  intros Ho Hk y2 E. apply obind_Done_inv in E as (x2&E2&E).
  destruct (Ho x2 E2) as (x1&->&HQ). exact (Hk x1 x2 E2 HQ y2 E).
Qed.

Lemma follows_bind1 {W1 W2 A Y1 Y2} (R : W1 → W2 → Prop) (Q' : Y1 → Y2 → Prop) o1 o2
    (k1 : W1 * A → outcome Y1) (k2 : W2 * A → outcome Y2) :
  follows (same1 R) o1 o2 →
  (∀ w1 w2 a, o2 = Done (w2, a) → R w1 w2 → follows Q' (k1 (w1, a)) (k2 (w2, a))) →
  follows Q' (obind o1 k1) (obind o2 k2).
Proof.
  intros Ho Hk. eapply follows_bind; [exact Ho|]. intros [w1 a] [w2 a'] E [HR Ha].
  simpl in HR, Ha. subst a'. by apply Hk.
Qed.

Lemma follows_bind2 {W1 W2 A B Y1 Y2} (R : W1 → W2 → Prop) (Q' : Y1 → Y2 → Prop) o1 o2
    (k1 : W1 * A * B → outcome Y1) (k2 : W2 * A * B → outcome Y2) :
  follows (same2 R) o1 o2 →
  (∀ w1 w2 a b, o2 = Done (w2, a, b) → R w1 w2 → follows Q' (k1 (w1, a, b)) (k2 (w2, a, b))) →
  follows Q' (obind o1 k1) (obind o2 k2).
Proof.
  intros Ho Hk. eapply follows_bind; [exact Ho|]. intros [[w1 a] b] [[w2 a'] b'] E [[HR Ha] Hb].
  simpl in HR, Ha, Hb. subst a' b'. by apply Hk.
Qed.

(** a computation that does not touch the state *)
Lemma follows_pure {A Y1 Y2} (Q : Y1 → Y2 → Prop) (o : outcome A) k1 k2 :
  (∀ a, follows Q (k1 a) (k2 a)) → follows Q (obind o k1) (obind o k2).
Proof. intros Hk. destruct o; [apply Hk|done]. Qed.

(** [R n]: the states correspond, and [n] more calls can be made *)
Class Simulates {W1 W2} (api1 : extent_api W1) (api2 : extent_api W2) `{!ExtentLaws api2}
    (R : nat → W1 → W2 → Prop) : Prop := {
  sim_ok n w1 w2 : R n w1 w2 → ext_ok w2;
  sim_weaken n w1 w2 : R (S n) w1 w2 → R n w1 w2;
  sim_get n w1 w2 id : R (S n) w1 w2 → is_u64 id →
    follows (same2 (R n)) (ea_get api1 w1 id) (ea_get api2 w2 id);
  sim_getattr n w1 w2 id : R (S n) w1 w2 → is_u64 id →
    follows (same2 (R n)) (ea_getattr api1 w1 id) (ea_getattr api2 w2 id);
  sim_put n w1 w2 id b : R (S n) w1 w2 → is_u64 id → fits (api := api2) b →
    follows (same1 (R n)) (ea_put api1 w1 id b) (ea_put api2 w2 id b) }.

(** *** The file system *)

Section simulation.
Context {W1 W2 : Type} (api1 : extent_api W1) (api2 : extent_api W2) `{!ExtentLaws api2}
  (R : nat → W1 → W2 → Prop) `{!Simulates api1 api2 R}.

Lemma sim_le n m w1 w2 : (n ≤ m)%nat → R m w1 w2 → R n w1 w2.
Proof. induction 1 as [|m _ IH]; [done|]. intros H. by apply IH, sim_weaken. Qed.

Lemma follows_return {A B} n m w1 w2 (a : A) (b : B) :
  R m w1 w2 → (n ≤ m)%nat → follows (same2 (R n)) (Done (w1, a, b)) (Done (w2, a, b)).
Proof. intros HR Hn. apply follows_done. split; [|done]. split; [|done]. by apply (sim_le n m). Qed.

Lemma lookup_follows n w1 w2 p name id :
  R (S n) w1 w2 → is_u64 p →
  follows (same2 (R n)) (Yfs.lookup api1 w1 p name id) (Yfs.lookup api2 w2 p name id).
Proof.
  intros HR Hp. unfold Yfs.lookup. eapply follows_bind2; [by apply sim_get|].
  intros v1 v2 b r _ Hv. cbn beta iota. case_decide; [by apply follows_done|].
  apply follows_pure. intros [fl []]; [|by apply follows_done].
  destruct (find_name name fl); by apply follows_done.
Qed.

Lemma readdir_follows n w1 w2 p fl :
  R (S n) w1 w2 → is_u64 p → follows (same2 (R n)) (readdir api1 w1 p fl) (readdir api2 w2 p fl).
Proof.
  intros HR Hp. unfold readdir. eapply follows_bind2; [by apply sim_get|].
  intros v1 v2 b r _ Hv. cbn beta iota. case_decide; [by apply follows_done|].
  apply follows_pure. intros [fl' good]. by apply follows_done.
Qed.

Lemma getfile_follows n w1 w2 i fin :
  R (S n) w1 w2 → is_u64 i → follows (same2 (R n)) (getfile api1 w1 i fin) (getfile api2 w2 i fin).
Proof.
  intros HR Hi. unfold getfile. eapply follows_bind2; [by apply sim_getattr|].
  intros v1 v2 a r _ Hv. cbn beta iota. case_decide; by apply follows_done.
Qed.

Lemma getdir_follows n w1 w2 i din :
  R (S n) w1 w2 → is_u64 i → follows (same2 (R n)) (getdir api1 w1 i din) (getdir api2 w2 i din).
Proof.
  intros HR Hi. unfold getdir. eapply follows_bind2; [by apply sim_getattr|].
  intros v1 v2 a r _ Hv. cbn beta iota. case_decide; by apply follows_done.
Qed.

Lemma createfile_follows n rnd w1 w2 p name id :
  R (4 + n) w1 w2 → is_u64 p →
  (∀ fl, is_dir api2 w2 p fl → fits (api := api2) (serialize (fl ++ [(new_inum rnd 1, name)]))) →
  follows (same2 (R n)) (createfile api1 rnd w1 p name id) (createfile api2 rnd w2 p name id).
Proof.
  intros HR Hp Hf. unfold createfile. pose proof (sim_ok _ _ _ HR) as Hw.
  eapply follows_bind2; [by apply (lookup_follows (3 + n))|]. intros u1 u2 i r E Hu.
  destruct (lookup_view api2 w2 p name id u2 i r Hw Hp E) as [Hu2 Hv]. cbn beta iota.
  case_decide; [eapply follows_return; [exact Hu|lia]|].
  case_decide; [|eapply follows_return; [exact Hu|lia]].
  eapply follows_bind2; [by apply (readdir_follows (2 + n))|]. intros v1 v2 fl r2 E2 Hv1.
  destruct (readdir_inv api2 u2 p v2 fl r2 Hu2 Hp E2) as (Hv2&Hvv&Hd). cbn beta iota.
  case_decide as Hr2; [|eapply follows_return; [exact Hv1|lia]].
  eapply follows_bind1.
  { apply (sim_put (1 + n)); [done|done|]. apply Hf. eapply is_dir_view; [|by apply Hd]. by rewrite Hv. }
  intros x1 x2 r3 _ Hx. cbn beta iota.
  case_decide; [eapply follows_return; [exact Hx|lia]|].
  eapply follows_bind1; [apply (sim_put n); [done|apply new_inum_spec|apply fits_nil]|].
  intros y1 y2 r4 _ Hy. cbn beta iota. case_decide; by apply follows_done.
Qed.

(** *** The handlers *)

Section handlers.
Context `{Heap, DirentLaws}.

Lemma getattr_follows n w1 w2 i :
  R (S n) w1 w2 → is_u64 i →
  follows (same2 (R n)) (Fuse.getattr api1 w1 i) (Fuse.getattr api2 w2 i).
Proof.
  intros HR Hi. unfold Fuse.getattr. destruct (isfile i).
  - eapply follows_bind2; [by apply getfile_follows|]. intros v1 v2 info r _ Hv. cbn beta iota.
    case_decide; by apply follows_done.
  - eapply follows_bind2; [by apply getdir_follows|]. intros v1 v2 info r _ Hv. cbn beta iota.
    case_decide; by apply follows_done.
Qed.

(** the inodes that the file system hands out *)
Lemma lookup_id w p name id w' i :
  fs_ok api2 w → is_u64 p → isdir p = true → Yfs.lookup api2 w p name id = Done (w', i, OK) →
  is_u64 i.
Proof.
  intros Hfs Hp Hpd E. pose proof Hfs as [Hw _].
  destruct (fs_ok_dir api2 w p Hfs Hpd) as [Hno|(fl&Hd&Hall)].
  - destruct (lookup_missing api2 w p name id Hw Hp Hno) as (w1&E1&_). rewrite E in E1.
    discriminate E1.
  - destruct (lookup_ok api2 w p fl name id Hw Hp Hd) as (w1&E1&_). rewrite E in E1.
    destruct (find_name name fl) as [j|] eqn:Hf; [|discriminate E1]. injection E1 as -> ->.
    apply find_name_in in Hf. rewrite Forall_forall in Hall. by apply Hall in Hf as [? _].
Qed.

Lemma createfile_id rnd w p name id w' i :
  fs_ok api2 w → is_u64 p → isdir p = true → name ≠ [] →
  (∀ fl, is_dir api2 w p fl → fits (api := api2) (serialize (fl ++ [(new_inum rnd 1, name)]))) →
  createfile api2 rnd w p name id = Done (w', i, OK) → is_u64 i.
Proof.
  intros Hfs Hp Hpd Hne Hf E. pose proof Hfs as [Hw _].
  destruct (fs_ok_dir api2 w p Hfs Hpd) as [Hno|(fl&Hd&_)].
  - unfold createfile in E. destruct (lookup_missing api2 w p name id Hw Hp Hno) as (w1&E1&_).
    rewrite E1 in E. discriminate E.
  - destruct (createfile_fs_ok api2 rnd w p fl name id Hfs Hp Hpd Hd Hne (Hf fl Hd))
      as (w1&j&fl'&E1&Hfs1&Hd1&Hn1). rewrite E in E1. injection E1 as -> ->.
    pose proof (is_dir_ids api2 w1 p fl' (proj1 Hfs1) Hd1) as Hall.
    apply find_name_in in Hn1. rewrite Forall_forall in Hall. by apply Hall in Hn1.
Qed.

Lemma createhelper_follows n rnd w1 w2 p name e :
  R (5 + n) w1 w2 → fs_ok api2 w2 → is_u64 p → isdir p = true → name ≠ [] →
  (∀ fl, is_dir api2 w2 p fl → fits (api := api2) (serialize (fl ++ [(new_inum rnd 1, name)]))) →
  follows (same2 (R n)) (fuseserver_createhelper api1 rnd w1 p name e)
    (fuseserver_createhelper api2 rnd w2 p name e).
Proof.
  intros HR Hfs Hp Hpd Hne Hf. unfold fuseserver_createhelper.
  eapply follows_bind2; [by apply (createfile_follows (1 + n))|]. intros v1 v2 i r E Hv.
  cbn beta iota. case_decide as Hr; [|eapply follows_return; [exact Hv|lia]]. subst r.
  eapply follows_bind2; [apply (getattr_follows n); [done|by eapply createfile_id]|].
  intros x1 x2 st r _ Hx. cbn beta iota. case_decide; by apply follows_done.
Qed.

Lemma fuse_lookup_follows n w1 w2 p name :
  R (2 + n) w1 w2 → fs_ok api2 w2 → is_u64 p → isdir p = true →
  follows (same1 (R n)) (fuseserver_lookup api1 w1 p name) (fuseserver_lookup api2 w2 p name).
Proof.
  intros HR Hfs Hp Hpd. unfold fuseserver_lookup.
  eapply follows_bind2; [by apply (lookup_follows (1 + n))|]. intros v1 v2 i r E Hv.
  cbn beta iota. case_decide as Hr; [|apply follows_done; split; [by apply sim_weaken|done]].
  subst r. eapply follows_bind2; [apply (getattr_follows n); [done|by eapply lookup_id]|].
  intros x1 x2 st r _ Hx. cbn beta iota. case_decide; by apply follows_done.
Qed.

Lemma readdir_reply_follows n w1 w2 ino size off :
  R (1 + n) w1 w2 → is_u64 ino →
  follows (same1 (R n)) (fuseserver_readdir api1 w1 ino size off)
    (fuseserver_readdir api2 w2 ino size off).
Proof.
  intros HR Hi. unfold fuseserver_readdir.
  destruct (negb (isdir ino)); [apply follows_done; split; [by apply sim_weaken|done]|].
  eapply follows_bind2; [by apply (readdir_follows n)|]. intros v1 v2 fl r _ Hv. cbn beta iota.
  apply follows_pure. intros b. apply follows_pure. intros rep. by apply follows_done.
Qed.

(** a request makes at most five calls *)
Lemma oper_follows n rnd w1 w2 q :
  R (5 + n) w1 w2 → fs_ok api2 w2 → req_sane api2 rnd w2 q →
  follows (same1 (R n)) (fuseserver_oper api1 rnd w1 q) (fuseserver_oper api2 rnd w2 q).
Proof.
  intros HR Hfs Hq.
  assert (∀ rep : fuse_reply, follows (same1 (R n)) (Done (w1, rep)) (Done (w2, rep))) as Hquiet.
  { intros rep. apply follows_done. split; [by apply (sim_le n (5 + n)); [lia|]|done]. }
  destruct q; simpl in Hq; cbn [fuseserver_oper]; try apply Hquiet.
  - unfold fuseserver_getattr. eapply follows_bind2.
    { apply (getattr_follows n); [by apply (sim_le (1 + n) (5 + n)); [lia|]|done]. }
    intros v1 v2 st r _ Hv. cbn beta iota. case_decide; by apply follows_done.
  - unfold fuseserver_setattr. case_decide; apply Hquiet.
  - destruct Hq as (?&?&?&?). unfold fuseserver_create.
    eapply follows_bind2; [by apply (createhelper_follows n)|].
    intros v1 v2 e r _ Hv. cbn beta iota. case_decide; by apply follows_done.
  - destruct Hq as (?&?&?&?). unfold fuseserver_mknod.
    eapply follows_bind2; [by apply (createhelper_follows n)|].
    intros v1 v2 e r _ Hv. cbn beta iota. case_decide; by apply follows_done.
  - destruct Hq as (Hp&Hpd).
    apply (fuse_lookup_follows n); [by apply (sim_le (2 + n) (5 + n)); [lia|]|done..].
  - destruct Hq as (Hp&_). apply (readdir_reply_follows n); [by apply (sim_le (1 + n) (5 + n)); [lia|]|done].
Qed.
End handlers.
End simulation.

(** ** The extent server itself *)

Section local_api.
Context `{Heap}.

(** the methods of the server, called where they are *)
Definition extent_local : extent_api extent_server :=
  {| ea_get s id := es_get s (id, tt) [];
     ea_getattr s id := es_getattr s (id, tt) (c_init c_attr);
     ea_put s id b := let! '(s, _, r) := es_put s (id, (b, tt)) (s32 stale) in Done (s, r) |}.

#[local] Obligation Tactic := idtac.

#[export, program] Instance extent_local_laws : ExtentLaws extent_local :=
  {| ext_ok := extent_ok; view := es_data; fits := extent_fits |}.
Next Obligation. by vm_compute. Qed.
Next Obligation.
  intros b Hb. unfold extent_fits, MARSHALL_MAX in Hb. change RPC_HEADER_SZ with 24 in Hb. lia_ints.
Qed.
Next Obligation. intros s id b [Hf _]. apply Hf. Qed.
Next Obligation.
  intros s id Hok _. exists s, (default [] (es_data s !! id)). cbn [ea_get extent_local es_get].
  destruct (es_data s !! id) as [b|]; (split; [done|]; split; [done|]; split; [done|]);
    by intros b' [= <-].
Qed.
Next Obligation.
  intros s id Hok _. exists s, (default (c_init c_attr) (es_attr s !! id)).
  cbn [ea_getattr extent_local es_getattr]. rewrite (proj2 Hok id).
  destruct (es_data s !! id) as [b|]; (split; [done|]; split; [done|]; split; [done|]);
    by intros [? ?].
Qed.
Next Obligation.
  intros s id b Hok _ Hb. destruct (es_put_ok s id b (s32 stale) Hok Hb) as (s'&E&Hok'&Hd).
  exists s'. cbn [ea_put extent_local]. rewrite E. done.
Qed.
End local_api.

(** ** The extent client over the network *)

Section network_api.
Context `{Heap, Allocator}.

(** the call with xid [x] meets the link [ks x] *)
Definition extent_net (ks : Z → link) : extent_api (net extent_server) :=
  let call1 w := λ proc, net_call1 (ks (xid_ (nt_cl w))) proc to_max in
  {| ea_get w id := ec_get (call1 w) w id [];
     ea_getattr w id := ec_getattr (call1 w) w id (c_init c_attr);
     ea_put w id b := ec_put (call1 w) w id b |}.

(** a bound client and the server it is bound to, with [n] xids left; [s] is the
    server's object *)
Definition mounted (p : Z) (n : nat) (w : net extent_server) (s : extent_server) : Prop :=
  linked p w ∧ bind_done (nt_cl w) = true ∧ nt_app w = s ∧ extent_ok s ∧
  xid_ (nt_cl w) + Z.of_nat n ≤ INT_MAX ∧
  procs_ (nt_srv w) !! rpc_get = Some (h1_fn get_params c_string es_get) ∧
  procs_ (nt_srv w) !! rpc_getattr = Some (h1_fn get_params c_attr es_getattr) ∧
  procs_ (nt_srv w) !! rpc_put = Some (h1_fn put_params c_int es_put).

Context (p : Z) (ks : Z → link) (Hks : ∀ x, timely (ks x) ∧ lk_conn (ks x) = p).

Lemma mounted_called n w s w' s' :
  mounted p (S n) w s → called p w w' → nt_app w' = s' → extent_ok s' → mounted p n w' s'.
Proof.
  intros (_&Hb&_&_&Hx&H1&H2&H3) (Hl&Hx'&Hb'&_&Hp) Ha Hok. unfold mounted.
  rewrite Hb', Hx', Hp. split_and!; try done. lia.
Qed.

(** one call of the extent client *)
Lemma extent_call {As R} proc (ps : params As) (L : args_ok ps) (cr : codec R)
    `{!CodecLaws cr} (meth : method extent_server As R) n w s a s1 r b :
  mounted p (S n) w s → procs_ (nt_srv w) !! proc = Some (h1_fn ps cr meth) →
  proc ≠ rpc_bind → is_s32 proc → valid_args ps L a →
  RPC_HEADER_SZ + Zlength (enc_args ps L a) ≤ MARSHALL_MAX →
  meth s a (c_init cr) = Done (s1, r, b) → 0 ≤ b ≤ INT_MAX →
  c_valid cr r → RPC_HEADER_SZ + Zlength (enc cr r) ≤ MARSHALL_MAX → extent_ok s1 →
  ∃ w', call ps cr (net_call1 (ks (xid_ (nt_cl w))) proc to_max) w a (c_init cr) =
      Done (w', r, b) ∧ mounted p n w' s1.
Proof.
  intros Hm Hp Hpb Hps Ha Hmax Hmeth Hb Hv Hrmax Hok. pose proof Hm as (Hl&Hbd&Happ&_&Hx&_).
  destruct (Hks (xid_ (nt_cl w))) as [Ht Hk]. rewrite <-Hk in Hl. rewrite <-Happ in Hmeth.
  destruct (net_call_ok (ks (xid_ (nt_cl w))) proc to_max ps L cr meth w a s1 r b (c_init cr))
    as (w'&E&Ha'&Hc); try done; [lia|intros u Hu; by eapply get_enc|].
  exists w'. split; [done|]. rewrite Hk in Hc. by eapply mounted_called.
Qed.

(** the attributes that the server sends *)
Lemma attr_fits r :
  r = attr_zero ∨ r = c_init c_attr →
  c_valid c_attr r ∧ RPC_HEADER_SZ + Zlength (enc c_attr r) ≤ MARSHALL_MAX.
Proof. intros [->| ->]; (split; [split_and!; apply u32_range || by vm_compute|by vm_compute]). Qed.

Lemma numbers_ok : (rpc_get ≠ rpc_bind ∧ rpc_getattr ≠ rpc_bind ∧ rpc_put ≠ rpc_bind) ∧
  is_s32 rpc_get ∧ is_s32 rpc_getattr ∧ is_s32 rpc_put ∧ (0 ≤ OK ≤ INT_MAX) ∧ (0 ≤ NOENT ≤ INT_MAX).
Proof. by vm_compute. Qed.

Lemma net_get_follows n w s id :
  mounted p (S n) w s → is_u64 id →
  follows (same2 (mounted p n)) (ea_get (extent_net ks) w id) (ea_get extent_local s id).
Proof.
  intros Hm Hid x2 E. pose proof Hm as (_&_&_&Hok&_&Hg&_).
  cbn [ea_get extent_net extent_local] in E |- *. unfold ec_get.
  destruct x2 as [[s' r] b]. assert (s' = s) as ->.
  { unfold es_get in E. destruct (es_data s !! id); by injection E as <- _ _. }
  assert (extent_fits r ∧ 0 ≤ b ≤ INT_MAX) as [Hr Hb].
  { unfold es_get in E. destruct (es_data s !! id) as [d|] eqn:Ed; injection E as <- <-;
      (split; [|by vm_compute]); [by eapply (proj1 Hok)|by vm_compute]. }
  unfold extent_fits in Hr.
  destruct (extent_call rpc_get get_params _ c_string es_get n w s (id, tt) s r b Hm Hg)
    as (w'&E'&Hm'); [apply numbers_ok|apply numbers_ok|exact (conj Hid I)|vm_compute; discriminate
    |exact E|exact Hb| | |exact Hok|].
  - simpl. unfold MARSHALL_MAX in Hr. change RPC_HEADER_SZ with 24 in Hr. lia_ints.
  - change (enc c_string r) with (be32 (Zlength r) ++ r). rewrite length_app, be32_length. lia.
  - eexists. split; [exact E'|]. exact (conj (conj Hm' eq_refl) eq_refl).
Qed.

Lemma net_getattr_follows n w s id :
  mounted p (S n) w s → is_u64 id →
  follows (same2 (mounted p n)) (ea_getattr (extent_net ks) w id) (ea_getattr extent_local s id).
Proof.
  intros Hm Hid x2 E. pose proof Hm as (_&_&_&Hok&_&_&Hg&_).
  cbn [ea_getattr extent_net extent_local] in E |- *. unfold ec_getattr.
  destruct x2 as [[s' r] b]. assert (s' = s ∧ (r = attr_zero ∨ r = c_init c_attr) ∧
    0 ≤ b ≤ INT_MAX) as (->&Hr&Hb).
  { unfold es_getattr in E. rewrite (proj2 Hok id) in E.
    destruct (es_data s !! id); injection E as <- <- <-; (split; [reflexivity|]; split; [by auto|apply numbers_ok]). }
  destruct (attr_fits r Hr) as [Hv Hf].
  destruct (extent_call rpc_getattr get_params _ c_attr es_getattr n w s (id, tt) s r b Hm Hg)
    as (w'&E'&Hm'); [apply numbers_ok|apply numbers_ok|exact (conj Hid I)|vm_compute; discriminate
    |exact E|exact Hb|exact Hv|exact Hf|exact Hok|].
  eexists. split; [exact E'|]. exact (conj (conj Hm' eq_refl) eq_refl).
Qed.

Lemma net_put_follows n w s id d :
  mounted p (S n) w s → is_u64 id → extent_fits d →
  follows (same1 (mounted p n)) (ea_put (extent_net ks) w id d) (ea_put extent_local s id d).
Proof.
  intros Hm Hid Hf x2 E. pose proof Hm as (_&_&_&Hok&_&_&_&Hg).
  cbn [ea_put extent_net extent_local] in E |- *. unfold ec_put.
  destruct (es_put_ok s id d (s32 stale) Hok Hf) as (s'&Es&Hok'&_). rewrite Es in E.
  injection E as <-. pose proof Hf as Hd. change (extent_fits d) in Hd. unfold extent_fits in Hd.
  destruct (extent_call rpc_put put_params _ c_int es_put n w s (id, (d, tt)) s' (s32 stale) OK
    Hm Hg) as (w'&E'&Hm');
    [apply numbers_ok|apply numbers_ok| | |exact Es|apply numbers_ok|apply s32_range
    |vm_compute; discriminate|exact Hok'|].
  - split; [exact Hid|]. split; [|done]. simpl. unfold MARSHALL_MAX in Hd.
    change RPC_HEADER_SZ with 24 in Hd. lia_ints.
  - change (enc_args put_params _ (id, (d, tt)))
      with ((be32 (id / 2 ^ 32) ++ be32 id) ++ (be32 (Zlength d) ++ d) ++ []).
    rewrite !length_app, !be32_length. simpl (length []). lia.
  - change (s32 stale) with (c_init c_int) at 1. rewrite E'. eexists. split; [reflexivity|].
    exact (conj Hm' eq_refl).
Qed.

#[export] Instance extent_net_simulates : Simulates (extent_net ks) extent_local (mounted p).
Proof.
  split.
  - intros n w s (_&_&_&Hok&_). exact Hok.
  - intros n w s (?&?&?&?&Hx&?). split_and!; try done; [lia|..]; naive_solver.
  - exact net_get_follows.
  - exact net_getattr_follows.
  - exact net_put_follows.
Qed.
End network_api.

(** ** Sessions of the kernel *)

(** [fuse_session_loop]: the requests one after the other, each with what [rand()]
    returns to it *)
Fixpoint oper_all `{Heap, DirentFormat} {W} (ec : extent_api W) (w : W) (qs : list (Z * fuse_req))
    : outcome (W * list fuse_reply) :=
  match qs with
  | [] => Done (w, [])
  | (rnd, q) :: qs =>
      let! '(w, rep) := fuseserver_oper ec rnd w q in
      let! '(w, reps) := oper_all ec w qs in
      Done (w, rep :: reps)
  end.

(** each request is sane in the state that it meets *)
Fixpoint sane_all `{Heap, DirentLaws} {W} (ec : extent_api W) `{!ExtentLaws ec} (w : W)
    (qs : list (Z * fuse_req)) : Prop :=
  match qs with
  | [] => True
  | (rnd, q) :: qs => req_sane ec rnd w q ∧
      ∀ w' rep, fuseserver_oper ec rnd w q = Done (w', rep) → sane_all ec w' qs
  end.

Section sessions.
Context `{Heap, DirentLaws} {W1 W2 : Type} (api1 : extent_api W1) (api2 : extent_api W2)
  `{!ExtentLaws api2} (R : nat → W1 → W2 → Prop) `{!Simulates api1 api2 R}.

Lemma oper_all_follows n qs : ∀ w1 w2,
  R (5 * length qs + n) w1 w2 → fs_ok api2 w2 → sane_all api2 w2 qs →
  ∃ w1' w2' reps, oper_all api1 w1 qs = Done (w1', reps) ∧ oper_all api2 w2 qs = Done (w2', reps) ∧
    R n w1' w2' ∧ fs_ok api2 w2'.
Proof.
  induction qs as [|[rnd q] qs IH]; intros w1 w2 HR Hfs Hs.
  { exists w1, w2, []. done. }
  destruct Hs as [Hq Hs].
  assert (R (5 + (5 * length qs + n)) w1 w2) as HR'.
  { by replace (5 + (5 * length qs + n))%nat with (5 * length ((rnd, q) :: qs) + n)%nat
      by (cbn [length]; lia). }
  destruct (oper_ok api2 rnd w2 q Hfs Hq) as (v2&rep&E2&Hfs2).
  destruct (oper_follows api1 api2 R _ rnd w1 w2 q HR' Hfs Hq (v2, rep) E2)
    as ([v1 rep']&E1&HR1&Hrep). simpl in HR1, Hrep. subst rep'.
  destruct (IH v1 v2 HR1 Hfs2 (Hs v2 rep E2)) as (w1'&w2'&reps&E1'&E2'&HR2&Hfs').
  exists w1', w2', (rep :: reps). cbn [oper_all]. rewrite E1, E2. cbn [obind]. rewrite E1', E2'. done.
Qed.
End sessions.

(** ** Starting it *)

Section mounting.
Context `{Heap, Allocator, Resolver, DirentFormat}.

(** the constructor of the extent client; [None]: the process exits *)
Definition extent_client_new {S} (dst : list byte) (rnd : Z) (k : link) (w : net S)
    : outcome (option (net S)) :=
  let! a := make_sockaddr_str dst in
  match a with
  | None => Done None
  | Some _ =>
      let! '(w, _) := net_bind k to_max (with_cl w (rpcc_new true rnd 0)) in Done (Some w)
  end.

(** the constructor of the file system client: the address of the lock server is
    not used *)
Definition yfs_client_new {S} (extent_dst lock_dst : list byte) (rnd : Z) (k : link) (w : net S)
    : outcome (option (net S)) :=
  extent_client_new extent_dst rnd k w.

(** [main] of the file system: its arguments, what [random()] returns to the RPC
    client, and the requests of the kernel; mounting succeeds *)
Definition fuse_main (argv : list (list byte)) (rnd : Z) (ks : Z → link) (w : net extent_server)
    (qs : list (Z * fuse_req)) : outcome (option (net extent_server * list fuse_reply)) :=
  match argv with
  | [_; _; extent_dst; lock_dst] =>
      let! w := yfs_client_new extent_dst lock_dst rnd (ks 1) w in
      match w with
      | None => Done None
      | Some w => let! '(w, reps) := oper_all (extent_net ks) w qs in Done (Some (w, reps))
      end
  | _ => Done None
  end.

(** the extent server, when its listener has accepted the connection of the client;
    [c] is replaced by the client that [fuse_main] makes *)
Definition extent_server_up (c : rpcc) (rnd p fd : Z) : outcome (net extent_server) :=
  let! v := extent_smain rnd 0 in
  Done (accepted (Net c ∅ v ∅ extent_server_new) p fd).
End mounting.

Section mounting_facts.
Context `{Heap, Allocator}.

(** a new file system is well formed: an empty root directory *)
Lemma new_fs_ok : fs_ok extent_local extent_server_new.
Proof.
  split; [apply extent_server_new_ok|]. intros q _ [b Hb].
  cbn [view extent_local_laws es_data extent_server_new] in Hb.
  apply lookup_singleton_Some in Hb as [<- <-]. exists []. split; [|by split; constructor].
  exists (serialize []). split; [reflexivity|by vm_compute].
Qed.

Lemma extent_server_up_ok c srnd p fd rnd :
  0 < rnd < 2 ^ 32 →
  ∃ w, extent_server_up c srnd p fd = Done w ∧ nt_app w = extent_server_new ∧
    fresh_link p rnd 0 (with_cl w (rpcc_new true rnd 0)) ∧
    procs_ (nt_srv w) !! rpc_get = Some (h1_fn get_params c_string es_get) ∧
    procs_ (nt_srv w) !! rpc_getattr = Some (h1_fn get_params c_attr es_getattr) ∧
    procs_ (nt_srv w) !! rpc_put = Some (h1_fn put_params c_int es_put).
Proof.
  intros Hr. unfold extent_server_up, extent_smain, rpcs_new. register. eexists. split; [done|].
  split; [done|]. split.
  - split; [done|]. split; [done|]. split; [done|]. split; [done|]. split; [apply u32_range|].
    split; [simpl; find_proc|]. apply (started_serving _ ∅ p fd []); try done.
    split; [split|]; [by intros ? ?%elem_of_nil|done..].
  - simpl. split_and!; find_proc.
Qed.

(** the constructor binds the client, and the file system can be used *)
Lemma mount_ok p rnd k w n :
  timely k → lk_conn k = p → fresh_link p rnd 0 (with_cl w (rpcc_new true rnd 0)) →
  extent_ok (nt_app w) →
  procs_ (nt_srv w) !! rpc_get = Some (h1_fn get_params c_string es_get) →
  procs_ (nt_srv w) !! rpc_getattr = Some (h1_fn get_params c_attr es_getattr) →
  procs_ (nt_srv w) !! rpc_put = Some (h1_fn put_params c_int es_put) →
  Z.of_nat n ≤ INT_MAX - 2 →
  ∃ w', net_bind k to_max (with_cl w (rpcc_new true rnd 0)) = Done (w', 0) ∧
    mounted p n w' (nt_app w).
Proof.
  intros Hk <- Hf Hok Hg Ha Hp Hmax. set (w0 := with_cl w (rpcc_new true rnd 0)) in *.
  pose proof (fresh_link_linked _ _ _ _ Hf) as Hl. destruct Hf as (_&_&_&_&_&Hb1&_).
  destruct (net_bind_ok k to_max w0 Hk ltac:(by vm_compute) Hl eq_refl ltac:(by vm_compute) Hb1)
    as (w'&E&Hl'&Hb&Ha'&Hpr&Hx&_).
  exists w'. split; [exact E|]. unfold mounted. rewrite Hpr, Ha', Hx.
  change (xid_ (nt_cl w0)) with 1.
  repeat (split; [assumption || reflexivity|]). split; [lia|]. exact (conj Hg (conj Ha Hp)).
Qed.
End mounting_facts.

(** ** The stack serves as the server itself would *)


(** *** A session *)

#[local] Existing Instance zero_heap.
#[local] Existing Instance fresh_allocator.
#[local] Existing Instance local_resolver.
#[local] Existing Instance linux_dirent.
#[local] Existing Instance linux_dirent_laws.

(** create a file, look it up, list the root directory *)
Definition sample_session : list (Z * fuse_req) :=
  [(4, ReqCreate 1 (be32 97)); (0, ReqLookup 1 (be32 97)); (0, ReqReaddir 1 4096 0)].

Lemma sample_session_sane : sane_all extent_local extent_server_new sample_session.
Proof.
  split.
  { split; [by vm_compute|]. split; [reflexivity|]. split; [discriminate|]. intros fl Hd.
    rewrite (is_dir_fun extent_local _ _ fl [] Hd); [by vm_compute|].
    exists (serialize []). split; reflexivity. }
  intros w1 rep1 E1. vm_compute in E1. injection E1 as <- <-. split; [split; [by vm_compute|reflexivity]|].
  intros w2 rep2 E2. vm_compute in E2. injection E2 as <- <-. split; [|by intros].
  split; [by vm_compute|]. split; [lia|]. split; [lia|]. intros fl Hd.
  rewrite (is_dir_fun extent_local _ _ fl [(new_inum 4 1, (be32 97))] Hd); [by vm_compute|].
  eexists. split; reflexivity.
Qed.

