(* ===== verification/LockNet.v ===== *)
(** * Lock clients over the network: [lock_client.cc], [lock_demo.cc]

    The constructor of the lock client and its three calls over the endpoints of
    [Network.v], and the program [lock_demo].  A call is served without
    interruption here ([serve] of [LockServer.v]); what the server does under
    load is the subject of [LockServer.v] and [LockTester.v]. *)

From S2P Require Import Prelude Marshall Codec Timespec Address Connection Stubs Rpcc Rpcs.
From S2P Require Import LockServer Network.

(** ** Definitions *)

Section definitions.
Context `{Heap, Allocator, Resolver}.

(** the constructor of the lock client; [None]: the process exits *)
Definition lock_client_new {S} (dst : list byte) (rnd : Z) (k : link) (w : net S)
    : outcome (option (net S)) :=
  let! a := make_sockaddr_str dst in
  match a with
  | None => Done None
  | Some _ =>
      let! '(w, _) := net_bind k to_max (with_cl w (rpcc_new true rnd 0)) in Done (Some w)
  end.

(** a method of the lock client: [id()] is the nonce of the endpoint *)
Definition lock_net_call (k : link) (proc : Z) (w : net lock_server) (lid : Z)
    : outcome (net lock_server * Z) :=
  lock_client_call (clt_nonce (nt_cl w)) (λ proc, net_call1 k proc to_max) proc w lid.

(** [main] of the demo: [Some r]: it prints [r] *)
Definition lock_demo (argv : list (list byte)) (rnd : Z) (k1 k2 : link) (w : net lock_server)
    : outcome (option (net lock_server * Z)) :=
  match argv with
  | [_; dst] =>
      let! w := lock_client_new dst rnd k1 w in
      match w with
      | None => Done None
      | Some w => let! '(w, r) := lock_net_call k2 rpc_stat w 1 in Done (Some (w, r))
      end
  | _ => Done None
  end.
End definitions.

(** ** Facts *)

Section facts.
Context `{Heap, Allocator}.

(** a bound client, whose nonce fits an [int], of a lock server *)
Definition lock_bound (p : Z) (n : nat) (w : net lock_server) : Prop :=
  linked p w ∧ bind_done (nt_cl w) = true ∧ xid_ (nt_cl w) + Z.of_nat n ≤ INT_MAX ∧
  clt_nonce (nt_cl w) ≤ INT_MAX ∧
  procs_ (nt_srv w) !! rpc_acquire = Some (h1_fn lock_params c_int ls_acquire) ∧
  procs_ (nt_srv w) !! rpc_release = Some (h1_fn lock_params c_int ls_release) ∧
  procs_ (nt_srv w) !! rpc_stat = Some (h1_fn lock_params c_int ls_stat).

(** a call whose handler runs through *)
Lemma lock_net_call_ok k proc (meth : method lock_server (Z * (Z * unit)) Z) n w lid s' r :
  timely k → lock_bound (lk_conn k) (S n) w →
  procs_ (nt_srv w) !! proc = Some (h1_fn lock_params c_int meth) → proc ≠ rpc_bind → is_s32 proc →
  is_u64 lid → meth (nt_app w) (clt_nonce (nt_cl w), (lid, tt)) (s32 stale) = Done (s', r, OK) →
  is_s32 r →
  ∃ w', lock_net_call k proc w lid = Done (w', r) ∧ nt_app w' = s' ∧ lock_bound (lk_conn k) n w'.
Proof.
  intros Hk (Hl&Hb&Hx&Hid&Hps) Hp Hpb Hpr Hlid Hm Hr. pose proof (bd_nonce _ _ (proj1 Hl)) as Hpos.
  unfold lock_net_call, lock_client_call. rewrite client_params_agree by lia.
  destruct (net_call_ok k proc to_max lock_params _ c_int meth w (clt_nonce (nt_cl w), (lid, tt))
    s' r OK (s32 stale) Hk ltac:(by vm_compute) Hl Hb ltac:(lia) Hp Hpb Hpr)
    as (w'&E&Ha&(Hl'&Hx'&Hb'&(_&Hid')&Hps')); [|by vm_compute|exact Hm|by vm_compute|exact Hr
    |by vm_compute|intros u Hu; exact (get_enc c_int u r [] Hr Hu)|].
  - split; [simpl; lia_ints|]. split; [exact Hlid|exact I].
  - exists w'. rewrite E. cbn [obind]. split; [reflexivity|].
    split; [exact Ha|]. unfold lock_bound. rewrite Hb', Hx', Hid', Hps'.
    split; [exact Hl'|]. split; [exact Hb|]. split; [lia|]. exact (conj Hid Hps).
Qed.

Lemma stat_numbers : rpc_stat ≠ rpc_bind ∧ is_s32 rpc_stat ∧ is_u64 1.
Proof. by vm_compute. Qed.

(** the constructor binds a new client to a server that did not see its nonce before *)
Lemma lock_mount_ok k rnd w n :
  timely k → fresh_link (lk_conn k) rnd 0 (with_cl w (rpcc_new true rnd 0)) → rnd ≤ INT_MAX →
  procs_ (nt_srv w) !! rpc_acquire = Some (h1_fn lock_params c_int ls_acquire) →
  procs_ (nt_srv w) !! rpc_release = Some (h1_fn lock_params c_int ls_release) →
  procs_ (nt_srv w) !! rpc_stat = Some (h1_fn lock_params c_int ls_stat) →
  Z.of_nat n ≤ INT_MAX - 2 →
  ∃ w', net_bind k to_max (with_cl w (rpcc_new true rnd 0)) = Done (w', 0) ∧
    nt_app w' = nt_app w ∧ lock_bound (lk_conn k) n w'.
Proof.
  intros Hk Hf Hr Ha Hrl Hs Hmax. set (w0 := with_cl w (rpcc_new true rnd 0)) in *.
  pose proof (fresh_link_linked _ _ _ _ Hf) as Hl. destruct Hf as (_&_&Hpos&_&_&Hb1&_).
  destruct (net_bind_ok k to_max w0 Hk ltac:(by vm_compute) Hl eq_refl ltac:(by vm_compute) Hb1)
    as (w'&E&Hl'&Hb&Ha'&Hpr&Hx&Hid).
  exists w'. split; [exact E|]. split; [exact Ha'|]. unfold lock_bound. rewrite Hpr, Hx, Hid.
  change (clt_nonce (nt_cl w0)) with (u32 rnd). rewrite u32_small by lia_ints.
  change (xid_ (nt_cl w0)) with 1. split; [exact Hl'|]. split; [exact Hb|]. split; [lia|].
  split; [exact Hr|]. exact (conj Ha (conj Hrl Hs)).
Qed.
End facts.

(** ** Theorems *)

(** The demo prints how many grants the server counts, and changes nothing; a server
    that was just started prints 0. *)
Theorem lock_demo_prints `{Heap, Allocator, Resolver} a0 dst addr rnd k1 k2 w :
  make_sockaddr_str dst = Done (Some addr) → timely k1 → timely k2 → lk_conn k1 = lk_conn k2 →
  fresh_link (lk_conn k1) rnd 0 (with_cl w (rpcc_new true rnd 0)) → rnd ≤ INT_MAX →
  procs_ (nt_srv w) !! rpc_acquire = Some (h1_fn lock_params c_int ls_acquire) →
  procs_ (nt_srv w) !! rpc_release = Some (h1_fn lock_params c_int ls_release) →
  procs_ (nt_srv w) !! rpc_stat = Some (h1_fn lock_params c_int ls_stat) →
  is_s32 (nacquire (nt_app w)) →
  ∃ w', lock_demo [a0; dst] rnd k1 k2 w = Done (Some (w', nacquire (nt_app w))) ∧
    nt_app w' = nt_app w.
Proof.
  intros Hd Hk1 Hk2 Hkk Hf Hr Ha Hrl Hs Hn.
  destruct (lock_mount_ok k1 rnd w 1 Hk1 Hf Hr Ha Hrl Hs ltac:(by vm_compute)) as (w1&E1&Ha1&Hb1).
  destruct stat_numbers as (N1&N2&N3).
  rewrite Hkk in Hb1. pose proof Hb1 as (_&_&_&_&_&_&Hs1). rewrite <-Ha1 in Hn |- *.
  destruct (lock_net_call_ok k2 rpc_stat ls_stat 0 w1 1 (nt_app w1) (nacquire (nt_app w1)) Hk2 Hb1
    Hs1 N1 N2 N3) as (w2&E2&Ha2&_); [cbn [ls_stat]; rewrite serve_stat; reflexivity|exact Hn|].
  exists w2. split; [|exact Ha2]. unfold lock_demo, lock_client_new. rewrite Hd. cbn [obind].
  rewrite E1. cbn [obind]. rewrite E2. reflexivity.
Qed.

(** *** The demo against a server that was just started *)

#[local] Existing Instance zero_heap.
#[local] Existing Instance fresh_allocator.
#[local] Existing Instance local_resolver.

Definition lock_net (v : rpcs lock_server) : net lock_server :=
  accepted (Net (rpcc_new true 1 0) ∅ v ∅ lock_server_new) 1 3.

Lemma lock_net_fresh v :
  lock_smain 9 0 = Done v → fresh_link 1 77 0 (with_cl (lock_net v) (rpcc_new true 77 0)).
Proof.
  unfold lock_smain, rpcs_new. register. intros [= <-].
  split; [reflexivity|]. split; [reflexivity|]. split; [by vm_compute|]. split; [reflexivity|].
  split; [apply u32_range|]. split; [simpl; find_proc|].
  apply (started_serving _ ∅ 1 3 []); try reflexivity.
  split; [split|]; [by intros ? ?%elem_of_nil|done..].
Qed.

Lemma lock_demo_prints_witness :
  ∃ v, lock_smain 9 0 = Done v ∧
  ∃ w', lock_demo [[]; decimal 10 3772] 77 sample_link sample_link (lock_net v) =
      Done (Some (w', 0)) ∧ nt_app w' = lock_server_new.
Proof.
  destruct lock_service as [v Hv]. exists v. split; [exact Hv|].
  destruct (lock_smain_procs v Hv) as (Ha&Hr&Hs).
  refine (lock_demo_prints [] (decimal 10 3772) _ 77 sample_link sample_link (lock_net v)
    port_resolves sample_link_timely sample_link_timely eq_refl (lock_net_fresh v Hv) _ Ha Hr Hs _);
    [discriminate|clear; by vm_compute].
Defined.
