(* ===== verification/Rpctest.v ===== *)
(** * The RPC test program: [rpc/rpctest.cc]

    The service [srv], its registration in [startserver], and the bodies of the
    tests: [testmarshall], [simple_tests] and the threads [client1], [client2],
    [client3] and [client4].  A test is the sequence of its calls and assertions
    on a transport; random arguments and clock readings are inputs.  The theorems
    say that the tests pass on the stubs, the headers, the registered handlers
    and the client of the other files. *)

From Stdlib Require Import Strings.Byte Strings.String.
From S2P Require Import Prelude Marshall Codec Timespec Connection Stubs Rpcc Rpcs.

Definition str (s : string) : list byte := list_byte_of_string s.

(** ** The service

    [class srv] has no data. *)

Definition handle_22 : method unit (list byte * (list byte * unit)) (list byte) :=
  λ s a r, Done (s, a.1 ++ a.2.1, 0).

Definition handle_fast : method unit (Z * unit) Z :=
  λ s a r, let! x := int_result (a.1 + 1) in Done (s, x, 0).

(** it sleeps before it answers *)
Definition handle_slow : method unit (Z * unit) Z :=
  λ s a r, let! x := int_result (a.1 + 2) in Done (s, x, 0).

(** [std::string(len, c)]: a negative [int] is converted to a size that the
    constructor refuses with an exception *)
Definition string_fill (len : Z) (c : byte) : outcome (list byte) :=
  if decide (len < 0) then Fault Uncaught else Done (replicate (Z.to_nat len) c).

Definition handle_bigrep : method unit (Z * unit) (list byte) :=
  λ s a r, let! x := string_fill a.1 "x"%byte in Done (s, x, 0).

Section program.
Context `{Heap}.

Definition one_string := PCons c_string PNil.
Definition one_int := PCons c_int PNil.
Definition two_strings := PCons c_string (PCons c_string PNil).
Definition two_ints := PCons c_int (PCons c_int PNil).

Definition startserver (rnd : Z) : outcome (rpcs unit) :=
  let! v := rpcs_new rnd 0 in
  let! v := reg v 22 two_strings c_string handle_22 in
  let! v := reg v 23 one_int c_int handle_fast in
  let! v := reg v 24 one_int c_int handle_slow in
  reg v 25 one_int c_string handle_bigrep.

(** ** [testmarshall] *)

(** [m << i; m << l; m << s] *)
Definition put_sample (m : marshall) (i l : Z) (s : list byte) : outcome marshall :=
  let! m := put_int m i in
  let! m := put_ull m l in
  put_string m s.

(** [un >> i1; un >> l1; un >> s1] *)
Definition get_sample (un : unmarshall) : outcome (unmarshall * (Z * Z * list byte)) :=
  let! '(un, i1) := get_int un (s32 stale) in
  let! '(un, l1) := get_ull un (u64 stale) in
  let! '(un, s1) := get_string un [] in
  Done (un, (i1, l1, s1)).

Definition testmarshall : outcome unit :=
  let rh := make_req_header 1 2 3 4 5 in
  let! m := pack_req_header marshall_new rh in
  check! bool_decide (mind m = RPC_HEADER_SZ) in
  let i := 12345 in
  let l := 1223344455 in
  let s := str "hallo...." in
  let! m := put_sample m i l s in
  let '(b, sz, _) := marshall_take_buf m in
  check! bool_decide (sz = s32 (RPC_HEADER_SZ + 4 + 8 + Zlength s + 4)) in
  let! '(un, rh1) := unpack_req_header (unmarshall_new (default [] b) sz) in
  check! bool_decide (rh = rh1) in
  let! '(un, r) := get_sample un in
  check! okdone un in
  check! bool_decide (r = (i, l, s)) in
  Done tt.

(** ** The clients: [call1] takes the procedure number and the timeout *)

Section client.
Context {W : Type} (call1 : Z → Z → transport W).

(** the loop of [client1] and [client2] around procedure 25 *)
Fixpoint bigrep_loop (check_ret : bool) (w : W) (args : list Z) : outcome W :=
  match args with
  | [] => Done w
  | arg :: args =>
      let! '(w, rep, ret) := call one_int c_string (call1 25 to_max) w (arg, tt) [] in
      check! negb check_ret || bool_decide (ret = 0) in
      check! bool_decide (s32 (Zlength rep) = arg) in
      bigrep_loop check_ret w args
  end.

(** one turn of the second loop of [client1]: [which], [arg] and the two clock
    readings *)
Record turn := Turn { tn_which : bool; tn_arg : Z; tn_start : timespec; tn_end : timespec }.

Fixpoint order_loop (w : W) (turns : list turn) : outcome W :=
  match turns with
  | [] => Done w
  | t :: turns =>
      let! '(w, rep, ret) := call one_int c_int
        (call1 (if tn_which t then 23 else 24) to_max) w (tn_arg t, tt) (s32 stale) in
      let! _ := diff_timespec (tn_end t) (tn_start t) in
      check! bool_decide (ret = 0) in
      check! bool_decide (rep = if tn_which t then tn_arg t + 1 else tn_arg t + 2) in
      order_loop w turns
  end.

Definition client1 (w : W) (args : list Z) (turns : list turn) : outcome W :=
  let! w := bigrep_loop true w args in order_loop w turns.

(** [args]: as many as fit into ten seconds *)
Definition client2 (w : W) (args : list Z) : outcome W := bigrep_loop false w args.

(** the turns [i], [i + 1], ... below 4 of [client3] *)
Fixpoint client3_loop (n : nat) (w : W) (i : Z) : outcome W :=
  match n with
  | O => Done w
  | S n =>
      let! '(w, rep, ret) := call one_int c_int (call1 24 3000) w (i, tt) (s32 stale) in
      check! bool_decide (ret = timeout_failure) || bool_decide (rep = i + 2) in
      client3_loop n w (i + 1)
  end.

Definition client3 (w : W) : outcome W := client3_loop 4 w 0.

(** [THRES], in the kilobytes that [process_mem_usage] reads *)
Definition THRES : Z := 3000.

(** the rounds of [client4]: the random arguments of the hundred calls of each, and
    the memory after it; [final] is what the round before left *)
Fixpoint memory_rounds (w : W) (final : Z) (rounds : list (list Z * Z)) : outcome (W * Z) :=
  match rounds with
  | [] => Done (w, final)
  | (args, rss) :: rounds => let! w := bigrep_loop true w args in memory_rounds w rss rounds
  end.

(** the test of the garbage collection; [initial] is the memory before the rounds *)
Definition client4 (w : W) (initial : Z) (rounds : list (list Z * Z)) : outcome W :=
  let! '(w, final) := memory_rounds w (s32 stale) rounds in
  check! bool_decide (final - initial < THRES) in
  Done w.

(** [simple_tests] up to the huge request.  String literals are marshalled as
    [std::string]; [rep] and [intret] are reused, the fifth call and the sixth
    have a result variable of type [int]. *)
Definition simple_calls (w : W) : outcome W :=
  let! '(w, rep, intret) :=
    call two_strings c_string (call1 22 to_max) w (str "hello", (str " goodbye", tt)) [] in
  check! bool_decide (intret = 0) in
  check! bool_decide (rep = str "hello goodbye") in
  (* small request, big reply *)
  let! '(w, rep, intret) := call one_int c_string (call1 25 200000) w (70000, tt) rep in
  check! bool_decide (intret = 0) in
  check! bool_decide (Zlength rep = 70000) in
  (* too few arguments *)
  let! '(w, rep, intret) := call one_string c_string (call1 22 to_max) w (str "just one", tt) rep in
  check! bool_decide (intret < 0) in
  (* too many arguments *)
  let! '(w, rep, intret) := call two_ints c_string (call1 23 to_max) w (1001, (1002, tt)) rep in
  check! bool_decide (intret < 0) in
  (* wrong return value size *)
  let! '(w, _, intret) :=
    call two_strings c_int (call1 23 to_max) w (str "hello", (str " goodbye", tt)) (s32 stale) in
  check! bool_decide (intret < 0) in
  (* a timeout for a call that should succeed *)
  let! '(w, xx, intret) := call one_int c_int (call1 23 3000) w (77, tt) 0 in
  check! bool_decide (intret = 0) && bool_decide (xx = 78) in
  let! '(w, rep', _) :=
    call two_strings c_string (call1 22 3000) w
      (replicate (Z.to_nat 1000) "x"%byte, (str "x", tt)) [] in
  check! bool_decide (Zlength rep' = 1001) in
  (* a huge request *)
  let! '(w, rep, intret) :=
    call two_strings c_string (call1 22 to_max) w
      (replicate (Z.to_nat 1000000) "x"%byte, (str "z", tt)) rep in
  check! bool_decide (Zlength rep = 1000001) in
  Done w.
End client.

(** [call1] of [Rpcc.v] as a transport; a call that has not returned when the
    ticks are over waits for ever *)
Definition call1_transport (proc to : Z) (start : timespec) (ticks : list tick)
    : transport (rpcc * conn_store) :=
  λ w req un,
    let! '(r, _) := call1 w proc req to start ticks in
    match r with
    | Some (w, un, ret) => Done (w, un, ret)
    | None => Fault Deadlocked
    end.

(** the end of [simple_tests]: binding to a port where no server listens; [rnd]
    and [loss] as for [rpcc_new], [t0] and [t1] are the answers of [time] *)
Definition bind_nowhere (rnd loss : Z) (t0 t1 : Z) (start : timespec) (ticks : list tick)
    : outcome unit :=
  let c1 := rpcc_new true rnd loss in
  let! '(_, intret) :=
    rpcc_bind_to (call1_transport rpc_bind 3000 start ticks) (c1, ∅ : conn_store) in
  check! bool_decide (intret < 0) && bool_decide (t1 - t0 ≤ 4) in
  Done tt.

Definition simple_tests {W} (call1 : Z → Z → transport W) (w : W) (rnd loss t0 t1 : Z)
    (start : timespec) (ticks : list tick) : outcome W :=
  let! w := simple_calls call1 w in
  let! _ := bind_nowhere rnd loss t0 t1 start ticks in
  Done w.
End program.

(** A transport whose calls time out as the list says; [srv] has no state, so
    that it does not matter whether the request was lost or the reply. *)
Definition lossy {S} (t : transport S) : transport (S * list bool) := λ w req un,
  match w.2 with
  | true :: l => Done ((w.1, l), un, timeout_failure)
  | l => let! '(s, un, ret) := t w.1 req un in Done ((s, tail l), un, ret)
  end.

(** ** Facts: the registered handlers *)

Lemma call_lossy {H : Heap} {S As R} (ps : params As) (cr : codec R) (t : transport S) s l a r :
  is_done (put_args ps marshall_new a) →
  call ps cr (lossy t) (s, l) a r =
    match l with
    | true :: l => Done ((s, l), r, timeout_failure)
    | l => let! '(s, r, ret) := call ps cr t s a r in Done ((s, tail l), r, ret)
    end.
Proof.
  intros [m Hm]. unfold call, call_m. rewrite Hm. cbn [obind]. unfold lossy.
  destruct l as [|[] l]; cbn [fst snd obind]; [|done|];
    (destruct (t s m unmarshall_empty) as [[[s' un] ret]|]; [|done]; cbn [obind];
     case_decide; [done|]; destruct (c_get cr un r) as [[u r']|]; [|done]; cbn [obind];
     by destruct (okdone u)).
Qed.

Section facts.
Context `{Heap} (hd : Z → req_header) (Hhd : ∀ proc, req_header_ok (hd proc)).
Context {rnd : Z} (v : rpcs unit) (Hv : startserver rnd = Done v).

Lemma startserver_procs :
  procs_ v !! 22 = Some (h1_fn two_strings c_string handle_22) ∧
  procs_ v !! 23 = Some (h1_fn one_int c_int handle_fast) ∧
  procs_ v !! 24 = Some (h1_fn one_int c_int handle_slow) ∧
  procs_ v !! 25 = Some (h1_fn one_int c_string handle_bigrep).
Proof.
  revert Hv. unfold startserver, rpcs_new. register. intros [= <-]. simpl.
  split_and!; find_proc.
Qed.

(** the transport to the server, whatever the timeout *)
Definition to_server (proc _to : Z) : transport unit := registered_call1 hd v proc.

Lemma enc_string_length (s : list byte) : Zlength (enc c_string s) = 4 + Zlength s.
Proof. change (enc c_string s) with (be32 (Zlength s) ++ s). rewrite length_app, be32_length. lia. Qed.

Lemma enc_two_strings (a b : list byte) :
  Zlength (enc_args two_strings _ (a, (b, tt))) = 8 + Zlength a + Zlength b.
Proof.
  change (enc_args two_strings _ (a, (b, tt))) with (enc c_string a ++ enc c_string b ++ []).
  rewrite app_nil_r, length_app, Nat2Z.inj_add, !enc_string_length. lia.
Qed.

Lemma enc_one_int n : Zlength (enc_args one_int _ (n, tt)) = 4.
Proof. done. Qed.

(** reading a result into a variable that holds something *)
Lemma get_string_into (u : unmarshall) (s rep : list byte) :
  Zlength s ≤ INT_MAX → reads u (enc c_string s ++ []) →
  c_get c_string u rep = Done (advance u (Zlength (enc c_string s)), s).
Proof.
  intros Hs Hu. destruct (get_string_spec u s [] rep Hs Hu) as [E _].
  simpl c_get. by rewrite E, enc_string_length.
Qed.

Lemma get_int_into (u : unmarshall) (z rep : Z) :
  is_s32 z → reads u (enc c_int z ++ []) →
  c_get c_int u rep = Done (advance u (Zlength (enc c_int z)), z).
Proof.
  intros Hz Hu. destruct (get_int_be32 u z [] rep Hu) as [E _].
  simpl c_get. rewrite E, s32_small by done. done.
Qed.

Lemma call_22 a b rep to :
  32 + Zlength a + Zlength b ≤ MARSHALL_MAX →
  call two_strings c_string (to_server 22 to) tt (a, (b, tt)) rep = Done (tt, a ++ b, 0).
Proof.
  intros Hmax. destruct startserver_procs as (Hp&_). unfold to_server.
  rewrite (registered_call1_spec hd v _ _ Hp).
  assert (Zlength (a ++ b) ≤ INT_MAX) as Hab.
  { unfold MARSHALL_MAX in *. rewrite length_app. lia_ints. }
  rewrite length_app in Hab.
  apply (call_loopback_into two_strings _ c_string handle_22 (hd 22) tt (a, (b, tt)) tt (a ++ b) 0);
    [| |done|done| | |by vm_compute|].
  - split; [simpl; lia_ints|]. split; [simpl; lia_ints|done].
  - rewrite enc_two_strings. change RPC_HEADER_SZ with 24. lia.
  - simpl. rewrite length_app. lia.
  - rewrite enc_string_length, length_app. change RPC_HEADER_SZ with 24. lia.
  - intros u. apply get_string_into. rewrite length_app. lia.
Qed.

Lemma call_25 n rep to :
  0 ≤ n → 28 + n ≤ MARSHALL_MAX →
  call one_int c_string (to_server 25 to) tt (n, tt) rep =
    Done (tt, replicate (Z.to_nat n) "x"%byte, 0).
Proof.
  intros H0 Hmax. destruct startserver_procs as (_&_&_&Hp). unfold to_server.
  rewrite (registered_call1_spec hd v _ _ Hp).
  assert (Zlength (replicate (Z.to_nat n) "x"%byte) = n) as Hl by (rewrite length_replicate; lia).
  assert (n ≤ INT_MAX) by (unfold MARSHALL_MAX in *; lia_ints).
  apply (call_loopback_into one_int _ c_string handle_bigrep (hd 25) tt (n, tt) tt
    (replicate (Z.to_nat n) "x"%byte) 0); [| |done| | | |by vm_compute|].
  - split; [simpl; lia_ints|done].
  - rewrite enc_one_int. by vm_compute.
  - unfold handle_bigrep, string_fill. simpl. by rewrite decide_False by lia.
  - simpl. lia.
  - rewrite enc_string_length. change RPC_HEADER_SZ with 24. lia.
  - intros u. apply get_string_into. lia.
Qed.

(** procedures 23 and 24 add one and two *)
Lemma call_inc proc (meth : method unit (Z * unit) Z) k n rep to :
  procs_ v !! proc = Some (h1_fn one_int c_int meth) →
  meth = (λ s a r, let! x := int_result (a.1 + k) in Done (s, x, 0)) →
  is_s32 n → is_s32 (n + k) →
  call one_int c_int (to_server proc to) tt (n, tt) rep = Done (tt, n + k, 0).
Proof.
  intros Hp -> Hn Hk. unfold to_server. rewrite (registered_call1_spec hd v _ _ Hp).
  refine (call_loopback_into one_int _ c_int _ (hd proc) tt (n, tt) tt (n + k) 0 rep
    _ _ _ _ _ _ _ _); [by split| |done| |done|by vm_compute|by vm_compute|].
  - rewrite enc_one_int. by vm_compute.
  - simpl. unfold int_result. by rewrite bool_decide_eq_true_2.
  - intros u. by apply get_int_into.
Qed.

(** *** Calls with other arguments than the handler has *)

Lemma get_string_exhausted (u : unmarshall) (s : list byte) :
  reads u [] → ∃ u', get_string u s = Done (u', s) ∧ uok u' = false.
Proof.
  intros Hr. pose proof Hr as (Hok&b&_&_&Hsz&_). change (Zlength []) with 0 in Hsz.
  destruct (get_uint_total u 0 (reads_cursor_wf u [] Hr)) as (u'&n&E&_&_&_&_&Ho).
  exists u'. unfold get_string. rewrite E. simpl.
  rewrite Ho, bool_decide_eq_false_2, andb_false_r by lia. done.
Qed.

Lemma call_too_few s rep to :
  28 + Zlength s ≤ MARSHALL_MAX →
  call one_string c_string (to_server 22 to) tt (s, tt) rep =
    Done (tt, rep, unmarshal_args_failure).
Proof.
  intros Hmax. destruct startserver_procs as (Hp&_). unfold to_server.
  rewrite (registered_call1_spec hd v _ _ Hp).
  assert (Zlength s ≤ INT_MAX) as Hs by (unfold MARSHALL_MAX in *; lia_ints).
  apply (call_refused one_string _); [by split| |done|].
  - change (enc_args one_string _ (s, tt)) with (enc c_string s ++ []).
    rewrite app_nil_r, enc_string_length. change RPC_HEADER_SZ with 24. lia.
  - intros u Hu. change (enc_args one_string _ (s, tt)) with (enc c_string s ++ []) in Hu.
    unfold h1_fn, two_strings. cbn [get_args c_init c_string].
    rewrite (get_string_into u s [] Hs Hu). cbn [obind].
    apply reads_advance in Hu. destruct (get_string_exhausted _ [] Hu) as (u'&E&Ho).
    exists u'. cbn [c_get c_string c_init]. rewrite E. cbn [obind]. unfold okdone. by rewrite Ho.
Qed.

(** two arguments for one [int], the first of which begins with the bytes of [n] *)
Lemma call_too_many {As R} (pc : params As) (L : args_ok pc) (cr : codec R) a n extra r to :
  valid_args pc L a → RPC_HEADER_SZ + Zlength (enc_args pc L a) ≤ MARSHALL_MAX →
  enc_args pc L a = enc c_int n ++ extra → is_s32 n → extra ≠ [] →
  call pc cr (to_server 23 to) tt a r = Done (tt, r, unmarshal_args_failure).
Proof.
  intros Ha Hmax He Hn Hx. destruct startserver_procs as (_&Hp&_). unfold to_server.
  rewrite (registered_call1_spec hd v _ _ Hp). apply (call_refused pc L); [done..|].
  intros u Hu. eexists. apply (h1_surplus one_int _ c_int handle_fast tt (n, tt) extra).
  - by split.
  - done.
  - rewrite He in Hu. done.
Qed.

(** ** The tests pass *)

Lemma fill_length n : 0 ≤ n → Zlength (replicate (Z.to_nat n) "x"%byte) = n.
Proof. intros. rewrite length_replicate. lia. Qed.

(** a block of [n] bytes, as any list of this length *)
Ltac forget_fill n :=
  let E := fresh "Hlen" in
  pose proof (fill_length n ltac:(lia)) as E; revert E;
  generalize (replicate (Z.to_nat n) "x"%byte); intros ? E.

Lemma simple_calls_pass : simple_calls to_server tt = Done tt.
Proof.
  unfold simple_calls. forget_fill 1000. forget_fill 1000000.
  rewrite call_22 by (by vm_compute). cbn [obind].
  do 2 rewrite bool_decide_eq_true_2 by done.
  rewrite call_25 by (by vm_compute). forget_fill 70000. cbn [obind].
  do 2 rewrite bool_decide_eq_true_2 by done.
  rewrite call_too_few by (by vm_compute). cbn [obind]. rewrite bool_decide_eq_true_2 by done.
  rewrite (call_too_many two_ints _ c_string (1001, (1002, tt)) 1001 (be32 1002));
    [|by vm_compute..]. cbn [obind]. rewrite bool_decide_eq_true_2 by done.
  rewrite (call_too_many two_strings _ c_int (str "hello", (str " goodbye", tt)) 5
    (str "hello" ++ enc c_string (str " goodbye"))); [|by vm_compute..]. cbn [obind].
  rewrite bool_decide_eq_true_2 by done.
  rewrite (call_inc 23 handle_fast 1); [|apply startserver_procs|done|by vm_compute..].
  cbn [obind]. do 2 rewrite bool_decide_eq_true_2 by done. cbn [andb].
  rewrite call_22 by (rewrite Hlen; by vm_compute). cbn [obind].
  rewrite bool_decide_eq_true_2 by (rewrite length_app, Nat2Z.inj_add, Hlen; done).
  rewrite call_22 by (rewrite Hlen0; by vm_compute). cbn [obind].
  by rewrite bool_decide_eq_true_2 by (rewrite length_app, Nat2Z.inj_add, Hlen0; done).
Qed.

(** *** The threads *)

Lemma bigrep_loop_passes check_ret args :
  Forall (λ n, 0 ≤ n ≤ MARSHALL_MAX - 28) args →
  bigrep_loop to_server check_ret tt args = Done tt.
Proof.
  induction 1 as [|n args Hn _ IH]; [done|]. cbn [bigrep_loop].
  rewrite call_25 by lia. cbn [obind]. rewrite (bool_decide_eq_true_2 (0 = 0)), orb_true_r by done.
  rewrite fill_length, s32_small by (unfold MARSHALL_MAX in *; lia_ints).
  by rewrite bool_decide_eq_true_2.
Qed.

(** the clock does not go back during the call, and the call takes less than
    [INT_MAX] milliseconds *)
Definition turn_ok (t : turn) : Prop :=
  0 ≤ tn_arg t < 1000 ∧ normal (tn_start t) ∧ normal (tn_end t) ∧
  nanos (tn_start t) ≤ nanos (tn_end t) ∧
  (tv_sec (tn_end t) - tv_sec (tn_start t)) * 1000 + 1000 ≤ INT_MAX.

Lemma turn_elapsed t : turn_ok t → is_done (diff_timespec (tn_end t) (tn_start t)).
Proof.
  intros (_&Hs&He&Hle&Hmax).
  destruct (diff_timespec_close (tn_end t) (tn_start t)) as (d&E&_); try done; [|by exists d].
  unfold nanos, normal in *. lia.
Qed.

Lemma order_loop_passes turns :
  Forall turn_ok turns → order_loop to_server tt turns = Done tt.
Proof.
  destruct startserver_procs as (_&H23&H24&_).
  induction 1 as [|t turns Ht _ IH]; [done|]. cbn [order_loop].
  pose proof Ht as (Harg&_). pose proof (turn_elapsed t Ht) as [d Hd]. clear Ht.
  assert (is_s32 (tn_arg t) ∧ is_s32 (tn_arg t + 1) ∧ is_s32 (tn_arg t + 2)) as (?&?&?) by lia_ints.
  assert (call one_int c_int (to_server (if tn_which t then 23 else 24) to_max) tt
    (tn_arg t, tt) (s32 stale) =
    Done (tt, if tn_which t then tn_arg t + 1 else tn_arg t + 2, 0)) as ->.
  { by destruct (tn_which t); [apply (call_inc 23 handle_fast)|apply (call_inc 24 handle_slow)]. }
  cbn [obind]. rewrite Hd. cbn [obind]. by rewrite !bool_decide_eq_true_2.
Qed.

Lemma client3_loop_passes n : ∀ l i,
  0 ≤ i → i + Z.of_nat n < 1000 →
  client3_loop (λ proc to, lossy (to_server proc to)) n (tt, l) i = Done (tt, drop n l).
Proof.
  destruct startserver_procs as (_&_&H24&_).
  induction n as [|n IH]; intros l i Hi Hn; [by rewrite drop_0|]. cbn [client3_loop].
  assert (is_s32 i ∧ is_s32 (i + 2)) as [Hs Hs2] by lia_ints.
  rewrite call_lossy.
  2: { destruct (put_args_spec one_int _ marshall_new (i, tt)) as (m&E&_); [by split|..|by exists m].
       - apply marshall_new_wf.
       - by vm_compute. }
  rewrite (call_inc 24 handle_slow 2) by done. cbn [obind].
  destruct l as [|[] l]; cbn [obind tail].
  - rewrite (bool_decide_eq_true_2 (i + 2 = i + 2)), orb_true_r by done.
    rewrite IH by lia. by rewrite drop_nil.
  - rewrite IH by lia. done.
  - rewrite (bool_decide_eq_true_2 (i + 2 = i + 2)), orb_true_r by done. rewrite IH by lia. done.
Qed.
End facts.

(** *** A port where nobody listens *)

Section nowhere.
Context `{Heap}.

Lemma bind_refused rnd loss start nows :
  normal start → (4 ≤ length nows)%nat →
  (∀ final, add_timespec start 3000 = Done final → honest final to_min (nanos start) nows) →
  ∃ c, rpcc_bind_to (call1_transport rpc_bind 3000 start (refused_tick <$> nows))
    (rpcc_new true rnd loss, ∅) = Done ((c, ∅), timeout_failure) ∧ chan c = None ∧ calls c = ∅.
Proof.
  intros Hst Hlen Hh. unfold rpcc_bind_to, call.
  destruct (put_args_spec (PCons c_int PNil) _ marshall_new (0, tt)) as (m&E&Hwf&Hi&_);
    [by split|apply marshall_new_wf|by vm_compute|].
  rewrite E. cbn [obind]. unfold call_m, call1_transport.
  assert (call1_ready (rpcc_new true rnd loss) {[0]} rpc_bind m) as Hc.
  { do 4 (split; [apply window_of_new || done|]). rewrite Hi. by vm_compute. }
  assert (conns_ok ∅ [] []) as Hs.
  { split; [split|]; [intros ? Hin; by apply elem_of_nil in Hin|done..]. }
  destruct (call1_refused 2 (rpcc_new true rnd loss) ∅ {[0]} [] rpc_bind m 3000 start nows Hc
    eq_refl Hs Hst) as (c'&Ec&Hch&Hcalls); [by split; [|lia]|done|done|].
  rewrite Ec. cbn [obind]. exists c'. split; [done|]. split; [done|]. by rewrite Hcalls.
Qed.

(** [simple_tests] ends with it: [t0], [t1] are whole seconds, read before the
    call and after it; besides the waiting at most a second passes *)
Definition prompt (begin start finish : timespec) : Prop :=
  normal begin ∧ normal start ∧ normal finish ∧
  nanos begin ≤ nanos start ∧
  ∀ final, add_timespec start 3000 = Done final →
    (nanos start - nanos begin) + (nanos finish - nanos final) ≤ 1000000000.

Lemma bind_nowhere_passes rnd loss begin start finish nows :
  prompt begin start finish → (4 ≤ length nows)%nat →
  (∀ final, add_timespec start 3000 = Done final → honest final to_min (nanos start) nows) →
  bind_nowhere rnd loss (tv_sec begin) (tv_sec finish) start (refused_tick <$> nows) = Done tt.
Proof.
  intros (Hb&Hst&Hf&Hle&Hp) Hlen Hh. unfold bind_nowhere.
  destruct (bind_refused rnd loss start nows Hst Hlen Hh) as (c&->&_). cbn [obind].
  destruct (add_timespec_spec start 3000 Hst ltac:(lia)) as (final&E&Hns&_).
  specialize (Hp final E). rewrite !bool_decide_eq_true_2; [done| |done].
  unfold nanos, normal in *. lia.
Qed.
End nowhere.

(** *** [testmarshall] *)

Section marshalling.
Context `{Heap}.

Definition sample_bytes (i l : Z) (s : list byte) : list byte :=
  be32 i ++ (be32 (l / 2 ^ 32) ++ be32 l) ++ be32 (Zlength s) ++ s.

Lemma sample_bytes_length i l s : Zlength (sample_bytes i l s) = 16 + Zlength s.
Proof. unfold sample_bytes. rewrite !length_app, !be32_length. lia. Qed.

Lemma put_sample_spec m i l s :
  marshall_wf m → mind m + 16 + Zlength s ≤ MARSHALL_MAX →
  puts (put_sample m i l s) m (sample_bytes i l s).
Proof.
  intros Hwf Hmax. unfold put_sample, sample_bytes.
  apply puts_bind; [apply put_int_spec; [done|lia]|]. intros m1 (?&E1&_). rewrite be32_length in E1.
  apply puts_bind; [apply put_ull_spec; [done|lia]|]. intros m2 (?&E2&_).
  rewrite length_app, !be32_length in E2. apply put_string_spec; [done|lia].
Qed.

Lemma get_sample_spec u i l s :
  is_s32 i → is_u64 l → Zlength s ≤ INT_MAX → reads u (sample_bytes i l s) →
  ∃ u', get_sample u = Done (u', (i, l, s)) ∧ okdone u' = true.
Proof.
  intros Hi Hl Hs Hr. unfold get_sample, sample_bytes in *.
  destruct (get_int_be32 u i _ (s32 stale) Hr) as [-> H1]. cbn [obind].
  destruct (get_ull_be _ l _ (u64 stale) Hl H1) as [-> H2]. cbn [obind].
  rewrite <-(app_nil_r (be32 _ ++ s)) in H2.
  destruct (get_string_spec _ s [] [] Hs H2) as [-> H3]. cbn [obind].
  rewrite s32_small by done. eexists. split; [done|]. by rewrite (okdone_reads _ [] H3).
Qed.

Lemma testmarshall_done : testmarshall = Done tt.
Proof.
  unfold testmarshall. set (rh := make_req_header 1 2 3 4 5). set (s := str "hallo....").
  destruct (pack_req_header_spec marshall_new rh marshall_new_wf ltac:(by vm_compute))
    as (m1&->&Hwf1&Hi1&Hs1). cbn [obind].
  change (mind marshall_new) with RPC_HEADER_SZ in Hi1. rewrite Hi1, bool_decide_eq_true_2 by done.
  destruct (put_sample_spec m1 12345 1223344455 s Hwf1) as (m2&->&Hwf2&Hi2&Hs2);
    [rewrite Hi1; by vm_compute|]. cbn [obind].
  pose proof (marshall_str_length _ marshall_new_wf) as Hl0.
  change (mind marshall_new) with 24 in Hl0.
  rewrite Hs1, (drop_ge (marshall_str marshall_new)), app_nil_r in Hs2 by lia.
  rewrite sample_bytes_length, Hi1 in Hi2. pose proof Hwf2 as (b&Hb&_).
  pose proof (reads_taken m2 b Hwf2 Hb ltac:(rewrite Hi2; by vm_compute)) as Hr.
  unfold marshall_take_buf. rewrite Hb. change (default [] (Some b)) with b. cbv beta iota.
  rewrite bool_decide_eq_true_2 by (rewrite Hi2; by vm_compute).
  apply (reads_skip _ _ 4) in Hr; [|done|].
  2: { rewrite Hs2, !length_app, length_take. lia. }
  rewrite Hs2, <-app_assoc, drop_app_length' in Hr by (rewrite length_take; lia).
  destruct (unpack_req_header_spec (unmarshall_new b (mind m2)) rh
    (sample_bytes 12345 1223344455 s)) as [-> Hr2]; [by vm_compute|exact Hr|]. cbn [obind].
  rewrite (bool_decide_eq_true_2 (rh = rh)) by done.
  destruct (get_sample_spec _ 12345 1223344455 s ltac:(by vm_compute) ltac:(by vm_compute)
    ltac:(by vm_compute) Hr2) as (u'&->&Ho). cbn [obind]. rewrite Ho.
  by rewrite bool_decide_eq_true_2.
Qed.
End marshalling.

(** ** Theorems *)

Section theorems.
Context `{Heap} (hd : Z → req_header) (Hhd : ∀ proc, req_header_ok (hd proc)).
Context {rnd : Z} (v : rpcs unit) (Hv : startserver rnd = Done v).

(** [testmarshall] and [simple_tests] pass: against the registered service every
    assertion holds - the two strings are concatenated, 70000 bytes come back, a
    call with too few or too many arguments is refused, a million bytes get
    through - and binding to a port where nobody listens fails within four
    seconds, when no more than a second passes besides the waiting. *)
Theorem simple_tests_pass crnd loss begin start finish nows :
  prompt begin start finish → (4 ≤ length nows)%nat →
  (∀ final, add_timespec start 3000 = Done final → honest final to_min (nanos start) nows) →
  testmarshall = Done tt ∧
  simple_tests (to_server hd v) tt crnd loss (tv_sec begin) (tv_sec finish) start
    (refused_tick <$> nows) = Done tt.
Proof.
  intros Hp Hlen Hh. split; [apply testmarshall_done|]. unfold simple_tests.
  rewrite (simple_calls_pass hd Hhd v Hv). cbn [obind].
  by rewrite (bind_nowhere_passes crnd loss begin start finish nows Hp Hlen Hh).
Qed.

(** The threads of the concurrent tests pass, whatever their random arguments:
    [client1] and [client2] when no call is lost, [client3] also when calls time
    out, any of them. *)
Theorem clients_pass args1 turns args2 lost :
  Forall (λ n, 0 ≤ n < 2000) args1 → Forall turn_ok turns → Forall (λ n, 0 ≤ n < 2000) args2 →
  client1 (to_server hd v) tt args1 turns = Done tt ∧
  client2 (to_server hd v) tt args2 = Done tt ∧
  client3 (λ proc to, lossy (to_server hd v proc to)) (tt, lost) = Done (tt, drop 4 lost).
Proof.
  intros H1 Ht H2. unfold client1, client2.
  assert (∀ n, 0 ≤ n < 2000 → 0 ≤ n ≤ MARSHALL_MAX - 28) as Hmax by (unfold MARSHALL_MAX; lia).
  rewrite !(bigrep_loop_passes hd Hhd v Hv) by (eapply Forall_impl; [eassumption|apply Hmax]).
  cbn [obind]. rewrite (order_loop_passes hd Hhd v Hv) by done.
  split; [done|]. split; [done|]. by apply (client3_loop_passes hd Hhd v Hv 4).
Qed.

(** [client4] passes exactly when the memory after its last round is not much more than
    before the first: no call of it fails, whatever the sizes it asks for. *)
Theorem client4_measures_memory initial rounds args rss :
  Forall (λ r, Forall (λ n, 250000 ≤ n < 252000) r.1) (rounds ++ [(args, rss)]) →
  client4 (to_server hd v) tt initial (rounds ++ [(args, rss)]) =
    if decide (rss - initial < THRES) then Done tt else Fault AssertFailed.
Proof.
  intros Hr. unfold client4. generalize (s32 stale). intros z.
  assert (memory_rounds (to_server hd v) tt z (rounds ++ [(args, rss)]) = Done (tt, rss)) as ->.
  { revert z. induction rounds as [|[a m] rounds IH]; intros z; apply Forall_cons in Hr as [Ha Hr];
      cbn [app memory_rounds fst] in *;
      rewrite (bigrep_loop_passes hd Hhd v Hv) by
        (eapply Forall_impl; [exact Ha|]; unfold MARSHALL_MAX; simpl; lia); [done|].
    by apply IH. }
  cbn [obind]. case_decide; [by rewrite bool_decide_eq_true_2|by rewrite bool_decide_eq_false_2].
Qed.

(** The call that is to show a reply of the wrong type does not get that far: the
    handler reads its [int] from the length of the first string, finds bytes left
    over, and refuses the arguments. *)
Theorem wrong_reply_not_reached r to :
  call two_strings c_int (to_server hd v 23 to) tt (str "hello", (str " goodbye", tt)) r =
    Done (tt, r, unmarshal_args_failure).
Proof.
  apply (call_too_many hd Hhd v Hv two_strings _ c_int (str "hello", (str " goodbye", tt)) 5
    (str "hello" ++ enc c_string (str " goodbye"))); by vm_compute.
Qed.

(** A thread of the lossy test ([client2]) that is told nothing by its call fails
    an assertion: it looks at the size of the reply without looking at the return value. *)
Theorem client2_fails_on_timeout arg args l :
  0 < arg < 2000 →
  client2 (λ proc to, lossy (to_server hd v proc to)) (tt, true :: l) (arg :: args) =
    Fault AssertFailed.
Proof.
  intros Ha. unfold client2. cbn [bigrep_loop]. rewrite call_lossy.
  2: { destruct (put_args_spec one_int _ marshall_new (arg, tt)) as (m&E&_);
       [split; [simpl; lia_ints|done]|apply marshall_new_wf|by vm_compute|by exists m]. }
  cbn [obind negb orb]. rewrite bool_decide_eq_false_2; [done|].
  change (s32 (Zlength [])) with 0. lia.
Qed.
End theorems.

(** ** Witnesses *)

#[local] Existing Instance zero_heap.

Definition test_header (proc : Z) : req_header :=
  {| rq_xid := 1; rq_proc := s32 proc; rq_clt_nonce := 77; rq_srv_nonce := 9; rq_xid_rep := 0 |}.

Lemma test_header_ok proc : req_header_ok (test_header proc).
Proof. pose proof (s32_range proc). split; simpl; lia_ints. Qed.

Lemma test_service : ∃ v, startserver 9 = Done v.
Proof. unfold startserver, rpcs_new. register. by eexists. Qed.

Lemma simple_tests_pass_witness :
  ∃ v, startserver 9 = Done v ∧ testmarshall = Done tt ∧
    simple_tests (to_server test_header v) tt 5 0 100 103 (Timespec 100 0)
      (refused_tick <$> (tk_now <$> sample_ticks)) = Done tt.
Proof.
  destruct test_service as [v Hv]. exists v. split; [exact Hv|].
  refine (simple_tests_pass test_header test_header_ok v Hv 5 0 (Timespec 100 0) (Timespec 100 0)
    (Timespec 103 7) (tk_now <$> sample_ticks) _ _ sample_honest); [|simpl; lia].
  do 4 (split; [by vm_compute|]). intros final E. vm_compute in E. injection E as <-.
  by vm_compute.
Defined.

Lemma clients_pass_witness :
  ∃ v, startserver 9 = Done v ∧
    client1 (to_server test_header v) tt [5; 1999] [Turn true 7 (Timespec 3 0) (Timespec 3 9)] =
      Done tt ∧
    client2 (to_server test_header v) tt [0] = Done tt ∧
    client3 (λ proc to, lossy (to_server test_header v proc to)) (tt, [false; true]) =
      Done (tt, []).
Proof.
  destruct test_service as [v Hv]. exists v. split; [exact Hv|].
  refine (clients_pass test_header test_header_ok v Hv [5; 1999]
    [Turn true 7 (Timespec 3 0) (Timespec 3 9)] [0] [false; true] _ _ _).
  - repeat constructor; lia.
  - repeat constructor; vm_compute; discriminate.
  - repeat constructor; lia.
Defined.

Lemma client2_fails_on_timeout_witness :
  ∃ v, startserver 9 = Done v ∧
    client2 (λ proc to, lossy (to_server test_header v proc to)) (tt, [true]) [8] =
      Fault AssertFailed.
Proof.
  destruct test_service as [v Hv]. exists v. split; [exact Hv|].
  refine (client2_fails_on_timeout test_header v 8 [] [] _). lia.
Defined.

Lemma client4_measures_memory_witness :
  ∃ v, startserver 9 = Done v ∧
    client4 (to_server test_header v) tt 5000 ([([250000; 251999], 6000)] ++ [([250001], 8001)]) =
      Fault AssertFailed.
Proof.
  destruct test_service as [v Hv]. exists v. split; [exact Hv|].
  refine (client4_measures_memory test_header test_header_ok v Hv 5000
    [([250000; 251999], 6000)] [250001] 8001 _).
  repeat constructor; simpl; lia.
Defined.
