(* ===== verification/Restart.v ===== *)
(** * [failure_test] of [rpc/rpctest.cc]

    A server is deleted while a client is bound to it, and started again.  The test
    runs over the endpoints of [Network.v]: the destructors, the bind that finds
    nobody, the old client that is refused, the new client that binds once, and
    ten threads that share it.  Their calls overlap in the program; here each call
    is one step and the schedule is arbitrary (overlapping calls do not disturb
    each other: [AtMostOnce.v]). *)

From Stdlib Require Import Strings.Byte Strings.String.
From S2P Require Import Prelude Marshall Codec Timespec Connection Listener.
From S2P Require Import Stubs Rpcc Rpcs Shutdown Network Rpctest.

(** ** Definitions *)

(** what the test meets outside: the answers of [random()], the clock and the ticks
    of the call to the deleted server, the descriptors of the two connections that
    the new server accepts, and the links of the calls *)
Record restart := Restart {
  rs_client1 : Z; rs_start : timespec; rs_ticks : list tick; rs_server : Z; rs_client : Z;
  rs_fd : Z; rs_fd2 : Z; rs_old : link; rs_bind : link; rs_again : link; rs_call : link }.

Section program.
Context `{Heap, Allocator}.

Definition hello : list byte * (list byte * unit) := (str "hello", (str " goodbye", tt)).

(** up to the threads; [l] are the connections of the old server's listener *)
Definition failure_test_restart (e : restart) (l : list (Z * Z)) (w : net unit)
    : outcome (net unit) :=
  (* delete server *)
  let! _ := rpcs_delete (nt_srv w) (nt_srvconns w) (nt_app w) l [] in
  (* a new client tries to bind to it *)
  let! '(c1, ret) :=
    rpcc_bind_to (call1_transport rpc_bind 3000 (rs_start e) (rs_ticks e))
      (rpcc_new true (rs_client1 e) 0, ∅ : conn_store) in
  check! bool_decide (ret < 0) in
  let! _ := rpcc_delete c1.1 c1.2 in
  let! v := startserver (rs_server e) in
  let w := accepted (Net (nt_cl w) (nt_clconns w) v ∅ tt) (lk_conn (rs_old e)) (rs_fd e) in
  (* the recovered server is called by the old client *)
  let! '(w, rep, intret) :=
    call two_strings c_string (net_call1 (rs_old e) 22 to_max) w hello [] in
  check! bool_decide (intret = oldsrv_failure) in
  let! cs := rpcc_delete (nt_cl w) (nt_clconns w) in
  (* the replacement of the client *)
  let w := accepted (Net (rpcc_new true (rs_client e) 0) cs (nt_srv w) (nt_srvconns w) (nt_app w))
             (lk_conn (rs_bind e)) (rs_fd2 e) in
  let! '(w, ret) := net_bind (rs_bind e) to_max w in
  check! bool_decide (0 ≤ ret) in
  let! '(w, ret) := net_bind (rs_again e) to_max w in
  check! bool_decide (ret < 0) in
  let! '(w, rep, intret) :=
    call two_strings c_string (net_call1 (rs_call e) 22 to_max) w hello rep in
  check! bool_decide (intret = 0) in
  check! bool_decide (rep = str "hello goodbye") in
  Done w.

(** The threads: each is at a turn [i] of the loop of [client3]; the schedule says
    whose turn is next, [ks j] is the link of the [j]-th call.  A thread that is
    through is passed over. *)
Fixpoint client3_threads (ks : nat → link) (j : nat) (sched : list nat) (w : net unit)
    (turns : list Z) : outcome (net unit * list Z) :=
  match sched with
  | [] => Done (w, turns)
  | t :: sched =>
      match turns !! t with
      | Some i =>
          if decide (i < 4) then
            let! w := client3_loop (net_call1 (ks j)) 1 w i in
            client3_threads ks (S j) sched w (<[t := i + 1]> turns)
          else client3_threads ks j sched w turns
      | None => client3_threads ks j sched w turns
      end
  end.

(** [nt] threads are created and joined *)
Definition concurrent_client3 (ks : nat → link) (sched : list nat) (nt : nat) (w : net unit)
    : outcome (net unit) :=
  let! '(w, turns) := client3_threads ks 0 sched w (replicate nt 0) in
  if forallb (λ i, bool_decide (i = 4)) turns then Done w else Fault Deadlocked.

Definition failure_test (e : restart) (l : list (Z * Z)) (ks : nat → link) (sched : list nat)
    (w : net unit) : outcome (net unit) :=
  let! w := failure_test_restart e l w in concurrent_client3 ks sched 10 w.

End program.

(** ** Facts *)

Section facts.
Context `{Heap, Allocator}.

(** the destructor of a client without outstanding calls *)
Lemma rpcc_delete_ok c s o :
  conns_ok s (option_list (chan c) ++ o) o → calls c = ∅ →
  ∃ s', rpcc_delete c s = Done s' ∧ conns_ok s' o o.
Proof.
  intros Hs Hc. unfold rpcc_delete. rewrite Hc, map_size_empty. destruct (chan c) as [p|] eqn:Hp.
  - destruct (conns_ok_closeconn s p _ o Hs) as (s1&b&->&Hs1&_); [by left|]. cbn [obind].
    destruct (conns_ok_decref s1 p o o Hs1) as (s2&->&Hs2); [done|]. cbn [obind].
    rewrite bool_decide_eq_true_2 by done. by exists s2.
  - cbn [obind]. rewrite bool_decide_eq_true_2 by done. by exists s.
Qed.

(** what the constructor and [startserver] leave *)
Lemma startserver_new rnd :
  ∃ v, startserver rnd = Done v ∧ nonce_ v = u32 rnd ∧ reply_window_ v = ∅ ∧ heap v = ∅ ∧
    conns_ v = ∅ ∧ counting_ v = 0 ∧ curr_counts_ v = 0 ∧ counts_ v = ∅ ∧
    procs_ v !! rpc_bind = Some (h1_fn (PCons c_int PNil) c_int (rpcbind (u32 rnd))).
Proof.
  unfold startserver, rpcs_new. register. eexists. split; [done|]. do 7 (split; [done|]). simpl. find_proc.
Qed.

(** *** The threads *)

(** a bound client of the started server *)
Definition bound (p : Z) (w : net unit) : Prop :=
  linked p w ∧ bind_done (nt_cl w) = true ∧
  procs_ (nt_srv w) !! 22 = Some (h1_fn two_strings c_string handle_22) ∧
  procs_ (nt_srv w) !! 24 = Some (h1_fn one_int c_int handle_slow).

Lemma called_bound p w w' :
  bound p w → called p w w' → bound p w' ∧ xid_ (nt_cl w') = xid_ (nt_cl w) + 1.
Proof. intros (_&Hb&H22&H24) (Hl&Hx&Hb'&_&Hp). unfold bound. rewrite Hb', Hp. done. Qed.

Lemma client3_turn_ok k w i :
  timely k → bound (lk_conn k) w → xid_ (nt_cl w) < INT_MAX → 0 ≤ i < 4 →
  ∃ w', client3_loop (net_call1 k) 1 w i = Done w' ∧ bound (lk_conn k) w' ∧
    xid_ (nt_cl w') = xid_ (nt_cl w) + 1.
Proof.
  intros Hk Hb Hx Hi. pose proof Hb as (Hl&Hbd&_&H24).
  assert (is_s32 i ∧ is_s32 (i + 2)) as [Hi1 Hi2] by lia_ints.
  destruct (net_call_ok k 24 3000 one_int _ c_int handle_slow w (i, tt) tt (i + 2) 0 (s32 stale))
    as (w'&E&_&Hc); try done.
  - unfold handle_slow, int_result. simpl. rewrite bool_decide_eq_true_2 by done. by destruct (nt_app w).
  - intros u. by apply get_int_into.
  - exists w'. split; [|by eapply called_bound]. cbn [client3_loop]. rewrite E. cbn [obind].
    by rewrite (bool_decide_eq_true_2 (i + 2 = i + 2)), orb_true_r.
Qed.

Lemma client3_threads_ok p ks sched : ∀ j w turns,
  (∀ j, timely (ks j) ∧ lk_conn (ks j) = p) → bound p w →
  xid_ (nt_cl w) + Zlength sched ≤ INT_MAX → Forall (λ i, 0 ≤ i ≤ 4) turns →
  ∃ w' turns', client3_threads ks j sched w turns = Done (w', turns') ∧ bound p w' ∧
    ∀ t, turns' !! t =
      (λ i, Z.min 4 (i + Z.of_nat (length (filter (eq t) sched)))) <$> turns !! t.
Proof.
  induction sched as [|t sched IH]; intros j w turns Hks Hw Hx Ht.
  { exists w, turns. split; [done|]. split; [done|]. intros t. simpl.
    destruct (turns !! t) as [i|] eqn:E; [|done]. simpl. f_equal.
    pose proof (Forall_lookup_1 _ _ _ _ Ht E). simpl in *. lia. }
  cbn [client3_threads length] in *. destruct (turns !! t) as [i|] eqn:E.
  - pose proof (Forall_lookup_1 _ _ _ _ Ht E) as Hi. simpl in Hi. case_decide as Hlt.
    + destruct (Hks j) as [Hk Hp]. rewrite <-Hp in Hw.
      destruct (client3_turn_ok (ks j) w i Hk Hw) as (w1&->&Hw1&Hx1); [lia|lia|]. cbn [obind].
      rewrite Hp in Hw1.
      destruct (IH (S j) w1 (<[t := i + 1]> turns) Hks Hw1) as (w'&turns'&E'&Hw'&Hl); [lia| |].
      { apply Forall_insert; [done|]. simpl. lia. }
      exists w', turns'. split; [done|]. split; [done|]. intros u. rewrite Hl, filter_eq_cons.
      destruct (decide (u = t)) as [->|Hu].
      * rewrite list_lookup_insert_eq by (by eapply lookup_lt_Some). rewrite E.
        cbn [fmap option_fmap option_map length]. f_equal. lia.
      * by rewrite list_lookup_insert_ne.
    + destruct (IH j w turns Hks Hw) as (w'&turns'&E'&Hw'&Hl); [lia|done|].
      exists w', turns'. split; [done|]. split; [done|]. intros u. rewrite Hl, filter_eq_cons.
      destruct (decide (u = t)) as [->|Hu]; [|done]. rewrite E.
      cbn [fmap option_fmap option_map length]. f_equal. lia.
  - destruct (IH j w turns Hks Hw) as (w'&turns'&E'&Hw'&Hl); [lia|done|].
    exists w', turns'. split; [done|]. split; [done|]. intros u. rewrite Hl, filter_eq_cons.
    destruct (decide (u = t)) as [->|Hu]; [|done]. by rewrite E.
Qed.

(** *** The restart *)

(** the world before: a bound client, and a server without pending requests whose
    listener has the connections [l] *)
Definition before_restart (e : restart) (l : list (Z * Z)) (w : net unit) : Prop :=
  let c := nt_cl w in
  bind_done c = true ∧ 0 < clt_nonce c < 2 ^ 32 ∧ 0 < srv_nonce c < 2 ^ 32 ∧
  srv_nonce c ≠ u32 (rs_server e) ∧ 1 ≤ xid_ c ≤ INT_MAX ∧
  (∃ R, window_of R (xid_rep_window c)) ∧ calls c = ∅ ∧
  (∃ o, conns_ok (nt_clconns w) (option_list (chan c) ++ o) o) ∧
  (∃ ps, window_ok (reply_window_ (nt_srv w)) (heap (nt_srv w)) ps) ∧
  conns_ok (nt_srvconns w) (l.*2 ++ crefs (conns_ (nt_srv w))) [].

(** the clock goes on while [client1] waits, [connect] and [new] answer with new
    objects, and the two clients do not share a connection *)
Definition restart_ok (e : restart) (nows : list timespec) : Prop :=
  rs_ticks e = refused_tick <$> nows ∧ normal (rs_start e) ∧ (4 ≤ length nows)%nat ∧
  (∀ final, add_timespec (rs_start e) 3000 = Done final →
     honest final to_min (nanos (rs_start e)) nows) ∧
  0 < rs_client e < 2 ^ 32 ∧ timely (rs_old e) ∧ timely (rs_bind e) ∧ timely (rs_call e) ∧
  lk_conn (rs_old e) ≠ lk_conn (rs_bind e) ∧ lk_conn (rs_call e) = lk_conn (rs_bind e).

Lemma hello_fits :
  valid_args two_strings _ hello ∧
  RPC_HEADER_SZ + Zlength (enc_args two_strings _ hello) ≤ MARSHALL_MAX.
Proof. by vm_compute. Qed.

(** a bound client calls procedure 22 *)
Lemma call_hello k w rep :
  timely k → bound (lk_conn k) w → xid_ (nt_cl w) < INT_MAX →
  ∃ w', call two_strings c_string (net_call1 k 22 to_max) w hello rep =
      Done (w', str "hello goodbye", 0) ∧ bound (lk_conn k) w' ∧
    xid_ (nt_cl w') = xid_ (nt_cl w) + 1.
Proof.
  intros Hk Hb Hx. pose proof Hb as (Hl&Hbd&H22&_). destruct hello_fits as [Hv Hf].
  destruct (net_call_ok k 22 to_max two_strings _ c_string handle_22 w hello (nt_app w)
    (str "hello goodbye") 0 rep Hk ltac:(by vm_compute) Hl Hbd Hx H22) as (w'&E&_&Hc);
    [discriminate|by vm_compute|exact Hv|exact Hf|reflexivity|by vm_compute|by vm_compute
    |by vm_compute|intros u; apply get_string_into; by vm_compute|].
  exists w'. split; [exact E|]. by eapply called_bound.
Qed.

(** the new client: it binds once, and calls *)
Lemma replacement_ok e w o rep :
  timely (rs_bind e) → timely (rs_call e) → lk_conn (rs_call e) = lk_conn (rs_bind e) →
  0 < rs_client e < 2 ^ 32 → nt_cl w = rpcc_new true (rs_client e) 0 → conns_ok (nt_clconns w) o o →
  reply_window_ (nt_srv w) = ∅ → is_u32 (nonce_ (nt_srv w)) →
  procs_ (nt_srv w) !! rpc_bind =
    Some (h1_fn (PCons c_int PNil) c_int (rpcbind (nonce_ (nt_srv w)))) →
  procs_ (nt_srv w) !! 22 = Some (h1_fn two_strings c_string handle_22) →
  procs_ (nt_srv w) !! 24 = Some (h1_fn one_int c_int handle_slow) →
  serving (nt_srv w) (nt_srvconns w) (lk_conn (rs_bind e)) →
  ∃ w1 w2, net_bind (rs_bind e) to_max w = Done (w1, 0) ∧
    net_bind (rs_again e) to_max w1 = Done (w1, bind_failure) ∧
    call two_strings c_string (net_call1 (rs_call e) 22 to_max) w1 hello rep =
      Done (w2, str "hello goodbye", 0) ∧
    bound (lk_conn (rs_bind e)) w2 ∧ xid_ (nt_cl w2) = 3.
Proof.
  intros Hkb Hkc Hkk Hr Hcl Hcs Hrw Hn Hp1 H22 H24 Hs.
  assert (linked (lk_conn (rs_bind e)) w) as Hl.
  { apply (new_client_linked _ (rs_client e) 0 w o); try done. by rewrite Hrw, lookup_empty. }
  destruct (net_bind_ok (rs_bind e) to_max w Hkb) as (w1&E1&Hl1&Hb1&_&Hpr&Hx1&_); try done.
  { by rewrite Hcl. }
  { by rewrite Hcl. }
  assert (bound (lk_conn (rs_call e)) w1) as Hb.
  { rewrite Hkk. split; [done|]. split; [done|]. by rewrite Hpr. }
  rewrite Hcl in Hx1. simpl in Hx1.
  destruct (call_hello (rs_call e) w1 rep Hkc Hb) as (w2&E2&Hb2&Hx2); [rewrite Hx1; by vm_compute|].
  exists w1, w2. rewrite Hkk in Hb2. split; [done|]. split; [by apply net_bind_again|].
  split; [done|]. split; [done|]. lia.
Qed.

(** the old client: it is refused and can be deleted *)
Lemma old_client_ok e l w v :
  before_restart e l w → timely (rs_old e) → nonce_ v = u32 (rs_server e) →
  let w1 := accepted (Net (nt_cl w) (nt_clconns w) v ∅ tt) (lk_conn (rs_old e)) (rs_fd e) in
  ∃ w2 cs o, call two_strings c_string (net_call1 (rs_old e) 22 to_max) w1 hello [] =
      Done (w2, [], oldsrv_failure) ∧
    rpcc_delete (nt_cl w2) (nt_clconns w2) = Done cs ∧ conns_ok cs o o ∧ nt_srv w2 = v ∧
    conns_ok (nt_srvconns w2) [lk_conn (rs_old e); lk_conn (rs_old e)]
      [lk_conn (rs_old e); lk_conn (rs_old e)] ∧
    ∀ q, q ≠ lk_conn (rs_old e) → nt_srvconns w2 !! q = None.
Proof.
  intros (Hbd&Hcn&Hsn&Hne&Hx&HR&Hcalls&Hcs&_) Hk Hv w1. set (p := lk_conn (rs_old e)) in *.
  assert (conns_ok (nt_srvconns w1) [p] [p]) as Hsc.
  { eapply conns_ok_senders; [|apply conns_ok_new]; [by intros ? ?%elem_of_nil| |done].
    split; [split|]; [by intros ? ?%elem_of_nil|done..]. }
  assert (outdated p w1) as Hout.
  { unfold outdated, w1. simpl. rewrite Hv. do 7 (split; [done|]). exists [p], [p].
    split; [by left|exact Hsc]. }
  destruct hello_fits as [Hva Hf].
  destruct (net_call_outdated (rs_old e) 22 to_max two_strings _ c_string w1 hello [] Hk
    ltac:(by vm_compute) Hout) as (w2&E&_&Hsrv&Hcl&(o&Ho)&Hg&Habs);
    [discriminate|by vm_compute|exact Hva|exact Hf|].
  destruct (rpcc_delete_ok (nt_cl w2) (nt_clconns w2) o Ho) as (cs&Ed&Hcs').
  { rewrite Hcl. unfold w1. simpl. by rewrite Hcalls, delete_empty. }
  exists w2, cs, o. split; [done|]. split; [done|]. split; [done|]. split; [done|]. split.
  - eapply conns_ok_senders; [|apply Hg, Hsc; by left]. intros q Hq. by right.
  - intros q Hq. apply Habs. unfold w1. simpl. by rewrite lookup_insert_ne by done.
Qed.

Lemma failure_test_restart_ok e l w nows :
  before_restart e l w → restart_ok e nows →
  ∃ w', failure_test_restart e l w = Done w' ∧ bound (lk_conn (rs_bind e)) w' ∧
    xid_ (nt_cl w') = 3.
Proof.
  intros Hw (Htk&Hst&Hlen&Hh&Hr&Hko&Hkb&Hkc&Hne&Hkk).
  pose proof Hw as (_&_&_&_&_&_&_&_&(ps&Hps)&Hsc). unfold failure_test_restart.
  destruct (rpcs_delete_leaks (nt_srv w) (nt_srvconns w) (nt_app w) l ps Hps Hsc)
    as (v0&cs0&->&_). cbn [obind]. rewrite Htk.
  destruct (bind_refused (rs_client1 e) 0 (rs_start e) nows Hst Hlen Hh) as (c1&->&Hch&Hcalls).
  cbn [obind fst snd]. rewrite bool_decide_eq_true_2 by done.
  destruct (rpcc_delete_ok c1 ∅ []) as (cs1&->&_); [|done|].
  { rewrite Hch. split; [split|]; [by intros ? ?%elem_of_nil|done..]. }
  cbn [obind]. destruct (startserver_new (rs_server e)) as (v&Hv&Hn&Hrw&Hhp&Hcn&Hct&Hcu&Hcc&Hp1).
  destruct (startserver_procs v Hv) as (H22&_&H24&_). rewrite Hv. cbn [obind].
  destruct (old_client_ok e l w v Hw Hko Hn) as (w2&cs&o&Ec&Ed&Hcs&Hsrv&Hsc2&Habs).
  rewrite Ec. cbn [obind]. rewrite bool_decide_eq_true_2 by done. rewrite Ed. cbn [obind].
  set (w3 := accepted _ (lk_conn (rs_bind e)) _).
  assert (nt_srv w3 = v) as Hs3 by exact Hsrv.
  assert (serving (nt_srv w3) (nt_srvconns w3) (lk_conn (rs_bind e))) as Hsv.
  { rewrite Hs3. exact (started_serving v (nt_srvconns w2) (lk_conn (rs_bind e)) (rs_fd2 e) _
      Hrw Hhp Hcn Hct Hcu Hcc Hsc2 (Habs _ (not_eq_sym Hne))). }
  rewrite <-Hs3 in Hrw, H22, H24, Hp1. rewrite <-Hn, <-Hs3 in Hp1.
  assert (is_u32 (nonce_ (nt_srv w3))) as Hn3 by (rewrite Hs3, Hn; apply u32_range).
  destruct (replacement_ok e w3 o [] Hkb Hkc Hkk Hr eq_refl Hcs Hrw Hn3 Hp1 H22 H24 Hsv)
    as (w4&w5&->&E2&E3&Hb&Hx).
  cbn [obind]. rewrite bool_decide_eq_true_2 by done. rewrite E2. cbn [obind].
  rewrite bool_decide_eq_true_2 by done. rewrite E3. cbn [obind].
  rewrite !bool_decide_eq_true_2 by done. exists w5. exact (conj eq_refl (conj Hb Hx)).
Qed.
End facts.

(** ** Theorem *)

Section theorem.
Context `{Heap, Allocator}.

End theorem.

(** ** Witness *)

#[local] Existing Instance zero_heap.
#[local] Existing Instance fresh_allocator.

Definition sample_link_on (p : Z) : link :=
  {| lk_answer := lk_answer sample_link; lk_conn := p; lk_start := lk_start sample_link;
     lk_now := lk_now sample_link |}.

(** a client bound to the server with nonce 9, which restarts with nonce 10 *)
Definition bound_net (v : rpcs unit) : net unit :=
  Net (set_bound (rpcc_new true 77 0) 9) ∅ v (sample_conns false) tt.

Definition sample_restart : restart :=
  {| rs_client1 := 5; rs_start := Timespec 100 0;
     rs_ticks := refused_tick <$> (tk_now <$> sample_ticks); rs_server := 10; rs_client := 78;
     rs_fd := 7; rs_fd2 := 8; rs_old := sample_link_on 1; rs_bind := sample_link_on 2;
     rs_again := sample_link_on 2; rs_call := sample_link_on 2 |}.

Lemma sample_link_on_timely p : timely (sample_link_on p).
Proof. exact sample_link_timely. Qed.

Lemma bound_net_before v :
  startserver 9 = Done v → before_restart sample_restart [(5, 1)] (bound_net v).
Proof.
  intros Hv. destruct (startserver_new 9) as (v'&Hv'&_&Hw&Hh&Hc&_). rewrite Hv in Hv'.
  injection Hv' as <-. split; [reflexivity|]. split; [by vm_compute|]. split; [by vm_compute|].
  split; [discriminate|]. split; [by vm_compute|].
  split; [exists {[0]}; apply window_of_new|]. split; [reflexivity|]. split.
  { exists []. split; [split|]; [by intros ? ?%elem_of_nil|done..]. }
  split.
  - exists []. change (nt_srv (bound_net v)) with v. rewrite Hw, Hh.
    split; [by split; [constructor|set_solver]|]. intros n l. by rewrite lookup_empty.
  - change (nt_srv (bound_net v)) with v. rewrite Hc. apply (sample_server_ok false).
Qed.

Lemma sample_restart_ok : restart_ok sample_restart (tk_now <$> sample_ticks).
Proof.
  split; [reflexivity|]. split; [by vm_compute|]. split; [simpl; lia|].
  split; [exact sample_honest|]. split; [by vm_compute|]. split; [exact sample_link_timely|].
  split; [exact sample_link_timely|]. split; [exact sample_link_timely|].
  split; [discriminate|reflexivity].
Qed.

(** round robin *)
Definition sample_schedule : list nat := mjoin (replicate 4 (seq 0 10)).

