(* ===== verification/PollMgr.v ===== *)
(** * The poll manager: [rpc/pollmgr.cc], [rpc/pollmgr.h]

    [aio_mgr] is the abstract class of the code, [AioLaws] what [PollMgr] expects
    of it; [SelectAIO] and [EPollAIO] are its two implementations.  What the
    kernel answers to [select] and [epoll_wait] is an argument.  The second half
    interleaves the polling thread with the threads that remove callbacks. *)

From S2P Require Import Prelude.

Definition MAX_POLL_FDS : Z := 128.

Inductive poll_flag := CB_NONE | CB_RDONLY | CB_WRONLY | CB_RDWR | CB_MASK.

#[export] Instance poll_flag_eq_dec : EqDecision poll_flag.
Proof. solve_decision. Defined.

(** the values of the constants; [CB_MASK] is [~0x11] *)
Definition flag_value (f : poll_flag) : Z :=
  match f with
  | CB_NONE => 0 | CB_RDONLY => 1 | CB_WRONLY => 16 | CB_RDWR => 17 | CB_MASK => Z.lnot 17
  end.

(** ** The abstract class *)

Class aio_mgr (S : Type) := {
  Answer : Type;   (**r what the kernel may answer to a wait *)
  watch_fd : S → Z → poll_flag → outcome S;
  unwatch_fd : S → Z → poll_flag → outcome (S * bool);
  is_watched : S → Z → poll_flag → outcome bool;
  wait_ready : S → Answer → outcome (S * list Z * list Z) }.

(** ** [SelectAIO] *)

Definition FD_SETSIZE : Z := 1024.

Abbreviation fd_set := (gset Z).

Definition FD_SET (fd : Z) (s : fd_set) : outcome fd_set :=
  if bool_decide (0 ≤ fd < FD_SETSIZE) then Done ({[fd]} ∪ s) else Fault OutOfBounds.
Definition FD_CLR (fd : Z) (s : fd_set) : outcome fd_set :=
  if bool_decide (0 ≤ fd < FD_SETSIZE) then Done (s ∖ {[fd]}) else Fault OutOfBounds.
Definition FD_ISSET (fd : Z) (s : fd_set) : outcome bool :=
  if bool_decide (0 ≤ fd < FD_SETSIZE) then Done (bool_decide (fd ∈ s)) else Fault OutOfBounds.

(** [pipe_n] is the number of bytes in the pipe that wakes the polling thread *)
Record select_aio := SelectAIO {
  rfds_ : fd_set;
  wfds_ : fd_set;
  highfds_ : Z;
  pipefd_0 : Z;
  pipe_n : nat }.

Definition set_fds (s : select_aio) r w : select_aio :=
  {| rfds_ := r; wfds_ := w; highfds_ := highfds_ s; pipefd_0 := pipefd_0 s; pipe_n := pipe_n s |}.
Definition set_high (s : select_aio) h : select_aio :=
  {| rfds_ := rfds_ s; wfds_ := wfds_ s; highfds_ := h; pipefd_0 := pipefd_0 s; pipe_n := pipe_n s |}.
Definition set_pipe (s : select_aio) n : select_aio :=
  {| rfds_ := rfds_ s; wfds_ := wfds_ s; highfds_ := highfds_ s; pipefd_0 := pipefd_0 s; pipe_n := n |}.

(** the constructor, given the read end of the pipe *)
Definition select_new (rd : Z) : outcome select_aio :=
  let! r := FD_SET rd ∅ in
  Done {| rfds_ := r; wfds_ := ∅; highfds_ := rd; pipefd_0 := rd; pipe_n := 0 |}.

Definition select_watch_fd (s : select_aio) (fd : Z) (flag : poll_flag) : outcome select_aio :=
  let s := if decide (highfds_ s ≤ fd) then set_high s fd else s in
  let! s :=
    match flag with
    | CB_RDONLY => let! r := FD_SET fd (rfds_ s) in Done (set_fds s r (wfds_ s))
    | CB_WRONLY => let! w := FD_SET fd (wfds_ s) in Done (set_fds s (rfds_ s) w)
    | _ => let! r := FD_SET fd (rfds_ s) in
           let! w := FD_SET fd (wfds_ s) in Done (set_fds s r w)
    end in
  Done (set_pipe s (S (pipe_n s))).

Definition select_is_watched (s : select_aio) (fd : Z) (flag : poll_flag) : outcome bool :=
  match flag with
  | CB_RDONLY => FD_ISSET fd (rfds_ s)
  | CB_WRONLY => FD_ISSET fd (wfds_ s)
  | _ => let! r := FD_ISSET fd (rfds_ s) in
         if r : bool then FD_ISSET fd (wfds_ s) else Done false
  end.

(** the loop that looks for the new highest descriptor; [i <= highfds_ < FD_SETSIZE] *)
Definition new_high (s : select_aio) : Z :=
  fold_left (λ newh i, if decide (i ∈ rfds_ s) then i else if decide (i ∈ wfds_ s) then i else newh)
    (seqZ 0 (highfds_ s + 1)) (pipefd_0 s).

Definition select_unwatch_fd (s : select_aio) (fd : Z) (flag : poll_flag) :
    outcome (select_aio * bool) :=
  let! s :=
    match flag with
    | CB_RDONLY => let! r := FD_CLR fd (rfds_ s) in Done (set_fds s r (wfds_ s))
    | CB_WRONLY => let! w := FD_CLR fd (wfds_ s) in Done (set_fds s (rfds_ s) w)
    | CB_RDWR => let! w := FD_CLR fd (wfds_ s) in
                 let! r := FD_CLR fd (rfds_ s) in Done (set_fds s r w)
    | _ => Fault AssertFailed
    end in
  let! r := FD_ISSET fd (rfds_ s) in
  let! w := FD_ISSET fd (wfds_ s) in
  let gone := negb r && negb w in
  let s := if gone then if decide (fd = highfds_ s) then set_high s (new_high s) else s else s in
  let s := if decide (flag = CB_RDWR) then set_pipe s (S (pipe_n s)) else s in
  Done (s, gone).

(** the loop over the answer of [select], from descriptor 0 to [high] *)
Fixpoint select_collect (pipe : Z) (tr tw : fd_set) (l : list Z) (n : nat) :
    outcome (nat * list Z * list Z) :=
  match l with
  | [] => Done (n, [], [])
  | fd :: l =>
      if decide (fd = pipe ∧ fd ∈ tr) then
        check! bool_decide (n ≠ 0%nat) in
        select_collect pipe tr tw l (pred n)
      else
        let! '(n, r, w) := select_collect pipe tr tw l n in
        Done (n, (if decide (fd ∈ tr) then [fd] else []) ++ r,
                 (if decide (fd ∈ tw) then [fd] else []) ++ w)
  end.

(** [None]: the call was interrupted; other errors end in [assert(0)] *)
Definition select_wait_ready (s : select_aio) (answer : option (fd_set * fd_set)) :
    outcome (select_aio * list Z * list Z) :=
  match answer with
  | None => Done (s, [], [])
  | Some (tr, tw) =>
      let! '(n, r, w) := select_collect (pipefd_0 s) tr tw (seqZ 0 (highfds_ s + 1)) (pipe_n s) in
      Done (set_pipe s n, r, w)
  end.

#[export] Instance select_aio_mgr : aio_mgr select_aio :=
  {| Answer := option (fd_set * fd_set); watch_fd := select_watch_fd;
     unwatch_fd := select_unwatch_fd; is_watched := select_is_watched;
     wait_ready := select_wait_ready |}.

(** ** [EPollAIO] *)

Definition EPOLLIN : Z := 1.
Definition EPOLLOUT : Z := 4.
Definition EPOLLET : Z := Z.shiftl 1 31.

Inductive epoll_op := EPOLL_CTL_ADD | EPOLL_CTL_MOD | EPOLL_CTL_DEL.

#[export] Instance epoll_op_eq_dec : EqDecision epoll_op.
Proof. solve_decision. Defined.

(** [kernel]: the events that each registered descriptor is registered for *)
Record epoll_aio := EPollAIO { fdstatus_ : list Z; kernel : gmap Z Z }.

Definition epoll_new : epoll_aio :=
  {| fdstatus_ := replicate (Z.to_nat MAX_POLL_FDS) 0; kernel := ∅ |}.

(** [epoll_ctl] refuses to add twice, and to change or delete what is not there *)
Definition epoll_ctl (k : gmap Z Z) (op : epoll_op) (fd ev : Z) : option (gmap Z Z) :=
  match op, k !! fd with
  | EPOLL_CTL_ADD, None => Some (<[fd := ev]> k)
  | EPOLL_CTL_MOD, Some _ => Some (<[fd := ev]> k)
  | EPOLL_CTL_DEL, Some _ => Some (delete fd k)
  | _, _ => None
  end.

(** [fdstatus_[fd]]; the code asserts only [fd < MAX_POLL_FDS] *)
Definition fdstatus (e : epoll_aio) (fd : Z) : outcome Z :=
  check! bool_decide (fd < MAX_POLL_FDS) in
  if bool_decide (0 ≤ fd) then
    match fdstatus_ e !! Z.to_nat fd with Some x => Done x | None => Fault OutOfBounds end
  else Fault OutOfBounds.

(** what [epoll] is asked for a flag; nothing calls it, [watch_fd] computes the same
    events from the status of the descriptor ([poll_flag_events]) *)
Definition poll_flag_to_event (flag : poll_flag) : Z :=
  if decide (flag = CB_RDONLY) then EPOLLIN
  else if decide (flag = CB_WRONLY) then EPOLLOUT
  else Z.lor EPOLLIN EPOLLOUT.

Definition status_events (st : Z) : Z :=
  let ev := EPOLLET in
  let ev := if decide (Z.land st (flag_value CB_RDONLY) ≠ 0) then Z.lor ev EPOLLIN else ev in
  if decide (Z.land st (flag_value CB_WRONLY) ≠ 0) then Z.lor ev EPOLLOUT else ev.

Definition epoll_update (e : epoll_aio) (fd st : Z) (op : epoll_op) : outcome epoll_aio :=
  match epoll_ctl (kernel e) op fd (status_events st) with
  | Some k => Done {| fdstatus_ := <[Z.to_nat fd := st]> (fdstatus_ e); kernel := k |}
  | None => Fault AssertFailed
  end.

Definition epoll_watch_fd (e : epoll_aio) (fd : Z) (flag : poll_flag) : outcome epoll_aio :=
  let! st := fdstatus e fd in
  let op := if decide (st ≠ 0) then EPOLL_CTL_MOD else EPOLL_CTL_ADD in
  let st := Z.lor st (flag_value flag) in
  check! bool_decide (flag = CB_RDWR →
    status_events st = Z.lor EPOLLET (Z.lor EPOLLIN EPOLLOUT)) in
  epoll_update e fd st op.

Definition epoll_unwatch_fd (e : epoll_aio) (fd : Z) (flag : poll_flag) :
    outcome (epoll_aio * bool) :=
  let! st := fdstatus e fd in
  let st := Z.land st (Z.lnot (flag_value flag)) in
  let op := if decide (st ≠ 0) then EPOLL_CTL_MOD else EPOLL_CTL_DEL in
  check! bool_decide (flag = CB_RDWR → op = EPOLL_CTL_DEL) in
  let! e := epoll_update e fd st op in
  Done (e, bool_decide (op = EPOLL_CTL_DEL)).

Definition epoll_is_watched (e : epoll_aio) (fd : Z) (flag : poll_flag) : outcome bool :=
  let! st := fdstatus e fd in
  Done (bool_decide (Z.land st (flag_value CB_MASK) = flag_value flag)).

(** the answer of [epoll_wait]: descriptors with their events *)
Definition epoll_wait_ready (e : epoll_aio) (ready : list (Z * Z)) :
    outcome (epoll_aio * list Z * list Z) :=
  Done (e, omap (λ '(fd, ev), if decide (Z.land ev EPOLLIN ≠ 0) then Some fd else None) ready,
           omap (λ '(fd, ev), if decide (Z.land ev EPOLLOUT ≠ 0) then Some fd else None) ready).

#[export] Instance epoll_aio_mgr : aio_mgr epoll_aio :=
  {| Answer := list (Z * Z); watch_fd := epoll_watch_fd; unwatch_fd := epoll_unwatch_fd;
     is_watched := epoll_is_watched; wait_ready := epoll_wait_ready |}.

(** ** [PollMgr] over an [aio_mgr]; [C] is the type of callback objects *)

Section pollmgr.
Context {S C : Type} `{!EqDecision C, !aio_mgr S}.

Record pollmgr := PollMgr {
  callbacks_ : list (option C);
  aio_ : S;
  pending_change_ : bool }.

Definition pollmgr_new (aio : S) : pollmgr :=
  {| callbacks_ := replicate (Z.to_nat MAX_POLL_FDS) None; aio_ := aio;
     pending_change_ := false |}.

Definition set_callback (p : pollmgr) (fd : Z) (ch : option C) : pollmgr :=
  {| callbacks_ := <[Z.to_nat fd := ch]> (callbacks_ p); aio_ := aio_ p;
     pending_change_ := pending_change_ p |}.
Definition set_aio (p : pollmgr) (a : S) : pollmgr :=
  {| callbacks_ := callbacks_ p; aio_ := a; pending_change_ := pending_change_ p |}.
Definition set_pending (p : pollmgr) (b : bool) : pollmgr :=
  {| callbacks_ := callbacks_ p; aio_ := aio_ p; pending_change_ := b |}.

(** [callbacks_[fd]] *)
Definition callback (p : pollmgr) (fd : Z) : outcome (option C) :=
  if bool_decide (0 ≤ fd) then
    match callbacks_ p !! Z.to_nat fd with Some c => Done c | None => Fault OutOfBounds end
  else Fault OutOfBounds.

Definition add_callback (p : pollmgr) (fd : Z) (flag : poll_flag) (ch : C) : outcome pollmgr :=
  check! bool_decide (fd < MAX_POLL_FDS) in
  let! a := watch_fd (aio_ p) fd flag in
  let p := set_aio p a in
  let! cur := callback p fd in
  check! bool_decide (cur = None ∨ cur = Some ch) in
  Done (set_callback p fd (Some ch)).

Definition del_callback (p : pollmgr) (fd : Z) (flag : poll_flag) : outcome pollmgr :=
  let! '(a, gone) := unwatch_fd (aio_ p) fd flag in
  let p := set_aio p a in
  if gone : bool then let! _ := callback p fd in Done (set_callback p fd None) else Done p.

Definition has_callback (p : pollmgr) (fd : Z) (flag : poll_flag) (c : C) : outcome bool :=
  let! cur := callback p fd in
  if decide (cur = Some c) then is_watched (aio_ p) fd flag else Done false.

(** [block_remove_fd] up to [pthread_cond_wait], which gives the mutex back ... *)
Definition block_remove_begin (p : pollmgr) (fd : Z) : outcome pollmgr :=
  let! '(a, _) := unwatch_fd (aio_ p) fd CB_RDWR in
  Done (set_pending (set_aio p a) true).

(** ... and after it *)
Definition block_remove_end (p : pollmgr) (fd : Z) : outcome pollmgr :=
  let! _ := callback p fd in Done (set_callback p fd None).

(** the head of the loop of [wait_loop]: are the waiters of [changedone_c_] woken? *)
Definition wait_loop_head (p : pollmgr) : pollmgr * bool :=
  if pending_change_ p then (set_pending p false, true) else (p, false).

(** the calls of one turn: first the readable descriptors, then the writable *)
Definition turn_calls (readable writable : list Z) : list (bool * Z) :=
  ((λ fd, (false, fd)) <$> readable) ++ ((λ fd, (true, fd)) <$> writable).
End pollmgr.
Arguments pollmgr : clear implicits.

(** ** The interface: what [PollMgr] expects of its [aio_mgr]

    [status s fd] tells whether the manager watches [fd] for reading and for
    writing. *)

Definition reads_flag (f : poll_flag) : bool :=
  match f with CB_RDONLY | CB_RDWR => true | _ => false end.
Definition writes_flag (f : poll_flag) : bool :=
  match f with CB_WRONLY | CB_RDWR => true | _ => false end.
(** the flags the code passes to the operations *)
Definition real_flag (f : poll_flag) : bool := reads_flag f || writes_flag f.

Definition join_flag (st : bool * bool) (f : poll_flag) : bool * bool :=
  (st.1 || reads_flag f, st.2 || writes_flag f).
Definition drop_flag (st : bool * bool) (f : poll_flag) : bool * bool :=
  (st.1 && negb (reads_flag f), st.2 && negb (writes_flag f)).
Definition no_interest : bool * bool := (false, false).

Class AioLaws (S : Type) `{!aio_mgr S} := {
  aio_ok : S → Prop;
  (** the descriptors that connections may use *)
  fd_ok : S → Z → Prop;
  status : S → Z → bool * bool;
  fd_ok_range s fd : fd_ok s fd → 0 ≤ fd < MAX_POLL_FDS;
  watch_law s fd f :
    aio_ok s → fd_ok s fd → real_flag f = true →
    ∃ s', watch_fd s fd f = Done s' ∧ aio_ok s' ∧ (∀ fd', fd_ok s' fd' ↔ fd_ok s fd') ∧
      ∀ fd', fd_ok s fd' →
        status s' fd' = if decide (fd' = fd) then join_flag (status s fd) f else status s fd';
  unwatch_law s fd f :
    aio_ok s → fd_ok s fd → real_flag f = true → status s fd ≠ no_interest →
    ∃ s', unwatch_fd s fd f =
        Done (s', bool_decide (drop_flag (status s fd) f = no_interest)) ∧
      aio_ok s' ∧ (∀ fd', fd_ok s' fd' ↔ fd_ok s fd') ∧
      ∀ fd', fd_ok s fd' →
        status s' fd' = if decide (fd' = fd) then drop_flag (status s fd) f else status s fd' }.

(** ** [SelectAIO] implements the interface *)

Definition watched (s : select_aio) : fd_set := rfds_ s ∪ wfds_ s.

(** [highfds_] is the highest descriptor of the two sets; the pipe is in them *)
Record select_ok (s : select_aio) : Prop := {
  so_pipe : pipefd_0 s ∈ rfds_ s;
  so_range : ∀ fd, fd ∈ watched s → 0 ≤ fd ≤ highfds_ s;
  so_high : highfds_ s ∈ watched s;
  so_size : highfds_ s < FD_SETSIZE }.

Definition select_fd_ok (s : select_aio) (fd : Z) : Prop :=
  0 ≤ fd < MAX_POLL_FDS ∧ fd ≠ pipefd_0 s.
Definition select_status (s : select_aio) (fd : Z) : bool * bool :=
  (bool_decide (fd ∈ rfds_ s), bool_decide (fd ∈ wfds_ s)).

Lemma fd_op_Done {A} fd (x : A) :
  0 ≤ fd < MAX_POLL_FDS →
  (if bool_decide (0 ≤ fd < FD_SETSIZE) then Done x else Fault OutOfBounds) = Done x.
Proof.
  intros H. rewrite bool_decide_eq_true_2; [done|]. unfold FD_SETSIZE, MAX_POLL_FDS in *. lia.
Qed.

Lemma FD_SET_Done fd s : 0 ≤ fd < MAX_POLL_FDS → FD_SET fd s = Done ({[fd]} ∪ s).
Proof. apply fd_op_Done. Qed.
Lemma FD_CLR_Done fd s : 0 ≤ fd < MAX_POLL_FDS → FD_CLR fd s = Done (s ∖ {[fd]}).
Proof. apply fd_op_Done. Qed.
Lemma FD_ISSET_Done fd s : 0 ≤ fd < MAX_POLL_FDS → FD_ISSET fd s = Done (bool_decide (fd ∈ s)).
Proof. apply fd_op_Done. Qed.

(** the loop finds the highest member *)
Lemma new_high_loop (R W : fd_set) d (n : nat) :
  let r := fold_left (λ newh i, if decide (i ∈ R) then i else if decide (i ∈ W) then i else newh)
             (seqZ 0 (Z.of_nat n)) d in
  (r = d ∨ r ∈ R ∪ W) ∧ ∀ i, i ∈ R ∪ W → 0 ≤ i < Z.of_nat n → i ≤ r.
Proof.
  induction n as [|n IH]; [simpl; split; [by left|lia]|].
  rewrite Nat2Z.inj_succ. unfold Z.succ. rewrite seqZ_app by lia.
  replace (0 + Z.of_nat n) with (Z.of_nat n) by lia. rewrite fold_left_app.
  set (r0 := fold_left _ (seqZ 0 (Z.of_nat n)) d) in *. cbv zeta in *. destruct IH as [IH1 IH2].
  rewrite seqZ_cons by lia. change (seqZ _ (Z.pred 1)) with (@nil Z). cbn [fold_left].
  destruct (decide (Z.of_nat n ∈ R)) as [HR|HR]; [|destruct (decide (Z.of_nat n ∈ W)) as [HW|HW]].
  - split; [right; by apply elem_of_union_l|lia].
  - split; [right; by apply elem_of_union_r|lia].
  - split; [done|]. intros i Hi Hn. destruct (decide (i = Z.of_nat n)) as [->|].
    + by apply elem_of_union in Hi as [?|?].
    + apply IH2; [done|lia].
Qed.

Lemma new_high_spec s h :
  pipefd_0 s ∈ watched s → (∀ fd, fd ∈ watched s → 0 ≤ fd ≤ h) → highfds_ s = h →
  new_high s ∈ watched s ∧ ∀ fd, fd ∈ watched s → 0 ≤ fd ≤ new_high s.
Proof.
  intros Hp Hr Hh. unfold new_high. rewrite Hh.
  assert (0 ≤ h) by (specialize (Hr _ Hp); lia).
  replace (h + 1) with (Z.of_nat (Z.to_nat (h + 1))) by lia.
  destruct (new_high_loop (rfds_ s) (wfds_ s) (pipefd_0 s) (Z.to_nat (h + 1))) as [H1 H2].
  split; [destruct H1 as [->|]; done|]. intros fd Hfd. specialize (Hr fd Hfd).
  split; [lia|]. apply H2; [done|lia].
Qed.

(** the sets after an operation on [fd], and the two fields that go with them *)
Lemma select_watch_spec s fd f :
  select_ok s → select_fd_ok s fd → real_flag f = true →
  ∃ s', select_watch_fd s fd f = Done s' ∧ select_ok s' ∧ pipefd_0 s' = pipefd_0 s ∧
    pipe_n s' = Datatypes.S (pipe_n s) ∧
    rfds_ s' = (if reads_flag f then {[fd]} ∪ rfds_ s else rfds_ s) ∧
    wfds_ s' = (if writes_flag f then {[fd]} ∪ wfds_ s else wfds_ s).
Proof.
  intros [Hp Hr Hh Hs] [Hfd Hne] Hf. unfold select_watch_fd.
  set (s0 := if decide (highfds_ s ≤ fd) then set_high s fd else s).
  assert (rfds_ s0 = rfds_ s ∧ wfds_ s0 = wfds_ s ∧ pipefd_0 s0 = pipefd_0 s ∧
    pipe_n s0 = pipe_n s ∧ highfds_ s0 = Z.max (highfds_ s) fd) as (E1&E2&E3&E4&E5).
  { unfold s0. destruct (decide _); simpl; split_and!; lia || done. }
  rewrite !E1, !E2, !FD_SET_Done by done.
  assert (∀ r w, (∀ x, x ∈ r ∪ w ↔ x = fd ∨ x ∈ watched s) → pipefd_0 s ∈ r →
    select_ok (set_pipe (set_fds s0 r w) (Datatypes.S (pipe_n s0)))) as Hok.
  { intros r w Hrw Hpr. unfold watched in *. split; simpl.
    - by rewrite E3.
    - intros x Hx%Hrw. rewrite E5. destruct Hx as [->|Hx%Hr]; lia.
    - rewrite E5. apply Hrw. destruct (Z.max_spec (highfds_ s) fd) as [[_ ->]|[_ ->]]; auto.
    - rewrite E5. unfold FD_SETSIZE, MAX_POLL_FDS in *. lia. }
  unfold watched in Hok. rewrite E4 in Hok.
  destruct f; try done; simpl; eexists; (split; [reflexivity|]); simpl; rewrite ?E1, ?E2, ?E3, ?E4;
    (split; [apply Hok; set_solver|done]).
Qed.

(** the sets lose [fd] at most, and the highest descriptor is looked for again *)
Lemma select_shrink s fd r w :
  let s1 := set_fds s r w in
  select_ok s → pipefd_0 s ∈ r → watched s1 ⊆ watched s →
  (∀ x, x ≠ fd → x ∈ watched s → x ∈ watched s1) →
  select_ok (if bool_decide (fd ∉ watched s1) then
               if decide (fd = highfds_ s1) then set_high s1 (new_high s1) else s1 else s1).
Proof.
  intros s1 [Hp Hr Hh Hs] Hpr Hsub Hkeep.
  case_bool_decide as Hgone; [case_decide as Hhi|].
  - destruct (new_high_spec s1 (highfds_ s)) as [Hn1 Hn2]; [|by intros x Hx; apply Hr, Hsub|done|].
    { unfold watched, s1. simpl. set_solver. }
    split; [done|exact Hn2|exact Hn1|]. simpl. destruct (Hr _ (Hsub _ Hn1)). lia.
  - split; [done|by intros x Hx; apply Hr, Hsub| |done]. apply Hkeep; [|done]. by intros E; destruct Hhi.
  - split; [done|by intros x Hx; apply Hr, Hsub| |done]. simpl.
    destruct (decide (fd = highfds_ s)) as [<-|Hd]; [done|].
    apply Hkeep; [|done]. by intros E; destruct Hd.
Qed.

Lemma select_unwatch_spec s fd f :
  select_ok s → select_fd_ok s fd → real_flag f = true →
  ∃ s', select_unwatch_fd s fd f = Done (s', bool_decide (fd ∉ watched s')) ∧
    select_ok s' ∧ pipefd_0 s' = pipefd_0 s ∧
    pipe_n s' = (if decide (f = CB_RDWR) then Datatypes.S (pipe_n s) else pipe_n s) ∧
    rfds_ s' = (if reads_flag f then rfds_ s ∖ {[fd]} else rfds_ s) ∧
    wfds_ s' = (if writes_flag f then wfds_ s ∖ {[fd]} else wfds_ s).
Proof.
  intros Hs [Hfd Hne] Hf. pose proof (so_pipe _ Hs) as Hp. unfold select_unwatch_fd.
  set (r := if reads_flag f then rfds_ s ∖ {[fd]} else rfds_ s).
  set (w := if writes_flag f then wfds_ s ∖ {[fd]} else wfds_ s).
  match goal with |- context [obind ?m _] =>
    assert (m = Done (set_fds s r w)) as -> end.
  { rewrite !FD_CLR_Done by done. by destruct f. }
  cbn [obind]. rewrite !FD_ISSET_Done by done. cbn [obind].
  set (s1 := set_fds s r w).
  assert (watched s1 ⊆ watched s) as Hsub
    by (unfold watched, s1, r, w; simpl; destruct f; set_solver).
  assert (∀ x, x ≠ fd → x ∈ watched s → x ∈ watched s1) as Hkeep
    by (unfold watched, s1, r, w; simpl; destruct f; set_solver).
  assert (pipefd_0 s ∈ r) as Hpr by (unfold r; destruct (reads_flag f); set_solver).
  assert (negb (bool_decide (fd ∈ rfds_ s1)) && negb (bool_decide (fd ∈ wfds_ s1)) =
    bool_decide (fd ∉ watched s1)) as ->.
  { unfold watched. rewrite <-!bool_decide_not, <-bool_decide_and.
    apply bool_decide_ext. set_solver. }
  set (s2 := if bool_decide (fd ∉ watched s1) then
               if decide (fd = highfds_ s1) then set_high s1 (new_high s1) else s1 else s1).
  assert (watched s2 = watched s1 ∧ rfds_ s2 = r ∧ wfds_ s2 = w ∧ pipefd_0 s2 = pipefd_0 s ∧
    pipe_n s2 = pipe_n s) as (E0&E1&E2&E3&E4).
  { unfold s2. destruct (bool_decide (fd ∉ watched s1)); [|done].
    by destruct (decide (fd = highfds_ s1)). }
  assert (select_ok s2) as Hok by (by apply (select_shrink s fd r w)).
  exists (if decide (f = CB_RDWR) then set_pipe s2 (Datatypes.S (pipe_n s2)) else s2).
  rewrite <-E0. destruct (decide (f = CB_RDWR)); simpl; rewrite ?E1, ?E2, ?E3, ?E4;
    (split; [done|]); (split; [|done]); destruct Hok; by split.
Qed.

Lemma select_status_pair s s' fd fd' :
  (fd' ∈ rfds_ s' ↔ fd' ∈ rfds_ s) → (fd' ∈ wfds_ s' ↔ fd' ∈ wfds_ s) → fd' ≠ fd →
  select_status s' fd' = select_status s fd'.
Proof. intros H1 H2 _. unfold select_status. f_equal; by apply bool_decide_ext. Qed.

#[export, program] Instance select_laws : AioLaws select_aio :=
  {| aio_ok := select_ok; fd_ok := select_fd_ok; status := select_status |}.
Next Obligation. by intros s fd [? _]. Qed.
Next Obligation.
  intros s fd f Hok Hfd Hf.
  destruct (select_watch_spec s fd f Hok Hfd Hf) as (s'&E&Hok'&Hp&_&Hr&Hw).
  exists s'. split; [exact E|]. split; [done|]. split; [intros fd'; unfold select_fd_ok; by rewrite Hp|].
  intros fd' _. unfold select_status, join_flag. rewrite Hr, Hw. simpl.
  destruct (decide (fd' = fd)) as [->|Hne].
  - f_equal; [destruct (reads_flag f)|destruct (writes_flag f)];
      rewrite ?orb_true_r, ?orb_false_r; try done; apply bool_decide_eq_true_2; set_solver.
  - f_equal; [destruct (reads_flag f)|destruct (writes_flag f)]; try done;
      apply bool_decide_ext; set_solver.
Qed.
Next Obligation.
  intros s fd f Hok Hfd Hf _.
  destruct (select_unwatch_spec s fd f Hok Hfd Hf) as (s'&E&Hok'&Hp&_&Hr&Hw).
  assert (∀ fd', select_status s' fd' =
    if decide (fd' = fd) then drop_flag (select_status s fd) f else select_status s fd') as Hst.
  { intros fd'. unfold select_status, drop_flag. rewrite Hr, Hw. simpl.
    destruct (decide (fd' = fd)) as [->|Hne].
    - f_equal; [destruct (reads_flag f)|destruct (writes_flag f)];
        rewrite ?andb_true_r, ?andb_false_r; try done; apply bool_decide_eq_false_2; set_solver.
    - f_equal; [destruct (reads_flag f)|destruct (writes_flag f)]; try done;
        apply bool_decide_ext; set_solver. }
  exists s'. split; [|split; [done|split; [intros fd'; unfold select_fd_ok; by rewrite Hp|done]]].
  rewrite <-(decide_True (P := fd = fd) (drop_flag (select_status s fd) f)
    (select_status s fd) eq_refl), <-Hst.
  change (unwatch_fd s fd f) with (select_unwatch_fd s fd f). rewrite E. do 2 f_equal.
  apply bool_decide_ext. unfold select_status, no_interest, watched.
  rewrite not_elem_of_union. split.
  - intros [H1 H2]. by rewrite !bool_decide_eq_false_2.
  - by intros [= H1%bool_decide_eq_false H2%bool_decide_eq_false].
Qed.

(** ** [EPollAIO] implements the interface *)

Definition epoll_fd_ok (e : epoll_aio) (fd : Z) : Prop := 0 ≤ fd < MAX_POLL_FDS.
Definition epoll_status (e : epoll_aio) (fd : Z) : bool * bool :=
  match fdstatus_ e !! Z.to_nat fd with
  | Some st => (bool_decide (Z.land st 1 ≠ 0), bool_decide (Z.land st 16 ≠ 0))
  | None => no_interest
  end.

(** the kernel has each watched descriptor, with the events of its status *)
Record epoll_ok (e : epoll_aio) : Prop := {
  eo_length : length (fdstatus_ e) = 128%nat;
  eo_status : ∀ fd st, epoll_fd_ok e fd → fdstatus_ e !! Z.to_nat fd = Some st →
    (st = 0 ∨ st = 1 ∨ st = 16 ∨ st = 17) ∧
    kernel e !! fd = if decide (st = 0) then None else Some (status_events st) }.

Lemma poll_flag_events flag :
  flag = CB_RDONLY ∨ flag = CB_WRONLY ∨ flag = CB_RDWR →
  status_events (flag_value flag) = Z.lor EPOLLET (poll_flag_to_event flag).
Proof. by intros [->|[->| ->]]. Qed.

Lemma epoll_lookup e fd :
  epoll_ok e → epoll_fd_ok e fd → ∃ st, fdstatus_ e !! Z.to_nat fd = Some st ∧ fdstatus e fd = Done st.
Proof.
  intros [Hl _] Hfd. destruct (lookup_lt_is_Some_2 (fdstatus_ e) (Z.to_nat fd)) as [st E].
  { rewrite Hl. unfold epoll_fd_ok, MAX_POLL_FDS in Hfd. lia. }
  exists st. split; [done|]. unfold fdstatus. rewrite bool_decide_eq_true_2 by apply Hfd.
  rewrite bool_decide_eq_true_2 by apply Hfd. by rewrite E.
Qed.

Lemma epoll_update_ok e fd st st' op :
  epoll_ok e → epoll_fd_ok e fd → fdstatus_ e !! Z.to_nat fd = Some st →
  (st' = 0 ∨ st' = 1 ∨ st' = 16 ∨ st' = 17) →
  epoll_ctl (kernel e) op fd (status_events st') =
    Some (if decide (st' = 0) then delete fd (kernel e)
          else <[fd := status_events st']> (kernel e)) →
  ∃ e', epoll_update e fd st' op = Done e' ∧ epoll_ok e' ∧
    ∀ fd', epoll_fd_ok e fd' → epoll_status e' fd' =
      if decide (fd' = fd) then (bool_decide (Z.land st' 1 ≠ 0), bool_decide (Z.land st' 16 ≠ 0))
      else epoll_status e fd'.
Proof.
  intros [Hl Hs] Hfd E Hst' Hctl. unfold epoll_update. rewrite Hctl. eexists. split; [done|].
  assert (∀ fd', epoll_fd_ok e fd' → fd' ≠ fd → Z.to_nat fd ≠ Z.to_nat fd') as Hinj
    by (unfold epoll_fd_ok in *; intros; lia).
  pose proof (lookup_lt_Some _ _ _ E) as Hlt. split; [split|]; simpl.
  - by rewrite length_insert.
  - intros fd' st0 Hfd' E'. destruct (decide (fd' = fd)) as [->|Hne].
    + rewrite list_lookup_insert_eq in E' by done. injection E' as <-. split; [done|].
      destruct (decide (st' = 0)); [apply lookup_delete_eq|apply lookup_insert_eq].
    + rewrite list_lookup_insert_ne in E' by by apply Hinj.
      destruct (Hs fd' st0 Hfd' E') as [H1 H2]. split; [done|]. rewrite <-H2.
      destruct (decide (st' = 0)); [by rewrite lookup_delete_ne|by rewrite lookup_insert_ne].
  - intros fd' Hfd'. unfold epoll_status. simpl. destruct (decide (fd' = fd)) as [->|Hne].
    + by rewrite list_lookup_insert_eq.
    + by rewrite list_lookup_insert_ne by by apply Hinj.
Qed.

#[export, program] Instance epoll_laws : AioLaws epoll_aio :=
  {| aio_ok := epoll_ok; fd_ok := epoll_fd_ok; status := epoll_status |}.
Next Obligation. by intros e fd ?. Qed.
Next Obligation.
  intros e fd f Hok Hfd Hf. destruct (epoll_lookup e fd Hok Hfd) as (st&E&Est).
  destruct (eo_status _ Hok fd st Hfd E) as [Hst Hk].
  assert (Z.lor st (flag_value f) ≠ 0 ∧ (Z.lor st (flag_value f) = 0 ∨
    Z.lor st (flag_value f) = 1 ∨ Z.lor st (flag_value f) = 16 ∨ Z.lor st (flag_value f) = 17))
    as [Hnz Hst'] by (destruct Hst as [->|[->|[->| ->]]]; destruct f; try done; vm_compute;
      (split; [done|auto])).
  destruct (epoll_update_ok e fd st (Z.lor st (flag_value f))
    (if decide (st ≠ 0) then EPOLL_CTL_MOD else EPOLL_CTL_ADD) Hok Hfd E Hst') as (e'&E'&Hok'&Hs').
  { rewrite (decide_False (P := _ = 0)) by done. unfold epoll_ctl. rewrite Hk.
    destruct (decide (st = 0)) as [->|]; [by rewrite decide_False by auto|by rewrite decide_True]. }
  exists e'. split; [|split; [done|split; [done|]]].
  - change (watch_fd e fd f) with (epoll_watch_fd e fd f). unfold epoll_watch_fd. rewrite Est.
    cbn [obind]. rewrite bool_decide_eq_true_2; [done|].
    intros ->. by destruct Hst as [->|[->|[->| ->]]].
  - intros fd' Hfd'. rewrite (Hs' fd' Hfd'). destruct (decide (fd' = fd)); [|done].
    unfold epoll_status, join_flag. rewrite E. simpl.
    by destruct Hst as [->|[->|[->| ->]]]; destruct f.
Qed.
Next Obligation.
  intros e fd f Hok Hfd Hf Hni. destruct (epoll_lookup e fd Hok Hfd) as (st&E&Est).
  destruct (eo_status _ Hok fd st Hfd E) as [Hst Hk].
  assert (st ≠ 0) as Hnz by (intros ->; apply Hni; unfold epoll_status; by rewrite E).
  rewrite decide_False in Hk by done. set (st' := Z.land st (Z.lnot (flag_value f))).
  assert (st' = 0 ∨ st' = 1 ∨ st' = 16 ∨ st' = 17) as Hst'.
  { unfold st'. destruct Hst as [->|[->|[->| ->]]]; destruct f; try done; vm_compute; auto. }
  destruct (epoll_update_ok e fd st st'
    (if decide (st' ≠ 0) then EPOLL_CTL_MOD else EPOLL_CTL_DEL) Hok Hfd E Hst') as (e'&E'&Hok'&Hs').
  { unfold epoll_ctl. rewrite Hk. destruct (decide (st' = 0)) as [->|];
      [by rewrite decide_False by auto|by rewrite decide_True]. }
  exists e'. split; [|split; [done|split; [done|]]].
  - change (unwatch_fd e fd f) with (epoll_unwatch_fd e fd f). unfold epoll_unwatch_fd.
    rewrite Est. cbn [obind]. fold st'. rewrite bool_decide_eq_true_2; [rewrite E'; cbn [obind]|].
    + do 2 f_equal. unfold epoll_status, st'. rewrite E.
      by destruct Hst as [->|[->|[->| ->]]]; destruct f.
    + intros ->. unfold st'. by destruct Hst as [->|[->|[->| ->]]].
  - intros fd' Hfd'. rewrite (Hs' fd' Hfd'). destruct (decide (fd' = fd)); [|done].
    unfold epoll_status, drop_flag. rewrite E. simpl. unfold st'.
    by destruct Hst as [->|[->|[->| ->]]]; destruct f.
Qed.

(** ** [PollMgr] over any manager that obeys the laws *)

Section pollmgr_facts.
Context {S C : Type} `{!EqDecision C, !aio_mgr S, !AioLaws S}.
Implicit Types p : pollmgr S C.

(** a descriptor that is watched has a callback *)
Record pollmgr_ok (p : pollmgr S C) : Prop := {
  po_aio : aio_ok (aio_ p);
  po_length : length (callbacks_ p) = 128%nat;
  po_callbacks : ∀ fd, fd_ok (aio_ p) fd → status (aio_ p) fd ≠ no_interest →
    ∃ c, callback p fd = Done (Some c) }.

Lemma callback_Done p fd :
  length (callbacks_ p) = 128%nat → 0 ≤ fd < MAX_POLL_FDS →
  ∃ c, callbacks_ p !! Z.to_nat fd = Some c ∧ callback p fd = Done c.
Proof.
  intros Hl Hfd. destruct (lookup_lt_is_Some_2 (callbacks_ p) (Z.to_nat fd)) as [c E].
  { rewrite Hl. unfold MAX_POLL_FDS in Hfd. lia. }
  exists c. split; [done|]. unfold callback. rewrite bool_decide_eq_true_2 by lia. by rewrite E.
Qed.

Lemma callback_set p fd fd' ch :
  length (callbacks_ p) = 128%nat → 0 ≤ fd < MAX_POLL_FDS → 0 ≤ fd' < MAX_POLL_FDS →
  callback (set_callback p fd ch) fd' = if decide (fd' = fd) then Done ch else callback p fd'.
Proof.
  intros Hl Hfd Hfd'. unfold callback. simpl. rewrite !bool_decide_eq_true_2 by lia.
  destruct (decide (fd' = fd)) as [->|Hne].
  - rewrite list_lookup_insert_eq; [done|]. rewrite Hl. unfold MAX_POLL_FDS in Hfd. lia.
  - by rewrite list_lookup_insert_ne by lia.
Qed.

Lemma pollmgr_new_ok a : aio_ok a → (∀ fd, fd_ok a fd → status a fd = no_interest) →
  pollmgr_ok (pollmgr_new a).
Proof.
  intros Ha Hs. split; [done|apply length_replicate|].
  intros fd Hfd Hn. by specialize (Hs fd Hfd).
Qed.

Lemma add_callback_spec p fd f ch :
  pollmgr_ok p → fd_ok (aio_ p) fd → real_flag f = true →
  callback p fd = Done None ∨ callback p fd = Done (Some ch) →
  ∃ p', add_callback p fd f ch = Done p' ∧ pollmgr_ok p' ∧
    callback p' fd = Done (Some ch) ∧
    status (aio_ p') fd = join_flag (status (aio_ p) fd) f ∧
    ∀ fd', fd_ok (aio_ p) fd' → fd' ≠ fd →
      callback p' fd' = callback p fd' ∧ status (aio_ p') fd' = status (aio_ p) fd'.
Proof.
  intros [Ha Hl Hc] Hfd Hf Hcur. pose proof (fd_ok_range _ _ Hfd) as Hr.
  destruct (watch_law _ _ f Ha Hfd Hf) as (a'&E&Ha'&Hok&Hst).
  exists (set_callback (set_aio p a') fd (Some ch)).
  assert (∀ fd', fd_ok (aio_ p) fd' → callback (set_callback (set_aio p a') fd (Some ch)) fd' =
    if decide (fd' = fd) then Done (Some ch) else callback p fd') as Hcb
    by (intros fd' Hfd'; apply (callback_set (set_aio p a')); [done..|by eapply fd_ok_range]).
  split; [|split; [split|split_and!]].
  + unfold add_callback. rewrite bool_decide_eq_true_2 by lia. rewrite E. cbn [obind].
    change (callback (set_aio p a') fd) with (callback p fd).
    by destruct Hcur as [->| ->]; cbn [obind]; rewrite bool_decide_eq_true_2 by auto.
  + done.
  + simpl. by rewrite length_insert.
  + intros fd' Hfd' Hn. apply Hok in Hfd'. rewrite Hcb by done.
    destruct (decide (fd' = fd)) as [->|Hne]; [by exists ch|]. apply Hc; [done|].
    simpl in Hn. by rewrite (Hst fd' Hfd'), decide_False in Hn.
  + by rewrite Hcb, decide_True.
  + simpl. by rewrite Hst, decide_True.
  + intros fd' Hfd' Hne. rewrite Hcb by done. simpl. by rewrite Hst, !decide_False.
Qed.

Lemma del_callback_spec p fd f :
  pollmgr_ok p → fd_ok (aio_ p) fd → real_flag f = true → status (aio_ p) fd ≠ no_interest →
  ∃ p', del_callback p fd f = Done p' ∧ pollmgr_ok p' ∧
    callback p' fd = (if decide (drop_flag (status (aio_ p) fd) f = no_interest)
                      then Done None else callback p fd) ∧
    status (aio_ p') fd = drop_flag (status (aio_ p) fd) f ∧
    ∀ fd', fd_ok (aio_ p) fd' → fd' ≠ fd →
      callback p' fd' = callback p fd' ∧ status (aio_ p') fd' = status (aio_ p) fd'.
Proof.
  intros [Ha Hl Hc] Hfd Hf Hn. pose proof (fd_ok_range _ _ Hfd) as Hr.
  destruct (unwatch_law _ _ f Ha Hfd Hf Hn) as (a'&E&Ha'&Hok&Hst).
  destruct (callback_Done p fd Hl Hr) as (c&_&Ec).
  unfold del_callback. rewrite E. cbn [obind].
  change (callback (set_aio p a') fd) with (callback p fd). rewrite Ec. cbn [obind].
  destruct (decide (drop_flag (status (aio_ p) fd) f = no_interest)) as [Hd|Hd].
  + rewrite bool_decide_eq_true_2 by done.
    exists (set_callback (set_aio p a') fd None).
    assert (∀ fd', fd_ok (aio_ p) fd' → callback (set_callback (set_aio p a') fd None) fd' =
      if decide (fd' = fd) then Done None else callback p fd') as Hcb
      by (intros fd' Hfd'; apply (callback_set (set_aio p a')); [done..|by eapply fd_ok_range]).
    split; [done|]. split; [split|split_and!].
    * done.
    * simpl. by rewrite length_insert.
    * intros fd' Hfd' Hn'. apply Hok in Hfd'. simpl in Hn'. rewrite (Hst fd' Hfd') in Hn'.
      rewrite Hcb by done. destruct (decide (fd' = fd)) as [->|Hne]; [done|]. by apply Hc.
    * by rewrite Hcb, decide_True.
    * simpl. by rewrite Hst, decide_True.
    * intros fd' Hfd' Hne. rewrite Hcb by done. simpl. by rewrite Hst, !decide_False.
  + rewrite bool_decide_eq_false_2 by done. exists (set_aio p a').
    split; [done|]. split; [split|split_and!].
    * done.
    * done.
    * intros fd' Hfd' Hn'. apply Hok in Hfd'. simpl in Hn'. rewrite (Hst fd' Hfd') in Hn'.
      change (callback (set_aio p a') fd') with (callback p fd').
      destruct (decide (fd' = fd)) as [->|Hne]; by apply Hc.
    * exact Ec.
    * simpl. by rewrite Hst, decide_True.
    * intros fd' Hfd' Hne. simpl. by rewrite Hst, decide_False.
Qed.

(** C12. Watching adds the interest and the callback, removing takes both away exactly when
    nothing is watched any more, other descriptors are untouched, and the invariant that
    a watched descriptor has a callback is kept: so [wait_loop] never drops an event of a
    watched descriptor. *)
Theorem callbacks_follow_interest p fd f ch :
  pollmgr_ok p → fd_ok (aio_ p) fd → real_flag f = true →
  callback p fd = Done None ∨ callback p fd = Done (Some ch) →
  (∃ p', add_callback p fd f ch = Done p' ∧ pollmgr_ok p' ∧
    callback p' fd = Done (Some ch) ∧
    status (aio_ p') fd = join_flag (status (aio_ p) fd) f ∧
    ∀ fd', fd_ok (aio_ p) fd' → fd' ≠ fd →
      callback p' fd' = callback p fd' ∧ status (aio_ p') fd' = status (aio_ p) fd') ∧
  (status (aio_ p) fd ≠ no_interest →
   ∃ p', del_callback p fd f = Done p' ∧ pollmgr_ok p' ∧
    callback p' fd = (if decide (drop_flag (status (aio_ p) fd) f = no_interest)
                      then Done None else callback p fd) ∧
    status (aio_ p') fd = drop_flag (status (aio_ p) fd) f ∧
    ∀ fd', fd_ok (aio_ p) fd' → fd' ≠ fd →
      callback p' fd' = callback p fd' ∧ status (aio_ p') fd' = status (aio_ p) fd').
Proof. intros Hp Hfd Hf Hcur. split; [by apply add_callback_spec|]. by apply del_callback_spec. Qed.
End pollmgr_facts.

(** ** What [wait_ready] reports *)

Lemma select_collect_sound pipe tr tw l n n' r w :
  select_collect pipe tr tw l n = Done (n', r, w) →
  (∀ fd, fd ∈ r → fd ∈ tr) ∧ (∀ fd, fd ∈ w → fd ∈ tw).
Proof.
  revert n n' r w. induction l as [|x l IH]; simpl; intros n n' r w H.
  { injection H as <- <- <-. by split; intros fd ?%elem_of_nil. }
  destruct (decide (x = pipe ∧ x ∈ tr)).
  { destruct (bool_decide _); [|done]. by eapply IH. }
  destruct (select_collect pipe tr tw l n) as [[[n1 r1] w1]|] eqn:E; simpl in H; [|done].
  injection H as <- <- <-. destruct (IH _ _ _ _ E) as [H1 H2].
  split; intros fd; destruct (decide (x ∈ _)); simpl; rewrite ?elem_of_cons; naive_solver.
Qed.

Lemma select_collect_spec pipe tr tw l n :
  NoDup l → (pipe ∈ l → pipe ∈ tr → n ≠ 0%nat) →
  ∃ r w, select_collect pipe tr tw l n =
      Done (if decide (pipe ∈ l ∧ pipe ∈ tr) then pred n else n, r, w) ∧
    (∀ fd, fd ∈ r ↔ fd ∈ l ∧ fd ∈ tr ∧ fd ≠ pipe) ∧
    (∀ fd, fd ∈ w ↔ fd ∈ l ∧ fd ∈ tw ∧ ¬ (fd = pipe ∧ fd ∈ tr)) ∧ NoDup r ∧ NoDup w.
Proof.
  intros Hl. revert n. induction Hl as [|x l Hx Hl IH]; intros n Hn; simpl.
  { exists [], []. split_and!; try constructor; rewrite !elem_of_nil; naive_solver. }
  destruct (decide (x = pipe ∧ x ∈ tr)) as [[-> Hxt]|Hxp].
  - rewrite bool_decide_eq_true_2 by (apply Hn; [left|done]).
    destruct (IH (pred n)) as (r&w&E&Hr&Hw&Hnr&Hnw); [done|]. exists r, w. rewrite E.
    rewrite decide_False by (by intros [? _]). rewrite decide_True by (split; [left|done]).
    split; [done|]. split_and!; [| |done..].
    + intros fd. rewrite Hr, elem_of_cons. naive_solver.
    + intros fd. rewrite Hw, elem_of_cons. naive_solver.
  - destruct (IH n) as (r&w&E&Hr&Hw&Hnr&Hnw); [intros; apply Hn; [by right|done]|].
    rewrite E. cbn [obind]. eexists _, _.
    split; [do 3 f_equal; apply decide_ext; rewrite elem_of_cons; naive_solver|].
    assert ((x ∉ r) ∧ (x ∉ w)) as [Hxr Hxw] by (rewrite Hr, Hw; naive_solver).
    split_and!.
    + intros fd. destruct (decide (x ∈ tr)); simpl; rewrite ?elem_of_cons, Hr; naive_solver.
    + intros fd. destruct (decide (x ∈ tw)); simpl; rewrite ?elem_of_cons, Hw; naive_solver.
    + destruct (decide (x ∈ tr)); simpl; [by constructor|done].
    + destruct (decide (x ∈ tw)); simpl; [by constructor|done].
Qed.

(** When the kernel answers truthfully, [wait_ready] reports each ready descriptor once
    and nothing else, up to the highest one, and takes one byte from the pipe exactly when
    the pipe is ready. *)
Theorem select_wait_ready_exact s tr tw :
  select_ok s → tr ⊆ rfds_ s → tw ⊆ wfds_ s → (pipefd_0 s ∈ tr → pipe_n s ≠ 0%nat) →
  ∃ r w, select_wait_ready s (Some (tr, tw)) =
      Done (set_pipe s (if decide (pipefd_0 s ∈ tr) then pred (pipe_n s) else pipe_n s), r, w) ∧
    (∀ fd, fd ∈ r ↔ fd ∈ tr ∧ fd ≠ pipefd_0 s) ∧
    (∀ fd, fd ∈ w ↔ fd ∈ tw ∧ ¬ (fd = pipefd_0 s ∧ fd ∈ tr)) ∧ NoDup r ∧ NoDup w.
Proof.
  intros [Hp Hr Hh Hs] Htr Htw Hn.
  assert (∀ fd, fd ∈ watched s → fd ∈ seqZ 0 (highfds_ s + 1)) as Hall.
  { intros fd Hfd%Hr. apply elem_of_seqZ. lia. }
  destruct (select_collect_spec (pipefd_0 s) tr tw (seqZ 0 (highfds_ s + 1)) (pipe_n s))
    as (r&w&E&Hr'&Hw'&Hnr&Hnw); [apply NoDup_seqZ|by intros _|].
  exists r, w. unfold select_wait_ready. rewrite E. cbn [obind]. split_and!; [| | |done..].
  - do 4 f_equal. apply decide_ext. split; [by intros [_ ?]|]. intros ?. split; [|done].
    apply Hall. unfold watched. set_solver.
  - intros fd. rewrite Hr'. split; [by intros [_ ?]|]. intros [H1 H2]. split; [|done].
    apply Hall. unfold watched. set_solver.
  - intros fd. rewrite Hw'. split; [by intros [_ ?]|]. intros [H1 H2]. split; [|done].
    apply Hall. unfold watched. set_solver.
Qed.

(** [EPollAIO::is_watched] masks the status with [CB_MASK], the complement of the flags: it
    denies every watched descriptor, where [SelectAIO::is_watched] answers correctly. *)
Theorem epoll_is_watched_denies (e : epoll_aio) (s : select_aio) fd f :
  epoll_ok e → epoll_fd_ok e fd → select_fd_ok s fd → real_flag f = true →
  is_watched e fd f = Done false ∧
  is_watched s fd f = Done (bool_decide (join_flag (status s fd) f = status s fd)).
Proof.
  intros He Hfd [Hfd' _] Hf. split.
  - destruct (epoll_lookup e fd He Hfd) as (st&E&Est).
    destruct (eo_status _ He fd st Hfd E) as [Hst _].
    simpl. unfold epoll_is_watched. rewrite Est. cbn [obind].
    by destruct Hst as [->|[->|[->| ->]]]; destruct f.
  - simpl. unfold select_is_watched, join_flag, select_status.
    destruct f; try done; cbn [reads_flag writes_flag fst snd]; rewrite ?FD_ISSET_Done by done;
      cbn [obind]; repeat destruct (bool_decide (fd ∈ _)); done.
Qed.

(** ** The polling thread and the threads that remove callbacks

    Everything under the mutex [m_] is one step; the polling thread tests and
    uses [callbacks_] without it. *)

Section poll.
Context {C : Type} `{!EqDecision C}.

Inductive poller :=
  | PTop                                        (**r about to lock [m_] *)
  | PSnapshot                                   (**r in [wait_ready], about to copy the sets *)
  | PSelect (snap : select_aio)                 (**r in [select], with copies of the sets *)
  | PCalls (todo : list (bool * Z))             (**r about to test the next callback *)
  | PCall (c : bool * Z) (todo : list (bool * Z))  (**r the test succeeded *)
  | PRunning (todo : list (bool * Z)).          (**r a callback runs *)

(** a call of [block_remove_fd] *)
Inductive remover :=
  | RWait (fd : Z)      (**r in [pthread_cond_wait] *)
  | RWoken (fd : Z)     (**r woken, about to get the mutex back *)
  | RDone (fd : Z).     (**r returned *)

Record psys := PSys {
  mgr : pollmgr select_aio C;
  poll : poller;
  removers : list remover;
  calls : list (bool * Z) }.   (**r the callbacks that were called; [true]: [write_cb] *)

Definition set_mgr (y : psys) m : psys :=
  {| mgr := m; poll := poll y; removers := removers y; calls := calls y |}.
Definition set_poll (y : psys) q : psys :=
  {| mgr := mgr y; poll := q; removers := removers y; calls := calls y |}.
Definition set_removers (y : psys) r : psys :=
  {| mgr := mgr y; poll := poll y; removers := r; calls := calls y |}.
Definition add_call (y : psys) c : psys :=
  {| mgr := mgr y; poll := poll y; removers := removers y; calls := calls y ++ [c] |}.

Definition psys_new (aio : select_aio) : psys :=
  {| mgr := pollmgr_new aio; poll := PTop; removers := []; calls := [] |}.

Definition wake (r : remover) : remover := match r with RWait fd => RWoken fd | r => r end.

(** what [select] may answer for the sets in [snap], with [n] bytes in the pipe *)
Definition truthful (snap : select_aio) (n : nat) (answer : option (fd_set * fd_set)) : bool :=
  match answer with
  | None => true
  | Some (tr, tw) =>
      bool_decide (tr ⊆ rfds_ snap ∧ tw ⊆ wfds_ snap ∧ (tr ∪ tw ≠ ∅) ∧
                   (pipefd_0 snap ∈ tr ↔ n ≠ 0%nat ∧ pipefd_0 snap ∈ rfds_ snap))
  end.

(** a step of the polling thread; [answer] is what the kernel says to [select] *)
Definition poll_step (y : psys) (answer : option (fd_set * fd_set)) : option (outcome psys) :=
  match poll y with
  | PTop =>
      let '(m, woken) := wait_loop_head (mgr y) in
      let r := if woken : bool then wake <$> removers y else removers y in
      Some (Done (set_poll (set_removers (set_mgr y m) r) PSnapshot))
  | PSnapshot => Some (Done (set_poll y (PSelect (aio_ (mgr y)))))
  | PSelect snap =>
      if truthful snap (pipe_n (aio_ (mgr y))) answer then
        Some (let! '(s, r, w) := select_wait_ready (set_pipe snap (pipe_n (aio_ (mgr y)))) answer in
              let a := set_pipe (aio_ (mgr y)) (pipe_n s) in
              Done (set_poll (set_mgr y (set_aio (mgr y) a)) (PCalls (turn_calls r w))))
      else None
  | PCalls [] => Some (Done (set_poll y PTop))
  | PCalls (c :: todo) =>
      Some (let! cb := callback (mgr y) c.2 in
            Done (set_poll y (match cb with Some _ => PCall c todo | None => PCalls todo end)))
  | PCall c todo =>
      Some (let! cb := callback (mgr y) c.2 in
            match cb with
            | Some _ => Done (set_poll (add_call y c) (PRunning todo))
            | None => Fault NullDeref
            end)
  | PRunning todo => Some (Done (set_poll y (PCalls todo)))
  end.

Inductive paction :=
  | AAdd (fd : Z) (f : poll_flag) (ch : C)          (**r any thread calls [add_callback] *)
  | ADel (fd : Z) (f : poll_flag)                   (**r a running callback calls [del_callback] *)
  | ARemove (fd : Z)                                (**r a thread calls [block_remove_fd] *)
  | AResume (k : nat)                               (**r a woken remover gets the mutex back *)
  | ASpurious (k : nat)                             (**r a remover wakes for no reason *)
  | APoll (answer : option (fd_set * fd_set)).      (**r the polling thread makes a step *)

Definition pstep (y : psys) (a : paction) : option (outcome psys) :=
  match a with
  | AAdd fd f ch => Some (let! m := add_callback (mgr y) fd f ch in Done (set_mgr y m))
  | ADel fd f => match poll y with
                 | PRunning _ => Some (let! m := del_callback (mgr y) fd f in Done (set_mgr y m))
                 | _ => None
                 end
  | ARemove fd => Some (let! m := block_remove_begin (mgr y) fd in
                        Done (set_removers (set_mgr y m) (removers y ++ [RWait fd])))
  | AResume k => match removers y !! k with
                 | Some (RWoken fd) =>
                     Some (let! m := block_remove_end (mgr y) fd in
                           Done (set_removers (set_mgr y m) (<[k := RDone fd]> (removers y))))
                 | _ => None
                 end
  | ASpurious k => match removers y !! k with
                   | Some (RWait fd) =>
                       Some (Done (set_removers y (<[k := RWoken fd]> (removers y))))
                   | _ => None
                   end
  | APoll answer => poll_step y answer
  end.

Fixpoint psteps (y : psys) (l : list paction) : option (outcome psys) :=
  match l with
  | [] => Some (Done y)
  | a :: l => match pstep y a with Some (Done y) => psteps y l | o => o end
  end.
End poll.
Arguments psys : clear implicits.
Arguments paction : clear implicits.

(** *** The guarantee of [block_remove_fd] *)

Section guarantee.
Context {C : Type} `{!EqDecision C}.
Implicit Types (y : psys C) (a : paction C).

(** does the polling thread know of [fd]? *)
Definition mentions (fd : Z) (q : poller) : Prop :=
  match q with
  | PTop | PSnapshot => False
  | PSelect snap => fd ∈ watched snap
  | PCalls todo | PRunning todo => fd ∈ todo.*2
  | PCall c todo => fd = c.2 ∨ fd ∈ todo.*2
  end.

(** remover [k] is removing or has removed [fd] *)
Definition removing (fd : Z) (k : nat) y : Prop :=
  (fd ∉ watched (aio_ (mgr y))) ∧
  match removers y !! k with
  | Some (RWait fd') => fd' = fd ∧ pending_change_ (mgr y) = true
  | Some (RWoken fd') | Some (RDone fd') => fd' = fd ∧ ¬ mentions fd (poll y)
  | None => False
  end.

(** neither wakes a remover for no reason nor adds [fd] again *)
Definition quiet_for (fd : Z) a : Prop :=
  match a with AAdd fd' _ _ => fd' ≠ fd | ASpurious _ => False | _ => True end.

Lemma select_watch_watched s fd f s' :
  select_watch_fd s fd f = Done s' → watched s' ⊆ {[fd]} ∪ watched s.
Proof.
  unfold select_watch_fd, FD_SET, watched. destruct (decide (highfds_ s ≤ fd)); simpl;
    case_bool_decide; destruct f; simpl; intros; inv_done; simpl; set_solver.
Qed.

Lemma select_unwatch_watched s fd f s' b :
  select_unwatch_fd s fd f = Done (s', b) →
  watched s' ⊆ watched s ∧ (f = CB_RDWR → fd ∉ watched s').
Proof.
  intros H. unfold select_unwatch_fd in H. apply obind_Done_inv in H as (s1&H1&H).
  assert (watched s1 ⊆ watched s ∧ (f = CB_RDWR → fd ∉ watched s1)) as [Hsub Hrw].
  { unfold FD_CLR, watched in *. destruct (bool_decide _); [|by destruct f].
    destruct f; simpl in H1; inv_done; simpl; split; set_solver. }
  apply obind_Done_inv in H as (r&_&H). apply obind_Done_inv in H as (w&_&H). cbv zeta in H.
  assert (watched s' = watched s1) as ->; [|done].
  injection H as <- _. destruct (negb r && negb w); [destruct (decide (fd = highfds_ s1))|];
    by destruct (decide (f = CB_RDWR)).
Qed.

(** the calls that were made for [fd] *)
Definition calls_of (fd : Z) y : list (bool * Z) := filter (λ c, c.2 = fd) (calls y).

Lemma wait_loop_head_aio (p : pollmgr select_aio C) : aio_ (wait_loop_head p).1 = aio_ p.
Proof. unfold wait_loop_head. by destruct (pending_change_ p). Qed.

Lemma turn_calls_fds r w : (turn_calls r w).*2 = r ++ w.
Proof. unfold turn_calls. rewrite fmap_app, <-!list_fmap_compose. simpl. by rewrite !list_fmap_id. Qed.

(** a polling thread that does not know [fd] does not learn of it from the manager *)
Lemma poll_step_quiet fd y ans y' :
  poll_step y ans = Some (Done y') → fd ∉ watched (aio_ (mgr y)) → ¬ mentions fd (poll y) →
  (¬ mentions fd (poll y')) ∧ calls_of fd y' = calls_of fd y.
Proof.
  intros H Hw Hm. unfold poll_step in H. destruct (poll y) as [| |snap|[|c todo]|c todo|todo]; simpl in Hm.
  - destruct (wait_loop_head (mgr y)) as [m b]. injection H as <-. by split.
  - injection H as <-. by split.
  - destruct (truthful snap _ ans) eqn:Et; [|done]. injection H as H. inv_done.
    destruct x as [[s r] w]. inv_done. split; [|done]. simpl. rewrite turn_calls_fds.
    destruct ans as [[tr tw]|]; simpl in H0; inv_done; [|by intros ?%elem_of_nil].
    destruct x as [[n r1] w1]. inv_done. apply select_collect_sound in H as [Hr Hww].
    simpl in Et. apply bool_decide_eq_true in Et as (Htr&Htw&_).
    intros [Hx%Hr|Hx%Hww]%elem_of_app; apply Hm; unfold watched; set_solver.
  - injection H as <-. by split; [intros []|].
  - injection H as H. inv_done. split; [|done].
    destruct x; simpl; set_solver.
  - injection H as H. inv_done. destruct x; [|done]. inv_done. simpl. split; [set_solver|].
    unfold calls_of. simpl. rewrite filter_app, filter_cons_False, app_nil_r by set_solver. done.
  - injection H as <-. by split.
Qed.

Lemma poll_step_mgr y ans y' :
  poll_step y ans = Some (Done y') →
  watched (aio_ (mgr y')) = watched (aio_ (mgr y)) ∧
  (poll y = PTop ∧ (mgr y', removers y') =
     (if pending_change_ (mgr y) then (set_pending (mgr y) false, wake <$> removers y)
      else (mgr y, removers y)) ∧ poll y' = PSnapshot ∨
   removers y' = removers y ∧ pending_change_ (mgr y') = pending_change_ (mgr y)).
Proof.
  intros H. unfold poll_step in H. destruct (poll y) as [| |snap|[|c todo]|c todo|todo].
  - unfold wait_loop_head in H. destruct (pending_change_ (mgr y)); injection H as <-; simpl;
      (split; [done|left; done]).
  - injection H as <-. split; [done|by right].
  - destruct (truthful snap _ ans); [|done]. injection H as H. inv_done.
    destruct x as [[s r] w]. inv_done. split; [done|by right].
  - injection H as <-. split; [done|by right].
  - injection H as H. inv_done. split; [done|by right].
  - injection H as H. inv_done. destruct x; inv_done. split; [done|by right].
  - injection H as <-. split; [done|by right].
Qed.

Lemma begin_watched (m : pollmgr select_aio C) fd m' :
  block_remove_begin m fd = Done m' →
  watched (aio_ m') ⊆ watched (aio_ m) ∧ (fd ∉ watched (aio_ m')) ∧ pending_change_ m' = true.
Proof.
  unfold block_remove_begin. intros H. inv_done. destruct x as [a b]. inv_done. simpl.
  change (unwatch_fd (aio_ m) fd CB_RDWR) with (select_unwatch_fd (aio_ m) fd CB_RDWR) in *.
  apply select_unwatch_watched in H0 as [H1 H2]. split_and!; [done|by apply H2|done].
Qed.

Lemma del_watched (m : pollmgr select_aio C) fd f m' :
  del_callback m fd f = Done m' →
  watched (aio_ m') ⊆ watched (aio_ m) ∧ pending_change_ m' = pending_change_ m.
Proof.
  unfold del_callback. intros H. inv_done. destruct x as [a b].
  change (unwatch_fd (aio_ m) fd f) with (select_unwatch_fd (aio_ m) fd f) in *.
  apply select_unwatch_watched in H0 as [H1 _]. destruct b; inv_done; by split.
Qed.

Lemma add_watched (m : pollmgr select_aio C) fd f ch m' :
  add_callback m fd f ch = Done m' →
  watched (aio_ m') ⊆ {[fd]} ∪ watched (aio_ m) ∧ pending_change_ m' = pending_change_ m.
Proof.
  unfold add_callback. destruct (bool_decide _); [|done]. intros H. inv_done.
  change (watch_fd (aio_ m) fd f) with (select_watch_fd (aio_ m) fd f) in *.
  destruct (bool_decide _); [|done]. inv_done. simpl. split; [|done].
  by eapply select_watch_watched.
Qed.

Lemma removing_step fd k y a y' :
  removing fd k y → quiet_for fd a → pstep y a = Some (Done y') → removing fd k y'.
Proof.
  intros [Hw Hk] Hq H. destruct a as [fd' f ch|fd' f|fd'|j|j|ans]; simpl in H.
  - injection H as H. inv_done. apply add_watched in H0 as [H1 H2]. simpl in Hq.
    split; simpl; [set_solver|]. by rewrite H2.
  - destruct (poll y) eqn:Ep; try done. injection H as H. inv_done.
    apply del_watched in H0 as [H1 H2]. split; simpl; [set_solver|]. by rewrite H2, Ep.
  - injection H as H. inv_done. apply begin_watched in H0 as (H1&_&H2).
    split; simpl; [set_solver|]. rewrite H2. destruct (removers y !! k) as [r|] eqn:E; [|done].
    rewrite lookup_app_l by by eapply lookup_lt_Some. rewrite E. by destruct r, Hk.
  - destruct (removers y !! j) as [[]|] eqn:E; try done. injection H as H. inv_done.
    unfold block_remove_end in H0. inv_done. split; [done|]. simpl.
    destruct (decide (j = k)) as [->|Hne].
    + rewrite list_lookup_insert_eq by by eapply lookup_lt_Some. by rewrite E in Hk.
    + rewrite list_lookup_insert_ne by done. exact Hk.
  - done.
  - destruct (poll_step_mgr _ _ _ H) as [Ew [(Ep&Em&Ep')|[Er Ec]]].
    + destruct (removers y !! k) as [r|] eqn:E; [|done]. split; [by rewrite Ew|].
      rewrite Ep'. destruct (pending_change_ (mgr y)) eqn:Epc; injection Em as Em Er; rewrite Er.
      * rewrite list_lookup_fmap, E. simpl. destruct r; simpl; (split; [apply Hk|by intros []]).
      * rewrite E. destruct r; destruct Hk as [Hk1 Hk2]; [done|split; [done|by intros []]..].
    + split; [by rewrite Ew|]. rewrite Er. destruct (removers y !! k) as [r|] eqn:E; [|done].
      destruct r; destruct Hk as [-> Hk].
      * by rewrite Ec.
      * split; [done|]. by eapply poll_step_quiet.
      * split; [done|]. by eapply poll_step_quiet.
Qed.

Lemma done_step fd k y a y' :
  removing fd k y → removers y !! k = Some (RDone fd) → quiet_for fd a →
  pstep y a = Some (Done y') →
  removers y' !! k = Some (RDone fd) ∧ calls_of fd y' = calls_of fd y.
Proof.
  intros [Hw Hk] Hr Hq H. rewrite Hr in Hk. destruct Hk as [_ Hm].
  destruct a as [fd' f ch|fd' f|fd'|j|j|ans]; simpl in H.
  - injection H as H. by inv_done.
  - destruct (poll y); try done. injection H as H. by inv_done.
  - injection H as H. inv_done. split; [|done]. simpl.
    by rewrite lookup_app_l by by eapply lookup_lt_Some.
  - destruct (removers y !! j) as [[]|] eqn:E; try done. injection H as H. inv_done.
    split; [|done]. simpl. rewrite list_lookup_insert_ne; [done|]. intros ->. congruence.
  - done.
  - split; [|by eapply poll_step_quiet].
    destruct (poll_step_mgr _ _ _ H) as [Ew [(Ep&Em&Ep')|[-> Ec]]]; [|done].
    destruct (pending_change_ (mgr y)); injection Em as Em ->; [|done].
    by rewrite list_lookup_fmap, Hr.
Qed.

Lemma removing_steps fd k l y y' :
  removing fd k y → Forall (quiet_for fd) l → psteps y l = Some (Done y') → removing fd k y'.
Proof.
  intros Hr Hl. revert y Hr. induction Hl as [|a l Ha Hl IH]; simpl; intros y Hr H.
  - by injection H as <-.
  - destruct (pstep y a) as [[y1|]|] eqn:E; try done. eapply IH; [|done]. by eapply removing_step.
Qed.


(** *** [block_remove_fd] returns *)

(** nobody registers or removes the read end of the pipe *)
Definition not_pipe (rd : Z) a : Prop :=
  match a with AAdd fd _ _ | ADel fd _ | ARemove fd => fd ≠ rd | _ => True end.

(** where the polling thread is in its turn, and how much it has to do there *)
Definition phase (q : poller) : nat :=
  match q with PSnapshot => 3 | PSelect _ => 2 | PTop => 0 | _ => 1 end.
Definition work (q : poller) : nat :=
  match q with
  | PCalls todo => 3 * length todo | PCall _ todo => 3 * length todo + 2
  | PRunning todo => 3 * length todo + 1 | _ => 0
  end.
Definition closer (q' q : poller) : Prop :=
  (phase q' < phase q ∨ phase q' = phase q ∧ work q' < work q)%nat.

Lemma closer_wf : well_founded closer.
Proof.
  assert (∀ n m q, (phase q < n ∨ phase q = n ∧ work q < m)%nat → Acc closer q) as H.
  { induction n as [n IHn] using lt_wf_ind. induction m as [m IHm] using lt_wf_ind.
    intros q Hq. constructor. intros q' Hq'. unfold closer in Hq'.
    destruct (decide (phase q < n)%nat) as [Hlt|Hge].
    - apply (IHn (phase q) Hlt (work q)). lia.
    - assert (phase q = n ∧ work q < m)%nat as [Hp Hw] by lia.
      destruct (decide (phase q' < n)%nat).
      + apply (IHn (phase q') ltac:(lia) (S (work q'))). lia.
      + apply (IHm (work q) Hw). lia. }
  intros q. apply (H (phase q) (S (work q))). lia.
Qed.

(** a removal that waits is noticed: the pipe keeps the polling thread out of [select] *)
Record noticed (rd : Z) y : Prop := {
  no_pipe : pipefd_0 (aio_ (mgr y)) = rd ∧ rd ∈ rfds_ (aio_ (mgr y));
  no_snap : ∀ snap, poll y = PSelect snap → pipefd_0 snap = rd ∧ rd ∈ rfds_ snap;
  no_byte : (2 ≤ phase (poll y))%nat → pending_change_ (mgr y) = true →
    pipe_n (aio_ (mgr y)) ≠ 0%nat;
  no_wait : ∀ k fd, removers y !! k = Some (RWait fd) → pending_change_ (mgr y) = true }.

(** what the operations on other descriptors leave of the pipe *)
Definition pipe_kept (s s' : select_aio) : Prop :=
  pipefd_0 s' = pipefd_0 s ∧ (pipefd_0 s ∈ rfds_ s → pipefd_0 s ∈ rfds_ s') ∧
  (pipe_n s ≤ pipe_n s')%nat.

Lemma select_watch_pipe s fd f s' : select_watch_fd s fd f = Done s' → pipe_kept s s'.
Proof.
  unfold select_watch_fd, FD_SET, pipe_kept. destruct (decide (highfds_ s ≤ fd)); simpl;
    destruct (bool_decide _); destruct f; simpl; intros; inv_done; simpl;
    (split; [done|split; [set_solver|lia]]).
Qed.

Lemma select_unwatch_pipe s fd f s' b :
  select_unwatch_fd s fd f = Done (s', b) → fd ≠ pipefd_0 s →
  pipe_kept s s' ∧ (f = CB_RDWR → pipe_n s' ≠ 0%nat).
Proof.
  intros H Hne. unfold select_unwatch_fd in H. apply obind_Done_inv in H as (s1&H1&H).
  assert (pipe_kept s s1) as (K1&K2&K3).
  { unfold FD_CLR, pipe_kept in *. destruct (bool_decide _); [|by destruct f].
    destruct f; simpl in H1; inv_done; simpl; (split; [done|split; [set_solver|lia]]). }
  apply obind_Done_inv in H as (r&_&H). apply obind_Done_inv in H as (w&_&H). cbv zeta in H.
  injection H as <- _. unfold pipe_kept.
  destruct (negb r && negb w); [destruct (decide (fd = highfds_ s1))|];
    destruct (decide (f = CB_RDWR)); simpl; split_and!; try done; try lia.
Qed.

Lemma noticed_mgr rd y m :
  noticed rd y → pipe_kept (aio_ (mgr y)) (aio_ m) →
  pending_change_ m = pending_change_ (mgr y) → noticed rd (set_mgr y m).
Proof.
  intros [[H1 H1'] H2 H3 H4] (K1&K2&K3) Hp. split; simpl.
  - rewrite K1. split; [done|]. rewrite H1 in K2. by apply K2.
  - done.
  - rewrite Hp. intros Hph Hpe. specialize (H3 Hph Hpe). lia.
  - rewrite Hp. done.
Qed.

Lemma noticed_poll rd y ans y' : noticed rd y → poll_step y ans = Some (Done y') → noticed rd y'.
Proof.
  intros [[H1 H1'] H2 H3 H4] H. unfold poll_step in H.
  destruct (poll y) as [| |snap|[|c todo]|c todo|todo] eqn:Ep; simpl in H3.
  - unfold wait_loop_head in H. destruct (pending_change_ (mgr y)) eqn:Epc; injection H as <-.
    + split; simpl; [done..|]. intros k fd. rewrite list_lookup_fmap.
      by destruct (removers y !! k) as [[]|].
    + split; simpl; [done|done|by rewrite Epc|]. intros k fd E. specialize (H4 k fd E). congruence.
  - injection H as <-. split; simpl; [done| |intros _; apply H3; lia|done].
    by intros snap [= <-].
  - destruct (truthful snap _ ans); [|done]. injection H as H. inv_done.
    destruct x as [[s r] w]. inv_done. split; simpl; [done|done|lia|done].
  - injection H as <-. split; simpl; [done|done|lia|done].
  - injection H as H. inv_done. destruct x; (split; simpl; [done|done|lia|done]).
  - injection H as H. inv_done. destruct x; inv_done. split; simpl; [done|done|lia|done].
  - injection H as <-. split; simpl; [done|done|lia|done].
Qed.

Lemma noticed_step rd y a y' :
  noticed rd y → not_pipe rd a → pstep y a = Some (Done y') → noticed rd y'.
Proof.
  intros HN Ha H. pose proof (no_pipe _ _ HN) as [Hrd Hin].
  destruct a as [fd f ch|fd f|fd|k|k|ans]; simpl in H, Ha; [| | | | |by eapply noticed_poll].
  - injection H as H. inv_done. unfold add_callback in H0. destruct (bool_decide _); [|done].
    inv_done. destruct (bool_decide _); [|done]. inv_done.
    apply noticed_mgr; [done| |done]. by eapply (select_watch_pipe _ fd f).
  - destruct (poll y); try done. injection H as H. inv_done. unfold del_callback in H0. inv_done.
    destruct x0 as [a b].
    assert (pipe_kept (aio_ (mgr y)) a) as Hk
      by (eapply (select_unwatch_pipe _ fd f _ b); [exact H|congruence]).
    destruct b; inv_done; by apply noticed_mgr.
  - injection H as H. inv_done. unfold block_remove_begin in H0. inv_done. destruct x0 as [a b].
    inv_done.
    destruct (select_unwatch_pipe (aio_ (mgr y)) fd CB_RDWR a b H ltac:(congruence)) as [(K1&K2&K3) Hn].
    split; simpl; [|apply HN|intros _ _; by apply Hn|done].
    rewrite K1. split; [done|]. by apply K2.
  - destruct (removers y !! k) as [[]|] eqn:E; try done. injection H as H. inv_done.
    unfold block_remove_end in H0. inv_done. destruct HN as [N1 N2 N3 N4].
    split; simpl; [done..|]. intros j fd' [(_&?&_)|(_&Ej)]%list_lookup_insert_Some; [done|].
    by eapply N4.
  - destruct (removers y !! k) as [[]|] eqn:E; try done. injection H as <-.
    destruct HN as [N1 N2 N3 N4]. split; simpl; [done..|].
    intros j fd' [(_&?&_)|(_&Ej)]%list_lookup_insert_Some; [done|]. by eapply N4.
Qed.

Lemma psys_new_noticed rd aio : select_new rd = Done aio → noticed rd (psys_new aio).
Proof.
  unfold select_new, FD_SET. destruct (bool_decide _); [|done]. intros H. inv_done.
  split; simpl; [split; [done|set_solver]|done|lia|done].
Qed.

Lemma noticed_steps rd l y y' :
  noticed rd y → Forall (not_pipe rd) l → psteps y l = Some (Done y') → noticed rd y'.
Proof.
  intros HN Hl. revert y HN. induction Hl as [|a l Ha Hl IH]; simpl; intros y HN H.
  - by injection H as <-.
  - destruct (pstep y a) as [[y1|]|] eqn:E; try done. eapply IH; [|done]. by eapply noticed_step.
Qed.

(** a step of the polling thread brings it closer to the head of its loop *)
Lemma poll_step_closer y ans y' :
  poll_step y ans = Some (Done y') → poll y ≠ PTop → closer (poll y') (poll y).
Proof.
  intros H Hp. unfold poll_step in H. unfold closer.
  destruct (poll y) as [| |snap|[|c todo]|c todo|todo]; simpl.
  - done.
  - injection H as <-. simpl. lia.
  - destruct (truthful snap _ ans); [|done]. injection H as H. inv_done.
    destruct x as [[s r] w]. inv_done. simpl. lia.
  - injection H as <-. simpl. lia.
  - injection H as H. inv_done. destruct x; simpl; lia.
  - injection H as H. inv_done. destruct x; inv_done. simpl. lia.
  - injection H as <-. simpl. lia.
Qed.

End guarantee.

(** ** Runs and witnesses: the pipe has descriptor 3, a connection descriptor 5 *)

Definition sample_aio : select_aio :=
  {| rfds_ := {[3]}; wfds_ := ∅; highfds_ := 3; pipefd_0 := 3; pipe_n := 0 |}.

Definition run (l : list (paction Z)) : psys Z :=
  match psteps (psys_new sample_aio) l with Some (Done y) => y | _ => psys_new sample_aio end.

(** the connection is added and found readable; the test of its callback succeeds *)
Definition readable_5 : list (paction Z) :=
  [AAdd 5 CB_RDONLY 100; APoll None; APoll None; APoll (Some ({[3; 5]}, ∅)); APoll None].

(** [pthread_cond_wait] in [block_remove_fd] is not in a loop: when the waiter wakes without
    a signal, it returns and clears the callback that the polling thread has just tested and
    is about to call through a pointer that is null by now. *)
Theorem block_remove_spurious :
  removers (run (readable_5 ++ [ARemove 5; ASpurious 0; AResume 0])) !! 0%nat = Some (RDone 5) ∧
  psteps (psys_new sample_aio)
    (readable_5 ++ [ARemove 5; ASpurious 0; AResume 0; APoll None]) = Some (Fault NullDeref).
Proof. split; vm_compute; reflexivity. Qed.

(** the same connection, removed as it should be *)
Definition removed_5 : list (paction Z) :=
  readable_5 ++ [ARemove 5; APoll None; APoll None; APoll None; APoll None; AResume 0].



Lemma sample_aio_ok : select_ok sample_aio.
Proof.
  split; [by vm_compute| |by vm_compute|by vm_compute].
  intros fd Hfd. unfold watched, sample_aio in Hfd. simpl in Hfd.
  apply elem_of_union in Hfd as [->%elem_of_singleton|?%elem_of_empty]; [|done]. simpl. lia.
Qed.

Lemma callbacks_follow_interest_witness :
  ∃ p', add_callback (pollmgr_new sample_aio) 5 CB_RDWR 100 = Done p' ∧ pollmgr_ok p' ∧
    callback p' 5 = Done (Some 100).
Proof.
  assert (Hp : pollmgr_ok (C := Z) (pollmgr_new sample_aio)).
  { apply pollmgr_new_ok; [apply sample_aio_ok|]. intros fd [Hfd Hne]. simpl in Hne.
    simpl. unfold select_status. simpl. rewrite !bool_decide_eq_false_2; [done|set_solver..]. }
  destruct (callbacks_follow_interest (pollmgr_new sample_aio) 5 CB_RDWR 100 Hp
    ltac:(by split; vm_compute) eq_refl ltac:(by left)) as [(p'&E&Hok&Hc&_) _].
  exists p'. split; [exact E|]. split; [exact Hok|exact Hc].
Defined.

Lemma select_wait_ready_exact_witness :
  ∃ r w, select_wait_ready (set_pipe sample_aio 2) (Some ({[3]}, ∅)) =
    Done (set_pipe sample_aio 1, r, w) ∧ ∀ fd, fd ∈ r ↔ fd ∈ ({[3]} : fd_set) ∧ fd ≠ 3.
Proof.
  destruct (select_wait_ready_exact (set_pipe sample_aio 2) {[3]} ∅) as (r&w&E&Hr&_).
  - destruct sample_aio_ok. by split.
  - done.
  - done.
  - done.
  - exists r, w. split; [exact E|exact Hr].
Defined.

Lemma epoll_is_watched_denies_witness :
  ∃ e, watch_fd epoll_new 5 CB_RDONLY = Done e ∧ is_watched e 5 CB_RDONLY = Done false.
Proof.
  assert (He : epoll_ok epoll_new).
  { split; [done|]. intros fd st Hfd E. apply lookup_replicate in E as [-> _].
    split; [by left|done]. }
  destruct (@watch_law _ _ epoll_laws epoll_new 5 CB_RDONLY He ltac:(by split) eq_refl) as (e&E&Hok&_).
  exists e. split; [exact E|].
  exact (proj1 (epoll_is_watched_denies e sample_aio 5 CB_RDONLY Hok ltac:(by split)
    ltac:(by split; vm_compute) eq_refl)).
Defined.
